(** * OSSL_PARAM: typed parameter exchange (crypto/params.c)

    A shallow embedding of the parameter accessors of crypto/params.c and
    the properties of its integer conversion engine, descriptor lookup,
    typed accessors and aggregate helpers.

    The C code works on caller-owned memory through pointers and reports
    failures on the thread's error queue.  The embedding threads a [machine]
    through every function: the descriptor store, the byte heap, the error
    queue and the allocator's budget.  A computation that the C standard
    leaves undefined (a read or write outside a block, a dereference of a
    null or dangling pointer) has no result. *)

From Stdlib Require Import ZArith List String Lia Bool.
From Stdlib Require Import Floats.SpecFloat.
From stdpp Require Import base option list gmap strings.

Local Open Scope Z_scope.

(** ** Error reasons raised through ERR_raise(ERR_LIB_CRYPTO, ...) *)

Inductive reason : Set :=
  | CRYPTO_R_PARAM_UNSIGNED_INTEGER_NEGATIVE_VALUE_UNSUPPORTED
  | CRYPTO_R_PARAM_VALUE_TOO_LARGE_FOR_DESTINATION
  | CRYPTO_R_PARAM_CANNOT_BE_REPRESENTED_EXACTLY
  | CRYPTO_R_PARAM_NOT_INTEGER_TYPE
  | CRYPTO_R_TOO_SMALL_BUFFER
  | CRYPTO_R_PARAM_OF_INCOMPATIBLE_TYPE
  | ERR_R_PASSED_NULL_PARAMETER
  | CRYPTO_R_PARAM_UNSUPPORTED_FLOATING_POINT_FORMAT
  | CRYPTO_R_INTEGER_OVERFLOW
  | CRYPTO_R_NO_SPACE_FOR_TERMINATING_NULL
  | ERR_R_BN_LIB.

(** ** Descriptors and the machine *)

(** A pointer to a heap block; the null pointer is [None]. *)
Definition addr : Set := positive.

(** Modelled from the spec: the data_type tags of openssl/core.h, which is
    not part of the sources at hand; the spec lists them in this order. *)
Definition OSSL_PARAM_INTEGER : Z := 1.
Definition OSSL_PARAM_UNSIGNED_INTEGER : Z := 2.
Definition OSSL_PARAM_REAL : Z := 3.
Definition OSSL_PARAM_UTF8_STRING : Z := 4.
Definition OSSL_PARAM_OCTET_STRING : Z := 5.
Definition OSSL_PARAM_UTF8_PTR : Z := 6.
Definition OSSL_PARAM_OCTET_PTR : Z := 7.

Definition SIZE_MAX : Z := 2 ^ 64 - 1.

(** Modelled from the spec: the "unmodified" sentinel of return_size,
    ((size_t)-1) in openssl/params.h. *)
Definition OSSL_PARAM_UNMODIFIED : Z := SIZE_MAX.

Record OSSL_PARAM : Type := mkOSSL_PARAM {
  key : option string;
  data_type : Z;
  data : option addr;
  data_size : Z;
  return_size : Z
}.

(** Modelled from the spec: OSSL_PARAM_END of openssl/params.h, the sentinel
    entry with an absent key that terminates a descriptor array. *)
Definition OSSL_PARAM_END : OSSL_PARAM :=
  {| key := None; data_type := 0; data := None; data_size := 0; return_size := 0 |}.

Definition with_return_size (d : OSSL_PARAM) (rs : Z) : OSSL_PARAM :=
  {| key := key d; data_type := data_type d; data := data d;
     data_size := data_size d; return_size := rs |}.

(** [params] is the memory holding descriptors: an [OSSL_PARAM *] is an
    index into it.  [heap] holds every byte buffer, one block per pointer.
    [errors] is the error queue, most recent first.  [avail] is the number
    of bytes the allocator can still hand out. *)
Record machine : Type := mkMachine {
  params : list OSSL_PARAM;
  heap : gmap addr (list Z);
  errors : list reason;
  avail : Z
}.

Definition with_params (m : machine) (ps : list OSSL_PARAM) : machine :=
  {| params := ps; heap := heap m; errors := errors m; avail := avail m |}.
Definition with_heap (m : machine) (h : gmap addr (list Z)) : machine :=
  {| params := params m; heap := h; errors := errors m; avail := avail m |}.
Definition with_errors (m : machine) (es : list reason) : machine :=
  {| params := params m; heap := heap m; errors := es; avail := avail m |}.
Definition with_avail (m : machine) (n : Z) : machine :=
  {| params := params m; heap := heap m; errors := errors m; avail := n |}.

(** ** The monad of C computations: state, with undefined behaviour *)

Definition M (A : Type) : Type := machine -> option (A * machine).

Definition ret {A} (a : A) : M A := fun m => Some (a, m).
Definition bind {A B} (c : M A) (k : A -> M B) : M B :=
  fun m => match c m with
           | Some (a, m') => k a m'
           | None => None
           end.
Definition undefined {A} : M A := fun _ => None.
Definition lift_option {A} (o : option A) : M A :=
  fun m => match o with Some a => Some (a, m) | None => None end.

(** [q == NULL]. *)
Definition is_null {A} (q : option A) : bool :=
  match q with
  | None => true
  | Some _ => false
  end.

Declare Scope c_scope.
Delimit Scope c_scope with C.
Notation "x <- c ;; k" := (bind c (fun x => k))
  (at level 100, c at next level, right associativity) : c_scope.
Notation "c ;; k" := (bind c (fun _ => k))
  (at level 100, right associativity) : c_scope.
Local Open Scope c_scope.

Definition ERR_raise (r : reason) : M unit :=
  fun m => Some (tt, with_errors m (r :: errors m)).

Definition err_unsigned_negative : M unit :=
  ERR_raise CRYPTO_R_PARAM_UNSIGNED_INTEGER_NEGATIVE_VALUE_UNSUPPORTED.
Definition err_out_of_range : M unit :=
  ERR_raise CRYPTO_R_PARAM_VALUE_TOO_LARGE_FOR_DESTINATION.
Definition err_inexact : M unit :=
  ERR_raise CRYPTO_R_PARAM_CANNOT_BE_REPRESENTED_EXACTLY.
Definition err_not_integer : M unit :=
  ERR_raise CRYPTO_R_PARAM_NOT_INTEGER_TYPE.
Definition err_too_small : M unit :=
  ERR_raise CRYPTO_R_TOO_SMALL_BUFFER.
Definition err_bad_type : M unit :=
  ERR_raise CRYPTO_R_PARAM_OF_INCOMPATIBLE_TYPE.
Definition err_null_argument : M unit :=
  ERR_raise ERR_R_PASSED_NULL_PARAMETER.
Definition err_unsupported_real : M unit :=
  ERR_raise CRYPTO_R_PARAM_UNSUPPORTED_FLOATING_POINT_FORMAT.

(** [*p] for a descriptor pointer. *)
Definition deref (p : nat) : M OSSL_PARAM :=
  fun m => match params m !! p with
           | Some d => Some (d, m)
           | None => None
           end.

(** [p->return_size = rs]. *)
Definition set_return_size (p : nat) (rs : Z) : M unit :=
  fun m => match params m !! p with
           | Some d => Some (tt, with_params m (<[p := with_return_size d rs]> (params m)))
           | None => None
           end.

(** The whole block a data pointer refers to. *)
Definition block (a : addr) : M (list Z) :=
  fun m => match heap m !! a with
           | Some b => Some (b, m)
           | None => None
           end.

(** Read the [n] bytes at the start of block [a]. *)
Definition load (a : addr) (n : nat) : M (list Z) :=
  fun m => match heap m !! a with
           | Some b => if (n <=? length b)%nat then Some (take n b, m) else None
           | None => None
           end.

(** Overwrite [length bs] bytes of block [a] from offset [off] on. *)
Definition store_at (a : addr) (off : nat) (bs : list Z) : M unit :=
  fun m => match heap m !! a with
           | Some b =>
               if (off + length bs <=? length b)%nat
               then Some (tt, with_heap m
                           (<[a := take off b ++ bs ++ drop (off + length bs) b]> (heap m)))
               else None
           | None => None
           end.

Definition store (a : addr) (bs : list Z) : M unit := store_at a 0 bs.

(** [memset(dest + off, c, n)] and [memcpy(dest + off, src, n)]. *)
Definition memset (dest : addr) (off : nat) (c : Z) (n : nat) : M unit :=
  store_at dest off (replicate n c).

Definition memcpy (dest : addr) (off : nat) (src : list Z) (n : nat) : M unit :=
  if (n <=? length src)%nat then store_at dest off (take n src) else undefined.

(** ** Native integer representation *)

Fixpoint le_bytes (n : nat) (v : Z) : list Z :=
  match n with
  | O => []
  | S n' => (v mod 256) :: le_bytes n' (v / 256)
  end.

Fixpoint le_value (bs : list Z) : Z :=
  match bs with
  | [] => 0
  | b :: bs' => b + 256 * le_value bs'
  end.

Definition is_byte (b : Z) : Prop := 0 <= b < 256.

Definition to_signed (bits : Z) (u : Z) : Z :=
  if u <? 2 ^ (bits - 1) then u else u - 2 ^ bits.

Definition INT32_MIN : Z := - 2 ^ 31.
Definition INT32_MAX : Z := 2 ^ 31 - 1.
Definition UINT32_MAX : Z := 2 ^ 32 - 1.
Definition INT64_MIN : Z := - 2 ^ 63.
Definition INT64_MAX : Z := 2 ^ 63 - 1.
Definition UINT64_MAX : Z := 2 ^ 64 - 1.

(** The C conversions to the fixed-width types. *)
Definition cast_uint32 (z : Z) : Z := z mod 2 ^ 32.
Definition cast_uint64 (z : Z) : Z := z mod 2 ^ 64.
Definition cast_int32 (z : Z) : Z := to_signed 32 (z mod 2 ^ 32).
Definition cast_int64 (z : Z) : Z := to_signed 64 (z mod 2 ^ 64).
Definition cast_int (z : Z) : Z := cast_int32 z.

Definition sizeof_int32_t : Z := 4.
Definition sizeof_int64_t : Z := 8.
Definition sizeof_uint32_t : Z := 4.
Definition sizeof_uint64_t : Z := 8.
Definition sizeof_double : Z := 8.

(** The widths of the native types: a 64-bit platform with 32-bit int. *)
Definition sizeof_int : Z := 4.
Definition sizeof_long : Z := 8.
Definition sizeof_size_t : Z := 8.
Definition sizeof_time_t : Z := 8.
Definition sizeof_ptr : Z := 8.

(** The object representation of a pointer: the null pointer is zero, a
    pointer to a block is the number of the block. *)
Definition ptr_bits (q : option addr) : Z :=
  match q with
  | None => 0
  | Some a => Zpos a
  end.

Definition bits_ptr (w : Z) : option addr :=
  match w with
  | Zpos a => Some a
  | _ => None
  end.

(** ** Doubles

    A C double is an IEEE 754 binary64 number: [spec_float] with a 53-bit
    significand.  Its object representation is the 64-bit pattern
    sign | biased exponent | fraction, stored like a 64-bit integer. *)

Definition double : Set := spec_float.

(** [(double)z] for an integer [z], rounding to nearest even. *)
Definition double_of_Z (z : Z) : double := binary_normalize 53 1024 z 0 false.

Definition double_add (x y : double) : double := SFadd 53 1024 x y.
Definition double_mul (x y : double) : double := SFmul 53 1024 x y.

(** The integer part of a finite [d], truncated toward zero: what [(intN_t)d]
    and [(uintN_t)d] give when it is a value of the type. *)
Definition double_trunc (d : double) : Z :=
  match d with
  | S754_finite s m e =>
      let v := if 0 <=? e then Zpos m * 2 ^ e else Zpos m / 2 ^ (- e) in
      if s then - v else v
  | _ => 0
  end.

(** The real number a finite double stands for, when it is an integer. *)
Definition double_exact_Z (d : double) : option Z :=
  match d with
  | S754_zero _ => Some 0
  | S754_finite s m e =>
      if 0 <=? e then Some (if s then - (Zpos m * 2 ^ e) else Zpos m * 2 ^ e)
      else if (Zpos m mod 2 ^ (- e)) =? 0
           then Some (if s then - (Zpos m / 2 ^ (- e)) else Zpos m / 2 ^ (- e))
           else None
  | _ => None
  end.

Definition double_bits (d : double) : Z :=
  match d with
  | S754_zero s => if s then 2 ^ 63 else 0
  | S754_infinity s => (if s then 2 ^ 63 else 0) + 2047 * 2 ^ 52
  | S754_nan => 2047 * 2 ^ 52 + 2 ^ 51
  | S754_finite s m e =>
      (if s then 2 ^ 63 else 0)
      + (if Zpos m <? 2 ^ 52 then Zpos m
         else (e + 1075) * 2 ^ 52 + (Zpos m - 2 ^ 52))
  end.

Definition bits_double (w : Z) : double :=
  let s := 2 ^ 63 <=? w in
  let ex := (w / 2 ^ 52) mod 2048 in
  let fr := w mod 2 ^ 52 in
  if ex =? 0 then
    match fr with
    | Zpos m => S754_finite s m (-1074)
    | _ => S754_zero s
    end
  else if ex =? 2047 then
    if fr =? 0 then S754_infinity s else S754_nan
  else
    match fr + 2 ^ 52 with
    | Zpos m => S754_finite s m (ex - 1075)
    | _ => S754_nan
    end.

(** real_shift(): the number of bits in the mantissa of a double. *)
Definition real_shift : Z := if sizeof_double =? 4 then 24 else 53.

(** ** Strings *)

(** [strcmp] on the contents of two C strings: negative, zero or positive
    as the first is less than, equal to or greater than the second, the
    bytes compared as unsigned char. *)
Fixpoint strcmp (a b : string) : Z :=
  match a, b with
  | EmptyString, EmptyString => 0
  | EmptyString, String _ _ => -1
  | String _ _, EmptyString => 1
  | String c a', String c' b' =>
      if Ascii.eqb c c' then strcmp a' b'
      else if (Ascii.nat_of_ascii c <? Ascii.nat_of_ascii c')%nat then -1 else 1
  end.

(** [strlen]: the index of the first NUL of the array; an array without
    one is read past its end. *)
Fixpoint strlen (a : list Z) : option Z :=
  match a with
  | [] => None
  | b :: a' => if b =? 0 then Some 0 else option_map Z.succ (strlen a')
  end.

(** Modelled from the spec: OPENSSL_strnlen (crypto/o_str.c, not part of the
    sources at hand) measures the true string length by scanning for a
    terminator, looking at no more than [maxlen] bytes. *)
Fixpoint OPENSSL_strnlen (a : list Z) (maxlen : nat) {struct maxlen} : option Z :=
  match maxlen with
  | O => Some 0
  | S k =>
      match a with
      | [] => None
      | b :: a' => if b =? 0 then Some 0 else option_map Z.succ (OPENSSL_strnlen a' k)
      end
  end.

(** ** The allocator *)

(** The contents of memory that was allocated and not written yet are
    indeterminate: this marker, which is no byte value, stands for them. *)
Definition indeterminate : Z := -1.

(** Modelled from the spec: the plain allocator (crypto/mem.c, not part of
    the sources at hand) provides allocate, zero-allocate and clear-and-free.
    A request for zero bytes, or for more than the allocator has left,
    yields the null pointer.  The contents of a fresh block are
    indeterminate. *)
Definition OPENSSL_malloc (n : Z) : M (option addr) :=
  fun m =>
    if (n <=? 0) || (avail m <? n) then Some (None, m)
    else
      let a := fresh (dom (heap m)) in
      Some (Some a,
            with_avail
              (with_heap m (<[a := replicate (Z.to_nat n) indeterminate]> (heap m)))
              (avail m - n)).

(** Modelled from the spec: zero-allocate of the same allocator, which
    allocates and then clears the block. *)
Definition OPENSSL_zalloc (n : Z) : M (option addr) :=
  q <- OPENSSL_malloc n ;;
  match q with
  | None => ret None
  | Some a =>
      memset a 0 0 (Z.to_nat n) ;;
      ret (Some a)
  end.

(** Modelled from the spec: clear-and-free of the same allocator; the block
    is zeroed and released, a null pointer is ignored. *)
Definition OPENSSL_clear_free (q : option addr) (len : Z) : M unit :=
  match q with
  | None => ret tt
  | Some a =>
      fun m => match heap m !! a with
               | Some b => Some (tt, with_avail (with_heap m (delete a (heap m)))
                                                (avail m + Z.of_nat (length b)))
               | None => None
               end
  end.

(** ** The packet writer *)

(** Modelled from the spec: WPACKET (crypto/packet.c, not part of the sources
    at hand) is the writer used for the two-pass size/copy strategy: start
    accumulation (over no buffer, or over a static buffer of a given length),
    append bytes, report the total length and finish. *)
Record WPACKET : Type := mkWPACKET {
  staticbuf : option addr;
  maxsize : Z;
  written : Z
}.

(** Modelled from the spec: start accumulation with a null sink, which only
    counts lengths. *)
Definition WPACKET_init_null (lenbytes : Z) : M (Z * WPACKET) :=
  ret (1, {| staticbuf := None; maxsize := SIZE_MAX; written := 0 |}).

(** Modelled from the spec: start accumulation over a static buffer of [len]
    bytes; a null buffer or a zero length is refused. *)
Definition WPACKET_init_static_len (buf : option addr) (len : Z) (lenbytes : Z)
  : M (Z * WPACKET) :=
  match buf with
  | Some b =>
      if 0 <? len
      then ret (1, {| staticbuf := Some b; maxsize := Z.min SIZE_MAX len; written := 0 |})
      else ret (0, {| staticbuf := None; maxsize := 0; written := 0 |})
  | None => ret (0, {| staticbuf := None; maxsize := 0; written := 0 |})
  end.

(** Modelled from the spec: append the [len] bytes at [src]; refused when
    they do not fit the writer's maximum size.  A null sink only counts
    them and does not read the source. *)
Definition WPACKET_memcpy (pkt : WPACKET) (src : addr) (len : Z)
  : M (Z * WPACKET) :=
  if len =? 0 then ret (1, pkt)
  else if maxsize pkt - written pkt <? len then ret (0, pkt)
  else
    let pkt' := {| staticbuf := staticbuf pkt; maxsize := maxsize pkt;
                   written := written pkt + len |} in
    match staticbuf pkt with
    | Some b =>
        bytes <- block src ;;
        memcpy b (Z.to_nat (written pkt)) bytes (Z.to_nat len) ;;
        ret (1, pkt')
    | None => ret (1, pkt')
    end.

(** Modelled from the spec: report the total length accumulated. *)
Definition WPACKET_get_total_written (pkt : WPACKET) : M (Z * Z) :=
  ret (1, written pkt).

(** Modelled from the spec: finalize a writer without sub-packets. *)
Definition WPACKET_finish (pkt : WPACKET) : M Z := ret 1.

(** Modelled from the spec: release the writer's bookkeeping. *)
Definition WPACKET_cleanup (pkt : WPACKET) : M unit := ret tt.

(** ** Big numbers *)

(** Modelled from the spec: the BIGNUM library (crypto/bn) is not part of the
    sources at hand.  A BIGNUM is its integer value; this is its sign test. *)
Definition BN_is_negative (v : Z) : bool := v <? 0.

(** Modelled from the spec: the number of significant bits of the magnitude
    of a BIGNUM, zero for zero. *)
Definition BN_num_bits (v : Z) : Z := if v =? 0 then 0 else Z.log2 (Z.abs v) + 1.

(** Modelled from the spec: the number of bytes of the magnitude of a
    BIGNUM, zero for zero. *)
Definition BN_num_bytes (v : Z) : Z := (BN_num_bits v + 7) / 8.

Section Params.

(** DECLARE_IS_ENDIAN / IS_BIG_ENDIAN of internal/endian.h: the byte order
    of the platform. *)
Variable IS_BIG_ENDIAN : bool.

(** The conversion of a double to an integer type where its result is not
    the integer part: for a NaN, an infinity and a number whose integer part
    is no value of the type, an IEEE 754 platform raises the invalid
    exception and the result is an unspecified value of the type (ISO C,
    Annex F.4).  These are the values the platform gives. *)
Variable unspecified_uint64 : double -> Z.
Variable unspecified_int64 : double -> Z.

(** [(uint64_t)d] and [(int64_t)d]. *)
Definition double_to_uint64 (d : double) : Z :=
  match d with
  | S754_nan | S754_infinity _ => cast_uint64 (unspecified_uint64 d)
  | _ => if (0 <=? double_trunc d) && (double_trunc d <=? UINT64_MAX)
         then double_trunc d else cast_uint64 (unspecified_uint64 d)
  end.

Definition double_to_int64 (d : double) : Z :=
  match d with
  | S754_nan | S754_infinity _ => cast_int64 (unspecified_int64 d)
  | _ => if (INT64_MIN <=? double_trunc d) && (double_trunc d <=? INT64_MAX)
         then double_trunc d else cast_int64 (unspecified_int64 d)
  end.

Definition native_bytes (n : nat) (v : Z) : list Z :=
  if IS_BIG_ENDIAN then rev (le_bytes n v) else le_bytes n v.

Definition native_value (bs : list Z) : Z :=
  le_value (if IS_BIG_ENDIAN then rev bs else bs).

Definition load_uint32 (a : addr) : M Z :=
  bs <- load a 4 ;; ret (native_value bs).
Definition load_int32 (a : addr) : M Z :=
  bs <- load a 4 ;; ret (to_signed 32 (native_value bs)).
Definition load_uint64 (a : addr) : M Z :=
  bs <- load a 8 ;; ret (native_value bs).
Definition load_int64 (a : addr) : M Z :=
  bs <- load a 8 ;; ret (to_signed 64 (native_value bs)).

Definition store_int32 (a : addr) (v : Z) : M unit := store a (native_bytes 4 v).
Definition store_uint32 (a : addr) (v : Z) : M unit := store a (native_bytes 4 v).
Definition store_int64 (a : addr) (v : Z) : M unit := store a (native_bytes 8 v).
Definition store_uint64 (a : addr) (v : Z) : M unit := store a (native_bytes 8 v).

(** ** Lookup and the modified flag *)

(** The loop of OSSL_PARAM_locate over the array that starts at [p]. *)
Fixpoint locate_scan (arr : list OSSL_PARAM) (p : nat) (k : string)
  : option (option nat) :=
  match arr with
  | [] => None
  | d :: rest =>
      match key d with
      | None => Some None
      | Some k' =>
          if strcmp k k' =? 0 then Some (Some p)
          else locate_scan rest (S p) k
      end
  end.

Definition OSSL_PARAM_locate (p : option nat) (k : option string)
  : M (option nat) :=
  match p, k with
  | Some p, Some k =>
      fun m => match locate_scan (drop p (params m)) p k with
               | Some r => Some (r, m)
               | None => None
               end
  | _, _ => ret None
  end.

Definition OSSL_PARAM_locate_const (p : option nat) (k : option string)
  : M (option nat) :=
  OSSL_PARAM_locate p k.

Definition ossl_param_construct (k : option string) (ty : Z)
    (buf : option addr) (sz : Z) : OSSL_PARAM :=
  {| key := k; data_type := ty; data := buf; data_size := sz;
     return_size := OSSL_PARAM_UNMODIFIED |}.

Definition OSSL_PARAM_modified (p : option nat) : M Z :=
  match p with
  | None => ret 0
  | Some p =>
      d <- deref p ;;
      ret (if negb (return_size d =? OSSL_PARAM_UNMODIFIED) then 1 else 0)
  end.

(** The loop of OSSL_PARAM_set_all_unmodified over the array at [p]. *)
Fixpoint unmodified_scan (arr : list OSSL_PARAM) : option (list OSSL_PARAM) :=
  match arr with
  | [] => None
  | d :: rest =>
      match key d with
      | None => Some (d :: rest)
      | Some _ =>
          match unmodified_scan rest with
          | Some rest' => Some (with_return_size d OSSL_PARAM_UNMODIFIED :: rest')
          | None => None
          end
      end
  end.

Definition OSSL_PARAM_set_all_unmodified (p : option nat) : M unit :=
  match p with
  | None => ret tt
  | Some p =>
      fun m => match unmodified_scan (drop p (params m)) with
               | Some arr => Some (tt, with_params m (take p (params m) ++ arr))
               | None => None
               end
  end.

(** ** The integer conversion engine *)

(** [a[i]] for a byte array; an index outside the array (in particular the
    wrapped-around [s - 1] for [s = 0]) is an out-of-bounds read. *)
Definition index (a : list Z) (i : Z) : option Z :=
  if (0 <=? i) && (i <? Z.of_nat (length a)) then a !! Z.to_nat i else None.

(** Return non-zero if the signed number is negative. *)
Definition is_negative (number : list Z) (s : Z) : M Z :=
  b <- lift_option (if IS_BIG_ENDIAN then index number 0 else index number (s - 1)) ;;
  ret (Z.land 128 b).

(** Check that all the bytes specified match the expected sign byte. *)
Fixpoint check_sign_bytes (p : list Z) (n : nat) (s : Z) : option bool :=
  match n with
  | O => Some true
  | S n' =>
      match p with
      | [] => None
      | b :: p' => if negb (b =? s) then Some false else check_sign_bytes p' n' s
      end
  end.

(** Copy an integer to another integer.  [dest] is a block of the heap,
    [src] the array the source pointer refers to. *)
Definition copy_integer (dest : addr) (dest_len : Z) (src : list Z)
    (src_len : Z) (pad : Z) (signed_int : bool) : M Z :=
  if IS_BIG_ENDIAN then
    if src_len <? dest_len then
      let n := dest_len - src_len in
      memset dest 0 pad (Z.to_nat n) ;;
      memcpy dest (Z.to_nat n) src (Z.to_nat src_len) ;;
      ret 1
    else
      let n := src_len - dest_len in
      ok <- lift_option (check_sign_bytes src (Z.to_nat n) pad) ;;
      lost <- (if negb ok then ret true
               else if signed_int then
                 b <- lift_option (index src n) ;;
                 ret (negb (Z.land (Z.lxor pad b) 128 =? 0))
               else ret false) ;;
      if lost : bool then
        err_out_of_range ;;
        ret 0
      else
        memcpy dest 0 (drop (Z.to_nat n) src) (Z.to_nat dest_len) ;;
        ret 1
  else
    if src_len <? dest_len then
      let n := dest_len - src_len in
      memset dest (Z.to_nat src_len) pad (Z.to_nat n) ;;
      memcpy dest 0 src (Z.to_nat src_len) ;;
      ret 1
    else
      let n := src_len - dest_len in
      ok <- lift_option (check_sign_bytes (drop (Z.to_nat dest_len) src) (Z.to_nat n) pad) ;;
      lost <- (if negb ok then ret true
               else if signed_int then
                 b <- lift_option (index src (dest_len - 1)) ;;
                 ret (negb (Z.land (Z.lxor pad b) 128 =? 0))
               else ret false) ;;
      if lost : bool then
        err_out_of_range ;;
        ret 0
      else
        memcpy dest 0 src (Z.to_nat dest_len) ;;
        ret 1.

(** Copy a signed number to a signed number of possibly different length. *)
Definition signed_from_signed (dest : addr) (dest_len : Z) (src : list Z)
    (src_len : Z) : M Z :=
  neg <- is_negative src src_len ;;
  copy_integer dest dest_len src src_len (if negb (neg =? 0) then 255 else 0) true.

(** Copy an unsigned number to a signed number of possibly different length. *)
Definition signed_from_unsigned (dest : addr) (dest_len : Z) (src : list Z)
    (src_len : Z) : M Z :=
  copy_integer dest dest_len src src_len 0 true.

(** Copy a signed number to an unsigned number of possibly different length. *)
Definition unsigned_from_signed (dest : addr) (dest_len : Z) (src : list Z)
    (src_len : Z) : M Z :=
  neg <- is_negative src src_len ;;
  if negb (neg =? 0) then
    err_unsigned_negative ;;
    ret 0
  else copy_integer dest dest_len src src_len 0 false.

(** Copy an unsigned number to an unsigned number of possibly different length. *)
Definition unsigned_from_unsigned (dest : addr) (dest_len : Z) (src : list Z)
    (src_len : Z) : M Z :=
  copy_integer dest dest_len src src_len 0 false.

(** General purpose get integer parameter call that handles odd sizes. *)
Definition general_get_int (p : nat) (val : addr) (val_size : Z) : M Z :=
  d <- deref p ;;
  match data d with
  | None => err_null_argument ;; ret 0
  | Some a =>
      if data_type d =? OSSL_PARAM_INTEGER then
        src <- block a ;;
        signed_from_signed val val_size src (data_size d)
      else if data_type d =? OSSL_PARAM_UNSIGNED_INTEGER then
        src <- block a ;;
        signed_from_unsigned val val_size src (data_size d)
      else
        err_not_integer ;;
        ret 0
  end.

(** General purpose set integer parameter call that handles odd sizes.
    [val] is the object representation of the caller's variable. *)
Definition general_set_int (p : nat) (val : list Z) (val_size : Z) : M Z :=
  d <- deref p ;;
  match data d with
  | None =>
      set_return_size p val_size ;;
      ret 1
  | Some a =>
      r <- (if data_type d =? OSSL_PARAM_INTEGER then
              signed_from_signed a (data_size d) val val_size
            else if data_type d =? OSSL_PARAM_UNSIGNED_INTEGER then
              unsigned_from_signed a (data_size d) val val_size
            else
              err_not_integer ;;
              ret 0) ;;
      set_return_size p (if negb (r =? 0) then data_size d else val_size) ;;
      ret r
  end.

(** General purpose get unsigned integer parameter call that handles odd sizes. *)
Definition general_get_uint (p : nat) (val : addr) (val_size : Z) : M Z :=
  d <- deref p ;;
  match data d with
  | None => err_null_argument ;; ret 0
  | Some a =>
      if data_type d =? OSSL_PARAM_INTEGER then
        src <- block a ;;
        unsigned_from_signed val val_size src (data_size d)
      else if data_type d =? OSSL_PARAM_UNSIGNED_INTEGER then
        src <- block a ;;
        unsigned_from_unsigned val val_size src (data_size d)
      else
        err_not_integer ;;
        ret 0
  end.

(** General purpose set unsigned integer parameter call that handles odd sizes. *)
Definition general_set_uint (p : nat) (val : list Z) (val_size : Z) : M Z :=
  d <- deref p ;;
  match data d with
  | None =>
      set_return_size p val_size ;;
      ret 1
  | Some a =>
      r <- (if data_type d =? OSSL_PARAM_INTEGER then
              signed_from_unsigned a (data_size d) val val_size
            else if data_type d =? OSSL_PARAM_UNSIGNED_INTEGER then
              unsigned_from_unsigned a (data_size d) val val_size
            else
              err_not_integer ;;
              ret 0) ;;
      set_return_size p (if negb (r =? 0) then data_size d else val_size) ;;
      ret r
  end.

(** ** Fixed-width accessors *)

(** A double read for its value and a double value written.  The model has
    one NaN, written as the quiet NaN without payload; where the code copies
    a double from one object to another the bytes are copied instead. *)
Definition load_double (a : addr) : M double :=
  bs <- load a 8 ;; ret (bits_double (native_value bs)).
Definition store_double (a : addr) (d : double) : M unit :=
  store a (native_bytes 8 (double_bits d)).

Definition OSSL_PARAM_get_int32 (p : option nat) (val : option addr) : M Z :=
  match val, p with
  | Some val, Some p =>
      d <- deref p ;;
      match data d with
      | None => err_null_argument ;; ret 0
      | Some a =>
          if data_type d =? OSSL_PARAM_INTEGER then
            if data_size d =? sizeof_int32_t then
              v <- load_int32 a ;;
              store_int32 val v ;;
              ret 1
            else if data_size d =? sizeof_int64_t then
              i64 <- load_int64 a ;;
              if (INT32_MIN <=? i64) && (i64 <=? INT32_MAX) then
                store_int32 val (cast_int32 i64) ;;
                ret 1
              else
                err_out_of_range ;;
                ret 0
            else general_get_int p val 4
          else if data_type d =? OSSL_PARAM_UNSIGNED_INTEGER then
            if data_size d =? sizeof_uint32_t then
              u32 <- load_uint32 a ;;
              if u32 <=? INT32_MAX then
                store_int32 val (cast_int32 u32) ;;
                ret 1
              else
                err_out_of_range ;;
                ret 0
            else if data_size d =? sizeof_uint64_t then
              u64 <- load_uint64 a ;;
              if u64 <=? INT32_MAX then
                store_int32 val (cast_int32 u64) ;;
                ret 1
              else
                err_out_of_range ;;
                ret 0
            else general_get_int p val 4
          else if data_type d =? OSSL_PARAM_REAL then
            if data_size d =? sizeof_double then
              dd <- load_double a ;;
              if SFleb (double_of_Z INT32_MIN) dd && SFleb dd (double_of_Z INT32_MAX)
                 && SFeqb dd (double_of_Z (cast_int32 (double_trunc dd))) then
                store_int32 val (cast_int32 (double_trunc dd)) ;;
                ret 1
              else
                err_out_of_range ;;
                ret 0
            else
              err_unsupported_real ;;
              ret 0
          else
            err_bad_type ;;
            ret 0
      end
  | _, _ => err_null_argument ;; ret 0
  end.

Definition OSSL_PARAM_set_int32 (p : option nat) (val : Z) : M Z :=
  match p with
  | None => err_null_argument ;; ret 0
  | Some p =>
      set_return_size p 0 ;;
      d <- deref p ;;
      if data_type d =? OSSL_PARAM_INTEGER then
        set_return_size p sizeof_int32_t ;;
        match data d with
        | None => ret 1
        | Some a =>
            if data_size d =? sizeof_int32_t then
              store_int32 a val ;;
              ret 1
            else if data_size d =? sizeof_int64_t then
              set_return_size p sizeof_int64_t ;;
              store_int64 a (cast_int64 val) ;;
              ret 1
            else general_set_int p (native_bytes 4 val) 4
        end
      else if (data_type d =? OSSL_PARAM_UNSIGNED_INTEGER) && (0 <=? val) then
        set_return_size p sizeof_uint32_t ;;
        match data d with
        | None => ret 1
        | Some a =>
            if data_size d =? sizeof_uint32_t then
              store_uint32 a (cast_uint32 val) ;;
              ret 1
            else if data_size d =? sizeof_uint64_t then
              set_return_size p sizeof_uint64_t ;;
              store_uint64 a (cast_uint64 val) ;;
              ret 1
            else general_set_int p (native_bytes 4 val) 4
        end
      else if data_type d =? OSSL_PARAM_REAL then
        set_return_size p sizeof_double ;;
        match data d with
        | None => ret 1
        | Some a =>
            if data_size d =? sizeof_double then
              if (real_shift <? 8 * 4 - 1)
                 && negb (Z.shiftr (cast_uint32 (if val <? 0 then - val else val))
                                   real_shift =? 0) then
                err_inexact ;;
                ret 0
              else
                store_double a (double_of_Z val) ;;
                ret 1
            else
              err_unsupported_real ;;
              ret 0
        end
      else
        err_bad_type ;;
        ret 0
  end.

Definition OSSL_PARAM_get_uint32 (p : option nat) (val : option addr) : M Z :=
  match val, p with
  | Some val, Some p =>
      d <- deref p ;;
      match data d with
      | None => err_null_argument ;; ret 0
      | Some a =>
          if data_type d =? OSSL_PARAM_UNSIGNED_INTEGER then
            if data_size d =? sizeof_uint32_t then
              v <- load_uint32 a ;;
              store_uint32 val v ;;
              ret 1
            else if data_size d =? sizeof_uint64_t then
              u64 <- load_uint64 a ;;
              if u64 <=? UINT32_MAX then
                store_uint32 val (cast_uint32 u64) ;;
                ret 1
              else
                err_out_of_range ;;
                ret 0
            else general_get_uint p val 4
          else if data_type d =? OSSL_PARAM_INTEGER then
            if data_size d =? sizeof_int32_t then
              i32 <- load_int32 a ;;
              if 0 <=? i32 then
                store_uint32 val (cast_uint32 i32) ;;
                ret 1
              else
                err_unsigned_negative ;;
                ret 0
            else if data_size d =? sizeof_int64_t then
              i64 <- load_int64 a ;;
              if (0 <=? i64) && (i64 <=? UINT32_MAX) then
                store_uint32 val (cast_uint32 i64) ;;
                ret 1
              else
                (if i64 <? 0 then err_unsigned_negative else err_out_of_range) ;;
                ret 0
            else general_get_uint p val 4
          else if data_type d =? OSSL_PARAM_REAL then
            if data_size d =? sizeof_double then
              dd <- load_double a ;;
              if SFleb (double_of_Z 0) dd && SFleb dd (double_of_Z UINT32_MAX)
                 && SFeqb dd (double_of_Z (cast_uint32 (double_trunc dd))) then
                store_uint32 val (cast_uint32 (double_trunc dd)) ;;
                ret 1
              else
                err_inexact ;;
                ret 0
            else
              err_unsupported_real ;;
              ret 0
          else
            err_bad_type ;;
            ret 0
      end
  | _, _ => err_null_argument ;; ret 0
  end.

Definition OSSL_PARAM_set_uint32 (p : option nat) (val : Z) : M Z :=
  match p with
  | None => err_null_argument ;; ret 0
  | Some p =>
      set_return_size p 0 ;;
      d <- deref p ;;
      if data_type d =? OSSL_PARAM_UNSIGNED_INTEGER then
        set_return_size p sizeof_uint32_t ;;
        match data d with
        | None => ret 1
        | Some a =>
            if data_size d =? sizeof_uint32_t then
              store_uint32 a val ;;
              ret 1
            else if data_size d =? sizeof_uint64_t then
              set_return_size p sizeof_uint64_t ;;
              store_uint64 a val ;;
              ret 1
            else general_set_uint p (native_bytes 4 val) 4
        end
      else if data_type d =? OSSL_PARAM_INTEGER then
        set_return_size p sizeof_int32_t ;;
        match data d with
        | None => ret 1
        | Some a =>
            if data_size d =? sizeof_int32_t then
              if val <=? INT32_MAX then
                store_int32 a (cast_int32 val) ;;
                ret 1
              else
                err_out_of_range ;;
                ret 0
            else if data_size d =? sizeof_int64_t then
              set_return_size p sizeof_int64_t ;;
              store_int64 a (cast_int64 val) ;;
              ret 1
            else general_set_uint p (native_bytes 4 val) 4
        end
      else if data_type d =? OSSL_PARAM_REAL then
        match data d with
        | None =>
            set_return_size p sizeof_double ;;
            ret 1
        | Some a =>
            if data_size d =? sizeof_double then
              if (real_shift <? 8 * 4) && negb (Z.shiftr val real_shift =? 0) then
                err_inexact ;;
                ret 0
              else
                store_double a (double_of_Z val) ;;
                set_return_size p sizeof_double ;;
                ret 1
            else
              err_unsupported_real ;;
              ret 0
        end
      else
        err_bad_type ;;
        ret 0
  end.

Definition OSSL_PARAM_get_int64 (p : option nat) (val : option addr) : M Z :=
  match val, p with
  | Some val, Some p =>
      d <- deref p ;;
      match data d with
      | None => err_null_argument ;; ret 0
      | Some a =>
          if data_type d =? OSSL_PARAM_INTEGER then
            if data_size d =? sizeof_int32_t then
              v <- load_int32 a ;;
              store_int64 val v ;;
              ret 1
            else if data_size d =? sizeof_int64_t then
              v <- load_int64 a ;;
              store_int64 val v ;;
              ret 1
            else general_get_int p val 8
          else if data_type d =? OSSL_PARAM_UNSIGNED_INTEGER then
            if data_size d =? sizeof_uint32_t then
              v <- load_uint32 a ;;
              store_int64 val v ;;
              ret 1
            else if data_size d =? sizeof_uint64_t then
              u64 <- load_uint64 a ;;
              if u64 <=? INT64_MAX then
                store_int64 val (cast_int64 u64) ;;
                ret 1
              else
                err_out_of_range ;;
                ret 0
            else general_get_int p val 8
          else if data_type d =? OSSL_PARAM_REAL then
            if data_size d =? sizeof_double then
              dd <- load_double a ;;
              if SFleb (double_of_Z INT64_MIN) dd
                 && SFltb dd (double_add (double_of_Z (INT64_MAX - 65535))
                                         (double_of_Z 65536))
                 && SFeqb dd (double_of_Z (cast_int64 (double_trunc dd))) then
                store_int64 val (cast_int64 (double_trunc dd)) ;;
                ret 1
              else
                err_inexact ;;
                ret 0
            else
              err_unsupported_real ;;
              ret 0
          else
            err_bad_type ;;
            ret 0
      end
  | _, _ => err_null_argument ;; ret 0
  end.

Definition OSSL_PARAM_set_int64 (p : option nat) (val : Z) : M Z :=
  match p with
  | None => err_null_argument ;; ret 0
  | Some p =>
      set_return_size p 0 ;;
      d <- deref p ;;
      if data_type d =? OSSL_PARAM_INTEGER then
        match data d with
        | None =>
            set_return_size p sizeof_int64_t ;;
            ret 1
        | Some a =>
            if data_size d =? sizeof_int32_t then
              if (INT32_MIN <=? val) && (val <=? INT32_MAX) then
                set_return_size p sizeof_int32_t ;;
                store_int32 a (cast_int32 val) ;;
                ret 1
              else
                err_out_of_range ;;
                ret 0
            else if data_size d =? sizeof_int64_t then
              set_return_size p sizeof_int64_t ;;
              store_int64 a val ;;
              ret 1
            else general_set_int p (native_bytes 8 val) 8
        end
      else if (data_type d =? OSSL_PARAM_UNSIGNED_INTEGER) && (0 <=? val) then
        match data d with
        | None =>
            set_return_size p sizeof_uint64_t ;;
            ret 1
        | Some a =>
            if data_size d =? sizeof_uint32_t then
              if val <=? UINT32_MAX then
                set_return_size p sizeof_uint32_t ;;
                store_uint32 a (cast_uint32 val) ;;
                ret 1
              else
                err_out_of_range ;;
                ret 0
            else if data_size d =? sizeof_uint64_t then
              set_return_size p sizeof_uint64_t ;;
              store_uint64 a (cast_uint64 val) ;;
              ret 1
            else general_set_int p (native_bytes 8 val) 8
        end
      else if data_type d =? OSSL_PARAM_REAL then
        match data d with
        | None =>
            set_return_size p sizeof_double ;;
            ret 1
        | Some a =>
            if data_size d =? sizeof_double then
              let u64 := cast_uint64 (if val <? 0 then - val else val) in
              if Z.shiftr u64 real_shift =? 0 then
                set_return_size p sizeof_double ;;
                store_double a (double_of_Z val) ;;
                ret 1
              else
                err_inexact ;;
                ret 0
            else
              err_unsupported_real ;;
              ret 0
        end
      else
        err_bad_type ;;
        ret 0
  end.

Definition OSSL_PARAM_get_uint64 (p : option nat) (val : option addr) : M Z :=
  match val, p with
  | Some val, Some p =>
      d <- deref p ;;
      match data d with
      | None => err_null_argument ;; ret 0
      | Some a =>
          if data_type d =? OSSL_PARAM_UNSIGNED_INTEGER then
            if data_size d =? sizeof_uint32_t then
              v <- load_uint32 a ;;
              store_uint64 val v ;;
              ret 1
            else if data_size d =? sizeof_uint64_t then
              v <- load_uint64 a ;;
              store_uint64 val v ;;
              ret 1
            else general_get_uint p val 8
          else if data_type d =? OSSL_PARAM_INTEGER then
            if data_size d =? sizeof_int32_t then
              i32 <- load_int32 a ;;
              if 0 <=? i32 then
                store_uint64 val (cast_uint64 i32) ;;
                ret 1
              else
                err_unsigned_negative ;;
                ret 0
            else if data_size d =? sizeof_int64_t then
              i64 <- load_int64 a ;;
              if 0 <=? i64 then
                store_uint64 val (cast_uint64 i64) ;;
                ret 1
              else
                err_unsigned_negative ;;
                ret 0
            else general_get_uint p val 8
          else if data_type d =? OSSL_PARAM_REAL then
            if data_size d =? sizeof_double then
              dd <- load_double a ;;
              if SFleb (double_of_Z 0) dd
                 && SFltb dd (double_add (double_of_Z (UINT64_MAX - 65535))
                                         (double_of_Z 65536))
                 && SFeqb dd (double_of_Z (cast_uint64 (double_trunc dd))) then
                store_uint64 val (cast_uint64 (double_trunc dd)) ;;
                ret 1
              else
                err_inexact ;;
                ret 0
            else
              err_unsupported_real ;;
              ret 0
          else
            err_bad_type ;;
            ret 0
      end
  | _, _ => err_null_argument ;; ret 0
  end.

Definition OSSL_PARAM_set_uint64 (p : option nat) (val : Z) : M Z :=
  match p with
  | None => err_null_argument ;; ret 0
  | Some p =>
      set_return_size p 0 ;;
      d <- deref p ;;
      if data_type d =? OSSL_PARAM_UNSIGNED_INTEGER then
        match data d with
        | None =>
            set_return_size p sizeof_uint64_t ;;
            ret 1
        | Some a =>
            if data_size d =? sizeof_uint32_t then
              if val <=? UINT32_MAX then
                set_return_size p sizeof_uint32_t ;;
                store_uint32 a (cast_uint32 val) ;;
                ret 1
              else
                err_out_of_range ;;
                ret 0
            else if data_size d =? sizeof_uint64_t then
              set_return_size p sizeof_uint64_t ;;
              store_uint64 a val ;;
              ret 1
            else general_set_uint p (native_bytes 8 val) 8
        end
      else if data_type d =? OSSL_PARAM_INTEGER then
        match data d with
        | None =>
            set_return_size p sizeof_int64_t ;;
            ret 1
        | Some a =>
            if data_size d =? sizeof_int32_t then
              if val <=? INT32_MAX then
                set_return_size p sizeof_int32_t ;;
                store_int32 a (cast_int32 val) ;;
                ret 1
              else
                err_out_of_range ;;
                ret 0
            else if data_size d =? sizeof_int64_t then
              if val <=? INT64_MAX then
                set_return_size p sizeof_int64_t ;;
                store_int64 a (cast_int64 val) ;;
                ret 1
              else
                err_out_of_range ;;
                ret 0
            else general_set_uint p (native_bytes 8 val) 8
        end
      else if data_type d =? OSSL_PARAM_REAL then
        if data_size d =? sizeof_double then
          if Z.shiftr val real_shift =? 0 then
            set_return_size p sizeof_double ;;
            a <- lift_option (data d) ;;
            store_double a (double_of_Z val) ;;
            ret 1
          else
            err_inexact ;;
            ret 0
        else
          err_unsupported_real ;;
          ret 0
      else
        err_bad_type ;;
        ret 0
  end.

(** ** Accessors of the native integer types

    Each selects the fixed-width accessor of its width; the general path
    serves a platform whose type has neither width. *)

Definition OSSL_PARAM_get_int (p : option nat) (val : option addr) : M Z :=
  if sizeof_int =? sizeof_int32_t then OSSL_PARAM_get_int32 p val
  else if sizeof_int =? sizeof_int64_t then OSSL_PARAM_get_int64 p val
  else
    p <- lift_option p ;;
    val <- lift_option val ;;
    general_get_int p val sizeof_int.

Definition OSSL_PARAM_set_int (p : option nat) (val : Z) : M Z :=
  if sizeof_int =? sizeof_int32_t then OSSL_PARAM_set_int32 p (cast_int32 val)
  else if sizeof_int =? sizeof_int64_t then OSSL_PARAM_set_int64 p (cast_int64 val)
  else
    p <- lift_option p ;;
    general_set_int p (native_bytes (Z.to_nat sizeof_int) val) sizeof_int.

Definition OSSL_PARAM_construct_int (k : option string) (buf : option addr)
  : OSSL_PARAM :=
  ossl_param_construct k OSSL_PARAM_INTEGER buf sizeof_int.

Definition OSSL_PARAM_get_uint (p : option nat) (val : option addr) : M Z :=
  if sizeof_int =? sizeof_uint32_t then OSSL_PARAM_get_uint32 p val
  else if sizeof_int =? sizeof_uint64_t then OSSL_PARAM_get_uint64 p val
  else
    p <- lift_option p ;;
    val <- lift_option val ;;
    general_get_uint p val sizeof_int.

Definition OSSL_PARAM_set_uint (p : option nat) (val : Z) : M Z :=
  if sizeof_int =? sizeof_uint32_t then OSSL_PARAM_set_uint32 p (cast_uint32 val)
  else if sizeof_int =? sizeof_uint64_t then OSSL_PARAM_set_uint64 p (cast_uint64 val)
  else
    p <- lift_option p ;;
    general_set_uint p (native_bytes (Z.to_nat sizeof_int) val) sizeof_int.

Definition OSSL_PARAM_construct_uint (k : option string) (buf : option addr)
  : OSSL_PARAM :=
  ossl_param_construct k OSSL_PARAM_UNSIGNED_INTEGER buf sizeof_int.

Definition OSSL_PARAM_get_long (p : option nat) (val : option addr) : M Z :=
  if sizeof_long =? sizeof_int32_t then OSSL_PARAM_get_int32 p val
  else if sizeof_long =? sizeof_int64_t then OSSL_PARAM_get_int64 p val
  else
    p <- lift_option p ;;
    val <- lift_option val ;;
    general_get_int p val sizeof_long.

Definition OSSL_PARAM_set_long (p : option nat) (val : Z) : M Z :=
  if sizeof_long =? sizeof_int32_t then OSSL_PARAM_set_int32 p (cast_int32 val)
  else if sizeof_long =? sizeof_int64_t then OSSL_PARAM_set_int64 p (cast_int64 val)
  else
    p <- lift_option p ;;
    general_set_int p (native_bytes (Z.to_nat sizeof_long) val) sizeof_long.

Definition OSSL_PARAM_construct_long (k : option string) (buf : option addr)
  : OSSL_PARAM :=
  ossl_param_construct k OSSL_PARAM_INTEGER buf sizeof_long.

Definition OSSL_PARAM_get_ulong (p : option nat) (val : option addr) : M Z :=
  if sizeof_long =? sizeof_uint32_t then OSSL_PARAM_get_uint32 p val
  else if sizeof_long =? sizeof_uint64_t then OSSL_PARAM_get_uint64 p val
  else
    p <- lift_option p ;;
    val <- lift_option val ;;
    general_get_uint p val sizeof_long.

Definition OSSL_PARAM_set_ulong (p : option nat) (val : Z) : M Z :=
  if sizeof_long =? sizeof_uint32_t then OSSL_PARAM_set_uint32 p (cast_uint32 val)
  else if sizeof_long =? sizeof_uint64_t then OSSL_PARAM_set_uint64 p (cast_uint64 val)
  else
    p <- lift_option p ;;
    general_set_uint p (native_bytes (Z.to_nat sizeof_long) val) sizeof_long.

Definition OSSL_PARAM_construct_ulong (k : option string) (buf : option addr)
  : OSSL_PARAM :=
  ossl_param_construct k OSSL_PARAM_UNSIGNED_INTEGER buf sizeof_long.

Definition OSSL_PARAM_construct_int32 (k : option string) (buf : option addr)
  : OSSL_PARAM :=
  ossl_param_construct k OSSL_PARAM_INTEGER buf sizeof_int32_t.

Definition OSSL_PARAM_construct_uint32 (k : option string) (buf : option addr)
  : OSSL_PARAM :=
  ossl_param_construct k OSSL_PARAM_UNSIGNED_INTEGER buf sizeof_uint32_t.

Definition OSSL_PARAM_construct_int64 (k : option string) (buf : option addr)
  : OSSL_PARAM :=
  ossl_param_construct k OSSL_PARAM_INTEGER buf sizeof_int64_t.

Definition OSSL_PARAM_construct_uint64 (k : option string) (buf : option addr)
  : OSSL_PARAM :=
  ossl_param_construct k OSSL_PARAM_UNSIGNED_INTEGER buf sizeof_uint64_t.

Definition OSSL_PARAM_get_size_t (p : option nat) (val : option addr) : M Z :=
  if sizeof_size_t =? sizeof_uint32_t then OSSL_PARAM_get_uint32 p val
  else if sizeof_size_t =? sizeof_uint64_t then OSSL_PARAM_get_uint64 p val
  else
    p <- lift_option p ;;
    val <- lift_option val ;;
    general_get_uint p val sizeof_size_t.

Definition OSSL_PARAM_set_size_t (p : option nat) (val : Z) : M Z :=
  if sizeof_size_t =? sizeof_uint32_t then OSSL_PARAM_set_uint32 p (cast_uint32 val)
  else if sizeof_size_t =? sizeof_uint64_t
  then OSSL_PARAM_set_uint64 p (cast_uint64 val)
  else
    p <- lift_option p ;;
    general_set_uint p (native_bytes (Z.to_nat sizeof_size_t) val) sizeof_size_t.

Definition OSSL_PARAM_construct_size_t (k : option string) (buf : option addr)
  : OSSL_PARAM :=
  ossl_param_construct k OSSL_PARAM_UNSIGNED_INTEGER buf sizeof_size_t.

Definition OSSL_PARAM_get_time_t (p : option nat) (val : option addr) : M Z :=
  if sizeof_time_t =? sizeof_int32_t then OSSL_PARAM_get_int32 p val
  else if sizeof_time_t =? sizeof_int64_t then OSSL_PARAM_get_int64 p val
  else
    p <- lift_option p ;;
    val <- lift_option val ;;
    general_get_int p val sizeof_time_t.

Definition OSSL_PARAM_set_time_t (p : option nat) (val : Z) : M Z :=
  if sizeof_time_t =? sizeof_int32_t then OSSL_PARAM_set_int32 p (cast_int32 val)
  else if sizeof_time_t =? sizeof_int64_t then OSSL_PARAM_set_int64 p (cast_int64 val)
  else
    p <- lift_option p ;;
    general_set_int p (native_bytes (Z.to_nat sizeof_time_t) val) sizeof_time_t.

Definition OSSL_PARAM_construct_time_t (k : option string) (buf : option addr)
  : OSSL_PARAM :=
  ossl_param_construct k OSSL_PARAM_INTEGER buf sizeof_time_t.

(** ** Big-number accessor *)

(** Modelled from the spec: BN_bn2nativepad (crypto/bn, not part of the
    sources at hand) writes the magnitude in native byte order, padded to
    [tolen] bytes, and returns -1 when it does not fit. *)
Definition BN_bn2nativepad (v : Z) (to : addr) (tolen : Z) : M Z :=
  if (tolen <? 0) || (tolen <? BN_num_bytes v) then ret (-1)
  else
    store to (native_bytes (Z.to_nat tolen) (Z.abs v)) ;;
    ret tolen.

(** Modelled from the spec: BN_signed_bn2native (crypto/bn, not part of the
    sources at hand) writes the two's complement form in native byte order,
    sign-extended to [tolen] bytes, and returns -1 when it does not fit.
    The library asks for the bytes of the magnitude and for one more when
    the top bit of the magnitude's first byte is not the sign: set on a
    number that is not negative, clear on a negative one. *)
Definition BN_signed_bn2native (v : Z) (to : addr) (tolen : Z) : M Z :=
  let ext :=
    if 8 * BN_num_bytes v =? BN_num_bits v
    then (if BN_is_negative v then 0 else 1)
    else (if BN_is_negative v then 1 else 0) in
  if (tolen <? 0) || (tolen <? BN_num_bytes v + ext) then ret (-1)
  else
    store to (native_bytes (Z.to_nat tolen) v) ;;
    ret tolen.

Definition OSSL_PARAM_set_BN (p : option nat) (val : option Z) : M Z :=
  match p with
  | None => err_null_argument ;; ret 0
  | Some p =>
      set_return_size p 0 ;;
      match val with
      | None => err_null_argument ;; ret 0
      | Some val =>
          d <- deref p ;;
          if (data_type d =? OSSL_PARAM_UNSIGNED_INTEGER) && BN_is_negative val then
            err_bad_type ;;
            ret 0
          else
            let bytes := BN_num_bytes val in
            let bytes := if data_type d =? OSSL_PARAM_INTEGER then bytes + 1 else bytes in
            let bytes := if bytes =? 0 then bytes + 1 else bytes in
            match data d with
            | None =>
                set_return_size p bytes ;;
                ret 1
            | Some a =>
                if bytes <=? data_size d then
                  if data_type d =? OSSL_PARAM_UNSIGNED_INTEGER then
                    r <- BN_bn2nativepad val a (cast_int (data_size d)) ;;
                    if r <? 0 then
                      ERR_raise CRYPTO_R_INTEGER_OVERFLOW ;;
                      ret 0
                    else
                      set_return_size p (data_size d) ;;
                      ret 1
                  else if data_type d =? OSSL_PARAM_INTEGER then
                    r <- BN_signed_bn2native val a (cast_int (data_size d)) ;;
                    if r <? 0 then
                      ERR_raise CRYPTO_R_INTEGER_OVERFLOW ;;
                      ret 0
                    else
                      set_return_size p (data_size d) ;;
                      ret 1
                  else
                    err_bad_type ;;
                    ret 0
                else
                  set_return_size p bytes ;;
                  err_too_small ;;
                  ret 0
            end
      end
  end.

(** Modelled from the spec: BN_native2bn (crypto/bn, not part of the sources
    at hand) reads [len] bytes in native byte order as a magnitude; a
    negative length yields the null pointer.  The allocation of the number
    is not modelled. *)
Definition BN_native2bn (s : addr) (len : Z) (r : option Z) : M (option Z) :=
  if len <? 0 then ret None
  else
    bs <- load s (Z.to_nat len) ;;
    ret (Some (native_value bs)).

(** Modelled from the spec: BN_signed_native2bn (crypto/bn, not part of the
    sources at hand) reads [len] bytes in native byte order as a two's
    complement number. *)
Definition BN_signed_native2bn (s : addr) (len : Z) (r : option Z)
  : M (option Z) :=
  if len <? 0 then ret None
  else
    bs <- load s (Z.to_nat len) ;;
    ret (Some (if len =? 0 then 0 else to_signed (8 * len) (native_value bs))).

(** [val] is where the caller's BIGNUM pointer is: [None] when the caller
    passed no variable, [Some b] when the variable holds [b].  The result
    carries the new contents of [*val]. *)
Definition OSSL_PARAM_get_BN (p : option nat) (val : option (option Z))
  : M (Z * option (option Z)) :=
  match val, p with
  | Some v, Some p =>
      d <- deref p ;;
      match data d with
      | None => err_null_argument ;; ret (0, val)
      | Some a =>
          b <- (if data_type d =? OSSL_PARAM_UNSIGNED_INTEGER then
                  BN_native2bn a (cast_int (data_size d)) v
                else if data_type d =? OSSL_PARAM_INTEGER then
                  BN_signed_native2bn a (cast_int (data_size d)) v
                else
                  err_bad_type ;;
                  ret None) ;;
          match b with
          | None =>
              ERR_raise ERR_R_BN_LIB ;;
              ret (0, val)
          | Some _ => ret (1, Some b)
          end
      end
  | _, _ => err_null_argument ;; ret (0, val)
  end.

Definition OSSL_PARAM_construct_BN (k : option string) (buf : option addr)
    (bsize : Z) : OSSL_PARAM :=
  ossl_param_construct k OSSL_PARAM_UNSIGNED_INTEGER buf bsize.

(** ** Double accessors *)

Definition D_POW_31 : double := double_of_Z (Z.shiftl 1 31).

Definition OSSL_PARAM_get_double (p : option nat) (val : option addr) : M Z :=
  match val, p with
  | Some val, Some p =>
      d <- deref p ;;
      match data d with
      | None => err_null_argument ;; ret 0
      | Some a =>
          if data_type d =? OSSL_PARAM_REAL then
            if data_size d =? sizeof_double then
              dd <- load a 8 ;;
              store val dd ;;
              ret 1
            else
              err_unsupported_real ;;
              ret 0
          else if data_type d =? OSSL_PARAM_UNSIGNED_INTEGER then
            if data_size d =? sizeof_uint32_t then
              u32 <- load_uint32 a ;;
              store_double val (double_of_Z u32) ;;
              ret 1
            else if data_size d =? sizeof_uint64_t then
              u64 <- load_uint64 a ;;
              if Z.shiftr u64 real_shift =? 0 then
                store_double val (double_of_Z u64) ;;
                ret 1
              else
                err_inexact ;;
                ret 0
            else
              err_bad_type ;;
              ret 0
          else if data_type d =? OSSL_PARAM_INTEGER then
            if data_size d =? sizeof_int32_t then
              i32 <- load_int32 a ;;
              store_double val (double_of_Z i32) ;;
              ret 1
            else if data_size d =? sizeof_int64_t then
              i64 <- load_int64 a ;;
              let u64 := cast_uint64 (if i64 <? 0 then - i64 else i64) in
              if Z.shiftr u64 real_shift =? 0 then
                store_double val (double_add (double_of_Z 0) (double_of_Z i64)) ;;
                ret 1
              else
                err_inexact ;;
                ret 0
            else
              err_bad_type ;;
              ret 0
          else
            err_bad_type ;;
            ret 0
      end
  | _, _ => err_null_argument ;; ret 0
  end.

Definition OSSL_PARAM_set_double (p : option nat) (val : double) : M Z :=
  let d_pow_31 := D_POW_31 in
  let d_pow_32 := double_mul (double_of_Z 2) D_POW_31 in
  let d_pow_63 := double_mul (double_mul (double_of_Z 2) D_POW_31) D_POW_31 in
  let d_pow_64 := double_mul (double_mul (double_of_Z 4) D_POW_31) D_POW_31 in
  match p with
  | None => err_null_argument ;; ret 0
  | Some p =>
      set_return_size p 0 ;;
      d <- deref p ;;
      if data_type d =? OSSL_PARAM_REAL then
        match data d with
        | None =>
            set_return_size p sizeof_double ;;
            ret 1
        | Some a =>
            if data_size d =? sizeof_double then
              set_return_size p sizeof_double ;;
              store_double a val ;;
              ret 1
            else
              err_unsupported_real ;;
              ret 0
        end
      else if data_type d =? OSSL_PARAM_UNSIGNED_INTEGER then
        match data d with
        | None =>
            set_return_size p sizeof_double ;;
            ret 1
        | Some a =>
            if negb (SFeqb val (double_of_Z (double_to_uint64 val))) then
              err_inexact ;;
              ret 0
            else if data_size d =? sizeof_uint32_t then
              if SFleb (double_of_Z 0) val && SFltb val d_pow_32 then
                set_return_size p sizeof_uint32_t ;;
                store_uint32 a (double_trunc val) ;;
                ret 1
              else
                err_out_of_range ;;
                ret 0
            else if data_size d =? sizeof_uint64_t then
              if SFleb (double_of_Z 0) val && SFltb val d_pow_64 then
                set_return_size p sizeof_uint64_t ;;
                store_uint64 a (double_trunc val) ;;
                ret 1
              else
                err_out_of_range ;;
                ret 0
            else
              err_bad_type ;;
              ret 0
        end
      else if data_type d =? OSSL_PARAM_INTEGER then
        match data d with
        | None =>
            set_return_size p sizeof_double ;;
            ret 1
        | Some a =>
            if negb (SFeqb val (double_of_Z (double_to_int64 val))) then
              err_inexact ;;
              ret 0
            else if data_size d =? sizeof_int32_t then
              if SFleb (SFopp d_pow_31) val && SFltb val d_pow_31 then
                set_return_size p sizeof_int32_t ;;
                store_int32 a (double_trunc val) ;;
                ret 1
              else
                err_out_of_range ;;
                ret 0
            else if data_size d =? sizeof_int64_t then
              if SFleb (SFopp d_pow_63) val && SFltb val d_pow_63 then
                set_return_size p sizeof_int64_t ;;
                store_int64 a (double_trunc val) ;;
                ret 1
              else
                err_out_of_range ;;
                ret 0
            else
              err_bad_type ;;
              ret 0
        end
      else
        err_bad_type ;;
        ret 0
  end.

Definition OSSL_PARAM_construct_double (k : option string) (buf : option addr)
  : OSSL_PARAM :=
  ossl_param_construct k OSSL_PARAM_REAL buf sizeof_double.

(** ** String accessors *)

(** [val] is where the caller's pointer variable is: [None] when the
    caller passed no variable, [Some q] when the variable holds [q].  The
    result carries the new contents of [*val], [*max_len] and [*used_len]. *)
Definition get_string_internal (p : option nat) (val : option (option addr))
    (max_len : Z) (used_len : option Z) (type : Z)
  : M (Z * option (option addr) * Z * option Z) :=
  match p with
  | None => err_null_argument ;; ret (0, val, max_len, used_len)
  | Some p =>
      if is_null val && is_null used_len then
        err_null_argument ;;
        ret (0, val, max_len, used_len)
      else
        d <- deref p ;;
        if negb (data_type d =? type) then
          err_bad_type ;;
          ret (0, val, max_len, used_len)
        else
          let sz := data_size d in
          let alloc_sz :=
            (sz + (if (type =? OSSL_PARAM_UTF8_STRING) || (sz =? 0) then 1 else 0))
            mod 2 ^ 64 in
          let used_len := match used_len with
                          | Some _ => Some sz
                          | None => None
                          end in
          match data d with
          | None => err_null_argument ;; ret (0, val, max_len, used_len)
          | Some a =>
              match val with
              | None => ret (1, val, max_len, used_len)
              | Some None =>
                  q <- OPENSSL_malloc alloc_sz ;;
                  match q with
                  | None => ret (0, val, max_len, used_len)
                  | Some b =>
                      if alloc_sz <? sz then
                        err_too_small ;;
                        ret (0, Some (Some b), alloc_sz, used_len)
                      else
                        src <- block a ;;
                        memcpy b 0 src (Z.to_nat sz) ;;
                        ret (1, Some (Some b), alloc_sz, used_len)
                  end
              | Some (Some b) =>
                  if max_len <? sz then
                    err_too_small ;;
                    ret (0, val, max_len, used_len)
                  else
                    src <- block a ;;
                    memcpy b 0 src (Z.to_nat sz) ;;
                    ret (1, val, max_len, used_len)
              end
          end
  end.

Definition OSSL_PARAM_get_utf8_string (p : option nat)
    (val : option (option addr)) (max_len : Z)
  : M (Z * option (option addr)) :=
  r <- get_string_internal p val max_len None OSSL_PARAM_UTF8_STRING ;;
  let '(ret0, val, max_len, _) := r in
  d <- (match p with Some p => deref p | None => undefined end) ;;
  let data_length := data_size d in
  if ret0 =? 0 then ret (0, val)
  else
    data_length <- (if max_len <=? data_length then
                      a <- lift_option (data d) ;;
                      src <- block a ;;
                      lift_option (OPENSSL_strnlen src (Z.to_nat data_length))
                    else ret data_length) ;;
    if max_len <=? data_length then
      ERR_raise CRYPTO_R_NO_SPACE_FOR_TERMINATING_NULL ;;
      ret (0, val)
    else
      b <- lift_option (mjoin val) ;;
      store_at b (Z.to_nat data_length) [0] ;;
      ret (ret0, val).

Definition OSSL_PARAM_get_octet_string (p : option nat)
    (val : option (option addr)) (max_len : Z) (used_len : option Z)
  : M (Z * option (option addr) * Z * option Z) :=
  get_string_internal p val max_len used_len OSSL_PARAM_OCTET_STRING.

Definition set_string_internal (p : nat) (val : addr) (len : Z) (type : Z)
  : M Z :=
  d <- deref p ;;
  if negb (data_type d =? type) then
    err_bad_type ;;
    ret 0
  else
    set_return_size p len ;;
    match data d with
    | None => ret 1
    | Some a =>
        if data_size d <? len then
          err_too_small ;;
          ret 0
        else
          src <- block val ;;
          memcpy a 0 src (Z.to_nat len) ;;
          (if (type =? OSSL_PARAM_UTF8_STRING) && (len <? data_size d)
           then store_at a (Z.to_nat len) [0]
           else ret tt) ;;
          ret 1
    end.

Definition OSSL_PARAM_set_utf8_string (p : option nat) (val : option addr)
  : M Z :=
  match p, val with
  | Some p, Some val =>
      set_return_size p 0 ;;
      s <- block val ;;
      len <- lift_option (strlen s) ;;
      set_string_internal p val len OSSL_PARAM_UTF8_STRING
  | _, _ => err_null_argument ;; ret 0
  end.

Definition OSSL_PARAM_set_octet_string (p : option nat) (val : option addr)
    (len : Z) : M Z :=
  match p, val with
  | Some p, Some val =>
      set_return_size p 0 ;;
      set_string_internal p val len OSSL_PARAM_OCTET_STRING
  | _, _ => err_null_argument ;; ret 0
  end.

(** OSSL_PARAM_construct_utf8_string measures the string when no size is
    given. *)
Definition OSSL_PARAM_construct_utf8_string (k : option string)
    (buf : option addr) (bsize : Z) : M OSSL_PARAM :=
  bsize <- (match buf with
            | Some a =>
                if bsize =? 0 then
                  s <- block a ;;
                  lift_option (strlen s)
                else ret bsize
            | None => ret bsize
            end) ;;
  ret (ossl_param_construct k OSSL_PARAM_UTF8_STRING buf bsize).

Definition OSSL_PARAM_construct_octet_string (k : option string)
    (buf : option addr) (bsize : Z) : OSSL_PARAM :=
  ossl_param_construct k OSSL_PARAM_OCTET_STRING buf bsize.

(** ** Pointer accessors *)

Definition load_ptr (a : addr) : M (option addr) :=
  bs <- load a (Z.to_nat sizeof_ptr) ;; ret (bits_ptr (native_value bs)).
Definition store_ptr (a : addr) (q : option addr) : M unit :=
  store a (native_bytes (Z.to_nat sizeof_ptr) (ptr_bits q)).

(** As for the string accessors, [val] is where the caller's pointer
    variable is and the result carries the new [*val] and [*used_len]. *)
Definition get_ptr_internal_skip_checks (p : nat) (val : option (option addr))
    (used_len : option Z) : M (Z * option (option addr) * option Z) :=
  d <- deref p ;;
  let used_len := match used_len with
                  | Some _ => Some (data_size d)
                  | None => None
                  end in
  a <- lift_option (data d) ;;
  q <- load_ptr a ;;
  match val with
  | None => undefined
  | Some _ => ret (1, Some q, used_len)
  end.

Definition get_ptr_internal (p : option nat) (val : option (option addr))
    (used_len : option Z) (type : Z)
  : M (Z * option (option addr) * option Z) :=
  match val, p with
  | Some _, Some p =>
      d <- deref p ;;
      if negb (data_type d =? type) then
        err_bad_type ;;
        ret (0, val, used_len)
      else get_ptr_internal_skip_checks p val used_len
  | _, _ => err_null_argument ;; ret (0, val, used_len)
  end.

Definition OSSL_PARAM_get_utf8_ptr (p : option nat) (val : option (option addr))
  : M (Z * option (option addr) * option Z) :=
  get_ptr_internal p val None OSSL_PARAM_UTF8_PTR.

Definition OSSL_PARAM_get_octet_ptr (p : option nat)
    (val : option (option addr)) (used_len : option Z)
  : M (Z * option (option addr) * option Z) :=
  get_ptr_internal p val used_len OSSL_PARAM_OCTET_PTR.

Definition set_ptr_internal (p : nat) (val : option addr) (type : Z) (len : Z)
  : M Z :=
  d <- deref p ;;
  if negb (data_type d =? type) then
    err_bad_type ;;
    ret 0
  else
    set_return_size p len ;;
    (match data d with
     | Some a => store_ptr a val
     | None => ret tt
     end) ;;
    ret 1.

Definition OSSL_PARAM_set_utf8_ptr (p : option nat) (val : option addr) : M Z :=
  match p with
  | None => err_null_argument ;; ret 0
  | Some p =>
      set_return_size p 0 ;;
      len <- (match val with
              | None => ret 0
              | Some v =>
                  s <- block v ;;
                  lift_option (strlen s)
              end) ;;
      set_ptr_internal p val OSSL_PARAM_UTF8_PTR len
  end.

Definition OSSL_PARAM_set_octet_ptr (p : option nat) (val : option addr)
    (used_len : Z) : M Z :=
  match p with
  | None => err_null_argument ;; ret 0
  | Some p =>
      set_return_size p 0 ;;
      set_ptr_internal p val OSSL_PARAM_OCTET_PTR used_len
  end.

Definition OSSL_PARAM_construct_utf8_ptr (k : option string)
    (buf : option addr) (bsize : Z) : OSSL_PARAM :=
  ossl_param_construct k OSSL_PARAM_UTF8_PTR buf bsize.

Definition OSSL_PARAM_construct_octet_ptr (k : option string)
    (buf : option addr) (bsize : Z) : OSSL_PARAM :=
  ossl_param_construct k OSSL_PARAM_OCTET_PTR buf bsize.

(** ** Aggregate helpers *)

Definition ossl_param_get1_octet_string_from_param (p : option nat)
    (out : option addr) (out_len : Z) : M (Z * option addr * Z) :=
  match p with
  | None => ret (-1, out, out_len)
  | Some p' =>
      d <- deref p' ;;
      r <- (if negb (is_null (data d)) && (0 <? data_size d)
            then OSSL_PARAM_get_octet_string p (Some None) 0 (Some 0)
            else ret (1, Some None, 0, Some 0)) ;;
      let '(ok, buf, _, len) := r in
      if ok =? 0 then ret (0, out, out_len)
      else
        OPENSSL_clear_free out out_len ;;
        len <- lift_option len ;;
        ret (1, mjoin buf, len)
  end.

Definition ossl_param_get1_octet_string (params : option nat)
    (name : option string) (out : option addr) (out_len : Z)
  : M (Z * option addr * Z) :=
  p <- OSSL_PARAM_locate_const params name ;;
  ossl_param_get1_octet_string_from_param p out out_len.

(** The loop of setbuf_fromparams over the [n] pointers of the array [p];
    [None] stands for the jump to the err label. *)
Fixpoint setbuf_loop (p : list nat) (n : nat) (pkt : WPACKET)
  : M (option WPACKET) :=
  match n with
  | O => ret (Some pkt)
  | S n' =>
      match p with
      | [] => undefined
      | pi :: rest =>
          d <- deref pi ;;
          if negb (data_type d =? OSSL_PARAM_OCTET_STRING) then ret None
          else
            match data d with
            | Some a =>
                if negb (data_size d =? 0) then
                  r <- WPACKET_memcpy pkt a (data_size d) ;;
                  if fst r =? 0 then ret None
                  else setbuf_loop rest n' (snd r)
                else setbuf_loop rest n' pkt
            | None => setbuf_loop rest n' pkt
            end
      end
  end.

(** The result carries the new contents of [*outlen]. *)
Definition setbuf_fromparams (n : Z) (p : list nat) (out : option addr)
    (outlen : Z) : M (Z * Z) :=
  r <- (match out with
        | None => WPACKET_init_null 0
        | Some _ => WPACKET_init_static_len out outlen 0
        end) ;;
  if fst r =? 0 then ret (0, outlen)
  else
    l <- setbuf_loop p (Z.to_nat n) (snd r) ;;
    match l with
    | None =>
        WPACKET_cleanup (snd r) ;;
        ret (0, outlen)
    | Some pkt =>
        w <- WPACKET_get_total_written pkt ;;
        if fst w =? 0 then
          WPACKET_cleanup pkt ;;
          ret (0, outlen)
        else
          f <- WPACKET_finish pkt ;;
          if f =? 0 then
            WPACKET_cleanup pkt ;;
            ret (0, snd w)
          else
            WPACKET_cleanup pkt ;;
            ret (1, snd w)
    end.

(** The result carries the new contents of [*out] and [*out_len]. *)
Definition ossl_param_get1_concat_octet_string (n : Z) (ps : list nat)
    (out : option addr) (out_len : Z) : M (Z * option addr * Z) :=
  if n =? 0 then ret (1, out, out_len)
  else
    r <- setbuf_fromparams n ps None 0 ;;
    if fst r =? 0 then ret (0, out, out_len)
    else
      let sz := snd r in
      if sz =? 0 then
        res <- OPENSSL_zalloc 1 ;;
        match res with
        | None => ret (0, out, out_len)
        | Some _ =>
            OPENSSL_clear_free out out_len ;;
            ret (1, res, sz)
        end
      else
        res <- OPENSSL_malloc sz ;;
        match res with
        | None => ret (0, out, out_len)
        | Some _ =>
            r <- setbuf_fromparams n ps res sz ;;
            if fst r =? 0 then
              OPENSSL_clear_free res (snd r) ;;
              ret (0, out, out_len)
            else
              OPENSSL_clear_free out out_len ;;
              ret (1, res, snd r)
        end.

Definition OSSL_PARAM_construct_end : OSSL_PARAM := OSSL_PARAM_END.

Definition get_string_ptr_internal (p : option nat)
    (val : option (option addr)) (used_len : option Z) (ref_type type : Z)
  : M (Z * option (option addr) * option Z) :=
  match val, p with
  | Some _, Some p =>
      d <- deref p ;;
      if data_type d =? ref_type then
        get_ptr_internal_skip_checks p val used_len
      else if negb (data_type d =? type) then
        err_bad_type ;;
        ret (0, val, used_len)
      else
        let used_len := match used_len with
                        | Some _ => Some (data_size d)
                        | None => None
                        end in
        ret (1, Some (data d), used_len)
  | _, _ => err_null_argument ;; ret (0, val, used_len)
  end.

Definition OSSL_PARAM_get_utf8_string_ptr (p : option nat)
    (val : option (option addr)) : M (Z * option (option addr) * option Z) :=
  get_string_ptr_internal p val None OSSL_PARAM_UTF8_PTR OSSL_PARAM_UTF8_STRING.

Definition OSSL_PARAM_get_octet_string_ptr (p : option nat)
    (val : option (option addr)) (used_len : option Z)
  : M (Z * option (option addr) * option Z) :=
  get_string_ptr_internal p val used_len
    OSSL_PARAM_OCTET_PTR OSSL_PARAM_OCTET_STRING.

Definition OSSL_PARAM_set_octet_string_or_ptr (p : option nat)
    (val : option addr) (len : Z) : M Z :=
  match p with
  | None => err_null_argument ;; ret 0
  | Some p' =>
      d <- deref p' ;;
      if data_type d =? OSSL_PARAM_OCTET_STRING then
        OSSL_PARAM_set_octet_string p val len
      else if data_type d =? OSSL_PARAM_OCTET_PTR then
        OSSL_PARAM_set_octet_ptr p val len
      else
        err_bad_type ;;
        ret 0
  end.

End Params.

(** ** Sample machines *)

(** A descriptor freshly constructed under the key "p". *)
Definition sample_param (ty : Z) (buf : option addr) (sz : Z) : OSSL_PARAM :=
  ossl_param_construct (Some "p"%string) ty buf sz.

(** One descriptor and the terminator; block 1 is a buffer of [sz] zero
    bytes for the descriptor, block 2 a caller's variable of the same size. *)
Definition sample_machine (ty : Z) (buf : option addr) (sz : Z) : machine :=
  {| params := [sample_param ty buf sz; OSSL_PARAM_END];
     heap := {[ 1%positive := replicate (Z.to_nat sz) 0;
                2%positive := replicate (Z.to_nat sz) 0 ]};
     errors := [];
     avail := 64 |}.

(** A UTF8_STRING descriptor over the two bytes "hi", an OCTET_STRING
    descriptor without data, and the terminator; blocks 2 and 3 are buffers
    of a caller, of 3 and 7 bytes. *)
Definition string_machine : machine :=
  {| params := [ossl_param_construct (Some "name"%string)
                  OSSL_PARAM_UTF8_STRING (Some 1%positive) 2;
                ossl_param_construct (Some "salt"%string)
                  OSSL_PARAM_OCTET_STRING None 0;
                OSSL_PARAM_END];
     heap := {[ 1%positive := [104; 105];
                2%positive := [9; 9; 9];
                3%positive := replicate 7 9 ]};
     errors := [];
     avail := 64 |}.

(** Two OCTET_STRING descriptors over the bytes 1 2 and 3 4 5, and the
    terminator. *)
Definition octet_machine : machine :=
  {| params := [ossl_param_construct (Some "info"%string)
                  OSSL_PARAM_OCTET_STRING (Some 1%positive) 2;
                ossl_param_construct (Some "info"%string)
                  OSSL_PARAM_OCTET_STRING (Some 2%positive) 3;
                OSSL_PARAM_END];
     heap := {[ 1%positive := [1; 2]; 2%positive := [3; 4; 5] ]};
     errors := [];
     avail := 64 |}.

(** ** Vocabulary of the properties *)

(** Every entry of [arr] before position [n] has a key other than [k]. *)
Definition no_match_before (arr : list OSSL_PARAM) (k : string) (n : nat) : Prop :=
  forall j, (j < n)%nat ->
    exists d k', arr !! j = Some d /\ key d = Some k' /\ k' <> k.

(** Setting [v] through [set], getting it through [get] into the caller's
    variable at [out], and reading that variable with [read] gives [v]
    back; both calls return 1. *)
Definition round_trip (set : option nat -> Z -> M Z)
    (get : option nat -> option addr -> M Z) (read : addr -> M Z)
    (p : nat) (out : addr) (v : Z) (m : machine) : Prop :=
  exists m1 m2,
    set (Some p) v m = Some (1, m1)
    /\ get (Some p) (Some out) m1 = Some (1, m2)
    /\ read out m2 = Some (v, m2).

(** The computation [c] assigns the return_size of the descriptor at [p]:
    what it does, and so the value return_size holds afterwards, is the
    same whatever value return_size held before. *)
Definition assigns_return_size (c : M Z) (p : nat) : Prop :=
  forall m d rs0, params m !! p = Some d ->
    c (with_params m (<[p := with_return_size d rs0]> (params m))) = c m.

(** The computation [c] leaves every descriptor as it was. *)
Definition keeps_params {A} (c : M A) : Prop :=
  forall m r m', c m = Some (r, m') -> params m' = params m.

(** The computation [c] neither reads nor writes descriptors. *)
Definition ignores_params {A} (c : M A) : Prop :=
  forall m ps,
    c (with_params m ps)
    = match c m with
      | Some (r, m') => Some (r, with_params m' ps)
      | None => None
      end.

(** The pointer [q] of a descriptor array refers to a descriptor. *)
Definition points_to_descriptor (m : machine) (q : nat) : Prop :=
  exists d, params m !! q = Some d.

(** It refers to a descriptor that is not an OCTET_STRING. *)
Definition wrong_type (m : machine) (q : nat) : Prop :=
  exists d, params m !! q = Some d /\ data_type d <> OSSL_PARAM_OCTET_STRING.

(** It refers to an OCTET_STRING descriptor that contributes no bytes. *)
Definition empty_octet_string (m : machine) (q : nat) : Prop :=
  exists d, params m !! q = Some d
    /\ data_type d = OSSL_PARAM_OCTET_STRING
    /\ (data d = None \/ data_size d = 0).

(** An array of [n] keyed entries followed by the terminator starts at
    position [p] of the descriptor store. *)
Definition array_at (ps : list OSSL_PARAM) (p n : nat) : Prop :=
  (forall j, (j < n)%nat -> exists d, ps !! (p + j)%nat = Some d /\ key d <> None)
  /\ exists e, ps !! (p + n)%nat = Some e /\ key e = None.

(** The descriptor as OSSL_PARAM_set_all_unmodified leaves it. *)
Definition unmodified (d : OSSL_PARAM) : OSSL_PARAM :=
  with_return_size d OSSL_PARAM_UNMODIFIED.

(** One descriptor of type [ty] over block 1, which holds [bytes], and the
    terminator; block 2 is a caller's variable of 8 zero bytes. *)
Definition buffer_machine (ty : Z) (bytes : list Z) : machine :=
  {| params := [sample_param ty (Some 1%positive) (Z.of_nat (length bytes));
                OSSL_PARAM_END];
     heap := {[ 1%positive := bytes; 2%positive := replicate 8 0 ]};
     errors := [];
     avail := 64 |}.

(** A UTF8_STRING descriptor over the 4 bytes of block 1, an OCTET_STRING
    descriptor over the 3 bytes of block 2, and the terminator; block 3
    holds the caller's string "ok", block 4 is a caller's buffer of 6
    bytes. *)
Definition text_machine : machine :=
  {| params := [ossl_param_construct (Some "name"%string)
                  OSSL_PARAM_UTF8_STRING (Some 1%positive) 4;
                ossl_param_construct (Some "salt"%string)
                  OSSL_PARAM_OCTET_STRING (Some 2%positive) 3;
                OSSL_PARAM_END];
     heap := {[ 1%positive := [9; 9; 9; 9];
                2%positive := [1; 2; 3];
                3%positive := [111; 107; 0];
                4%positive := replicate 6 7 ]};
     errors := [];
     avail := 64 |}.


(** [src] widened by [n] bytes of padding on its most significant side. *)
Definition extend (be : bool) (pad : Z) (n : nat) (src : list Z) : list Z :=
  if be then replicate n pad ++ src else src ++ replicate n pad.

(** The [n] least significant bytes of [src]. *)
Definition truncate (be : bool) (n : nat) (src : list Z) : list Z :=
  if be then drop (length src - n) src else take n src.

(** The computation [c] raises no error. *)
Definition silent {A} (c : M A) : Prop :=
  forall m x m', c m = Some (x, m') -> errors m' = errors m.

(** The computation [c] returns 1 and raises nothing, or returns 0 and has
    raised one error. *)
Definition reports (c : M Z) : Prop :=
  forall m r m', c m = Some (r, m') ->
    (r = 1 /\ errors m' = errors m)
    \/ (r = 0 /\ exists e, errors m' = e :: errors m).

(** Between [m] and [m'] no block of the heap was created, freed or resized,
    none but [buf] was written and nothing was allocated. *)
Definition writes_only (buf : option addr) (m m' : machine) : Prop :=
  (forall b, buf <> Some b -> heap m' !! b = heap m !! b)
  /\ (forall b, length <$> heap m' !! b = length <$> heap m !! b)
  /\ avail m' = avail m.

(** The computation [c] writes no block but [buf]. *)
Definition touches (buf : option addr) {A} (c : M A) : Prop :=
  forall m r m', c m = Some (r, m') -> writes_only buf m m'.

(** Run on a descriptor [p] whose data pointer is [buf], the computation [c]
    changes no descriptor but [p], of [p] nothing but the return size, and
    writes no block but [buf]. *)
Definition confined (p : nat) (buf : option addr) {A} (c : M A) : Prop :=
  forall m d r m', params m !! p = Some d -> data d = buf ->
    c m = Some (r, m') ->
    (exists rs, params m' = <[p := with_return_size d rs]> (params m))
    /\ writes_only buf m m'.

(** The same, whatever the data pointer of [p] is. *)
Definition confined_to_descriptor (p : nat) {A} (c : M A) : Prop :=
  forall m d r m', params m !! p = Some d -> c m = Some (r, m') ->
    (exists rs, params m' = <[p := with_return_size d rs]> (params m))
    /\ (forall b, data d <> Some b -> heap m' !! b = heap m !! b)
    /\ (forall b, length <$> heap m' !! b = length <$> heap m !! b)
    /\ avail m' = avail m.

(** What a set accessor of a number leaves in return_size: nothing, or the
    size of a 32-bit, of a 64-bit or of the descriptor's own buffer. *)
Definition marked (sz rs : Z) : Prop := rs = 0 \/ rs = 4 \/ rs = 8 \/ rs = sz.

(** What OSSL_PARAM_set_BN of the number [v] leaves there: nothing, the size
    of the buffer, or the bytes the number needs, which are one more on an
    INTEGER descriptor and 1 at least. *)
Definition marked_BN (v sz rs : Z) : Prop :=
  rs = 0 \/ rs = sz \/ rs = BN_num_bytes v + 1 \/ rs = Z.max 1 (BN_num_bytes v).

(** Run on a descriptor [p] of data size [sz] whose return size satisfies
    [ok], the computation [c] leaves a return size that does. *)
Definition settles (p : nat) (sz : Z) (ok : Z -> Prop) {A} (c : M A) : Prop :=
  forall m d r m', params m !! p = Some d -> data_size d = sz ->
    ok (return_size d) -> c m = Some (r, m') ->
    exists rs, params m' !! p = Some (with_return_size d rs) /\ ok rs.

(** Whatever the outcome of [c] on a descriptor [p], return_size is then
    such a value and, unless the buffer has the size of the sentinel,
    OSSL_PARAM_modified answers 1. *)
Definition marks_modified (p : nat) {A} (c : M A) : Prop :=
  forall m d r m', params m !! p = Some d -> c m = Some (r, m') ->
    (exists rs, params m' !! p = Some (with_return_size d rs)
                /\ marked (data_size d) rs)
    /\ (data_size d <> OSSL_PARAM_UNMODIFIED ->
        OSSL_PARAM_modified (Some p) m' = Some (1, m')).

(** The same for OSSL_PARAM_set_BN of the number [v]. *)
Definition marks_modified_BN (p : nat) (v : Z) {A} (c : M A) : Prop :=
  forall m d r m', params m !! p = Some d -> c m = Some (r, m') ->
    exists rs, params m' !! p = Some (with_return_size d rs)
               /\ marked_BN v (data_size d) rs
               /\ (rs <> OSSL_PARAM_UNMODIFIED ->
                   OSSL_PARAM_modified (Some p) m' = Some (1, m')).

(** The reasons a conversion between numbers can fail for. *)
Definition conversion_reasons : list reason :=
  [ ERR_R_PASSED_NULL_PARAMETER;
    CRYPTO_R_PARAM_VALUE_TOO_LARGE_FOR_DESTINATION;
    CRYPTO_R_PARAM_CANNOT_BE_REPRESENTED_EXACTLY;
    CRYPTO_R_PARAM_UNSUPPORTED_FLOATING_POINT_FORMAT;
    CRYPTO_R_PARAM_OF_INCOMPATIBLE_TYPE ].

(** Run on a descriptor [p] of type [ty], the computation [c] raises no
    error but those of [allowed] and leaves the descriptor its type. *)
Definition raises_only (p : nat) (ty : Z) (allowed : list reason) {A}
    (c : M A) : Prop :=
  forall m d r m', params m !! p = Some d -> data_type d = ty ->
    c m = Some (r, m') ->
    (exists rs, params m' !! p = Some (with_return_size d rs))
    /\ exists es, errors m' = es ++ errors m
                  /\ Forall (fun e => In e allowed) es.

(** Called on a descriptor [p], the computation [c] raises no error but
    those of [allowed]. *)
Definition only_raises (p : nat) (allowed : list reason) {A} (c : M A) : Prop :=
  forall m d r m', params m !! p = Some d -> c m = Some (r, m') ->
    exists es, errors m' = es ++ errors m
               /\ Forall (fun e => In e allowed) es.

(** * Properties *)

(** ** Lookup *)

Lemma strcmp_eq (a b : string) : strcmp a b = 0 <-> a = b.
Proof.
  revert b; induction a as [|c a IH]; intros [|c' b]; simpl; try (split; [lia | discriminate]).
  - tauto.
  - destruct (Ascii.eqb_spec c c') as [->|Hc].
    + rewrite IH. split; [intros ->; reflexivity | intros [=]; assumption].
    + split.
      * destruct (_ <? _)%nat; lia.
      * intros [=]. contradiction.
Qed.

Example strcmp_case_sensitive : strcmp "Key" "key" <> 0.
Proof. vm_compute. discriminate. Qed.

Lemma locate_scan_found (arr : list OSSL_PARAM) (p : nat) (k : string) (q : nat) :
  locate_scan arr p k = Some (Some q) <->
  (p <= q)%nat /\ (exists d, arr !! (q - p)%nat = Some d /\ key d = Some k)
  /\ no_match_before arr k (q - p).
Proof.
  revert p; induction arr as [|d arr IH]; intros p; simpl.
  - split; [discriminate | intros (_ & (d & Hd & _) & _); discriminate].
  - destruct (key d) as [k'|] eqn:Hk.
    + destruct (Z.eqb_spec (strcmp k k') 0) as [He|He].
      * apply strcmp_eq in He; subst k'. split.
        -- intros [= <-]. rewrite Nat.sub_diag. split; [lia|]. split.
           ++ exists d; auto.
           ++ intros j Hj; lia.
        -- intros (Hpq & _ & Hno).
           destruct (q - p)%nat as [|n] eqn:Hn.
           ++ f_equal; f_equal; lia.
           ++ destruct (Hno 0%nat ltac:(lia)) as (d' & k' & Hd' & Hk' & Hne).
              simpl in Hd'. injection Hd' as <-. congruence.
      * rewrite IH. split.
        -- intros (Hpq & (d' & Hd' & Hk') & Hno).
           replace (q - p)%nat with (S (q - S p)) by lia.
           split; [lia|]. split; [exists d'; auto|].
           intros [|j] Hj; simpl.
           ++ exists d, k'. repeat split; auto. intros ->. apply He, strcmp_eq; reflexivity.
           ++ apply Hno; lia.
        -- intros (Hpq & (d' & Hd' & Hk') & Hno).
           destruct (q - p)%nat as [|n] eqn:Hn.
           ++ simpl in Hd'. injection Hd' as <-.
              exfalso. apply He, strcmp_eq. congruence.
           ++ replace (q - S p)%nat with n by lia.
              split; [lia|]. split; [exists d'; auto|].
              intros j Hj. apply (Hno (S j)); lia.
    + split; [discriminate|].
      intros (Hpq & (d' & Hd' & Hk') & Hno).
      destruct (q - p)%nat as [|n] eqn:Hn.
      * simpl in Hd'. congruence.
      * destruct (Hno 0%nat ltac:(lia)) as (d'' & k' & Hd'' & Hk'' & _).
        simpl in Hd''. congruence.
Qed.

Lemma locate_scan_not_found (arr : list OSSL_PARAM) (p : nat) (k : string) :
  locate_scan arr p k = Some None <->
  exists t, (exists d, arr !! t = Some d /\ key d = None) /\ no_match_before arr k t.
Proof.
  revert p; induction arr as [|d arr IH]; intros p; simpl.
  - split; [discriminate | intros (t & (d & Hd & _) & _); discriminate].
  - destruct (key d) as [k'|] eqn:Hk.
    + destruct (Z.eqb_spec (strcmp k k') 0) as [He|He].
      * apply strcmp_eq in He; subst k'. split; [discriminate|].
        intros ([|t] & (d' & Hd' & Hk') & Hno).
        -- simpl in Hd'. congruence.
        -- destruct (Hno 0%nat ltac:(lia)) as (d'' & k' & Hd'' & Hk'' & Hne).
           simpl in Hd''. congruence.
      * rewrite IH. split.
        -- intros (t & (d' & Hd' & Hk') & Hno). exists (S t).
           split; [exists d'; auto|].
           intros [|j] Hj; simpl.
           ++ exists d, k'. repeat split; auto. intros ->. apply He, strcmp_eq; reflexivity.
           ++ apply Hno; lia.
        -- intros ([|t] & (d' & Hd' & Hk') & Hno).
           ++ simpl in Hd'. congruence.
           ++ exists t. split; [exists d'; auto|].
              intros j Hj. apply (Hno (S j)); lia.
    + split; [|reflexivity]. intros _. exists 0%nat. split.
      * exists d; auto.
      * intros j Hj; lia.
Qed.

Lemma no_match_before_drop (ps : list OSSL_PARAM) (k : string) (p n : nat) :
  no_match_before (drop p ps) k n <->
  (forall j, (p <= j < p + n)%nat ->
     exists d k', ps !! j = Some d /\ key d = Some k' /\ k' <> k).
Proof.
  unfold no_match_before. split.
  - intros H j Hj. destruct (H (j - p)%nat ltac:(lia)) as (d & k' & Hd & Hk).
    rewrite lookup_drop in Hd. replace (p + (j - p))%nat with j in Hd by lia.
    exists d, k'. auto.
  - intros H j Hj. destruct (H (p + j)%nat ltac:(lia)) as (d & k' & Hd & Hk).
    exists d, k'. rewrite lookup_drop. auto.
Qed.

(** C9.  OSSL_PARAM_locate is a linear scan with exact, case-sensitive key
    comparison.  It answers not-found when the array or the key is absent.
    It answers the entry [q] exactly when [q] carries the key and every
    entry from the start up to [q] carries another key, so of two entries
    sharing a key the first is returned.  It answers not-found exactly when
    the terminator is reached with no entry before it carrying the key.  The
    machine is left as it was. *)
Theorem OSSL_PARAM_locate_first_match (m : machine) (p : nat) (k : string) :
  (forall k', OSSL_PARAM_locate None k' m = Some (None, m)) /\
  (forall p', OSSL_PARAM_locate p' None m = Some (None, m)) /\
  (forall q, OSSL_PARAM_locate (Some p) (Some k) m = Some (Some q, m) <->
     (p <= q)%nat /\
     (exists d, params m !! q = Some d /\ key d = Some k) /\
     (forall j, (p <= j < q)%nat ->
        exists d k', params m !! j = Some d /\ key d = Some k' /\ k' <> k)) /\
  (OSSL_PARAM_locate (Some p) (Some k) m = Some (None, m) <->
     exists t, (p <= t)%nat /\
       (exists d, params m !! t = Some d /\ key d = None) /\
       (forall j, (p <= j < t)%nat ->
          exists d k', params m !! j = Some d /\ key d = Some k' /\ k' <> k)).
Proof.
  split; [reflexivity|]. split; [intros [p'|]; reflexivity|]. split.
  - intros q. unfold OSSL_PARAM_locate.
    destruct (locate_scan (drop p (params m)) p k) as [r|] eqn:Hs.
    + split.
      * intros [= ->]. apply locate_scan_found in Hs.
        destruct Hs as (Hpq & (d & Hd & Hk) & Hno).
        rewrite lookup_drop in Hd. replace (p + (q - p))%nat with q in Hd by lia.
        split; [exact Hpq|]. split; [exists d; auto|].
        rewrite no_match_before_drop in Hno.
        intros j Hj. apply Hno. lia.
      * intros (Hpq & (d & Hd & Hk) & Hno).
        assert (Hf : locate_scan (drop p (params m)) p k = Some (Some q)).
        { apply locate_scan_found. split; [exact Hpq|]. split.
          - exists d. rewrite lookup_drop.
            replace (p + (q - p))%nat with q by lia. auto.
          - apply no_match_before_drop. intros j Hj. apply Hno. lia. }
        congruence.
    + split; [discriminate|].
      intros (Hpq & (d & Hd & Hk) & Hno).
      assert (Hf : locate_scan (drop p (params m)) p k = Some (Some q)).
      { apply locate_scan_found. split; [exact Hpq|]. split.
        - exists d. rewrite lookup_drop.
          replace (p + (q - p))%nat with q by lia. auto.
        - apply no_match_before_drop. intros j Hj. apply Hno. lia. }
      congruence.
  - unfold OSSL_PARAM_locate.
    assert (Hiff : locate_scan (drop p (params m)) p k = Some None <->
      exists t, (p <= t)%nat /\
       (exists d, params m !! t = Some d /\ key d = None) /\
       (forall j, (p <= j < t)%nat ->
          exists d k', params m !! j = Some d /\ key d = Some k' /\ k' <> k)).
    { rewrite locate_scan_not_found. split.
      - intros (t & (d & Hd & Hk) & Hno). exists (p + t)%nat.
        rewrite lookup_drop in Hd. split; [lia|]. split; [exists d; auto|].
        apply no_match_before_drop. exact Hno.
      - intros (t & Hpt & (d & Hd & Hk) & Hno). exists (t - p)%nat. split.
        + exists d. rewrite lookup_drop.
          replace (p + (t - p))%nat with t by lia. auto.
        + apply no_match_before_drop.
          replace (p + (t - p))%nat with t by lia. exact Hno. }
    destruct (locate_scan (drop p (params m)) p k) as [r|] eqn:Hs.
    + rewrite <- Hiff. split; [intros [= ->]; reflexivity | intros [= ->]; reflexivity].
    + rewrite <- Hiff. split; discriminate.
Qed.

(** Two descriptors share the key "salt": the first one is returned. *)
Example locate_shared_key :
  let e k := {| key := k; data_type := OSSL_PARAM_OCTET_STRING; data := None;
                data_size := 0; return_size := OSSL_PARAM_UNMODIFIED |} in
  let m := {| params := [e (Some "info"); e (Some "salt"); e (Some "Salt");
                         e (Some "salt"); e None];
              heap := ∅; errors := []; avail := 0 |} in
  OSSL_PARAM_locate (Some 0%nat) (Some "salt"%string) m = Some (Some 1%nat, m)
  /\ OSSL_PARAM_locate (Some 0%nat) (Some "SALT"%string) m = Some (None, m).
Proof. split; reflexivity. Qed.

(** ** The modified flag *)

(** C10.  OSSL_PARAM_modified answers 0 for an absent descriptor,
    OSSL_PARAM_set_all_unmodified does nothing for an absent array, and for
    a descriptor that is there OSSL_PARAM_modified answers non-zero exactly
    when return_size differs from OSSL_PARAM_UNMODIFIED. *)
Theorem OSSL_PARAM_modified_total (m : machine) (p : nat) (d : OSSL_PARAM)
    (Hp : params m !! p = Some d) :
  OSSL_PARAM_modified None m = Some (0, m) /\
  OSSL_PARAM_set_all_unmodified None m = Some (tt, m) /\
  exists r, OSSL_PARAM_modified (Some p) m = Some (r, m) /\
            (r = 1 \/ r = 0) /\
            (r = 1 <-> return_size d <> OSSL_PARAM_UNMODIFIED).
Proof.
  split; [reflexivity|]. split; [reflexivity|].
  unfold OSSL_PARAM_modified, bind, deref, ret. rewrite Hp.
  destruct (Z.eqb_spec (return_size d) OSSL_PARAM_UNMODIFIED) as [He|He]; simpl.
  - exists 0. split; [reflexivity|]. split; [auto|]. split; [discriminate | contradiction].
  - exists 1. split; [reflexivity|]. split; [auto|]. split; auto.
Qed.

Lemma OSSL_PARAM_modified_total_witness :
  exists r,
    OSSL_PARAM_modified (Some 0%nat)
      (sample_machine OSSL_PARAM_INTEGER (Some 1%positive) 4)
    = Some (r, sample_machine OSSL_PARAM_INTEGER (Some 1%positive) 4)
    /\ (r = 1 \/ r = 0)
    /\ (r = 1 <->
        return_size (sample_param OSSL_PARAM_INTEGER (Some 1%positive) 4)
        <> OSSL_PARAM_UNMODIFIED).
Proof.
  apply (proj2 (proj2 (OSSL_PARAM_modified_total
           (sample_machine OSSL_PARAM_INTEGER (Some 1%positive) 4) 0
           (sample_param OSSL_PARAM_INTEGER (Some 1%positive) 4) eq_refl))).
Defined.

(** ** Bytes and native integers *)

Lemma byte_cases (P : Z -> bool) :
  forallb P (map Z.of_nat (seq 0 256)) = true ->
  forall b, is_byte b -> P b = true.
Proof.
  intros H b Hb. rewrite forallb_forall in H. apply H.
  apply in_map_iff. exists (Z.to_nat b). unfold is_byte in Hb.
  split; [lia|]. apply in_seq. lia.
Qed.

Lemma sign_bit (b : Z) : is_byte b -> (Z.land 128 b =? 0) = (b <? 128).
Proof.
  intros Hb. apply Bool.eqb_prop.
  apply (byte_cases (fun b => Bool.eqb (Z.land 128 b =? 0) (b <? 128))); [|exact Hb].
  vm_compute. reflexivity.
Qed.

Lemma sign_bit_pad0 (b : Z) :
  is_byte b -> (Z.land (Z.lxor 0 b) 128 =? 0) = (b <? 128).
Proof.
  intros Hb. apply Bool.eqb_prop.
  apply (byte_cases (fun b => Bool.eqb (Z.land (Z.lxor 0 b) 128 =? 0) (b <? 128)));
    [|exact Hb].
  vm_compute. reflexivity.
Qed.

Lemma sign_bit_pad255 (b : Z) :
  is_byte b -> (Z.land (Z.lxor 255 b) 128 =? 0) = (128 <=? b).
Proof.
  intros Hb. apply Bool.eqb_prop.
  apply (byte_cases (fun b => Bool.eqb (Z.land (Z.lxor 255 b) 128 =? 0) (128 <=? b)));
    [|exact Hb].
  vm_compute. reflexivity.
Qed.

Lemma list_length8 {A} (l : list A) :
  length l = 8%nat -> exists a b c d e f g h, l = [a; b; c; d; e; f; g; h].
Proof.
  intros H. do 8 (destruct l as [|? l]; [discriminate|]).
  destruct l; [|discriminate]. eauto 10.
Qed.

Lemma le_bytes_length (n : nat) (v : Z) : length (le_bytes n v) = n.
Proof. revert v; induction n; intros; simpl; auto. Qed.

Lemma le_value_le_bytes (n : nat) (v : Z) :
  le_value (le_bytes n v) = v mod 2 ^ (8 * Z.of_nat n).
Proof.
  revert v; induction n as [|n IH]; intros v.
  - simpl. rewrite Z.mod_1_r. reflexivity.
  - cbn [le_bytes le_value]. rewrite IH.
    replace (8 * Z.of_nat (S n)) with (8 + 8 * Z.of_nat n) by lia.
    rewrite Z.pow_add_r by lia. change (2 ^ 8) with 256.
    rewrite Z.rem_mul_r by lia. reflexivity.
Qed.

Lemma native_bytes_length (be : bool) (n : nat) (v : Z) :
  length (native_bytes be n v) = n.
Proof.
  unfold native_bytes. destruct be; rewrite ?length_rev; apply le_bytes_length.
Qed.

Lemma native_value_bytes (be : bool) (n : nat) (v : Z) :
  native_value be (native_bytes be n v) = v mod 2 ^ (8 * Z.of_nat n).
Proof.
  unfold native_value, native_bytes.
  destruct be; rewrite ?rev_involutive; apply le_value_le_bytes.
Qed.

Lemma take_native (be : bool) (n : nat) (v : Z) (rest : list Z) :
  take n (native_bytes be n v ++ rest) = native_bytes be n v.
Proof. apply take_app_length'. symmetry. apply native_bytes_length. Qed.

Lemma to_signed_wrap (bits v : Z) :
  0 < bits -> - 2 ^ (bits - 1) <= v < 2 ^ (bits - 1) ->
  to_signed bits (v mod 2 ^ bits) = v.
Proof.
  intros Hb Hv. unfold to_signed.
  assert (Hp : 2 ^ bits = 2 * 2 ^ (bits - 1)).
  { replace bits with (1 + (bits - 1)) at 1 by lia.
    rewrite Z.pow_add_r by lia. reflexivity. }
  assert (0 < 2 ^ (bits - 1)) by (apply Z.pow_pos_nonneg; lia).
  destruct (Z.ltb_spec (v mod 2 ^ bits) (2 ^ (bits - 1))) as [Hlt|Hge].
  - destruct (Z.le_gt_cases 0 v).
    + apply Z.mod_small. lia.
    + rewrite <- (Z.mod_add v 1) in Hlt by lia.
      rewrite Z.mod_small in Hlt by lia. lia.
  - destruct (Z.le_gt_cases 0 v).
    + rewrite Z.mod_small in Hge by lia. lia.
    + rewrite <- (Z.mod_add v 1) by lia. rewrite Z.mod_small by lia. lia.
Qed.

(** ** Running the memory operations *)

Lemma store_run (m : machine) (a : addr) (blk bs : list Z) :
  heap m !! a = Some blk -> (length bs <= length blk)%nat ->
  store a bs m
  = Some (tt, with_heap m (<[a := bs ++ drop (length bs) blk]> (heap m))).
Proof.
  intros H Hl. unfold store, store_at. rewrite H. simpl.
  destruct (Nat.leb_spec (length bs) (length blk)); [reflexivity | lia].
Qed.

Lemma load_run (m : machine) (a : addr) (blk : list Z) (n : nat) :
  heap m !! a = Some blk -> (n <= length blk)%nat ->
  load a n m = Some (take n blk, m).
Proof.
  intros H Hl. unfold load. rewrite H.
  destruct (Nat.leb_spec n (length blk)); [reflexivity | lia].
Qed.

Lemma store_at_run (m : machine) (a : addr) (off : nat) (blk bs : list Z) :
  heap m !! a = Some blk -> (off + length bs <= length blk)%nat ->
  store_at a off bs m
  = Some (tt, with_heap m
                (<[a := take off blk ++ bs ++ drop (off + length bs) blk]> (heap m))).
Proof.
  intros H Hl. unfold store_at. rewrite H.
  destruct (Nat.leb_spec (off + length bs) (length blk)); [reflexivity | lia].
Qed.

Lemma memcpy_run (m : machine) (a : addr) (off : nat) (blk src : list Z) (n : nat) :
  heap m !! a = Some blk -> (n <= length src)%nat -> (off + n <= length blk)%nat ->
  memcpy a off src n m
  = Some (tt, with_heap m
                (<[a := take off blk ++ take n src ++ drop (off + n) blk]> (heap m))).
Proof.
  intros H Hs Hl. unfold memcpy.
  destruct (Nat.leb_spec n (length src)); [|lia].
  rewrite (store_at_run m a off blk) by (rewrite ?length_take; (assumption || lia)).
  rewrite length_take. replace (n `min` length src)%nat with n by lia. reflexivity.
Qed.

#[local] Arguments Nat.leb : simpl never.
#[local] Arguments take : simpl never.
#[local] Arguments drop : simpl never.
#[local] Arguments native_bytes : simpl never.
#[local] Arguments native_value : simpl never.
#[local] Arguments Z.mul : simpl never.
#[local] Arguments Z.pow : simpl never.
#[local] Arguments double_of_Z : simpl never.
#[local] Arguments double_add : simpl never.
#[local] Arguments double_bits : simpl never.
#[local] Arguments bits_double : simpl never.
#[local] Arguments double_trunc : simpl never.

Ltac length_solve :=
  repeat first [ rewrite native_bytes_length | rewrite length_app
               | rewrite length_drop | rewrite length_take
               | rewrite length_replicate | rewrite Nat2Z.id ];
  simpl; lia.

Ltac heap_lookup :=
  cbn [heap params errors avail with_heap with_params with_errors with_avail];
  first [ eassumption
        | rewrite lookup_insert_eq; reflexivity
        | rewrite lookup_insert_ne by congruence; heap_lookup ].

(** Reduce the control flow of the goal that is decided by constants. *)
Ltac reduce_c :=
  cbn [key data_type data data_size return_size params heap errors avail
       with_return_size with_params with_heap with_errors with_avail
       fst snd is_null negb andb orb
       Z.eqb Pos.eqb Z.leb Z.ltb Z.compare Pos.compare Pos.compare_cont Z.opp
       CompOpp
       OSSL_PARAM_INTEGER OSSL_PARAM_UNSIGNED_INTEGER OSSL_PARAM_REAL
       OSSL_PARAM_UTF8_STRING OSSL_PARAM_OCTET_STRING OSSL_PARAM_UTF8_PTR
       OSSL_PARAM_OCTET_PTR
       sizeof_int32_t sizeof_int64_t sizeof_uint32_t sizeof_uint64_t
       sizeof_double].

(** Run the next memory or descriptor operation of the goal. *)
Ltac exec :=
  repeat first
  [ progress reduce_c
  | match goal with
    | H : ?l !! ?p = Some _ |- context [?l !! ?p] => rewrite H
    | |- context [<[?p := ?x]> ?l !! ?p] =>
        rewrite (list_lookup_insert_eq l p x)
          by (rewrite ?length_insert; eapply lookup_lt_Some; eassumption)
    | |- context [store ?a ?bs ?m] =>
        erewrite (store_run m a _ bs); [| heap_lookup | length_solve]
    | |- context [load ?a ?n ?m] =>
        erewrite (load_run m a _ n); [| heap_lookup | length_solve]
    | |- context [store_at ?a ?off ?bs ?m] =>
        erewrite (store_at_run m a off _ bs); [| heap_lookup | length_solve]
    | |- context [memcpy ?a ?off ?src ?n ?m] =>
        erewrite (memcpy_run m a off _ src n);
        [| heap_lookup | length_solve | length_solve]
    | |- context [<[?a := ?x]> ?h !! ?a] => rewrite (lookup_insert_eq h a x)
    | |- context [<[?b := ?x]> ?h !! ?a] =>
        rewrite (lookup_insert_ne h b a x) by congruence
    end ].

Ltac unfold_c :=
  unfold load_int32, load_uint32, load_int64, load_uint64, load_double,
    store_int32, store_uint32, store_int64, store_uint64, store_double,
    err_unsigned_negative, err_out_of_range, err_inexact,
    err_not_integer, err_too_small, err_bad_type, err_null_argument,
    err_unsupported_real, ERR_raise,
    bind, ret, lift_option, set_return_size, deref, block in *.

(** ** The conversion engine *)

(** C5.  An 8-byte source whose signed value lies outside the range of a
    4-byte signed integer is refused by copy_integer with a 4-byte
    destination in signed mode, for either sign byte a caller passes as
    padding: the call returns 0, raises
    CRYPTO_R_PARAM_VALUE_TOO_LARGE_FOR_DESTINATION and nothing else, and the
    heap, so the destination, is left as it was.  The same holds of
    signed_from_signed, which picks the padding from the source's sign. *)
Theorem copy_integer_rejects_truncation (be : bool) (m : machine) (dest : addr)
    (src : list Z) (pad : Z)
    (Hlen : length src = 8%nat) (Hbytes : Forall is_byte src)
    (Hrange : ~ (INT32_MIN <= to_signed 64 (native_value be src) <= INT32_MAX))
    (Hpad : pad = 0 \/ pad = 255) :
  let m' := with_errors m
              (CRYPTO_R_PARAM_VALUE_TOO_LARGE_FOR_DESTINATION :: errors m) in
  copy_integer be dest 4 src 8 pad true m = Some (0, m')
  /\ signed_from_signed be dest 4 src 8 m = Some (0, m')
  /\ heap m' = heap m.
Proof.
  assert (Hcopy : forall pad, pad = 0 \/ pad = 255 ->
    copy_integer be dest 4 src 8 pad true m
    = Some (0, with_errors m
                 (CRYPTO_R_PARAM_VALUE_TOO_LARGE_FOR_DESTINATION :: errors m))).
  { clear pad Hpad. intros pad Hpad.
    destruct (list_length8 src Hlen) as (b0 & b1 & b2 & b3 & b4 & b5 & b6 & b7 & ->).
    repeat match goal with
           | H : Forall _ (_ :: _) |- _ => apply Forall_cons in H; destruct H as [? H]
           end.
    unfold copy_integer, native_value, to_signed, INT32_MIN, INT32_MAX in *.
    destruct be; simpl in Hrange |- *.
    - unfold bind, lift_option, index, ret. simpl.
      destruct (Z.eqb_spec b0 pad); simpl; [|reflexivity].
      destruct (Z.eqb_spec b1 pad); simpl; [|reflexivity].
      destruct (Z.eqb_spec b2 pad); simpl; [|reflexivity].
      destruct (Z.eqb_spec b3 pad); simpl; [|reflexivity].
      destruct Hpad as [-> | ->].
      + rewrite sign_bit_pad0 by assumption.
        destruct (Z.ltb_spec b4 128); simpl; [|reflexivity].
        exfalso. apply Hrange. unfold is_byte in *. subst.
        match goal with |- context [?a <? ?b] => destruct (Z.ltb_spec a b) end; lia.
      + rewrite sign_bit_pad255 by assumption.
        destruct (Z.leb_spec 128 b4); simpl; [|reflexivity].
        exfalso. apply Hrange. unfold is_byte in *. subst.
        match goal with |- context [?a <? ?b] => destruct (Z.ltb_spec a b) end; lia.
    - unfold bind, lift_option, index, ret. simpl.
      destruct (Z.eqb_spec b4 pad); simpl; [|reflexivity].
      destruct (Z.eqb_spec b5 pad); simpl; [|reflexivity].
      destruct (Z.eqb_spec b6 pad); simpl; [|reflexivity].
      destruct (Z.eqb_spec b7 pad); simpl; [|reflexivity].
      destruct Hpad as [-> | ->].
      + rewrite sign_bit_pad0 by assumption.
        destruct (Z.ltb_spec b3 128); simpl; [|reflexivity].
        exfalso. apply Hrange. unfold is_byte in *. subst.
        match goal with |- context [?a <? ?b] => destruct (Z.ltb_spec a b) end; lia.
      + rewrite sign_bit_pad255 by assumption.
        destruct (Z.leb_spec 128 b3); simpl; [|reflexivity].
        exfalso. apply Hrange. unfold is_byte in *. subst.
        match goal with |- context [?a <? ?b] => destruct (Z.ltb_spec a b) end; lia. }
  intros m'. split; [apply Hcopy; exact Hpad|]. split; [|reflexivity].
  unfold signed_from_signed, bind.
  destruct (is_negative be src 8 m) as [[neg m1]|] eqn:Hneg.
  - assert (m1 = m) as ->.
    { unfold is_negative, bind, lift_option, ret in Hneg.
      destruct (if be then index src 0 else index src (8 - 1)); [|discriminate].
      congruence. }
    apply Hcopy. destruct (neg =? 0); simpl; auto.
  - exfalso.
    destruct (list_length8 src Hlen) as (b0 & b1 & b2 & b3 & b4 & b5 & b6 & b7 & ->).
    unfold is_negative, bind, lift_option, ret, index in Hneg.
    destruct be; cbn in Hneg; discriminate.
Qed.

Lemma copy_integer_rejects_truncation_witness :
  copy_integer false 2%positive 4 [0; 0; 0; 128; 0; 0; 0; 0] 8 0 true
    (sample_machine OSSL_PARAM_INTEGER (Some 1%positive) 4)
  = Some (0, with_errors (sample_machine OSSL_PARAM_INTEGER (Some 1%positive) 4)
               [CRYPTO_R_PARAM_VALUE_TOO_LARGE_FOR_DESTINATION]).
Proof.
  apply (proj1 (copy_integer_rejects_truncation false
           (sample_machine OSSL_PARAM_INTEGER (Some 1%positive) 4) 2%positive
           [0; 0; 0; 128; 0; 0; 0; 0] 0 eq_refl
           ltac:(repeat constructor; unfold is_byte; lia)
           ltac:(intros [_ H]; vm_compute in H; apply H; reflexivity)
           (or_introl eq_refl))).
Defined.

(** The general path with an odd size: -2 set through
    OSSL_PARAM_set_int32 into a 5-byte INTEGER buffer is sign-extended, and
    -200000 does not fit a 2-byte buffer. *)
Example general_path_odd_sizes :
  (exists m',
     OSSL_PARAM_set_int32 false (Some 0%nat) (-2)
       (sample_machine OSSL_PARAM_INTEGER (Some 1%positive) 5) = Some (1, m')
     /\ heap m' !! 1%positive = Some [254; 255; 255; 255; 255]
     /\ return_size <$> params m' !! 0%nat = Some 5)
  /\ (exists m',
        OSSL_PARAM_set_int32 true (Some 0%nat) (-200000)
          (sample_machine OSSL_PARAM_INTEGER (Some 1%positive) 2) = Some (0, m')
        /\ heap m' !! 1%positive = Some [0; 0]
        /\ errors m' = [CRYPTO_R_PARAM_VALUE_TOO_LARGE_FOR_DESTINATION]
        /\ return_size <$> params m' !! 0%nat = Some 4).
Proof.
  split; eexists; (split; [vm_compute; reflexivity|]); repeat split; reflexivity.
Qed.

(** ** Round trip through the fixed-width accessors *)

Ltac wrap_value :=
  rewrite ?take_native, ?native_value_bytes;
  change (8 * Z.of_nat 4) with 32; change (8 * Z.of_nat 8) with 64;
  first [ rewrite (to_signed_wrap 32) by (simpl; lia)
        | rewrite (to_signed_wrap 64) by (simpl; lia)
        | rewrite Z.mod_small by lia ].

Ltac round_trip_run :=
  eexists; eexists; split; [exec; reflexivity|];
  split; [exec; wrap_value; exec; reflexivity | exec; wrap_value; reflexivity].

(** C1.  For the widths 4 and 8 and the types INTEGER and
    UNSIGNED_INTEGER: a value representable at that width and signedness,
    set through the accessor of that width and signedness into a descriptor
    of that type whose buffer has that width, and then got through the
    accessor of the same width and signedness, comes back unchanged, and
    both calls succeed. *)
Theorem fixed_width_round_trip (be : bool) (m : machine) (p : nat)
    (d : OSSL_PARAM) (a out : addr) (blk oblk : list Z) (v : Z)
    (Hp : params m !! p = Some d) (Hd : data d = Some a)
    (Ha : heap m !! a = Some blk) (Hout : heap m !! out = Some oblk)
    (Hblk : Z.of_nat (length blk) = data_size d)
    (Hoblk : Z.of_nat (length oblk) = data_size d) :
  (data_type d = OSSL_PARAM_INTEGER -> data_size d = 4 ->
   INT32_MIN <= v <= INT32_MAX ->
   round_trip (OSSL_PARAM_set_int32 be) (OSSL_PARAM_get_int32 be)
              (load_int32 be) p out v m)
  /\ (data_type d = OSSL_PARAM_UNSIGNED_INTEGER -> data_size d = 4 ->
      0 <= v <= UINT32_MAX ->
      round_trip (OSSL_PARAM_set_uint32 be) (OSSL_PARAM_get_uint32 be)
                 (load_uint32 be) p out v m)
  /\ (data_type d = OSSL_PARAM_INTEGER -> data_size d = 8 ->
      INT64_MIN <= v <= INT64_MAX ->
      round_trip (OSSL_PARAM_set_int64 be) (OSSL_PARAM_get_int64 be)
                 (load_int64 be) p out v m)
  /\ (data_type d = OSSL_PARAM_UNSIGNED_INTEGER -> data_size d = 8 ->
      0 <= v <= UINT64_MAX ->
      round_trip (OSSL_PARAM_set_uint64 be) (OSSL_PARAM_get_uint64 be)
                 (load_uint64 be) p out v m).
Proof.
  unfold round_trip, INT32_MIN, INT32_MAX, UINT32_MAX, INT64_MIN, INT64_MAX,
    UINT64_MAX.
  destruct m as [ps h es av]. destruct d as [k ty da sz rs].
  cbn [data_type data data_size return_size key params heap errors avail] in *.
  subst da.
  (split; [|split; [|split]]); intros -> -> Hv;
    assert (Hl : length blk = Z.to_nat (Z.of_nat (length blk))) by lia;
    assert (Hol : length oblk = Z.to_nat (Z.of_nat (length oblk))) by lia;
    rewrite Hblk in Hl; rewrite Hoblk in Hol.
  - unfold OSSL_PARAM_set_int32, OSSL_PARAM_get_int32. unfold_c.
    destruct (decide (a = out)) as [->|Hne]; round_trip_run.
  - unfold OSSL_PARAM_set_uint32, OSSL_PARAM_get_uint32. unfold_c.
    destruct (decide (a = out)) as [->|Hne]; round_trip_run.
  - unfold OSSL_PARAM_set_int64, OSSL_PARAM_get_int64. unfold_c.
    destruct (decide (a = out)) as [->|Hne]; round_trip_run.
  - unfold OSSL_PARAM_set_uint64, OSSL_PARAM_get_uint64. unfold_c.
    destruct (decide (a = out)) as [->|Hne]; round_trip_run.
Qed.

Lemma fixed_width_round_trip_witness :
  round_trip (OSSL_PARAM_set_int32 false) (OSSL_PARAM_get_int32 false)
             (load_int32 false) 0 2%positive (-5)
             (sample_machine OSSL_PARAM_INTEGER (Some 1%positive) 4).
Proof.
  apply (proj1 (fixed_width_round_trip false
                  (sample_machine OSSL_PARAM_INTEGER (Some 1%positive) 4) 0
                  (sample_param OSSL_PARAM_INTEGER (Some 1%positive) 4)
                  1%positive 2%positive [0; 0; 0; 0] [0; 0; 0; 0] (-5)
                  eq_refl eq_refl eq_refl eq_refl eq_refl eq_refl));
    [reflexivity | reflexivity | unfold INT32_MIN, INT32_MAX; lia].
Defined.

(** ** Negative values and unsigned descriptors *)

Lemma is_negative_native (be : bool) (n : nat) (v : Z) (m : machine) :
  (n = 4 \/ n = 8)%nat -> - 2 ^ (8 * Z.of_nat n - 1) <= v < 0 ->
  is_negative be (native_bytes be n v) (Z.of_nat n) m = Some (128, m).
Proof.
  intros Hn Hv.
  assert (Hb : forall b, 128 <= b < 256 -> Z.land 128 b = 128).
  { intros b Hb. apply Z.eqb_eq.
    pose proof (byte_cases (fun b => (b <? 128) || (Z.land 128 b =? 128)) eq_refl b) as H.
    unfold is_byte in H. specialize (H ltac:(lia)).
    apply orb_true_iff in H.
    destruct H as [H|H]; [apply Z.ltb_lt in H; lia | exact H]. }
  unfold is_negative, bind, lift_option, ret, native_bytes, index.
  destruct Hn as [-> | ->]; destruct be;
    change (Z.of_nat 4) with 4 in *; change (Z.of_nat 8) with 8 in *;
    simpl; rewrite Hb; try reflexivity;
    change (2 ^ (8 * 4 - 1)) with 2147483648 in Hv;
    change (2 ^ (8 * 8 - 1)) with 9223372036854775808 in Hv;
    Z.to_euclidean_division_equations; lia.
Qed.

(** C2, as the code has it.  A negative value given to OSSL_PARAM_set_int32
    or OSSL_PARAM_set_int64 for an UNSIGNED_INTEGER descriptor is refused:
    the call returns 0, return_size is 0, no buffer is touched, and the
    reason raised is CRYPTO_R_PARAM_OF_INCOMPATIBLE_TYPE.  The general signed
    path (general_set_int) on a descriptor with a buffer returns 0 with
    CRYPTO_R_PARAM_UNSIGNED_INTEGER_NEGATIVE_VALUE_UNSUPPORTED, and
    return_size is the width of the value. *)
Theorem set_int_negative_into_unsigned (be : bool) (m : machine) (p : nat)
    (d : OSSL_PARAM) (v : Z)
    (Hp : params m !! p = Some d)
    (Hty : data_type d = OSSL_PARAM_UNSIGNED_INTEGER) (Hneg : v < 0) :
  let refused :=
    with_errors (with_params m (<[p := with_return_size d 0]> (params m)))
                (CRYPTO_R_PARAM_OF_INCOMPATIBLE_TYPE :: errors m) in
  OSSL_PARAM_set_int32 be (Some p) v m = Some (0, refused)
  /\ OSSL_PARAM_set_int64 be (Some p) v m = Some (0, refused)
  /\ (forall a n, data d = Some a -> (n = 4 \/ n = 8)%nat ->
        - 2 ^ (8 * Z.of_nat n - 1) <= v ->
        general_set_int be p (native_bytes be n v) (Z.of_nat n) m
        = Some (0, with_errors
                     (with_params m
                        (<[p := with_return_size d (Z.of_nat n)]> (params m)))
                     (CRYPTO_R_PARAM_UNSIGNED_INTEGER_NEGATIVE_VALUE_UNSUPPORTED
                        :: errors m))).
Proof.
  destruct m as [ps h es av]. destruct d as [k ty da sz rs].
  cbn [data_type data data_size return_size key params heap errors avail] in *.
  subst ty. cbv zeta.
  assert (Hv : (0 <=? v) = false) by (apply Z.leb_gt; lia).
  split; [|split].
  - unfold OSSL_PARAM_set_int32. rewrite Hv. unfold_c. exec. reflexivity.
  - unfold OSSL_PARAM_set_int64. rewrite Hv. unfold_c. exec. reflexivity.
  - intros a n -> Hn Hlo.
    unfold general_set_int, unsigned_from_signed. unfold_c. exec.
    rewrite is_negative_native by (auto; lia). exec. reflexivity.
Qed.

Lemma set_int_negative_into_unsigned_witness :
  OSSL_PARAM_set_int64 true (Some 0%nat) INT64_MIN
    (sample_machine OSSL_PARAM_UNSIGNED_INTEGER (Some 1%positive) 8)
  = Some (0, with_errors
               (with_params
                  (sample_machine OSSL_PARAM_UNSIGNED_INTEGER (Some 1%positive) 8)
                  [with_return_size
                     (sample_param OSSL_PARAM_UNSIGNED_INTEGER (Some 1%positive) 8) 0;
                   OSSL_PARAM_END])
               [CRYPTO_R_PARAM_OF_INCOMPATIBLE_TYPE]).
Proof.
  apply (proj1 (proj2 (set_int_negative_into_unsigned true
           (sample_machine OSSL_PARAM_UNSIGNED_INTEGER (Some 1%positive) 8) 0
           (sample_param OSSL_PARAM_UNSIGNED_INTEGER (Some 1%positive) 8)
           INT64_MIN eq_refl eq_refl eq_refl))).
Defined.

(** The claim of C2 fails for the boundary value -1: OSSL_PARAM_set_int32
    on an UNSIGNED_INTEGER descriptor with a 4-byte buffer does fail, but the
    only reason on the error queue is CRYPTO_R_PARAM_OF_INCOMPATIBLE_TYPE. *)
Lemma set_int32_negative_reason_counterexample :
  exists m',
    OSSL_PARAM_set_int32 false (Some 0%nat) (-1)
      (sample_machine OSSL_PARAM_UNSIGNED_INTEGER (Some 1%positive) 4)
    = Some (0, m')
    /\ errors m' = [CRYPTO_R_PARAM_OF_INCOMPATIBLE_TYPE]
    /\ ~ In CRYPTO_R_PARAM_UNSIGNED_INTEGER_NEGATIVE_VALUE_UNSUPPORTED (errors m').
Proof.
  eexists. split; [vm_compute; reflexivity|]. split; [reflexivity|].
  simpl. intros [H|[]]. discriminate H.
Qed.

(** ** Integers into a REAL descriptor *)

Lemma digits2_pos_bounds (m : positive) :
  2 ^ (Zpos (digits2_pos m) - 1) <= Zpos m < 2 ^ Zpos (digits2_pos m).
Proof.
  induction m as [m IH|m IH|]; cbn [digits2_pos].
  - rewrite Pos2Z.inj_succ, (Pos2Z.inj_xI m).
    set (k := Zpos (digits2_pos m)) in *. assert (0 < k) by (subst k; lia).
    replace (Z.succ k - 1) with (Z.succ (k - 1)) by lia.
    pose proof (Z.pow_succ_r 2 (k - 1) ltac:(lia)) as E1.
    pose proof (Z.pow_succ_r 2 k ltac:(lia)) as E2.
    lia.
  - rewrite Pos2Z.inj_succ, (Pos2Z.inj_xO m).
    set (k := Zpos (digits2_pos m)) in *. assert (0 < k) by (subst k; lia).
    replace (Z.succ k - 1) with (Z.succ (k - 1)) by lia.
    pose proof (Z.pow_succ_r 2 (k - 1) ltac:(lia)) as E1.
    pose proof (Z.pow_succ_r 2 k ltac:(lia)) as E2.
    lia.
  - split; [apply Z.leb_le | apply Z.ltb_lt]; reflexivity.
Qed.

Lemma digits2_pos_le_53 (m : positive) :
  Zpos m < 2 ^ 53 -> Zpos (digits2_pos m) <= 53.
Proof.
  intros Hm. pose proof (digits2_pos_bounds m) as [Hlo _].
  destruct (Z.le_gt_cases (Zpos (digits2_pos m)) 53) as [H|H]; [exact H|].
  exfalso.
  assert (2 ^ 53 <= 2 ^ (Zpos (digits2_pos m) - 1)) by (apply Z.pow_le_mono_r; lia).
  lia.
Qed.

Lemma iter_xO_value (m d : positive) :
  Zpos (Pos.iter xO m d) = Zpos m * 2 ^ Zpos d.
Proof.
  induction d as [|d IH] using Pos.peano_ind.
  - simpl. lia.
  - rewrite Pos.iter_succ, Pos2Z.inj_xO, IH, Pos2Z.inj_succ, Z.pow_succ_r by lia. lia.
Qed.

Lemma iter_xO_digits (m d : positive) :
  Zpos (digits2_pos (Pos.iter xO m d)) = Zpos (digits2_pos m) + Zpos d.
Proof.
  induction d as [|d IH] using Pos.peano_ind.
  - simpl. lia.
  - rewrite Pos.iter_succ. cbn [digits2_pos]. rewrite !Pos2Z.inj_succ, IH. lia.
Qed.

Lemma shr_fexp_exact (mz : positive) (ez : Z) :
  Zpos (digits2_pos mz) = 53 -> -1074 <= ez ->
  shr_fexp 53 1024 (Zpos mz) ez loc_Exact
  = ({| shr_m := Zpos mz; shr_r := false; shr_s := false |}, ez).
Proof.
  intros Hd He. unfold shr_fexp, fexp, emin, Zdigits2. rewrite Hd.
  replace (Z.max (53 + ez - 53) (3 - 1024 - 53) - ez) with 0 by lia.
  reflexivity.
Qed.

Lemma binary_round_aux_exact (sx : bool) (mz : positive) (ez : Z) :
  Zpos (digits2_pos mz) = 53 -> -1074 <= ez <= 0 ->
  binary_round_aux 53 1024 sx (Zpos mz) ez loc_Exact = S754_finite sx mz ez.
Proof.
  intros Hd He. unfold binary_round_aux.
  rewrite shr_fexp_exact by (assumption || lia).
  cbn [shr_m loc_of_shr_record round_nearest_even].
  rewrite shr_fexp_exact by (assumption || lia).
  cbn [shr_m].
  replace (ez <=? 1024 - 53) with true by (symmetry; apply Z.leb_le; lia).
  reflexivity.
Qed.

(** The double converted from a non-zero integer of fewer than 54 bits. *)
Lemma binary_round_small (sx : bool) (m : positive) :
  Zpos m < 2 ^ 53 ->
  exists mz ez,
    binary_round 53 1024 sx m 0 = S754_finite sx mz ez
    /\ -52 <= ez <= 0
    /\ Zpos mz = Zpos m * 2 ^ (- ez)
    /\ 2 ^ 52 <= Zpos mz < 2 ^ 53.
Proof.
  intros Hm.
  pose proof (digits2_pos_le_53 m Hm) as Hk.
  pose proof (digits2_pos_bounds m) as Hb.
  unfold binary_round, shl_align, fexp, emin.
  replace (Z.max (Zpos (digits2_pos m) + 0 - 53) (3 - 1024 - 53) - 0)
    with (Zpos (digits2_pos m) - 53) by lia.
  replace (Z.max (Zpos (digits2_pos m) + 0 - 53) (3 - 1024 - 53))
    with (Zpos (digits2_pos m) - 53) by lia.
  destruct (Zpos (digits2_pos m) - 53) as [|d|d] eqn:Hsub.
  - exists m, 0. assert (Hd : Zpos (digits2_pos m) = 53) by lia.
    rewrite binary_round_aux_exact by (assumption || lia).
    rewrite Hd in Hb. change (53 - 1) with 52 in Hb.
    split; [reflexivity|]. split; [lia|]. split; [simpl; lia | lia].
  - lia.
  - exists (Pos.iter xO m d), (Zneg d).
    assert (Hd : Zpos (digits2_pos m) + Zpos d = 53) by lia.
    rewrite binary_round_aux_exact
      by (rewrite ?iter_xO_digits; (assumption || lia)).
    split; [reflexivity|]. split; [lia|].
    rewrite iter_xO_value. split; [reflexivity|].
    change (- Z.neg d) with (Zpos d).
    replace 52 with (Zpos (digits2_pos m) - 1 + Zpos d) by lia.
    replace 53 with (Zpos (digits2_pos m) + Zpos d) by lia.
    rewrite !Z.pow_add_r by lia.
    assert (0 < 2 ^ Zpos d) by (apply Z.pow_pos_nonneg; lia).
    split; [apply Z.mul_le_mono_nonneg_r | apply Z.mul_lt_mono_pos_r]; lia.
Qed.

(** The double converted from an integer of magnitude below 2^53: zero, or
    a normal number whose significand is the magnitude shifted to 53 bits. *)
Lemma double_of_Z_small (v : Z) :
  - 2 ^ 53 < v < 2 ^ 53 ->
  (v = 0 /\ double_of_Z v = S754_zero false)
  \/ exists mz ez,
       double_of_Z v = S754_finite (v <? 0) mz ez
       /\ -52 <= ez <= 0
       /\ Zpos mz = Z.abs v * 2 ^ (- ez)
       /\ 2 ^ 52 <= Zpos mz < 2 ^ 53.
Proof.
  intros Hv. unfold double_of_Z, binary_normalize.
  destruct v as [|m|m].
  - left. split; reflexivity.
  - right. destruct (binary_round_small false m ltac:(lia)) as (mz & ez & H).
    exists mz, ez. exact H.
  - right. destruct (binary_round_small true m ltac:(lia)) as (mz & ez & H).
    exists mz, ez. exact H.
Qed.

Lemma double_of_Z_exact (v : Z) :
  - 2 ^ 53 < v < 2 ^ 53 -> double_exact_Z (double_of_Z v) = Some v.
Proof.
  intros Hv.
  destruct (double_of_Z_small v Hv) as [[-> ->] | (mz & ez & -> & He & Hmz & _)];
    [reflexivity|].
  unfold double_exact_Z. rewrite Hmz.
  assert (0 < 2 ^ (- ez)) by (apply Z.pow_pos_nonneg; lia).
  destruct (Z.leb_spec 0 ez) as [H0|H0].
  - replace ez with 0 by lia. change (2 ^ (- 0)) with 1. change (2 ^ 0) with 1.
    destruct (Z.ltb_spec v 0); f_equal; lia.
  - rewrite Z.mod_mul by lia. cbn [Z.eqb]. rewrite Z.div_mul by lia.
    destruct (Z.ltb_spec v 0); f_equal; lia.
Qed.

Lemma double_bits_finite (s : bool) (mz : positive) (ez : Z) :
  -52 <= ez <= 0 -> 2 ^ 52 <= Zpos mz < 2 ^ 53 ->
  0 <= double_bits (S754_finite s mz ez) < 2 ^ 64
  /\ bits_double (double_bits (S754_finite s mz ez)) = S754_finite s mz ez.
Proof.
  intros He Hm. unfold double_bits.
  replace (Zpos mz <? 2 ^ 52) with false by (symmetry; apply Z.ltb_ge; lia).
  set (hi := if s then 2 ^ 63 else 0).
  set (w := hi + ((ez + 1075) * 2 ^ 52 + (Zpos mz - 2 ^ 52))).
  assert (Hhi : hi = (if s then 2048 else 0) * 2 ^ 52) by (subst hi; destruct s; reflexivity).
  assert (Hq : w / 2 ^ 52 = (if s then 2048 else 0) + (ez + 1075)).
  { symmetry. apply (Z.div_unique_pos w (2 ^ 52) _ (Zpos mz - 2 ^ 52)); [lia|].
    subst w. rewrite Hhi. destruct s; lia. }
  assert (Hr : w mod 2 ^ 52 = Zpos mz - 2 ^ 52).
  { symmetry. apply (Z.mod_unique_pos w (2 ^ 52) ((if s then 2048 else 0) + (ez + 1075)));
      [lia|]. subst w. rewrite Hhi. destruct s; lia. }
  assert (Hex : (w / 2 ^ 52) mod 2048 = ez + 1075).
  { rewrite Hq. destruct s.
    - rewrite Z.add_comm. rewrite <- (Z.mul_1_l 2048) at 1. rewrite Z.mod_add by lia.
      apply Z.mod_small. lia.
    - apply Z.mod_small. lia. }
  assert (Hs : (2 ^ 63 <=? w) = s).
  { subst w hi. destruct s.
    - apply Z.leb_le. lia.
    - apply Z.leb_gt. lia. }
  split.
  - subst w hi. destruct s; lia.
  - unfold bits_double. fold w. rewrite Hs, Hex, Hr.
    replace (ez + 1075 =? 0) with false by (symmetry; apply Z.eqb_neq; lia).
    replace (ez + 1075 =? 2047) with false by (symmetry; apply Z.eqb_neq; lia).
    replace (Zpos mz - 2 ^ 52 + 2 ^ 52) with (Zpos mz) by lia.
    f_equal. lia.
Qed.

Lemma double_bits_of_Z (v : Z) :
  - 2 ^ 53 < v < 2 ^ 53 ->
  0 <= double_bits (double_of_Z v) < 2 ^ 64
  /\ bits_double (double_bits (double_of_Z v)) = double_of_Z v.
Proof.
  intros Hv.
  destruct (double_of_Z_small v Hv) as [[-> ->] | (mz & ez & -> & He & _ & Hmz)].
  - split; [|reflexivity]. unfold double_bits.
    split; [lia | apply Z.pow_pos_nonneg; lia].
  - apply double_bits_finite; assumption.
Qed.

Lemma shiftr_real_shift (u : Z) :
  0 <= u -> (Z.shiftr u real_shift =? 0) = (u <? 2 ^ 53).
Proof.
  intros Hu. change real_shift with 53.
  rewrite Z.shiftr_div_pow2 by lia.
  destruct (Z.ltb_spec u (2 ^ 53)) as [H|H].
  - rewrite Z.div_small by lia. reflexivity.
  - apply Z.eqb_neq. intros H0.
    apply Z.div_small_iff in H0; lia.
Qed.

(** C3, as the code has it.  For a REAL descriptor over an 8-byte buffer,
    OSSL_PARAM_set_int64 and OSSL_PARAM_set_uint64 accept exactly the
    integers of magnitude below 2^53: the call returns 1, return_size is 8
    and the buffer holds the double converted from the value, which reads
    back as a double standing for exactly that value.  From magnitude 2^53
    on (so for 2^53 itself and for 2^53 + 1) the call returns 0, raises
    CRYPTO_R_PARAM_CANNOT_BE_REPRESENTED_EXACTLY, leaves return_size 0 and
    does not touch the buffer. *)
Theorem set_int64_real_precision_boundary (be : bool) (m : machine) (p : nat)
    (d : OSSL_PARAM) (a : addr) (blk : list Z)
    (Hp : params m !! p = Some d) (Hty : data_type d = OSSL_PARAM_REAL)
    (Hd : data d = Some a) (Hsz : data_size d = 8)
    (Ha : heap m !! a = Some blk) (Hl : length blk = 8%nat) :
  let stored v :=
    with_heap (with_params m (<[p := with_return_size d 8]> (params m)))
              (<[a := native_bytes be 8 (double_bits (double_of_Z v))]> (heap m)) in
  let inexact :=
    with_errors (with_params m (<[p := with_return_size d 0]> (params m)))
                (CRYPTO_R_PARAM_CANNOT_BE_REPRESENTED_EXACTLY :: errors m) in
  (forall v, - 2 ^ 53 < v < 2 ^ 53 ->
     OSSL_PARAM_set_int64 be (Some p) v m = Some (1, stored v))
  /\ (forall v, 0 <= v < 2 ^ 53 ->
        OSSL_PARAM_set_uint64 be (Some p) v m = Some (1, stored v))
  /\ (forall v, INT64_MIN <= v <= INT64_MAX -> 2 ^ 53 <= Z.abs v ->
        OSSL_PARAM_set_int64 be (Some p) v m = Some (0, inexact))
  /\ (forall v, 2 ^ 53 <= v ->
        OSSL_PARAM_set_uint64 be (Some p) v m = Some (0, inexact))
  /\ (forall v, - 2 ^ 53 < v < 2 ^ 53 ->
        load_double be a (stored v) = Some (double_of_Z v, stored v)
        /\ double_exact_Z (double_of_Z v) = Some v).
Proof.
  destruct m as [ps h es av]. destruct d as [k ty da sz rs].
  cbn [data_type data data_size return_size key params heap errors avail] in *.
  subst ty da sz. cbv zeta.
  assert (Habs : forall v, INT64_MIN <= v <= INT64_MAX ->
            cast_uint64 (if v <? 0 then - v else v) = Z.abs v).
  { intros v Hv. unfold cast_uint64, INT64_MIN, INT64_MAX in *.
    destruct (Z.ltb_spec v 0); rewrite Z.mod_small; lia. }
  split; [|split; [|split; [|split]]].
  - intros v Hv. unfold OSSL_PARAM_set_int64. unfold_c. exec.
    rewrite Habs by (unfold INT64_MIN, INT64_MAX; lia).
    rewrite shiftr_real_shift by lia.
    replace (Z.abs v <? 2 ^ 53) with true by (symmetry; apply Z.ltb_lt; lia).
    exec. rewrite drop_ge by length_solve. rewrite app_nil_r.
    rewrite list_insert_insert_eq. reflexivity.
  - intros v Hv. unfold OSSL_PARAM_set_uint64. unfold_c. exec.
    rewrite shiftr_real_shift by lia.
    replace (v <? 2 ^ 53) with true by (symmetry; apply Z.ltb_lt; lia).
    exec. rewrite drop_ge by length_solve. rewrite app_nil_r.
    rewrite list_insert_insert_eq. reflexivity.
  - intros v Hv Hbig. unfold OSSL_PARAM_set_int64. unfold_c. exec.
    rewrite Habs by assumption.
    rewrite shiftr_real_shift by lia.
    replace (Z.abs v <? 2 ^ 53) with false by (symmetry; apply Z.ltb_ge; lia).
    exec. reflexivity.
  - intros v Hbig. unfold OSSL_PARAM_set_uint64. unfold_c. exec.
    rewrite shiftr_real_shift by lia.
    replace (v <? 2 ^ 53) with false by (symmetry; apply Z.ltb_ge; lia).
    exec. reflexivity.
  - intros v Hv. split; [|apply double_of_Z_exact; exact Hv].
    destruct (double_bits_of_Z v Hv) as [Hbits Hback].
    unfold_c. exec. rewrite take_ge by length_solve. rewrite native_value_bytes.
    change (8 * Z.of_nat 8) with 64. rewrite Z.mod_small by exact Hbits.
    rewrite Hback. reflexivity.
Qed.

Lemma set_int64_real_precision_boundary_witness :
  OSSL_PARAM_set_int64 false (Some 0%nat) (2 ^ 53 - 1)
    (sample_machine OSSL_PARAM_REAL (Some 1%positive) 8)
  = Some (1, with_heap
               (with_params (sample_machine OSSL_PARAM_REAL (Some 1%positive) 8)
                  [with_return_size
                     (sample_param OSSL_PARAM_REAL (Some 1%positive) 8) 8;
                   OSSL_PARAM_END])
               (<[1%positive :=
                    native_bytes false 8 (double_bits (double_of_Z (2 ^ 53 - 1)))]>
                  (heap (sample_machine OSSL_PARAM_REAL (Some 1%positive) 8)))).
Proof.
  apply (proj1 (set_int64_real_precision_boundary false
           (sample_machine OSSL_PARAM_REAL (Some 1%positive) 8) 0
           (sample_param OSSL_PARAM_REAL (Some 1%positive) 8) 1%positive
           (replicate 8 0) eq_refl eq_refl eq_refl eq_refl eq_refl eq_refl)
           (2 ^ 53 - 1)).
  lia.
Defined.

(** The claim of C3 fails at 2^53: both accessors refuse it as inexact. *)
Lemma set_int64_real_two_pow_53_counterexample :
  (exists m',
     OSSL_PARAM_set_int64 false (Some 0%nat) (2 ^ 53)
       (sample_machine OSSL_PARAM_REAL (Some 1%positive) 8) = Some (0, m')
     /\ errors m' = [CRYPTO_R_PARAM_CANNOT_BE_REPRESENTED_EXACTLY]
     /\ heap m' = heap (sample_machine OSSL_PARAM_REAL (Some 1%positive) 8))
  /\ (exists m',
        OSSL_PARAM_set_uint64 false (Some 0%nat) (2 ^ 53)
          (sample_machine OSSL_PARAM_REAL (Some 1%positive) 8) = Some (0, m')
        /\ errors m' = [CRYPTO_R_PARAM_CANNOT_BE_REPRESENTED_EXACTLY]
        /\ heap m' = heap (sample_machine OSSL_PARAM_REAL (Some 1%positive) 8)).
Proof.
  split; eexists; (split; [vm_compute; reflexivity|]); split; reflexivity.
Qed.

(** ** Size queries *)

Lemma BN_num_bytes_nonneg (v : Z) : 0 <= BN_num_bytes v.
Proof.
  unfold BN_num_bytes, BN_num_bits.
  destruct (v =? 0).
  - apply Z.div_pos; lia.
  - pose proof (Z.log2_nonneg (Z.abs v)). apply Z.div_pos; lia.
Qed.




Ltac native_width :=
  unfold OSSL_PARAM_set_int, OSSL_PARAM_set_uint, OSSL_PARAM_set_long,
    OSSL_PARAM_set_ulong, OSSL_PARAM_set_size_t, OSSL_PARAM_set_time_t;
  cbv [sizeof_int sizeof_long sizeof_size_t sizeof_time_t sizeof_int32_t
       sizeof_int64_t sizeof_uint32_t sizeof_uint64_t Z.eqb Pos.eqb].




(** ** Who writes return_size *)

Section Keeps.
Context {A B : Type}.

Lemma keeps_ret (a : A) : keeps_params (ret a).
Proof. intros m r m' [= _ <-]. reflexivity. Qed.

Lemma keeps_bind (c : M A) (k : A -> M B) :
  keeps_params c -> (forall a, keeps_params (k a)) -> keeps_params (bind c k).
Proof.
  intros Hc Hk m r m' H. unfold bind in H.
  destruct (c m) as [[a m1]|] eqn:Hcm; [|discriminate].
  rewrite (Hk a m1 r m' H). apply (Hc m a m1 Hcm).
Qed.

Lemma keeps_undefined : keeps_params (@undefined A).
Proof. intros m r m' H. discriminate H. Qed.

Lemma keeps_lift_option (o : option A) : keeps_params (lift_option o).
Proof. intros m r m' H. unfold lift_option in H. destruct o; [|discriminate]. congruence. Qed.

Lemma ignores_ret (a : A) : ignores_params (ret a).
Proof. intros m ps. reflexivity. Qed.

Lemma ignores_bind (c : M A) (k : A -> M B) :
  ignores_params c -> (forall a, ignores_params (k a)) ->
  ignores_params (bind c k).
Proof.
  intros Hc Hk m ps. unfold bind. rewrite Hc.
  destruct (c m) as [[a m1]|]; [apply Hk | reflexivity].
Qed.

Lemma ignores_undefined : ignores_params (@undefined A).
Proof. intros m ps. reflexivity. Qed.

Lemma ignores_lift_option (o : option A) : ignores_params (lift_option o).
Proof. intros m ps. destruct o; reflexivity. Qed.

Lemma ignores_keeps (c : M A) : ignores_params c -> keeps_params c.
Proof.
  intros Hc m r m' H. specialize (Hc m (params m)).
  replace (with_params m (params m)) with m in Hc by (destruct m; reflexivity).
  rewrite H in Hc. injection Hc as Hc. rewrite Hc. reflexivity.
Qed.
End Keeps.

Lemma keeps_ERR_raise (r : reason) : keeps_params (ERR_raise r).
Proof. intros m x m' [= _ <-]. reflexivity. Qed.

Lemma keeps_deref (p : nat) : keeps_params (deref p).
Proof.
  intros m r m' H. unfold deref in H.
  destruct (params m !! p); [|discriminate]. congruence.
Qed.

Lemma keeps_block (a : addr) : keeps_params (block a).
Proof.
  intros m r m' H. unfold block in H.
  destruct (heap m !! a); [|discriminate]. congruence.
Qed.

Lemma keeps_load (a : addr) (n : nat) : keeps_params (load a n).
Proof.
  intros m r m' H. unfold load in H.
  destruct (heap m !! a); [|discriminate].
  destruct (_ <=? _)%nat; [|discriminate]. congruence.
Qed.

Lemma ignores_ERR_raise (r : reason) : ignores_params (ERR_raise r).
Proof. intros m ps. reflexivity. Qed.

Lemma ignores_store_at (a : addr) (off : nat) (bs : list Z) :
  ignores_params (store_at a off bs).
Proof.
  intros m ps. unfold store_at. cbn [heap with_params].
  destruct (heap m !! a); [|reflexivity].
  destruct (_ <=? _)%nat; reflexivity.
Qed.

Lemma ignores_memset (a : addr) (off : nat) (c : Z) (n : nat) :
  ignores_params (memset a off c n).
Proof. apply ignores_store_at. Qed.

Lemma ignores_memcpy (a : addr) (off : nat) (src : list Z) (n : nat) :
  ignores_params (memcpy a off src n).
Proof.
  unfold memcpy. destruct (_ <=? _)%nat; [apply ignores_store_at | apply ignores_undefined].
Qed.

Create HintDb machine.
#[local] Hint Resolve keeps_ret keeps_undefined keeps_lift_option keeps_ERR_raise
  keeps_deref keeps_block keeps_load ignores_ret ignores_undefined
  ignores_lift_option ignores_ERR_raise ignores_store_at ignores_memset
  ignores_memcpy : machine.

Ltac frame :=
  repeat first
  [ solve [auto with machine]
  | apply keeps_bind; [|intros ?]
  | apply ignores_bind; [|intros ?]
  | match goal with
    | |- keeps_params (if ?c then _ else _) => destruct c
    | |- ignores_params (if ?c then _ else _) => destruct c
    | |- keeps_params (match ?x with _ => _ end) => destruct x
    | |- ignores_params (match ?x with _ => _ end) => destruct x
    end ].

Lemma ignores_is_negative be number s : ignores_params (is_negative be number s).
Proof. unfold is_negative. frame. Qed.

Lemma ignores_copy_integer be dest dest_len src src_len pad signed_int :
  ignores_params (copy_integer be dest dest_len src src_len pad signed_int).
Proof. unfold copy_integer, err_out_of_range. frame. Qed.

#[local] Hint Resolve ignores_is_negative ignores_copy_integer : machine.

Lemma ignores_signed_from_signed be dest dest_len src src_len :
  ignores_params (signed_from_signed be dest dest_len src src_len).
Proof. unfold signed_from_signed. frame. Qed.

Lemma ignores_signed_from_unsigned be dest dest_len src src_len :
  ignores_params (signed_from_unsigned be dest dest_len src src_len).
Proof. unfold signed_from_unsigned. frame. Qed.

Lemma ignores_unsigned_from_signed be dest dest_len src src_len :
  ignores_params (unsigned_from_signed be dest dest_len src src_len).
Proof. unfold unsigned_from_signed, err_unsigned_negative. frame. Qed.

Lemma ignores_unsigned_from_unsigned be dest dest_len src src_len :
  ignores_params (unsigned_from_unsigned be dest dest_len src src_len).
Proof. unfold unsigned_from_unsigned. frame. Qed.

Lemma keeps_store_at a off bs : keeps_params (store_at a off bs).
Proof. apply ignores_keeps, ignores_store_at. Qed.

Lemma keeps_store a bs : keeps_params (store a bs).
Proof. apply keeps_store_at. Qed.

Lemma keeps_memcpy a off src n : keeps_params (memcpy a off src n).
Proof. apply ignores_keeps, ignores_memcpy. Qed.

Lemma keeps_signed_from_signed be dest dest_len src src_len :
  keeps_params (signed_from_signed be dest dest_len src src_len).
Proof. apply ignores_keeps, ignores_signed_from_signed. Qed.

Lemma keeps_signed_from_unsigned be dest dest_len src src_len :
  keeps_params (signed_from_unsigned be dest dest_len src src_len).
Proof. apply ignores_keeps, ignores_signed_from_unsigned. Qed.

Lemma keeps_unsigned_from_signed be dest dest_len src src_len :
  keeps_params (unsigned_from_signed be dest dest_len src src_len).
Proof. apply ignores_keeps, ignores_unsigned_from_signed. Qed.

Lemma keeps_unsigned_from_unsigned be dest dest_len src src_len :
  keeps_params (unsigned_from_unsigned be dest dest_len src src_len).
Proof. apply ignores_keeps, ignores_unsigned_from_unsigned. Qed.

Lemma keeps_OPENSSL_malloc n : keeps_params (OPENSSL_malloc n).
Proof.
  intros m r m' H. unfold OPENSSL_malloc in H.
  destruct (_ || _); injection H as _ <-; reflexivity.
Qed.

#[local] Hint Resolve keeps_store_at keeps_store keeps_memcpy
  keeps_signed_from_signed keeps_signed_from_unsigned
  keeps_unsigned_from_signed keeps_unsigned_from_unsigned
  keeps_OPENSSL_malloc : machine.

Ltac unfold_access :=
  unfold load_int32, load_uint32, load_int64, load_uint64, load_double,
    store_int32, store_uint32, store_int64, store_uint64, store_double,
    err_unsigned_negative, err_out_of_range, err_inexact,
    err_not_integer, err_too_small, err_bad_type, err_null_argument,
    err_unsupported_real.

Lemma keeps_general_get_int be p val val_size :
  keeps_params (general_get_int be p val val_size).
Proof. unfold general_get_int. unfold_access. frame. Qed.

Lemma keeps_general_get_uint be p val val_size :
  keeps_params (general_get_uint be p val val_size).
Proof. unfold general_get_uint. unfold_access. frame. Qed.

#[local] Hint Resolve keeps_general_get_int keeps_general_get_uint : machine.

Lemma keeps_get_int32 be p val : keeps_params (OSSL_PARAM_get_int32 be p val).
Proof. unfold OSSL_PARAM_get_int32. unfold_access. frame. Qed.

Lemma keeps_get_uint32 be p val : keeps_params (OSSL_PARAM_get_uint32 be p val).
Proof. unfold OSSL_PARAM_get_uint32. unfold_access. frame. Qed.

Lemma keeps_get_int64 be p val : keeps_params (OSSL_PARAM_get_int64 be p val).
Proof. unfold OSSL_PARAM_get_int64. unfold_access. frame. Qed.

Lemma keeps_get_uint64 be p val : keeps_params (OSSL_PARAM_get_uint64 be p val).
Proof. unfold OSSL_PARAM_get_uint64. unfold_access. frame. Qed.

Lemma keeps_get_string_internal p val max_len used_len type :
  keeps_params (get_string_internal p val max_len used_len type).
Proof. unfold get_string_internal. unfold_access. frame. Qed.

#[local] Hint Resolve keeps_get_string_internal : machine.

Lemma keeps_get_utf8_string p val max_len :
  keeps_params (OSSL_PARAM_get_utf8_string p val max_len).
Proof. unfold OSSL_PARAM_get_utf8_string. unfold_access. frame. Qed.

Lemma keeps_get_octet_string p val max_len used_len :
  keeps_params (OSSL_PARAM_get_octet_string p val max_len used_len).
Proof. unfold OSSL_PARAM_get_octet_string. frame. Qed.

#[local] Hint Resolve keeps_get_int32 keeps_get_uint32 keeps_get_int64
  keeps_get_uint64 : machine.

Lemma keeps_get_native be p val :
  keeps_params (OSSL_PARAM_get_int be p val)
  /\ keeps_params (OSSL_PARAM_get_uint be p val)
  /\ keeps_params (OSSL_PARAM_get_long be p val)
  /\ keeps_params (OSSL_PARAM_get_ulong be p val)
  /\ keeps_params (OSSL_PARAM_get_size_t be p val)
  /\ keeps_params (OSSL_PARAM_get_time_t be p val).
Proof.
  unfold OSSL_PARAM_get_int, OSSL_PARAM_get_uint, OSSL_PARAM_get_long,
    OSSL_PARAM_get_ulong, OSSL_PARAM_get_size_t, OSSL_PARAM_get_time_t.
  repeat split; frame.
Qed.

Lemma keeps_get_BN be p val : keeps_params (OSSL_PARAM_get_BN be p val).
Proof.
  unfold OSSL_PARAM_get_BN, BN_native2bn, BN_signed_native2bn.
  unfold_access. frame.
Qed.

Lemma keeps_get_double be p val : keeps_params (OSSL_PARAM_get_double be p val).
Proof. unfold OSSL_PARAM_get_double. unfold_access. frame. Qed.

Lemma keeps_get_ptr_internal_skip_checks be p val used_len :
  keeps_params (get_ptr_internal_skip_checks be p val used_len).
Proof. unfold get_ptr_internal_skip_checks, load_ptr. frame. Qed.

#[local] Hint Resolve keeps_get_ptr_internal_skip_checks : machine.

Lemma keeps_get_ptr_internal be p val used_len type :
  keeps_params (get_ptr_internal be p val used_len type).
Proof. unfold get_ptr_internal. unfold_access. frame. Qed.

Lemma keeps_get_string_ptr_internal be p val used_len ref_type type :
  keeps_params (get_string_ptr_internal be p val used_len ref_type type).
Proof. unfold get_string_ptr_internal. unfold_access. frame. Qed.

Lemma set_return_size_reset (m : machine) (p : nat) (d : OSSL_PARAM) (rs0 x : Z) :
  params m !! p = Some d ->
  set_return_size p x (with_params m (<[p := with_return_size d rs0]> (params m)))
  = set_return_size p x m.
Proof.
  intros Hp. unfold set_return_size. cbn [params with_params].
  rewrite list_lookup_insert_eq by (eapply lookup_lt_Some; eassumption).
  rewrite Hp, list_insert_insert_eq. reflexivity.
Qed.

Lemma assigns_first (p : nat) (x : Z) (k : M Z) :
  assigns_return_size (bind (set_return_size p x) (fun _ => k)) p.
Proof.
  intros m d rs0 Hp. unfold bind. rewrite (set_return_size_reset m p d rs0 x Hp).
  reflexivity.
Qed.

Lemma assigns_last (p : nat) (c : M Z) (f : Z -> Z) :
  ignores_params c ->
  forall m d rs0, params m !! p = Some d ->
    bind c (fun r => bind (set_return_size p (f r)) (fun _ => ret r))
      (with_params m (<[p := with_return_size d rs0]> (params m)))
    = bind c (fun r => bind (set_return_size p (f r)) (fun _ => ret r)) m.
Proof.
  intros Hc m d rs0 Hp. unfold bind at 1 3. rewrite Hc.
  destruct (c m) as [[r m1]|] eqn:Hcm; [|reflexivity].
  pose proof (ignores_keeps c Hc m r m1 Hcm) as Hk.
  unfold bind. rewrite <- Hk. rewrite set_return_size_reset by (rewrite Hk; exact Hp).
  reflexivity.
Qed.

Lemma bind_deref {A} (p : nat) (k : OSSL_PARAM -> M A) (m : machine)
    (d : OSSL_PARAM) :
  params m !! p = Some d -> bind (deref p) k m = k d m.
Proof. intros H. unfold bind, deref. rewrite H. reflexivity. Qed.

Lemma assigns_general_set_int be p val n :
  assigns_return_size (general_set_int be p val n) p.
Proof.
  intros m d rs0 Hp. unfold general_set_int.
  rewrite (bind_deref p _ _ (with_return_size d rs0))
    by (apply list_lookup_insert_eq; eapply lookup_lt_Some; eassumption).
  rewrite (bind_deref p _ m d Hp).
  cbn [data data_type data_size with_return_size].
  destruct (data d) as [a|].
  - apply assigns_last; [|exact Hp]. unfold err_not_integer.
    pose proof ignores_signed_from_signed. pose proof ignores_unsigned_from_signed.
    frame.
  - unfold bind. rewrite set_return_size_reset by exact Hp. reflexivity.
Qed.

Lemma assigns_general_set_uint be p val n :
  assigns_return_size (general_set_uint be p val n) p.
Proof.
  intros m d rs0 Hp. unfold general_set_uint.
  rewrite (bind_deref p _ _ (with_return_size d rs0))
    by (apply list_lookup_insert_eq; eapply lookup_lt_Some; eassumption).
  rewrite (bind_deref p _ m d Hp).
  cbn [data data_type data_size with_return_size].
  destruct (data d) as [a|].
  - apply assigns_last; [|exact Hp]. unfold err_not_integer.
    pose proof ignores_signed_from_unsigned. pose proof ignores_unsigned_from_unsigned.
    frame.
  - unfold bind. rewrite set_return_size_reset by exact Hp. reflexivity.
Qed.

(** C4, as the code has it.  A set accessor called on a descriptor that is
    there assigns return_size on every path, success or failure: what the
    call does and the value return_size holds after it do not depend on the
    value return_size held before it.  This holds for the integer accessors
    of every width, the general paths, OSSL_PARAM_set_BN,
    OSSL_PARAM_set_double and the pointer accessors.  Two families fail
    before touching the descriptor: OSSL_PARAM_set_utf8_string and
    OSSL_PARAM_set_octet_string when the value pointer is null, and
    OSSL_PARAM_set_octet_string_or_ptr when the descriptor is neither an
    OCTET_STRING nor an OCTET_PTR; on its other paths
    OSSL_PARAM_set_octet_string_or_ptr assigns return_size as well.  What
    is assigned need not be a required size: OSSL_PARAM_set_int32 on a
    descriptor that is not of a numeric type fails with 0 in return_size.
    The get accessors take the descriptor read-only: no get call,
    successful or failing, changes any descriptor, so return_size keeps its
    prior value. *)
Theorem return_size_assignment (be : bool) (cu ci : double -> Z) (p : nat) :
  (forall v, assigns_return_size (OSSL_PARAM_set_int32 be (Some p) v) p)
  /\ (forall v, assigns_return_size (OSSL_PARAM_set_uint32 be (Some p) v) p)
  /\ (forall v, assigns_return_size (OSSL_PARAM_set_int64 be (Some p) v) p)
  /\ (forall v, assigns_return_size (OSSL_PARAM_set_uint64 be (Some p) v) p)
  /\ (forall val n, assigns_return_size (general_set_int be p val n) p)
  /\ (forall val n, assigns_return_size (general_set_uint be p val n) p)
  /\ (forall val, assigns_return_size (OSSL_PARAM_set_BN be (Some p) val) p)
  /\ (forall val,
        assigns_return_size (OSSL_PARAM_set_utf8_string (Some p) (Some val)) p)
  /\ (forall val len,
        assigns_return_size (OSSL_PARAM_set_octet_string (Some p) (Some val) len) p)
  /\ (forall m len,
        OSSL_PARAM_set_utf8_string (Some p) None m
        = Some (0, with_errors m (ERR_R_PASSED_NULL_PARAMETER :: errors m))
        /\ OSSL_PARAM_set_octet_string (Some p) None len m
           = Some (0, with_errors m (ERR_R_PASSED_NULL_PARAMETER :: errors m)))
  /\ (forall m d v, params m !! p = Some d ->
        data_type d <> OSSL_PARAM_INTEGER ->
        data_type d <> OSSL_PARAM_UNSIGNED_INTEGER ->
        data_type d <> OSSL_PARAM_REAL ->
        OSSL_PARAM_set_int32 be (Some p) v m
        = Some (0, with_errors
                     (with_params m (<[p := with_return_size d 0]> (params m)))
                     (CRYPTO_R_PARAM_OF_INCOMPATIBLE_TYPE :: errors m)))
  /\ (forall val, keeps_params (OSSL_PARAM_get_int32 be (Some p) val))
  /\ (forall val, keeps_params (OSSL_PARAM_get_uint32 be (Some p) val))
  /\ (forall val, keeps_params (OSSL_PARAM_get_int64 be (Some p) val))
  /\ (forall val, keeps_params (OSSL_PARAM_get_uint64 be (Some p) val))
  /\ (forall val max_len,
        keeps_params (OSSL_PARAM_get_utf8_string (Some p) val max_len))
  /\ (forall val max_len used_len,
        keeps_params (OSSL_PARAM_get_octet_string (Some p) val max_len used_len))
  /\ (forall v, assigns_return_size (OSSL_PARAM_set_double be cu ci (Some p) v) p)
  /\ (forall val, assigns_return_size (OSSL_PARAM_set_utf8_ptr be (Some p) val) p)
  /\ (forall val len,
        assigns_return_size (OSSL_PARAM_set_octet_ptr be (Some p) val len) p)
  /\ (forall v,
        assigns_return_size (OSSL_PARAM_set_int be (Some p) v) p
        /\ assigns_return_size (OSSL_PARAM_set_uint be (Some p) v) p
        /\ assigns_return_size (OSSL_PARAM_set_long be (Some p) v) p
        /\ assigns_return_size (OSSL_PARAM_set_ulong be (Some p) v) p
        /\ assigns_return_size (OSSL_PARAM_set_size_t be (Some p) v) p
        /\ assigns_return_size (OSSL_PARAM_set_time_t be (Some p) v) p)
  /\ (forall m d rs0 val len, params m !! p = Some d ->
        data_type d = OSSL_PARAM_OCTET_PTR
        \/ (data_type d = OSSL_PARAM_OCTET_STRING /\ val <> None) ->
        OSSL_PARAM_set_octet_string_or_ptr be (Some p) val len
          (with_params m (<[p := with_return_size d rs0]> (params m)))
        = OSSL_PARAM_set_octet_string_or_ptr be (Some p) val len m)
  /\ (forall m d val len, params m !! p = Some d ->
        data_type d <> OSSL_PARAM_OCTET_STRING ->
        data_type d <> OSSL_PARAM_OCTET_PTR ->
        OSSL_PARAM_set_octet_string_or_ptr be (Some p) val len m
        = Some (0, with_errors m
                     (CRYPTO_R_PARAM_OF_INCOMPATIBLE_TYPE :: errors m)))
  /\ (forall val,
        keeps_params (OSSL_PARAM_get_int be (Some p) val)
        /\ keeps_params (OSSL_PARAM_get_uint be (Some p) val)
        /\ keeps_params (OSSL_PARAM_get_long be (Some p) val)
        /\ keeps_params (OSSL_PARAM_get_ulong be (Some p) val)
        /\ keeps_params (OSSL_PARAM_get_size_t be (Some p) val)
        /\ keeps_params (OSSL_PARAM_get_time_t be (Some p) val))
  /\ (forall val, keeps_params (OSSL_PARAM_get_BN be (Some p) val))
  /\ (forall val, keeps_params (OSSL_PARAM_get_double be (Some p) val))
  /\ (forall val, keeps_params (OSSL_PARAM_get_utf8_ptr be (Some p) val))
  /\ (forall val used_len,
        keeps_params (OSSL_PARAM_get_octet_ptr be (Some p) val used_len))
  /\ (forall val, keeps_params (OSSL_PARAM_get_utf8_string_ptr be (Some p) val))
  /\ (forall val used_len,
        keeps_params (OSSL_PARAM_get_octet_string_ptr be (Some p) val used_len)).
Proof.
  repeat match goal with |- _ /\ _ => split end; intros.
  - apply assigns_first.
  - apply assigns_first.
  - apply assigns_first.
  - apply assigns_first.
  - apply assigns_general_set_int.
  - apply assigns_general_set_uint.
  - apply assigns_first.
  - apply assigns_first.
  - apply assigns_first.
  - split; reflexivity.
  - destruct m as [ps h es av]. destruct d as [k ty da sz rs].
    cbn [data_type data data_size return_size key params heap errors avail] in *.
    unfold OSSL_PARAM_set_int32. unfold_c. exec.
    destruct (Z.eqb_spec ty OSSL_PARAM_INTEGER); [contradiction|].
    destruct (Z.eqb_spec ty OSSL_PARAM_UNSIGNED_INTEGER); [contradiction|].
    destruct (Z.eqb_spec ty OSSL_PARAM_REAL); [contradiction|].
    exec. reflexivity.
  - apply keeps_get_int32.
  - apply keeps_get_uint32.
  - apply keeps_get_int64.
  - apply keeps_get_uint64.
  - apply keeps_get_utf8_string.
  - apply keeps_get_octet_string.
  - apply assigns_first.
  - apply assigns_first.
  - apply assigns_first.
  - repeat match goal with |- _ /\ _ => split end; apply assigns_first.
  - unfold OSSL_PARAM_set_octet_string_or_ptr.
    rewrite (bind_deref p _ _ (with_return_size d rs0))
      by (apply list_lookup_insert_eq; eapply lookup_lt_Some; eassumption).
    rewrite (bind_deref p _ m d) by assumption.
    cbn [data_type with_return_size].
    match goal with H : _ \/ _ |- _ => destruct H as [Hty | [Hty Hval]] end;
      rewrite Hty; cbn [Z.eqb Pos.eqb OSSL_PARAM_OCTET_STRING OSSL_PARAM_OCTET_PTR].
    + apply assigns_first. assumption.
    + destruct val as [val|]; [|contradiction]. apply assigns_first. assumption.
  - unfold OSSL_PARAM_set_octet_string_or_ptr.
    rewrite (bind_deref p _ m d) by assumption.
    destruct (Z.eqb_spec (data_type d) OSSL_PARAM_OCTET_STRING); [contradiction|].
    destruct (Z.eqb_spec (data_type d) OSSL_PARAM_OCTET_PTR); [contradiction|].
    reflexivity.
  - apply keeps_get_native.
  - apply keeps_get_BN.
  - apply keeps_get_double.
  - apply keeps_get_ptr_internal.
  - apply keeps_get_ptr_internal.
  - apply keeps_get_string_ptr_internal.
  - apply keeps_get_string_ptr_internal.
Qed.

Lemma return_size_assignment_witness :
  OSSL_PARAM_set_int32 false (Some 0%nat) 5 string_machine
  = Some (0, with_errors
               (with_params string_machine
                  (<[0%nat := with_return_size
                                (ossl_param_construct (Some "name"%string)
                                   OSSL_PARAM_UTF8_STRING (Some 1%positive) 2) 0]>
                     (params string_machine)))
               [CRYPTO_R_PARAM_OF_INCOMPATIBLE_TYPE]).
Proof.
  apply (proj1 (proj2 (proj2 (proj2 (proj2 (proj2 (proj2 (proj2 (proj2 (proj2
           (proj2 (return_size_assignment false (fun _ => 0) (fun _ => 0) 0)))))))))))
           string_machine
           (ossl_param_construct (Some "name"%string)
              OSSL_PARAM_UTF8_STRING (Some 1%positive) 2)
           5 eq_refl);
    discriminate.
Defined.

(** The claim of C4 fails for the get accessors: a successful
    OSSL_PARAM_get_int32 on a freshly constructed descriptor leaves
    return_size at OSSL_PARAM_UNMODIFIED, and what return_size holds after
    the call is what it held before. *)
Lemma get_int32_return_size_counterexample :
  (exists m',
     OSSL_PARAM_get_int32 false (Some 0%nat) (Some 2%positive)
       (sample_machine OSSL_PARAM_INTEGER (Some 1%positive) 4) = Some (1, m')
     /\ return_size <$> params m' !! 0%nat = Some OSSL_PARAM_UNMODIFIED)
  /\ ~ assigns_return_size
         (OSSL_PARAM_get_int32 false (Some 0%nat) (Some 2%positive)) 0.
Proof.
  split.
  - eexists. split; [vm_compute; reflexivity | reflexivity].
  - intros H.
    specialize (H (sample_machine OSSL_PARAM_INTEGER (Some 1%positive) 4)
                  (sample_param OSSL_PARAM_INTEGER (Some 1%positive) 4) 7 eq_refl).
    vm_compute in H. discriminate H.
Qed.

(** ** String termination *)

Lemma strnlen_nonzero (src : list Z) (L : nat) :
  (L <= length src)%nat -> Forall (fun c => c <> 0) (take L src) ->
  OPENSSL_strnlen src L = Some (Z.of_nat L).
Proof.
  revert src; induction L as [|L IH]; intros src Hl Hnz.
  - reflexivity.
  - destruct src as [|c src]; [simpl in Hl; lia|].
    simpl in Hl. change (take (S L) (c :: src)) with (c :: take L src) in Hnz.
    apply Forall_cons in Hnz. destruct Hnz as [Hc Hnz].
    cbn [OPENSSL_strnlen]. destruct (Z.eqb_spec c 0); [contradiction|].
    rewrite IH by (assumption || lia). cbn [option_map]. f_equal. lia.
Qed.

(** C7.  A UTF8_STRING descriptor holds a string of [L] bytes, none of them
    NUL, and data_size is [L].  OSSL_PARAM_get_utf8_string into a caller's
    buffer of capacity [L + 1] returns 1 and leaves the string followed by a
    NUL at index [L] in the buffer.  Into a caller's buffer of capacity [L]
    it returns 0 and raises CRYPTO_R_NO_SPACE_FOR_TERMINATING_NULL. *)
Theorem get_utf8_string_termination (m : machine) (p : nat) (d : OSSL_PARAM)
    (a b : addr) (src buf : list Z) (L : nat)
    (Hp : params m !! p = Some d)
    (Hty : data_type d = OSSL_PARAM_UTF8_STRING)
    (Hd : data d = Some a) (Hsz : data_size d = Z.of_nat L)
    (Ha : heap m !! a = Some src) (Hlen : (L <= length src)%nat)
    (Hnz : Forall (fun c => c <> 0) (take L src))
    (Hab : a <> b) (Hb : heap m !! b = Some buf) :
  (length buf = S L ->
   OSSL_PARAM_get_utf8_string (Some p) (Some (Some b)) (Z.of_nat L + 1) m
   = Some ((1, Some (Some b)),
           with_heap m (<[b := take L src ++ [0]]> (heap m))))
  /\ (length buf = L ->
      OSSL_PARAM_get_utf8_string (Some p) (Some (Some b)) (Z.of_nat L) m
      = Some ((0, Some (Some b)),
              with_errors (with_heap m (<[b := take L src]> (heap m)))
                (CRYPTO_R_NO_SPACE_FOR_TERMINATING_NULL :: errors m))).
Proof.
  destruct m as [ps h es av]. destruct d as [k ty da sz rs].
  cbn [data_type data data_size return_size key params heap errors avail] in *.
  subst ty da sz.
  assert (HtL : length (take L src) = L) by (rewrite length_take; lia).
  split; intros Hbuf.
  - unfold OSSL_PARAM_get_utf8_string, get_string_internal. unfold_c. exec.
    replace (Z.of_nat L + 1 <? Z.of_nat L) with false by (symmetry; apply Z.ltb_ge; lia).
    exec.
    assert (Hcmp : (Z.of_nat L + 1 <=? Z.of_nat L) = false) by (apply Z.leb_gt; lia).
    rewrite Hcmp. exec. rewrite Hcmp. rewrite Nat2Z.id.
    cbn [mjoin option_join option_bind mbind].
    exec. rewrite insert_insert_eq.
    change (take 0 buf) with (@nil Z). rewrite !app_nil_l.
    rewrite (take_app_length' (take L src)) by (symmetry; exact HtL).
    rewrite (drop_ge (_ ++ _)) by (rewrite length_app, length_drop; simpl; lia).
    reflexivity.
  - unfold OSSL_PARAM_get_utf8_string, get_string_internal. unfold_c. exec.
    rewrite Z.ltb_irrefl. exec.
    rewrite Z.leb_refl. exec. rewrite Nat2Z.id.
    rewrite strnlen_nonzero by assumption. rewrite Z.leb_refl.
    change (take 0 buf) with (@nil Z). rewrite !app_nil_l.
    rewrite (drop_ge buf) by (simpl; lia). rewrite app_nil_r.
    reflexivity.
Qed.

Lemma get_utf8_string_termination_witness :
  OSSL_PARAM_get_utf8_string (Some 0%nat) (Some (Some 2%positive)) 3 string_machine
  = Some ((1, Some (Some 2%positive)),
          with_heap string_machine
            (<[2%positive := [104; 105; 0]]> (heap string_machine))).
Proof.
  apply (proj1 (get_utf8_string_termination string_machine 0
                  (ossl_param_construct (Some "name"%string)
                     OSSL_PARAM_UTF8_STRING (Some 1%positive) 2)
                  1%positive 2%positive [104; 105] [9; 9; 9] 2
                  eq_refl eq_refl eq_refl eq_refl eq_refl
                  ltac:(simpl; lia)
                  ltac:(repeat constructor; lia)
                  ltac:(discriminate) eq_refl)).
  reflexivity.
Defined.

(** ** Concatenation of octet strings *)

Lemma setbuf_loop_null (m : machine) (ps : list nat) :
  forall pkt, staticbuf pkt = None ->
  Forall (points_to_descriptor m) ps ->
  exists r, setbuf_loop ps (length ps) pkt m = Some (r, m)
    /\ (Exists (wrong_type m) ps -> r = None)
    /\ (Forall (empty_octet_string m) ps -> r = Some pkt).
Proof.
  induction ps as [|q ps IH]; intros pkt Hnull Hvalid.
  - exists (Some pkt). split; [reflexivity|]. split; [|reflexivity].
    intros H. inversion H.
  - apply Forall_cons in Hvalid. destruct Hvalid as [[d Hq] Hvalid].
    cbn [length setbuf_loop]. rewrite (bind_deref q _ m d Hq).
    destruct (Z.eqb_spec (data_type d) OSSL_PARAM_OCTET_STRING) as [Hty|Hty]; cbn [negb].
    + assert (Htail : forall r : option WPACKET,
                (Exists (wrong_type m) ps -> r = None) ->
                (Exists (wrong_type m) (q :: ps) -> r = None)).
      { intros r Hr He. apply Exists_cons in He. destruct He as [(d' & Hq' & Hd')|He].
        - congruence.
        - auto. }
      destruct (data d) as [a|] eqn:Hdata.
      * destruct (Z.eqb_spec (data_size d) 0) as [Hsz|Hsz]; cbn [negb].
        -- destruct (IH pkt Hnull Hvalid) as (r & Hr & Hbad & Hempty).
           exists r. split; [exact Hr|]. split; [auto|].
           intros Hall. apply Forall_cons in Hall. apply Hempty, Hall.
        -- unfold WPACKET_memcpy. rewrite Hnull.
           destruct (Z.eqb_spec (data_size d) 0); [contradiction|].
           assert (Hno : Forall (empty_octet_string m) (q :: ps) -> False).
           { intros Hall. apply Forall_cons in Hall.
             destruct Hall as [(d' & Hq' & _ & [Hn|Hz]) _]; congruence. }
           destruct (maxsize pkt - written pkt <? data_size d).
           ++ exists None. split; [reflexivity|]. split; [reflexivity|].
              intros Hall. destruct (Hno Hall).
           ++ unfold bind, ret. cbn [fst snd Z.eqb].
              destruct (IH {| staticbuf := None; maxsize := maxsize pkt;
                              written := written pkt + data_size d |}
                           eq_refl Hvalid) as (r & Hr & Hbad & _).
              exists r. split; [exact Hr|]. split; [auto|].
              intros Hall. destruct (Hno Hall).
      * destruct (IH pkt Hnull Hvalid) as (r & Hr & Hbad & Hempty).
        exists r. split; [exact Hr|]. split; [auto|].
        intros Hall. apply Forall_cons in Hall. apply Hempty, Hall.
    + exists None. split; [reflexivity|]. split; [reflexivity|].
      intros Hall. apply Forall_cons in Hall.
      destruct Hall as [(d' & Hq' & Hty' & _) _]. congruence.
Qed.

(** A block from the zero-allocator holds zero bytes. *)
Lemma OPENSSL_zalloc_run (n : Z) (m : machine) :
  OPENSSL_zalloc n m
  = if (n <=? 0) || (avail m <? n) then Some (None, m)
    else
      let a := fresh (dom (heap m)) in
      Some (Some a,
            with_avail
              (with_heap m (<[a := replicate (Z.to_nat n) 0]> (heap m)))
              (avail m - n)).
Proof.
  unfold OPENSSL_zalloc, OPENSSL_malloc, bind.
  destruct ((n <=? 0) || (avail m <? n)); [reflexivity|].
  cbv zeta. unfold memset, store_at, ret.
  cbn [heap with_heap with_avail].
  rewrite lookup_insert_eq, !length_replicate, Nat.add_0_l, Nat.leb_refl.
  unfold with_heap, with_avail. cbn [params heap errors avail].
  rewrite insert_insert_eq.
  rewrite (drop_ge (replicate _ _)) by (rewrite length_replicate; lia).
  rewrite app_nil_r. reflexivity.
Qed.

(** C8, as the code has it.  ossl_param_get1_concat_octet_string with n = 0
    returns 1 and touches nothing: the caller's [*out] and [*out_len] are
    left as they were.  With one or more descriptors, any of which has a
    data_type other than OCTET_STRING, it returns 0 with the machine as it
    was, so without allocating.  With one or more OCTET_STRING descriptors
    of total length 0, and a byte left to allocate, it returns 1 with
    [*out] a freshly allocated block of one zero byte and [*out_len] 0. *)
Theorem concat_octet_string_cases (m : machine) (ps : list nat)
    (out : option addr) (out_len : Z) :
  ossl_param_get1_concat_octet_string 0 ps out out_len m
  = Some ((1, out, out_len), m)
  /\ (ps <> [] -> Forall (points_to_descriptor m) ps ->
      Exists (wrong_type m) ps ->
      ossl_param_get1_concat_octet_string (Z.of_nat (length ps)) ps out out_len m
      = Some ((0, out, out_len), m))
  /\ (ps <> [] -> Forall (empty_octet_string m) ps -> 1 <= avail m ->
      (forall o, out = Some o -> is_Some (heap m !! o)) ->
      exists a m',
        ossl_param_get1_concat_octet_string (Z.of_nat (length ps)) ps out out_len m
        = Some ((1, Some a, 0), m')
        /\ heap m !! a = None
        /\ heap m' !! a = Some [0]).
Proof.
  split; [reflexivity|].
  assert (Hn : forall ps : list nat, ps <> [] -> (Z.of_nat (length ps) =? 0) = false).
  { intros [|q l] H; [contradiction|]. apply Z.eqb_neq. simpl. lia. }
  split.
  - intros Hne Hvalid Hbad.
    unfold ossl_param_get1_concat_octet_string. rewrite (Hn ps Hne).
    unfold setbuf_fromparams, WPACKET_init_null.
    unfold bind at 1 2. unfold ret at 1. cbn [fst snd Z.eqb].
    unfold bind at 1. rewrite Nat2Z.id.
    destruct (setbuf_loop_null m ps {| staticbuf := None; maxsize := SIZE_MAX; written := 0 |}
                eq_refl Hvalid) as (r & Hr & Hnone & _).
    rewrite Hr, (Hnone Hbad). reflexivity.
  - intros Hne Hempty Havail Hout.
    assert (Hvalid : Forall (points_to_descriptor m) ps).
    { eapply Forall_impl; [exact Hempty|]. intros q (d & Hq & _). exists d. exact Hq. }
    unfold ossl_param_get1_concat_octet_string. rewrite (Hn ps Hne).
    unfold setbuf_fromparams, WPACKET_init_null.
    unfold bind at 1 2. unfold ret at 1. cbn [fst snd Z.eqb].
    unfold bind at 1. rewrite Nat2Z.id.
    destruct (setbuf_loop_null m ps {| staticbuf := None; maxsize := SIZE_MAX; written := 0 |}
                eq_refl Hvalid) as (r & Hr & _ & Hsome).
    rewrite Hr, (Hsome Hempty).
    unfold WPACKET_get_total_written, WPACKET_finish, WPACKET_cleanup, bind, ret.
    cbn [fst snd Z.eqb written].
    rewrite OPENSSL_zalloc_run.
    replace (avail m <? 1) with false by (symmetry; apply Z.ltb_ge; lia).
    cbn [Z.leb Z.compare orb].
    set (a := fresh (dom (heap m))).
    assert (Hfresh : heap m !! a = None).
    { apply not_elem_of_dom. apply is_fresh. }
    exists a.
    destruct out as [o|].
    + destruct (Hout o eq_refl) as [blk Ho].
      assert (Hoa : a <> o) by congruence.
      unfold OPENSSL_clear_free. cbn [heap with_heap with_avail].
      rewrite lookup_insert_ne by exact Hoa. rewrite Ho.
      eexists. split; [reflexivity|]. split; [exact Hfresh|].
      cbn [heap with_heap with_avail].
      rewrite lookup_delete_ne by congruence. apply lookup_insert_eq.
    + eexists. split; [reflexivity|]. split; [exact Hfresh|].
      cbn [heap with_heap with_avail]. apply lookup_insert_eq.
Qed.

Lemma concat_octet_string_cases_witness :
  exists a m',
    ossl_param_get1_concat_octet_string 1 [1%nat] None 0 string_machine
    = Some ((1, Some a, 0), m')
    /\ heap string_machine !! a = None
    /\ heap m' !! a = Some [0].
Proof.
  apply (proj2 (proj2 (concat_octet_string_cases string_machine [1%nat] None 0))).
  - discriminate.
  - repeat constructor.
    exists (ossl_param_construct (Some "salt"%string) OSSL_PARAM_OCTET_STRING None 0).
    repeat split. left. reflexivity.
  - simpl. lia.
  - discriminate.
Defined.

(** The claim of C8 fails for n = 0 when the caller's variables hold an
    earlier result: the call returns 1 and the length reported is still 7. *)
Lemma concat_zero_descriptors_counterexample :
  exists out' len' m',
    ossl_param_get1_concat_octet_string 0 [] (Some 3%positive) 7 string_machine
    = Some ((1, out', len'), m')
    /\ out' = Some 3%positive /\ len' = 7 /\ len' <> 0.
Proof.
  eexists. eexists. eexists. split; [reflexivity|].
  split; [reflexivity|]. split; [reflexivity | discriminate].
Qed.

(** Two descriptors of 2 and 3 bytes are concatenated into a fresh block of
    5 bytes. *)
Example concat_two_octet_strings :
  exists a m',
    ossl_param_get1_concat_octet_string 2 [0%nat; 1%nat] None 0 octet_machine
    = Some ((1, Some a, 5), m')
    /\ heap octet_machine !! a = None
    /\ heap m' !! a = Some [1; 2; 3; 4; 5].
Proof.
  eexists. eexists. split; [vm_compute; reflexivity|]. split; reflexivity.
Qed.

(** ** Doubles and pointers through a descriptor *)

(** A double set into a REAL descriptor is read back bit for bit. *)
Example double_round_trip :
  exists m',
    (OSSL_PARAM_set_double false (fun _ => 0) (fun _ => 0) (Some 0%nat) (double_of_Z 5) ;;
     OSSL_PARAM_get_double false (Some 0%nat) (Some 2%positive))
      (sample_machine OSSL_PARAM_REAL (Some 1%positive) 8)
    = Some (1, m')
    /\ heap m' !! 2%positive = Some [0; 0; 0; 0; 0; 0; 20; 64].
Proof.
  eexists. split; [vm_compute; reflexivity | reflexivity].
Qed.

(** A double holding an integer goes into an INTEGER descriptor as that
    integer; one outside the range of the buffer is refused. *)
Example double_into_integer :
  (exists m',
     OSSL_PARAM_set_double false (fun _ => 0) (fun _ => 0) (Some 0%nat) (double_of_Z (-7))
       (sample_machine OSSL_PARAM_INTEGER (Some 1%positive) 4)
     = Some (1, m')
     /\ heap m' !! 1%positive = Some [249; 255; 255; 255])
  /\ (exists m',
        OSSL_PARAM_set_double false (fun _ => 0) (fun _ => 0) (Some 0%nat) (double_of_Z (2 ^ 31))
          (sample_machine OSSL_PARAM_INTEGER (Some 1%positive) 4)
        = Some (0, m')
        /\ errors m' = [CRYPTO_R_PARAM_VALUE_TOO_LARGE_FOR_DESTINATION]).
Proof.
  split; eexists; (split; [vm_compute; reflexivity | reflexivity]).
Qed.

(** A pointer set into an OCTET_PTR descriptor is the pointer read back,
    with the size of the descriptor's buffer as the length. *)
Example octet_ptr_round_trip :
  exists m',
    (OSSL_PARAM_set_octet_ptr false (Some 0%nat) (Some 2%positive) 5 ;;
     OSSL_PARAM_get_octet_ptr false (Some 0%nat) (Some None) (Some 0))
      (sample_machine OSSL_PARAM_OCTET_PTR (Some 1%positive) 8)
    = Some ((1, Some (Some 2%positive), Some 8), m')
    /\ return_size <$> params m' !! 0%nat = Some 5.
Proof.
  eexists. split; [vm_compute; reflexivity | reflexivity].
Qed.

(** * Further properties of the accessors *)

(** ** Resetting the modified flag *)

Lemma unmodified_scan_run (arr : list OSSL_PARAM) (n : nat) :
  array_at arr 0 n ->
  unmodified_scan arr = Some ((unmodified <$> take n arr) ++ drop n arr).
Proof.
  revert arr; induction n as [|n IH]; intros arr [Hk [e [He Hn]]].
  - destruct arr as [|d rest]; [discriminate|].
    simpl in He. injection He as ->. cbn [unmodified_scan]. rewrite Hn.
    reflexivity.
  - destruct (Hk 0%nat ltac:(lia)) as (d & Hd & Hkey).
    destruct arr as [|d' rest]; [discriminate|].
    simpl in Hd. injection Hd as ->.
    cbn [unmodified_scan]. destruct (key d) eqn:Ekey; [|contradiction].
    rewrite IH.
    + reflexivity.
    + split.
      * intros j Hj. destruct (Hk (S j) ltac:(lia)) as (x & Hx & Hkx).
        exists x. split; assumption.
      * exists e. split; assumption.
Qed.

(** X1.  On an array of [n] keyed entries closed by the terminator,
    OSSL_PARAM_set_all_unmodified returns, resets the return_size of each
    of the [n] entries to OSSL_PARAM_UNMODIFIED and changes nothing else:
    no other field, no descriptor outside the array (the terminator
    included), no buffer and no error.  OSSL_PARAM_modified then answers 0
    for every entry of the array. *)
Theorem set_all_unmodified_resets (m : machine) (p n : nat)
    (Harr : array_at (params m) p n) :
  exists m',
    OSSL_PARAM_set_all_unmodified (Some p) m = Some (tt, m')
    /\ heap m' = heap m /\ errors m' = errors m /\ avail m' = avail m
    /\ (forall q d, params m !! q = Some d ->
          params m' !! q
          = Some (if decide (p <= q < p + n)%nat then unmodified d else d))
    /\ (forall j, (j < n)%nat ->
          OSSL_PARAM_modified (Some (p + j)%nat) m' = Some (0, m')).
Proof.
  destruct m as [ps h es av]. cbn [params] in Harr.
  assert (Hscan : array_at (drop p ps) 0 n).
  { destruct Harr as [Hk [e [He Hn]]]. split.
    - intros j Hj. destruct (Hk j Hj) as (d & Hd & Hkey).
      exists d. rewrite lookup_drop. split; assumption.
    - exists e. rewrite lookup_drop. split; assumption. }
  assert (Hlen : (p + n < length ps)%nat).
  { destruct Harr as [_ [e [He _]]]. eapply lookup_lt_Some; eassumption. }
  assert (Hlook : forall q d, ps !! q = Some d ->
            (take p ps ++ (unmodified <$> take n (drop p ps)) ++ drop n (drop p ps))
              !! q
            = Some (if decide (p <= q < p + n)%nat then unmodified d else d)).
  { intros q d Hq.
    destruct (decide (p <= q < p + n)%nat) as [Hin|Hout].
    - rewrite lookup_app_r by (rewrite length_take; lia).
      rewrite length_take. replace (p `min` length ps)%nat with p by lia.
      rewrite lookup_app_l
        by (rewrite length_fmap, length_take, length_drop; lia).
      rewrite list_lookup_fmap, lookup_take_lt by lia.
      rewrite lookup_drop. replace (p + (q - p))%nat with q by lia.
      rewrite Hq. reflexivity.
    - destruct (Nat.lt_ge_cases q p) as [Hlt|Hge].
      + rewrite lookup_app_l by (rewrite length_take; lia).
        rewrite lookup_take_lt by lia. exact Hq.
      + rewrite lookup_app_r by (rewrite length_take; lia).
        rewrite length_take. replace (p `min` length ps)%nat with p by lia.
        rewrite lookup_app_r
          by (rewrite length_fmap, length_take, length_drop; lia).
        rewrite length_fmap, length_take, length_drop.
        replace (n `min` (length ps - p))%nat with n by lia.
        rewrite !lookup_drop.
        replace (p + (n + (q - p - n)))%nat with q by lia. exact Hq. }
  eexists. split.
  { unfold OSSL_PARAM_set_all_unmodified. cbn [params].
    rewrite (unmodified_scan_run _ n Hscan). reflexivity. }
  split; [reflexivity|]. split; [reflexivity|]. split; [reflexivity|].
  split.
  - cbn [params with_params]. exact Hlook.
  - intros j Hj. destruct Harr as [Hk _].
    destruct (Hk j Hj) as (d & Hd & _).
    unfold OSSL_PARAM_modified, bind, deref, ret. cbn [params with_params].
    rewrite (Hlook _ d Hd).
    destruct (decide (p <= p + j < p + n)%nat); [|lia].
    cbn [unmodified return_size with_return_size]. rewrite Z.eqb_refl. reflexivity.
Qed.

Lemma set_all_unmodified_resets_witness :
  exists m',
    OSSL_PARAM_set_all_unmodified (Some 0%nat) string_machine = Some (tt, m')
    /\ OSSL_PARAM_modified (Some 1%nat) m' = Some (0, m').
Proof.
  destruct (set_all_unmodified_resets string_machine 0 2)
    as (m' & H & _ & _ & _ & _ & Hm).
  - split.
    + intros j Hj. destruct j as [|[|j]]; [| |lia]; eexists; (split; [reflexivity | discriminate]).
    + eexists. split; reflexivity.
  - exists m'. split; [exact H | apply (Hm 1%nat); lia].
Defined.

(** ** Values and buffers of different widths *)

Lemma cast_int64_id (v : Z) : INT64_MIN <= v <= INT64_MAX -> cast_int64 v = v.
Proof.
  unfold INT64_MIN, INT64_MAX, cast_int64. intros H.
  apply (to_signed_wrap 64); simpl; lia.
Qed.

Lemma cast_int32_id (v : Z) : INT32_MIN <= v <= INT32_MAX -> cast_int32 v = v.
Proof.
  unfold INT32_MIN, INT32_MAX, cast_int32. intros H.
  apply (to_signed_wrap 32); simpl; lia.
Qed.

Lemma cast_uint64_id (v : Z) : 0 <= v <= UINT64_MAX -> cast_uint64 v = v.
Proof. unfold UINT64_MAX, cast_uint64. intros H. apply Z.mod_small. lia. Qed.

Lemma cast_uint32_id (v : Z) : 0 <= v <= UINT32_MAX -> cast_uint32 v = v.
Proof. unfold UINT32_MAX, cast_uint32. intros H. apply Z.mod_small. lia. Qed.

(** X2.  A 32-bit value set through OSSL_PARAM_set_int32 or
    OSSL_PARAM_set_uint32 into a descriptor whose buffer has 8 bytes is
    written in all 8 bytes: return_size is 8, and the 64-bit get accessor of
    the descriptor's signedness gives the value back.  This holds for either
    accessor with either integer type, as long as the value is one of the
    descriptor's type: for OSSL_PARAM_set_int32 into an unsigned buffer, a
    value that is not negative. *)
Theorem set32_promotes_to_8_bytes (be : bool) (m : machine) (p : nat)
    (d : OSSL_PARAM) (a out : addr) (blk oblk : list Z) (v : Z)
    (Hp : params m !! p = Some d) (Hd : data d = Some a) (Hsz : data_size d = 8)
    (Ha : heap m !! a = Some blk) (Hblk : length blk = 8%nat)
    (Hout : heap m !! out = Some oblk) (Hoblk : length oblk = 8%nat) :
  let promoted set :=
    exists m1, set (Some p) v m = Some (1, m1)
      /\ return_size <$> params m1 !! p = Some 8 in
  (data_type d = OSSL_PARAM_INTEGER -> INT32_MIN <= v <= INT32_MAX ->
   promoted (OSSL_PARAM_set_int32 be)
   /\ round_trip (OSSL_PARAM_set_int32 be) (OSSL_PARAM_get_int64 be)
        (load_int64 be) p out v m)
  /\ (data_type d = OSSL_PARAM_UNSIGNED_INTEGER -> 0 <= v <= INT32_MAX ->
      promoted (OSSL_PARAM_set_int32 be)
      /\ round_trip (OSSL_PARAM_set_int32 be) (OSSL_PARAM_get_uint64 be)
           (load_uint64 be) p out v m)
  /\ (data_type d = OSSL_PARAM_UNSIGNED_INTEGER -> 0 <= v <= UINT32_MAX ->
      promoted (OSSL_PARAM_set_uint32 be)
      /\ round_trip (OSSL_PARAM_set_uint32 be) (OSSL_PARAM_get_uint64 be)
           (load_uint64 be) p out v m)
  /\ (data_type d = OSSL_PARAM_INTEGER -> 0 <= v <= UINT32_MAX ->
      promoted (OSSL_PARAM_set_uint32 be)
      /\ round_trip (OSSL_PARAM_set_uint32 be) (OSSL_PARAM_get_int64 be)
           (load_int64 be) p out v m).
Proof.
  unfold round_trip.
  destruct m as [ps h es av]. destruct d as [k ty da sz rs].
  cbn [data_type data data_size return_size key params heap errors avail] in *.
  subst da sz. cbv zeta.
  (split; [|split; [|split]]); intros -> Hv.
  - assert (Hc : cast_int64 v = v)
      by (apply cast_int64_id; unfold INT32_MIN, INT32_MAX, INT64_MIN, INT64_MAX in *; lia).
    unfold INT32_MIN, INT32_MAX in Hv.
    unfold OSSL_PARAM_set_int32, OSSL_PARAM_get_int64. unfold_c. rewrite Hc.
    split.
    + eexists. split; [exec; reflexivity|]. exec. reflexivity.
    + destruct (decide (a = out)) as [->|Hne]; round_trip_run.
  - assert (Hc : cast_uint64 v = v)
      by (apply cast_uint64_id; unfold INT32_MAX, UINT64_MAX in *; lia).
    assert (Hnn : (0 <=? v) = true) by (apply Z.leb_le; lia).
    unfold INT32_MAX in Hv.
    unfold OSSL_PARAM_set_int32, OSSL_PARAM_get_uint64. unfold_c.
    rewrite Hc, Hnn.
    split.
    + eexists. split; [exec; reflexivity|]. exec. reflexivity.
    + destruct (decide (a = out)) as [->|Hne]; round_trip_run.
  - unfold UINT32_MAX in Hv.
    unfold OSSL_PARAM_set_uint32, OSSL_PARAM_get_uint64. unfold_c.
    split.
    + eexists. split; [exec; reflexivity|]. exec. reflexivity.
    + destruct (decide (a = out)) as [->|Hne]; round_trip_run.
  - assert (Hc : cast_int64 v = v)
      by (apply cast_int64_id; unfold UINT32_MAX, INT64_MIN, INT64_MAX in *; lia).
    unfold UINT32_MAX in Hv.
    unfold OSSL_PARAM_set_uint32, OSSL_PARAM_get_int64. unfold_c. rewrite Hc.
    split.
    + eexists. split; [exec; reflexivity|]. exec. reflexivity.
    + destruct (decide (a = out)) as [->|Hne]; round_trip_run.
Qed.

Lemma set32_promotes_to_8_bytes_witness :
  round_trip (OSSL_PARAM_set_int32 false) (OSSL_PARAM_get_int64 false)
             (load_int64 false) 0 2%positive (-5)
             (buffer_machine OSSL_PARAM_INTEGER (replicate 8 0)).
Proof.
  apply (proj1 (set32_promotes_to_8_bytes false
                  (buffer_machine OSSL_PARAM_INTEGER (replicate 8 0)) 0
                  (sample_param OSSL_PARAM_INTEGER (Some 1%positive) 8)
                  1%positive 2%positive (replicate 8 0) (replicate 8 0) (-5)
                  eq_refl eq_refl eq_refl eq_refl eq_refl eq_refl eq_refl));
    [reflexivity | unfold INT32_MIN, INT32_MAX; lia].
Defined.

Lemma le_value_bound (bs : list Z) :
  Forall is_byte bs -> 0 <= le_value bs < 2 ^ (8 * Z.of_nat (length bs)).
Proof.
  induction 1 as [|b bs Hb _ IH].
  - simpl. lia.
  - cbn [le_value length].
    replace (8 * Z.of_nat (S (length bs))) with (8 + 8 * Z.of_nat (length bs)) by lia.
    rewrite Z.pow_add_r by lia. change (2 ^ 8) with 256.
    unfold is_byte in Hb. nia.
Qed.

Lemma native_value_bound (be : bool) (bs : list Z) :
  Forall is_byte bs -> 0 <= native_value be bs < 2 ^ (8 * Z.of_nat (length bs)).
Proof.
  intros H. unfold native_value. destruct be.
  - rewrite <- length_rev. apply le_value_bound. apply Forall_rev. exact H.
  - apply le_value_bound. exact H.
Qed.

Lemma to_signed_bound (bits u : Z) :
  0 < bits -> 0 <= u < 2 ^ bits ->
  - 2 ^ (bits - 1) <= to_signed bits u < 2 ^ (bits - 1).
Proof.
  intros Hb Hu. unfold to_signed.
  assert (Hp : 2 ^ bits = 2 * 2 ^ (bits - 1)).
  { replace bits with (1 + (bits - 1)) at 1 by lia.
    rewrite Z.pow_add_r by lia. reflexivity. }
  destruct (Z.ltb_spec u (2 ^ (bits - 1))); lia.
Qed.

Ltac get_run :=
  unfold_c; exec; rewrite ?take_ge by lia;
  repeat match goal with
         | H : ?c = _ |- context [?c] => rewrite H
         end;
  exec; rewrite ?native_bytes_length; try reflexivity.



(** X4.  A get accessor of one signedness on a descriptor of the other,
    both of the same width: a signed get takes an unsigned value up to the
    maximum of the signed type and refuses a larger one with
    CRYPTO_R_PARAM_VALUE_TOO_LARGE_FOR_DESTINATION; an unsigned get takes a
    signed value from 0 on and refuses a negative one with
    CRYPTO_R_PARAM_UNSIGNED_INTEGER_NEGATIVE_VALUE_UNSUPPORTED.  A refused
    call returns 0 and leaves the caller's variable untouched. *)
Theorem get_across_signedness (be : bool) (m : machine) (p : nat)
    (d : OSSL_PARAM) (a out : addr) (blk oblk : list Z)
    (Hp : params m !! p = Some d) (Hd : data d = Some a)
    (Ha : heap m !! a = Some blk) (Hblk : Z.of_nat (length blk) = data_size d)
    (Hbytes : Forall is_byte blk)
    (Hout : heap m !! out = Some oblk)
    (Hoblk : data_size d <= Z.of_nat (length oblk)) :
  let u := native_value be blk in
  let stored n v :=
    Some (1, with_heap m (<[out := native_bytes be n v ++ drop n oblk]> (heap m))) in
  let refused r := Some (0, with_errors m (r :: errors m)) in
  (data_type d = OSSL_PARAM_UNSIGNED_INTEGER -> data_size d = 4 ->
   (u <= INT32_MAX ->
    OSSL_PARAM_get_int32 be (Some p) (Some out) m = stored 4%nat u)
   /\ (INT32_MAX < u ->
       OSSL_PARAM_get_int32 be (Some p) (Some out) m
       = refused CRYPTO_R_PARAM_VALUE_TOO_LARGE_FOR_DESTINATION))
  /\ (data_type d = OSSL_PARAM_UNSIGNED_INTEGER -> data_size d = 8 ->
      (u <= INT64_MAX ->
       OSSL_PARAM_get_int64 be (Some p) (Some out) m = stored 8%nat u)
      /\ (INT64_MAX < u ->
          OSSL_PARAM_get_int64 be (Some p) (Some out) m
          = refused CRYPTO_R_PARAM_VALUE_TOO_LARGE_FOR_DESTINATION))
  /\ (data_type d = OSSL_PARAM_INTEGER -> data_size d = 4 ->
      (0 <= to_signed 32 u ->
       OSSL_PARAM_get_uint32 be (Some p) (Some out) m
       = stored 4%nat (to_signed 32 u))
      /\ (to_signed 32 u < 0 ->
          OSSL_PARAM_get_uint32 be (Some p) (Some out) m
          = refused CRYPTO_R_PARAM_UNSIGNED_INTEGER_NEGATIVE_VALUE_UNSUPPORTED))
  /\ (data_type d = OSSL_PARAM_INTEGER -> data_size d = 8 ->
      (0 <= to_signed 64 u ->
       OSSL_PARAM_get_uint64 be (Some p) (Some out) m
       = stored 8%nat (to_signed 64 u))
      /\ (to_signed 64 u < 0 ->
          OSSL_PARAM_get_uint64 be (Some p) (Some out) m
          = refused CRYPTO_R_PARAM_UNSIGNED_INTEGER_NEGATIVE_VALUE_UNSUPPORTED)).
Proof.
  pose proof (native_value_bound be blk Hbytes) as Hu.
  destruct m as [ps h es av]. destruct d as [k ty da sz rs].
  cbn [data_type data data_size return_size key params heap errors avail] in *.
  subst da. cbv zeta.
  (split; [|split; [|split]]); intros -> ->;
    assert (Hl : length blk = Z.to_nat (Z.of_nat (length blk))) by lia;
    rewrite Hblk in Hl, Hu;
    change (8 * 4) with 32 in Hu; change (8 * 8) with 64 in Hu;
    (split; intros Hi).
  - assert (Hc : cast_int32 (native_value be blk) = native_value be blk)
      by (apply cast_int32_id; unfold INT32_MIN; lia).
    assert (Hb : (native_value be blk <=? INT32_MAX) = true) by (apply Z.leb_le; lia).
    unfold OSSL_PARAM_get_int32. get_run.
  - assert (Hb : (native_value be blk <=? INT32_MAX) = false) by (apply Z.leb_gt; lia).
    unfold OSSL_PARAM_get_int32. get_run.
  - assert (Hc : cast_int64 (native_value be blk) = native_value be blk)
      by (apply cast_int64_id; unfold INT64_MIN; lia).
    assert (Hb : (native_value be blk <=? INT64_MAX) = true) by (apply Z.leb_le; lia).
    unfold OSSL_PARAM_get_int64. get_run.
  - assert (Hb : (native_value be blk <=? INT64_MAX) = false) by (apply Z.leb_gt; lia).
    unfold OSSL_PARAM_get_int64. get_run.
  - pose proof (to_signed_bound 32 _ ltac:(lia) Hu) as Hs.
    assert (Hc : cast_uint32 (to_signed 32 (native_value be blk))
                 = to_signed 32 (native_value be blk))
      by (apply cast_uint32_id; unfold UINT32_MAX; simpl in Hs; lia).
    assert (Hb : (0 <=? to_signed 32 (native_value be blk)) = true)
      by (apply Z.leb_le; lia).
    unfold OSSL_PARAM_get_uint32. get_run.
  - assert (Hb : (0 <=? to_signed 32 (native_value be blk)) = false)
      by (apply Z.leb_gt; lia).
    unfold OSSL_PARAM_get_uint32. get_run.
  - pose proof (to_signed_bound 64 _ ltac:(lia) Hu) as Hs.
    assert (Hc : cast_uint64 (to_signed 64 (native_value be blk))
                 = to_signed 64 (native_value be blk))
      by (apply cast_uint64_id; unfold UINT64_MAX; simpl in Hs; lia).
    assert (Hb : (0 <=? to_signed 64 (native_value be blk)) = true)
      by (apply Z.leb_le; lia).
    unfold OSSL_PARAM_get_uint64. get_run.
  - assert (Hb : (0 <=? to_signed 64 (native_value be blk)) = false)
      by (apply Z.leb_gt; lia).
    unfold OSSL_PARAM_get_uint64. get_run.
Qed.

Lemma get_across_signedness_witness :
  OSSL_PARAM_get_uint32 false (Some 0%nat) (Some 2%positive)
    (buffer_machine OSSL_PARAM_INTEGER [255; 255; 255; 255])
  = Some (0, with_errors
               (buffer_machine OSSL_PARAM_INTEGER [255; 255; 255; 255])
               [CRYPTO_R_PARAM_UNSIGNED_INTEGER_NEGATIVE_VALUE_UNSUPPORTED]).
Proof.
  apply (proj2 (proj1 (proj2 (proj2 (get_across_signedness false
           (buffer_machine OSSL_PARAM_INTEGER [255; 255; 255; 255]) 0
           (sample_param OSSL_PARAM_INTEGER (Some 1%positive) 4)
           1%positive 2%positive [255; 255; 255; 255] (replicate 8 0)
           eq_refl eq_refl eq_refl eq_refl
           ltac:(repeat constructor; unfold is_byte; lia)
           eq_refl ltac:(simpl; lia)))) eq_refl eq_refl)).
  vm_compute. reflexivity.
Defined.

(** X5.  A 64-bit get accessor on a descriptor whose buffer has 4 bytes
    extends the value: OSSL_PARAM_get_int64 always succeeds and gives the
    signed value of an INTEGER descriptor (so a negative one stays
    negative) or the unsigned value of an UNSIGNED_INTEGER descriptor;
    OSSL_PARAM_get_uint64 does the same, except that it refuses a negative
    value of an INTEGER descriptor. *)
Theorem get64_from_4_bytes_extends (be : bool) (m : machine) (p : nat)
    (d : OSSL_PARAM) (a out : addr) (blk oblk : list Z)
    (Hp : params m !! p = Some d) (Hd : data d = Some a) (Hsz : data_size d = 4)
    (Ha : heap m !! a = Some blk) (Hblk : length blk = 4%nat)
    (Hbytes : Forall is_byte blk)
    (Hout : heap m !! out = Some oblk) (Hoblk : (8 <= length oblk)%nat) :
  let u := native_value be blk in
  let i := to_signed 32 u in
  let stored v :=
    Some (1, with_heap m (<[out := native_bytes be 8 v ++ drop 8 oblk]> (heap m))) in
  (data_type d = OSSL_PARAM_INTEGER ->
   OSSL_PARAM_get_int64 be (Some p) (Some out) m = stored i
   /\ (0 <= i -> OSSL_PARAM_get_uint64 be (Some p) (Some out) m = stored i)
   /\ (i < 0 ->
       OSSL_PARAM_get_uint64 be (Some p) (Some out) m
       = Some (0, with_errors m
                    (CRYPTO_R_PARAM_UNSIGNED_INTEGER_NEGATIVE_VALUE_UNSUPPORTED
                       :: errors m))))
  /\ (data_type d = OSSL_PARAM_UNSIGNED_INTEGER ->
      OSSL_PARAM_get_uint64 be (Some p) (Some out) m = stored u
      /\ OSSL_PARAM_get_int64 be (Some p) (Some out) m = stored u).
Proof.
  pose proof (native_value_bound be blk Hbytes) as Hu. rewrite Hblk in Hu.
  change (8 * Z.of_nat 4) with 32 in Hu.
  pose proof (to_signed_bound 32 _ ltac:(lia) Hu) as Hs.
  destruct m as [ps h es av]. destruct d as [k ty da sz rs].
  cbn [data_type data data_size return_size key params heap errors avail] in *.
  subst da sz. cbv zeta.
  split; intros ->.
  - split; [|split].
    + unfold OSSL_PARAM_get_int64. get_run.
    + intros Hi.
      assert (Hc : cast_uint64 (to_signed 32 (native_value be blk))
                   = to_signed 32 (native_value be blk))
        by (apply cast_uint64_id; unfold UINT64_MAX; simpl in Hs; lia).
      assert (Hb : (0 <=? to_signed 32 (native_value be blk)) = true)
        by (apply Z.leb_le; lia).
      unfold OSSL_PARAM_get_uint64. get_run.
    + intros Hi.
      assert (Hb : (0 <=? to_signed 32 (native_value be blk)) = false)
        by (apply Z.leb_gt; lia).
      unfold OSSL_PARAM_get_uint64. get_run.
  - split.
    + unfold OSSL_PARAM_get_uint64. get_run.
    + unfold OSSL_PARAM_get_int64. get_run.
Qed.

Lemma get64_from_4_bytes_extends_witness :
  OSSL_PARAM_get_int64 false (Some 0%nat) (Some 2%positive)
    (buffer_machine OSSL_PARAM_INTEGER [254; 255; 255; 255])
  = Some (1, with_heap (buffer_machine OSSL_PARAM_INTEGER [254; 255; 255; 255])
               (<[2%positive := native_bytes false 8 (-2) ++ []]>
                  (heap (buffer_machine OSSL_PARAM_INTEGER [254; 255; 255; 255])))).
Proof.
  apply (proj1 (proj1 (get64_from_4_bytes_extends false
           (buffer_machine OSSL_PARAM_INTEGER [254; 255; 255; 255]) 0
           (sample_param OSSL_PARAM_INTEGER (Some 1%positive) 4)
           1%positive 2%positive [254; 255; 255; 255] (replicate 8 0)
           eq_refl eq_refl eq_refl eq_refl eq_refl
           ltac:(repeat constructor; unfold is_byte; lia)
           eq_refl ltac:(simpl; lia)) eq_refl)).
Defined.




(** ** Absent arguments, unsupported sizes and wrong types *)

Ltac native_get_width :=
  unfold OSSL_PARAM_get_int, OSSL_PARAM_get_uint, OSSL_PARAM_get_long,
    OSSL_PARAM_get_ulong, OSSL_PARAM_get_size_t, OSSL_PARAM_get_time_t;
  cbv [sizeof_int sizeof_long sizeof_size_t sizeof_time_t sizeof_int32_t
       sizeof_int64_t sizeof_uint32_t sizeof_uint64_t Z.eqb Pos.eqb].

(** X7.  Absent arguments.  A get accessor of a number called without a
    descriptor, without a variable for the result, or on a descriptor
    without data, and a set accessor called without a descriptor, returns 0
    and raises ERR_R_PASSED_NULL_PARAMETER; nothing else changes.
    OSSL_PARAM_set_BN without a number does the same after it has put 0 in
    return_size. *)
Theorem absent_arguments_refused (be : bool) (cu ci : double -> Z) (m : machine) :
  let refused := Some (0, with_errors m (ERR_R_PASSED_NULL_PARAMETER :: errors m)) in
  let all_refuse (get : option nat -> option addr -> M Z) :=
    (forall val, get None val m = refused)
    /\ (forall p, get p None m = refused)
    /\ (forall p d val, params m !! p = Some d -> data d = None ->
          get (Some p) val m = refused) in
  (all_refuse (OSSL_PARAM_get_int32 be)
   /\ all_refuse (OSSL_PARAM_get_uint32 be)
   /\ all_refuse (OSSL_PARAM_get_int64 be)
   /\ all_refuse (OSSL_PARAM_get_uint64 be)
   /\ all_refuse (OSSL_PARAM_get_double be)
   /\ all_refuse (OSSL_PARAM_get_int be)
   /\ all_refuse (OSSL_PARAM_get_uint be)
   /\ all_refuse (OSSL_PARAM_get_long be)
   /\ all_refuse (OSSL_PARAM_get_ulong be)
   /\ all_refuse (OSSL_PARAM_get_size_t be)
   /\ all_refuse (OSSL_PARAM_get_time_t be))
  /\ (forall v,
        OSSL_PARAM_set_int32 be None v m = refused
        /\ OSSL_PARAM_set_uint32 be None v m = refused
        /\ OSSL_PARAM_set_int64 be None v m = refused
        /\ OSSL_PARAM_set_uint64 be None v m = refused
        /\ OSSL_PARAM_set_int be None v m = refused
        /\ OSSL_PARAM_set_uint be None v m = refused
        /\ OSSL_PARAM_set_long be None v m = refused
        /\ OSSL_PARAM_set_ulong be None v m = refused
        /\ OSSL_PARAM_set_size_t be None v m = refused
        /\ OSSL_PARAM_set_time_t be None v m = refused)
  /\ (forall x bn val len,
        OSSL_PARAM_set_double be cu ci None x m = refused
        /\ OSSL_PARAM_set_BN be None bn m = refused
        /\ OSSL_PARAM_set_utf8_string None val m = refused
        /\ OSSL_PARAM_set_octet_string None val len m = refused
        /\ OSSL_PARAM_set_utf8_ptr be None val m = refused
        /\ OSSL_PARAM_set_octet_ptr be None val len m = refused
        /\ OSSL_PARAM_set_octet_string_or_ptr be None val len m = refused)
  /\ (forall p d, params m !! p = Some d ->
        OSSL_PARAM_set_BN be (Some p) None m
        = Some (0, with_errors
                     (with_params m (<[p := with_return_size d 0]> (params m)))
                     (ERR_R_PASSED_NULL_PARAMETER :: errors m))).
Proof.
  cbv zeta.
  assert (Hget : forall get : option nat -> option addr -> M Z,
            get = OSSL_PARAM_get_int32 be \/ get = OSSL_PARAM_get_uint32 be
            \/ get = OSSL_PARAM_get_int64 be \/ get = OSSL_PARAM_get_uint64 be
            \/ get = OSSL_PARAM_get_double be ->
            (forall val,
               get None val m
               = Some (0, with_errors m (ERR_R_PASSED_NULL_PARAMETER :: errors m)))
            /\ (forall p,
                  get p None m
                  = Some (0, with_errors m (ERR_R_PASSED_NULL_PARAMETER :: errors m)))
            /\ (forall p d val, params m !! p = Some d -> data d = None ->
                  get (Some p) val m
                  = Some (0, with_errors m
                               (ERR_R_PASSED_NULL_PARAMETER :: errors m)))).
  { intros get Hg.
    repeat match goal with H : _ \/ _ |- _ => destruct H as [H|H] end; subst get;
      (split; [|split];
       [ intros val; destruct val; reflexivity
       | intros p; reflexivity
       | intros p d val Hp Hd; destruct val; [|reflexivity];
         unfold OSSL_PARAM_get_int32, OSSL_PARAM_get_uint32, OSSL_PARAM_get_int64,
           OSSL_PARAM_get_uint64, OSSL_PARAM_get_double, bind, deref;
         rewrite Hp, Hd; reflexivity ]). }
  split; [|split; [|split]].
  - repeat match goal with |- _ /\ _ => split end;
      try native_get_width; apply Hget; tauto.
  - intros v. native_width. repeat split.
  - intros x bn val len. repeat split.
  - intros p d Hp. unfold OSSL_PARAM_set_BN. unfold_c. exec. reflexivity.
Qed.

Lemma absent_arguments_refused_witness :
  OSSL_PARAM_get_int32 false (Some 0%nat) (Some 2%positive)
    (sample_machine OSSL_PARAM_INTEGER None 4)
  = Some (0, with_errors (sample_machine OSSL_PARAM_INTEGER None 4)
               [ERR_R_PASSED_NULL_PARAMETER]).
Proof.
  apply (proj2 (proj2 (proj1 (proj1 (absent_arguments_refused false (fun _ => 0) (fun _ => 0)
           (sample_machine OSSL_PARAM_INTEGER None 4)))))
           0%nat (sample_param OSSL_PARAM_INTEGER None 4) (Some 2%positive)
           eq_refl eq_refl).
Defined.

(** X8.  A REAL descriptor whose buffer is not the 8 bytes of a double is
    not supported.  With such a descriptor every get accessor of a
    fixed-width integer or of a double returns 0, raises
    CRYPTO_R_PARAM_UNSUPPORTED_FLOATING_POINT_FORMAT and leaves the caller's
    variable untouched; every set accessor of a fixed-width integer or of a
    double does the same and leaves the buffer untouched, return_size being 0
    afterwards, except after OSSL_PARAM_set_int32, which leaves 8.
    OSSL_PARAM_set_uint64 refuses such a descriptor even when it has no
    buffer, where the other set accessors answer a size query. *)
Theorem real_of_unsupported_size (be : bool) (cu ci : double -> Z) (m : machine) (p : nat)
    (d : OSSL_PARAM)
    (Hp : params m !! p = Some d) (Hty : data_type d = OSSL_PARAM_REAL)
    (Hsz : data_size d <> 8) :
  let unsupported m' :=
    Some (0, with_errors m'
               (CRYPTO_R_PARAM_UNSUPPORTED_FLOATING_POINT_FORMAT :: errors m)) in
  let left rs := with_params m (<[p := with_return_size d rs]> (params m)) in
  (forall a out, data d = Some a ->
     OSSL_PARAM_get_int32 be (Some p) (Some out) m = unsupported m
     /\ OSSL_PARAM_get_uint32 be (Some p) (Some out) m = unsupported m
     /\ OSSL_PARAM_get_int64 be (Some p) (Some out) m = unsupported m
     /\ OSSL_PARAM_get_uint64 be (Some p) (Some out) m = unsupported m
     /\ OSSL_PARAM_get_double be (Some p) (Some out) m = unsupported m)
  /\ (forall a v x, data d = Some a ->
        OSSL_PARAM_set_int32 be (Some p) v m = unsupported (left 8)
        /\ OSSL_PARAM_set_uint32 be (Some p) v m = unsupported (left 0)
        /\ OSSL_PARAM_set_int64 be (Some p) v m = unsupported (left 0)
        /\ OSSL_PARAM_set_double be cu ci (Some p) x m = unsupported (left 0))
  /\ (forall v, OSSL_PARAM_set_uint64 be (Some p) v m = unsupported (left 0))
  /\ (forall v x, data d = None ->
        OSSL_PARAM_set_int32 be (Some p) v m = Some (1, left 8)
        /\ OSSL_PARAM_set_uint32 be (Some p) v m = Some (1, left 8)
        /\ OSSL_PARAM_set_int64 be (Some p) v m = Some (1, left 8)
        /\ OSSL_PARAM_set_double be cu ci (Some p) x m = Some (1, left 8)).
Proof.
  destruct m as [ps h es av]. destruct d as [k ty da sz rs].
  cbn [data_type data data_size return_size key params heap errors avail] in *.
  subst ty. cbv zeta.
  assert (Hb : (sz =? sizeof_double) = false) by (apply Z.eqb_neq; exact Hsz).
  split; [|split; [|split]].
  - intros a out ->.
    unfold OSSL_PARAM_get_int32, OSSL_PARAM_get_uint32, OSSL_PARAM_get_int64,
      OSSL_PARAM_get_uint64, OSSL_PARAM_get_double.
    repeat split; unfold_c; exec; rewrite Hb; reflexivity.
  - intros a v x ->.
    unfold OSSL_PARAM_set_int32, OSSL_PARAM_set_uint32, OSSL_PARAM_set_int64,
      OSSL_PARAM_set_double.
    repeat split; unfold_c; exec; rewrite Hb; exec;
      rewrite ?list_insert_insert_eq; reflexivity.
  - intros v. unfold OSSL_PARAM_set_uint64. unfold_c. exec. rewrite Hb. reflexivity.
  - intros v x ->.
    unfold OSSL_PARAM_set_int32, OSSL_PARAM_set_uint32, OSSL_PARAM_set_int64,
      OSSL_PARAM_set_double.
    repeat split; unfold_c; exec; rewrite ?list_insert_insert_eq; reflexivity.
Qed.

Lemma real_of_unsupported_size_witness :
  OSSL_PARAM_set_uint64 false (Some 0%nat) 1 (sample_machine OSSL_PARAM_REAL None 4)
  = Some (0, with_errors
               (with_params (sample_machine OSSL_PARAM_REAL None 4)
                  [with_return_size (sample_param OSSL_PARAM_REAL None 4) 0;
                   OSSL_PARAM_END])
               [CRYPTO_R_PARAM_UNSUPPORTED_FLOATING_POINT_FORMAT]).
Proof.
  apply (proj1 (proj2 (proj2 (real_of_unsupported_size false (fun _ => 0) (fun _ => 0)
           (sample_machine OSSL_PARAM_REAL None 4) 0
           (sample_param OSSL_PARAM_REAL None 4) eq_refl eq_refl
           ltac:(discriminate))))).
Defined.

(** X9.  A descriptor that is not of a numeric type (neither INTEGER nor
    UNSIGNED_INTEGER nor REAL) is refused by the fixed-width, the
    native-width and the double accessors with
    CRYPTO_R_PARAM_OF_INCOMPATIBLE_TYPE.  A get call returns 0 and changes
    nothing else.  A set call returns 0 and touches no buffer, but it has
    put 0 in return_size, so OSSL_PARAM_modified answers 1 for the
    descriptor after the refused call.  The big-number accessors differ.
    OSSL_PARAM_get_BN returns 0 having raised
    CRYPTO_R_PARAM_OF_INCOMPATIBLE_TYPE and then ERR_R_BN_LIB.
    OSSL_PARAM_set_BN looks at the size before the type: on a descriptor
    without buffer it returns 1 with the bytes the number needs in
    return_size, on a buffer too small for them it returns 0 with
    CRYPTO_R_TOO_SMALL_BUFFER and the bytes needed in return_size, and only
    on a buffer that is large enough is it refused like the other set
    accessors. *)
Theorem not_a_number_refused (be : bool) (cu ci : double -> Z) (m : machine) (p : nat)
    (d : OSSL_PARAM)
    (Hp : params m !! p = Some d)
    (Hint : data_type d <> OSSL_PARAM_INTEGER)
    (Huint : data_type d <> OSSL_PARAM_UNSIGNED_INTEGER)
    (Hreal : data_type d <> OSSL_PARAM_REAL) :
  let refused m' :=
    Some (0, with_errors m' (CRYPTO_R_PARAM_OF_INCOMPATIBLE_TYPE :: errors m)) in
  let marked := with_params m (<[p := with_return_size d 0]> (params m)) in
  let sized n := with_params m (<[p := with_return_size d n]> (params m)) in
  (forall a out, data d = Some a ->
     OSSL_PARAM_get_int32 be (Some p) (Some out) m = refused m
     /\ OSSL_PARAM_get_uint32 be (Some p) (Some out) m = refused m
     /\ OSSL_PARAM_get_int64 be (Some p) (Some out) m = refused m
     /\ OSSL_PARAM_get_uint64 be (Some p) (Some out) m = refused m
     /\ OSSL_PARAM_get_double be (Some p) (Some out) m = refused m)
  /\ (forall v x,
        OSSL_PARAM_set_int32 be (Some p) v m = refused marked
        /\ OSSL_PARAM_set_uint32 be (Some p) v m = refused marked
        /\ OSSL_PARAM_set_int64 be (Some p) v m = refused marked
        /\ OSSL_PARAM_set_uint64 be (Some p) v m = refused marked
        /\ OSSL_PARAM_set_double be cu ci (Some p) x m = refused marked)
  /\ (forall es,
        OSSL_PARAM_modified (Some p) (with_errors marked es)
        = Some (1, with_errors marked es))
  /\ (forall a out, data d = Some a ->
        OSSL_PARAM_get_int be (Some p) (Some out) m = refused m
        /\ OSSL_PARAM_get_uint be (Some p) (Some out) m = refused m
        /\ OSSL_PARAM_get_long be (Some p) (Some out) m = refused m
        /\ OSSL_PARAM_get_ulong be (Some p) (Some out) m = refused m
        /\ OSSL_PARAM_get_size_t be (Some p) (Some out) m = refused m
        /\ OSSL_PARAM_get_time_t be (Some p) (Some out) m = refused m)
  /\ (forall v,
        OSSL_PARAM_set_int be (Some p) v m = refused marked
        /\ OSSL_PARAM_set_uint be (Some p) v m = refused marked
        /\ OSSL_PARAM_set_long be (Some p) v m = refused marked
        /\ OSSL_PARAM_set_ulong be (Some p) v m = refused marked
        /\ OSSL_PARAM_set_size_t be (Some p) v m = refused marked
        /\ OSSL_PARAM_set_time_t be (Some p) v m = refused marked)
  /\ (forall a b, data d = Some a ->
        OSSL_PARAM_get_BN be (Some p) (Some b) m
        = Some ((0, Some b),
                with_errors m
                  (ERR_R_BN_LIB :: CRYPTO_R_PARAM_OF_INCOMPATIBLE_TYPE
                     :: errors m)))
  /\ (forall v,
        let needed := Z.max 1 (BN_num_bytes v) in
        (data d = None ->
         OSSL_PARAM_set_BN be (Some p) (Some v) m = Some (1, sized needed))
        /\ (data d <> None -> needed <= data_size d ->
            OSSL_PARAM_set_BN be (Some p) (Some v) m = refused marked)
        /\ (data d <> None -> data_size d < needed ->
            OSSL_PARAM_set_BN be (Some p) (Some v) m
            = Some (0, with_errors (sized needed)
                         (CRYPTO_R_TOO_SMALL_BUFFER :: errors m)))).
Proof.
  destruct m as [ps h es av]. destruct d as [k ty da sz rs].
  cbn [data_type data data_size return_size key params heap errors avail] in *.
  cbv zeta.
  assert (H1 : (ty =? OSSL_PARAM_INTEGER) = false) by (apply Z.eqb_neq; exact Hint).
  assert (H2 : (ty =? OSSL_PARAM_UNSIGNED_INTEGER) = false)
    by (apply Z.eqb_neq; exact Huint).
  assert (H3 : (ty =? OSSL_PARAM_REAL) = false) by (apply Z.eqb_neq; exact Hreal).
  split; [|split; [|split; [|split; [|split; [|split]]]]].
  - intros a out ->.
    unfold OSSL_PARAM_get_int32, OSSL_PARAM_get_uint32, OSSL_PARAM_get_int64,
      OSSL_PARAM_get_uint64, OSSL_PARAM_get_double.
    repeat split; unfold_c; exec; rewrite H1, H2, H3; reflexivity.
  - intros v x.
    unfold OSSL_PARAM_set_int32, OSSL_PARAM_set_uint32, OSSL_PARAM_set_int64,
      OSSL_PARAM_set_uint64, OSSL_PARAM_set_double.
    repeat split; unfold_c; exec; rewrite H1, H2, H3; exec; reflexivity.
  - intros es'. unfold OSSL_PARAM_modified. unfold_c. exec. reflexivity.
  - intros a out ->. native_get_width.
    unfold OSSL_PARAM_get_int32, OSSL_PARAM_get_uint32, OSSL_PARAM_get_int64,
      OSSL_PARAM_get_uint64.
    repeat split; unfold_c; exec; rewrite H1, H2, H3; reflexivity.
  - intros v.
    unfold OSSL_PARAM_set_int, OSSL_PARAM_set_uint, OSSL_PARAM_set_long,
      OSSL_PARAM_set_ulong, OSSL_PARAM_set_size_t, OSSL_PARAM_set_time_t.
    cbv [sizeof_int sizeof_long sizeof_size_t sizeof_time_t sizeof_int32_t
         sizeof_int64_t sizeof_uint32_t sizeof_uint64_t Z.eqb Pos.eqb].
    unfold OSSL_PARAM_set_int32, OSSL_PARAM_set_uint32, OSSL_PARAM_set_int64,
      OSSL_PARAM_set_uint64.
    repeat split; unfold_c; exec; rewrite H1, H2, H3; exec; reflexivity.
  - intros a b ->. unfold OSSL_PARAM_get_BN. unfold_c. exec.
    rewrite H1, H2. reflexivity.
  - intros v. pose proof (BN_num_bytes_nonneg v) as Hnn.
    assert (Hbytes : (if BN_num_bytes v =? 0 then BN_num_bytes v + 1
                      else BN_num_bytes v) = Z.max 1 (BN_num_bytes v)).
    { destruct (Z.eqb_spec (BN_num_bytes v) 0); lia. }
    split; [|split].
    + intros ->. unfold OSSL_PARAM_set_BN. unfold_c. exec.
      rewrite H1, H2. cbn [andb]. rewrite Hbytes. exec.
      rewrite list_insert_insert_eq. reflexivity.
    + intros Hda Hfit. destruct da as [a|]; [|contradiction].
      unfold OSSL_PARAM_set_BN. unfold_c. exec.
      rewrite H1, H2. cbn [andb]. rewrite Hbytes.
      replace (Z.max 1 (BN_num_bytes v) <=? sz) with true
        by (symmetry; apply Z.leb_le; exact Hfit).
      reflexivity.
    + intros Hda Hfit. destruct da as [a|]; [|contradiction].
      unfold OSSL_PARAM_set_BN. unfold_c. exec.
      rewrite H1, H2. cbn [andb]. rewrite Hbytes.
      replace (Z.max 1 (BN_num_bytes v) <=? sz) with false
        by (symmetry; apply Z.leb_gt; exact Hfit).
      exec. rewrite list_insert_insert_eq. reflexivity.
Qed.

Lemma not_a_number_refused_witness :
  OSSL_PARAM_modified (Some 0%nat)
    (with_errors
       (with_params string_machine
          (<[0%nat := with_return_size
                        (ossl_param_construct (Some "name"%string)
                           OSSL_PARAM_UTF8_STRING (Some 1%positive) 2) 0]>
             (params string_machine)))
       [CRYPTO_R_PARAM_OF_INCOMPATIBLE_TYPE])
  = Some (1, with_errors
               (with_params string_machine
                  (<[0%nat := with_return_size
                                (ossl_param_construct (Some "name"%string)
                                   OSSL_PARAM_UTF8_STRING (Some 1%positive) 2) 0]>
                     (params string_machine)))
               [CRYPTO_R_PARAM_OF_INCOMPATIBLE_TYPE]).
Proof.
  apply (proj1 (proj2 (proj2 (not_a_number_refused false (fun _ => 0)
           (fun _ => 0) string_machine 0
           (ossl_param_construct (Some "name"%string)
              OSSL_PARAM_UTF8_STRING (Some 1%positive) 2)
           eq_refl ltac:(discriminate) ltac:(discriminate) ltac:(discriminate))))).
Defined.

(** ** Strings through a descriptor *)

Lemma strlen_app (str rest : list Z) :
  Forall (fun c => c <> 0) str ->
  strlen (str ++ 0 :: rest) = Some (Z.of_nat (length str)).
Proof.
  induction 1 as [|c str Hc _ IH].
  - reflexivity.
  - cbn [app strlen length]. destruct (Z.eqb_spec c 0); [contradiction|].
    rewrite IH. cbn [option_map]. f_equal. lia.
Qed.

Lemma memcpy_then_terminate (str blk : list Z) :
  take (length str) (take 0 blk ++ str ++ drop (0 + length str) blk)
  ++ [0] ++ drop (length str + length [0])
                 (take 0 blk ++ str ++ drop (0 + length str) blk)
  = str ++ 0 :: drop (S (length str)) blk.
Proof.
  change (take 0 blk) with (@nil Z). rewrite !app_nil_l.
  rewrite take_app_length. f_equal. cbn [app length]. f_equal.
  rewrite drop_app_ge by lia.
  replace (length str + 1 - length str)%nat with 1%nat by lia.
  rewrite drop_drop. f_equal. lia.
Qed.

(** X10.  OSSL_PARAM_set_utf8_string on a UTF8_STRING descriptor with a
    buffer, given a string of [len] bytes before its NUL.  return_size
    becomes [len] in every case.  If the string is shorter than the buffer,
    the string and a NUL are written and the rest of the buffer stays; if
    it has the size of the buffer, the string is written without a NUL; if
    it is longer, the call returns 0, raises CRYPTO_R_TOO_SMALL_BUFFER and
    leaves the buffer untouched. *)
Theorem set_utf8_string_copies (m : machine) (p : nat) (d : OSSL_PARAM)
    (a val : addr) (blk str rest : list Z)
    (Hp : params m !! p = Some d)
    (Hty : data_type d = OSSL_PARAM_UTF8_STRING)
    (Hd : data d = Some a) (Ha : heap m !! a = Some blk)
    (Hblk : Z.of_nat (length blk) = data_size d)
    (Hval : heap m !! val = Some (str ++ 0 :: rest))
    (Hnz : Forall (fun c => c <> 0) str) (Hne : a <> val) :
  let len := Z.of_nat (length str) in
  let sized := with_params m (<[p := with_return_size d len]> (params m)) in
  (len < data_size d ->
   OSSL_PARAM_set_utf8_string (Some p) (Some val) m
   = Some (1, with_heap sized
                (<[a := str ++ 0 :: drop (S (length str)) blk]> (heap m))))
  /\ (len = data_size d ->
      OSSL_PARAM_set_utf8_string (Some p) (Some val) m
      = Some (1, with_heap sized (<[a := str]> (heap m))))
  /\ (data_size d < len ->
      OSSL_PARAM_set_utf8_string (Some p) (Some val) m
      = Some (0, with_errors sized
                   (CRYPTO_R_TOO_SMALL_BUFFER :: errors m))).
Proof.
  destruct m as [ps h es av]. destruct d as [k ty da sz rs].
  cbn [data_type data data_size return_size key params heap errors avail] in *.
  subst ty da sz. cbv zeta.
  pose proof (strlen_app str rest Hnz) as Hlen.
  assert (Htake : take (length str) (str ++ 0 :: rest) = str)
    by (apply take_app_length).
  split; [|split]; intros Hcmp;
    unfold OSSL_PARAM_set_utf8_string, set_string_internal; unfold_c; exec;
    rewrite Hlen; exec; rewrite ?list_insert_insert_eq.
  - replace (Z.of_nat (length blk) <? Z.of_nat (length str)) with false
      by (symmetry; apply Z.ltb_ge; lia).
    exec.
    replace (Z.of_nat (length str) <? Z.of_nat (length blk)) with true
      by (symmetry; apply Z.ltb_lt; lia).
    rewrite Nat2Z.id, Htake. exec.
    rewrite insert_insert_eq, memcpy_then_terminate. reflexivity.
  - replace (Z.of_nat (length blk) <? Z.of_nat (length str)) with false
      by (symmetry; apply Z.ltb_ge; lia).
    exec.
    replace (Z.of_nat (length str) <? Z.of_nat (length blk)) with false
      by (symmetry; apply Z.ltb_ge; lia).
    rewrite Nat2Z.id, Htake. exec.
    change (take 0 blk) with (@nil Z). rewrite app_nil_l.
    rewrite drop_ge by lia. rewrite app_nil_r. reflexivity.
  - replace (Z.of_nat (length blk) <? Z.of_nat (length str)) with true
      by (symmetry; apply Z.ltb_lt; lia).
    reflexivity.
Qed.

Lemma set_utf8_string_copies_witness :
  OSSL_PARAM_set_utf8_string (Some 0%nat) (Some 3%positive) text_machine
  = Some (1, with_heap
               (with_params text_machine
                  (<[0%nat := with_return_size
                                (ossl_param_construct (Some "name"%string)
                                   OSSL_PARAM_UTF8_STRING (Some 1%positive) 4) 2]>
                     (params text_machine)))
               (<[1%positive := [111; 107; 0; 9]]> (heap text_machine))).
Proof.
  apply (proj1 (set_utf8_string_copies text_machine 0
                  (ossl_param_construct (Some "name"%string)
                     OSSL_PARAM_UTF8_STRING (Some 1%positive) 4)
                  1%positive 3%positive [9; 9; 9; 9] [111; 107] []
                  eq_refl eq_refl eq_refl eq_refl eq_refl eq_refl
                  ltac:(repeat constructor; discriminate)
                  ltac:(discriminate))).
  simpl. lia.
Defined.

(** X11.  OSSL_PARAM_set_octet_string on an OCTET_STRING descriptor with a
    buffer.  return_size becomes the length given in every case.  If the
    length is within the buffer, the bytes are written at its start, the
    rest of the buffer stays and no terminator is added; otherwise the call
    returns 0, raises CRYPTO_R_TOO_SMALL_BUFFER and leaves the buffer
    untouched. *)
Theorem set_octet_string_copies (m : machine) (p : nat) (d : OSSL_PARAM)
    (a val : addr) (blk src : list Z) (len : nat)
    (Hp : params m !! p = Some d)
    (Hty : data_type d = OSSL_PARAM_OCTET_STRING)
    (Hd : data d = Some a) (Ha : heap m !! a = Some blk)
    (Hblk : Z.of_nat (length blk) = data_size d)
    (Hval : heap m !! val = Some src) (Hlen : (len <= length src)%nat)
    (Hne : a <> val) :
  let sized :=
    with_params m (<[p := with_return_size d (Z.of_nat len)]> (params m)) in
  (Z.of_nat len <= data_size d ->
   OSSL_PARAM_set_octet_string (Some p) (Some val) (Z.of_nat len) m
   = Some (1, with_heap sized (<[a := take len src ++ drop len blk]> (heap m))))
  /\ (data_size d < Z.of_nat len ->
      OSSL_PARAM_set_octet_string (Some p) (Some val) (Z.of_nat len) m
      = Some (0, with_errors sized (CRYPTO_R_TOO_SMALL_BUFFER :: errors m))).
Proof.
  destruct m as [ps h es av]. destruct d as [k ty da sz rs].
  cbn [data_type data data_size return_size key params heap errors avail] in *.
  subst ty da sz. cbv zeta.
  split; intros Hcmp;
    unfold OSSL_PARAM_set_octet_string, set_string_internal; unfold_c; exec;
    rewrite ?list_insert_insert_eq.
  - replace (Z.of_nat (length blk) <? Z.of_nat len) with false
      by (symmetry; apply Z.ltb_ge; lia).
    exec. rewrite Nat2Z.id. change (take 0 blk) with (@nil Z). reflexivity.
  - replace (Z.of_nat (length blk) <? Z.of_nat len) with true
      by (symmetry; apply Z.ltb_lt; lia).
    reflexivity.
Qed.

Lemma set_octet_string_copies_witness :
  OSSL_PARAM_set_octet_string (Some 1%nat) (Some 3%positive) 2 text_machine
  = Some (1, with_heap
               (with_params text_machine
                  (<[1%nat := with_return_size
                                (ossl_param_construct (Some "salt"%string)
                                   OSSL_PARAM_OCTET_STRING (Some 2%positive) 3) 2]>
                     (params text_machine)))
               (<[2%positive := [111; 107; 3]]> (heap text_machine))).
Proof.
  apply (proj1 (set_octet_string_copies text_machine 1
                  (ossl_param_construct (Some "salt"%string)
                     OSSL_PARAM_OCTET_STRING (Some 2%positive) 3)
                  2%positive 3%positive [1; 2; 3] [111; 107; 0] 2
                  eq_refl eq_refl eq_refl eq_refl eq_refl eq_refl
                  ltac:(simpl; lia) ltac:(discriminate))).
  simpl. lia.
Defined.

(** X12.  OSSL_PARAM_get_octet_string on an OCTET_STRING descriptor with
    data.  The length reported through [used_len], when asked for, is the
    descriptor's data_size in every case.  Into a caller's buffer of at
    least data_size bytes the data is copied, the rest of the buffer stays
    and the call returns 1; into a smaller one the call returns 0, raises
    CRYPTO_R_TOO_SMALL_BUFFER and copies nothing.  Asked for the length
    only, the call returns 1 and touches nothing. *)
Theorem get_octet_string_copies (m : machine) (p : nat) (d : OSSL_PARAM)
    (a b : addr) (blk buf : list Z) (max_len : Z)
    (Hp : params m !! p = Some d)
    (Hty : data_type d = OSSL_PARAM_OCTET_STRING)
    (Hd : data d = Some a) (Ha : heap m !! a = Some blk)
    (Hblk : Z.of_nat (length blk) = data_size d)
    (Hb : heap m !! b = Some buf) (Hcap : max_len <= Z.of_nat (length buf))
    (Hne : a <> b) :
  let sz := length blk in
  let reported (used_len : option Z) :=
    match used_len with
    | Some _ => Some (data_size d)
    | None => None
    end in
  (forall used_len, data_size d <= max_len ->
     OSSL_PARAM_get_octet_string (Some p) (Some (Some b)) max_len used_len m
     = Some ((1, Some (Some b), max_len, reported used_len),
             with_heap m (<[b := blk ++ drop sz buf]> (heap m))))
  /\ (forall used_len, max_len < data_size d ->
        OSSL_PARAM_get_octet_string (Some p) (Some (Some b)) max_len used_len m
        = Some ((0, Some (Some b), max_len, reported used_len),
                with_errors m (CRYPTO_R_TOO_SMALL_BUFFER :: errors m)))
  /\ (forall n0,
        OSSL_PARAM_get_octet_string (Some p) None max_len (Some n0) m
        = Some ((1, None, max_len, Some (data_size d)), m)).
Proof.
  destruct m as [ps h es av]. destruct d as [k ty da sz rs].
  cbn [data_type data data_size return_size key params heap errors avail] in *.
  subst ty da sz. cbv zeta.
  split; [|split].
  - intros used_len Hcmp.
    unfold OSSL_PARAM_get_octet_string, get_string_internal. unfold_c.
    destruct used_len; exec;
      (replace (max_len <? Z.of_nat (length blk)) with false
         by (symmetry; apply Z.ltb_ge; lia));
      exec; rewrite Nat2Z.id, firstn_all;
      change (take 0 buf) with (@nil Z); reflexivity.
  - intros used_len Hcmp.
    unfold OSSL_PARAM_get_octet_string, get_string_internal. unfold_c.
    destruct used_len; exec;
      (replace (max_len <? Z.of_nat (length blk)) with true
         by (symmetry; apply Z.ltb_lt; lia));
      reflexivity.
  - intros n0.
    unfold OSSL_PARAM_get_octet_string, get_string_internal. unfold_c.
    exec. reflexivity.
Qed.

Lemma get_octet_string_copies_witness :
  OSSL_PARAM_get_octet_string (Some 1%nat) (Some (Some 4%positive)) 2 (Some 0)
    text_machine
  = Some ((0, Some (Some 4%positive), 2, Some 3),
          with_errors text_machine [CRYPTO_R_TOO_SMALL_BUFFER]).
Proof.
  apply (proj1 (proj2 (get_octet_string_copies text_machine 1
                  (ossl_param_construct (Some "salt"%string)
                     OSSL_PARAM_OCTET_STRING (Some 2%positive) 3)
                  2%positive 4%positive [1; 2; 3] (replicate 6 7) 2
                  eq_refl eq_refl eq_refl eq_refl eq_refl eq_refl
                  ltac:(simpl; lia) ltac:(discriminate))) (Some 0)).
  simpl. lia.
Defined.

(** X13.  OSSL_PARAM_get_utf8_string asked to allocate (the caller's
    pointer is null) on a UTF8_STRING descriptor with data, when the
    allocator has data_size + 1 bytes left: the call returns 1 and the
    caller's pointer refers to a fresh block of data_size + 1 bytes, the
    data followed by a NUL, whether or not the data holds a NUL itself.
    The contents of the fresh block being indeterminate, the NUL is the one
    the call stores after the copy.  The descriptor's own buffer stays as
    it was. *)
Theorem get_utf8_string_allocates (m : machine) (p : nat) (d : OSSL_PARAM)
    (a : addr) (blk : list Z) (max_len : Z)
    (Hp : params m !! p = Some d)
    (Hty : data_type d = OSSL_PARAM_UTF8_STRING)
    (Hd : data d = Some a) (Ha : heap m !! a = Some blk)
    (Hblk : Z.of_nat (length blk) = data_size d)
    (Hsz : data_size d < SIZE_MAX)
    (Havail : data_size d + 1 <= avail m) :
  let b := fresh (dom (heap m)) in
  heap m !! b = None
  /\ OSSL_PARAM_get_utf8_string (Some p) (Some None) max_len m
     = Some ((1, Some (Some b)),
             with_avail (with_heap m (<[b := blk ++ [0]]> (heap m)))
                        (avail m - (data_size d + 1))).
Proof.
  destruct m as [ps h es av]. destruct d as [k ty da sz rs].
  cbn [data_type data data_size return_size key params heap errors avail] in *.
  subst ty da sz. cbv zeta.
  set (b := fresh (dom h)).
  assert (Hfresh : h !! b = None) by (apply not_elem_of_dom, is_fresh).
  assert (Hab : a <> b) by congruence.
  assert (Hba : b <> a) by congruence.
  split; [exact Hfresh|].
  unfold SIZE_MAX in Hsz.
  assert (H64 : 0 < 2 ^ 64) by (apply Z.pow_pos_nonneg; lia).
  assert (Halloc : (Z.of_nat (length blk) + 1) mod 2 ^ 64
                   = Z.of_nat (length blk) + 1)
    by (apply Z.mod_small; lia).
  unfold OSSL_PARAM_get_utf8_string, get_string_internal. unfold_c. exec.
  rewrite Halloc. unfold OPENSSL_malloc. cbn [avail heap].
  replace (Z.of_nat (length blk) + 1 <=? 0) with false
    by (symmetry; apply Z.leb_gt; lia).
  replace (av <? Z.of_nat (length blk) + 1) with false
    by (symmetry; apply Z.ltb_ge; lia).
  cbn [orb]. fold b.
  replace (Z.of_nat (length blk) + 1 <? Z.of_nat (length blk)) with false
    by (symmetry; apply Z.ltb_ge; lia).
  exec.
  assert (Hle : (Z.of_nat (length blk) + 1 <=? Z.of_nat (length blk)) = false)
    by (apply Z.leb_gt; lia).
  rewrite Hle. exec. rewrite Hle.
  cbn [mjoin option_join option_bind mbind]. exec.
  rewrite insert_insert_eq. rewrite Nat2Z.id, firstn_all.
  replace (Z.to_nat (Z.of_nat (length blk) + 1)) with (S (length blk)) by lia.
  change (take 0 (replicate (S (length blk)) indeterminate)) with (@nil Z).
  rewrite !app_nil_l.
  rewrite (take_app_length' blk) by reflexivity.
  rewrite (drop_ge (blk ++ _))
    by (rewrite length_app, length_drop, length_replicate; simpl; lia).
  rewrite ?insert_insert_eq. reflexivity.
Qed.

Lemma get_utf8_string_allocates_witness :
  heap text_machine !! fresh (dom (heap text_machine)) = None
  /\ OSSL_PARAM_get_utf8_string (Some 0%nat) (Some None) 0 text_machine
     = Some ((1, Some (Some (fresh (dom (heap text_machine))))),
             with_avail
               (with_heap text_machine
                  (<[fresh (dom (heap text_machine)) := [9; 9; 9; 9] ++ [0]]>
                     (heap text_machine)))
               (avail text_machine - (4 + 1))).
Proof.
  apply (get_utf8_string_allocates text_machine 0
           (ossl_param_construct (Some "name"%string)
              OSSL_PARAM_UTF8_STRING (Some 1%positive) 4)
           1%positive [9; 9; 9; 9] 0
           eq_refl eq_refl eq_refl eq_refl eq_refl);
    [unfold SIZE_MAX; simpl; lia | simpl; lia].
Defined.

Lemma get_utf8_string_run (m : machine) (p : nat) (d : OSSL_PARAM)
    (a b : addr) (blk buf : list Z) :
  params m !! p = Some d -> data_type d = OSSL_PARAM_UTF8_STRING ->
  data d = Some a -> heap m !! a = Some blk ->
  Z.of_nat (length blk) = data_size d ->
  heap m !! b = Some buf -> data_size d < Z.of_nat (length buf) -> a <> b ->
  OSSL_PARAM_get_utf8_string (Some p) (Some (Some b)) (Z.of_nat (length buf)) m
  = Some ((1, Some (Some b)),
          with_heap m (<[b := blk ++ 0 :: drop (S (length blk)) buf]> (heap m))).
Proof.
  intros Hp Hty Hd Ha Hblk Hb Hcap Hab.
  destruct m as [ps h es av]. destruct d as [k ty da sz rs].
  cbn [data_type data data_size return_size key params heap errors avail] in *.
  subst ty da sz.
  assert (Hlt : (Z.of_nat (length buf) <? Z.of_nat (length blk)) = false)
    by (apply Z.ltb_ge; lia).
  assert (Hle : (Z.of_nat (length buf) <=? Z.of_nat (length blk)) = false)
    by (apply Z.leb_gt; lia).
  unfold OSSL_PARAM_get_utf8_string, get_string_internal. unfold_c. exec.
  rewrite Hlt. exec. rewrite Hle. exec. rewrite Hle.
  cbn [mjoin option_join option_bind mbind]. exec.
  rewrite insert_insert_eq, Nat2Z.id, firstn_all.
  change (take 0 buf) with (@nil Z). rewrite !app_nil_l.
  rewrite (take_app_length' blk) by reflexivity.
  rewrite drop_app_ge by lia. rewrite drop_drop.
  match goal with
  | |- context [drop ?n buf] =>
      replace n with (S (length blk)) by (cbn [length]; lia)
  end.
  reflexivity.
Qed.

(** X14.  A string goes through a UTF8_STRING descriptor unchanged.  A
    string that fits the descriptor's buffer, set with
    OSSL_PARAM_set_utf8_string and got with OSSL_PARAM_get_utf8_string into
    a caller's buffer of more than data_size bytes, arrives as the same
    bytes followed by a NUL: both calls return 1 and the length of the
    string in the caller's buffer is the length of the string set, also
    when the string fills the descriptor's buffer and is stored without its
    NUL. *)
Theorem utf8_string_round_trip (m : machine) (p : nat) (d : OSSL_PARAM)
    (a val b : addr) (blk buf str rest : list Z)
    (Hp : params m !! p = Some d)
    (Hty : data_type d = OSSL_PARAM_UTF8_STRING)
    (Hd : data d = Some a) (Ha : heap m !! a = Some blk)
    (Hblk : Z.of_nat (length blk) = data_size d)
    (Hval : heap m !! val = Some (str ++ 0 :: rest))
    (Hnz : Forall (fun c => c <> 0) str)
    (Hfits : Z.of_nat (length str) <= data_size d)
    (Hb : heap m !! b = Some buf)
    (Hcap : data_size d < Z.of_nat (length buf))
    (Hav : a <> val) (Hab : a <> b) (Hvb : val <> b) :
  exists m1 m2 out,
    OSSL_PARAM_set_utf8_string (Some p) (Some val) m = Some (1, m1)
    /\ OSSL_PARAM_get_utf8_string (Some p) (Some (Some b))
         (Z.of_nat (length buf)) m1
       = Some ((1, Some (Some b)), m2)
    /\ heap m2 !! b = Some out
    /\ take (length str) out = str
    /\ strlen out = Some (Z.of_nat (length str)).
Proof.
  pose proof (strlen_app str rest Hnz) as Hlen.
  assert (Htake : take (length str) (str ++ 0 :: rest) = str)
    by (apply take_app_length).
  destruct m as [ps h es av]. destruct d as [k ty da sz rs].
  cbn [data_type data data_size return_size key params heap errors avail] in *.
  subst ty da sz.
  assert (Hset : exists blk1 tail,
            OSSL_PARAM_set_utf8_string (Some p) (Some val) (mkMachine ps h es av)
            = Some (1, mkMachine
                         (<[p := mkOSSL_PARAM k OSSL_PARAM_UTF8_STRING (Some a)
                                   (Z.of_nat (length blk))
                                   (Z.of_nat (length str))]> ps)
                         (<[a := blk1]> h) es av)
            /\ length blk1 = length blk
            /\ blk1 ++ [0] = str ++ 0 :: tail).
  { assert (Hsmall : (Z.of_nat (length blk) <? Z.of_nat (length str)) = false)
      by (apply Z.ltb_ge; lia).
    destruct (Z.ltb_spec (Z.of_nat (length str)) (Z.of_nat (length blk)))
      as [Hroom|Hfull].
    - exists (str ++ 0 :: drop (S (length str)) blk).
      exists (drop (S (length str)) blk ++ [0]).
      split; [|split].
      + unfold OSSL_PARAM_set_utf8_string, set_string_internal. unfold_c. exec.
        rewrite Hlen. exec. rewrite Hsmall. exec.
        replace (Z.of_nat (length str) <? Z.of_nat (length blk)) with true
          by (symmetry; apply Z.ltb_lt; lia).
        rewrite Nat2Z.id, Htake. exec.
        rewrite insert_insert_eq, memcpy_then_terminate, list_insert_insert_eq.
        reflexivity.
      + rewrite length_app. cbn [length]. rewrite length_drop. lia.
      + rewrite <- app_assoc. reflexivity.
    - exists str. exists [].
      split; [|split].
      + unfold OSSL_PARAM_set_utf8_string, set_string_internal. unfold_c. exec.
        rewrite Hlen. exec. rewrite Hsmall. exec.
        replace (Z.of_nat (length str) <? Z.of_nat (length blk)) with false
          by (symmetry; apply Z.ltb_ge; lia).
        rewrite Nat2Z.id, Htake. exec.
        change (take 0 blk) with (@nil Z). rewrite app_nil_l.
        rewrite drop_ge by lia. rewrite app_nil_r, list_insert_insert_eq.
        reflexivity.
      + lia.
      + reflexivity. }
  destruct Hset as (blk1 & tail & Hset & Hl1 & Hshape).
  eexists. eexists. eexists. split; [exact Hset|].
  split; [|split; [|split]].
  - eapply (get_utf8_string_run _ p _ a b blk1 buf).
    + cbn [params]. apply list_lookup_insert_eq.
      eapply lookup_lt_Some; eassumption.
    + reflexivity.
    + reflexivity.
    + cbn [heap]. apply lookup_insert_eq.
    + cbn [data_size]. lia.
    + cbn [heap]. rewrite lookup_insert_ne by exact Hab. exact Hb.
    + cbn [data_size]. lia.
    + exact Hab.
  - cbn [heap with_heap]. apply lookup_insert_eq.
  - change (blk1 ++ 0 :: drop (S (length blk1)) buf)
      with (blk1 ++ [0] ++ drop (S (length blk1)) buf).
    rewrite app_assoc, Hshape, <- app_assoc. apply take_app_length.
  - change (blk1 ++ 0 :: drop (S (length blk1)) buf)
      with (blk1 ++ [0] ++ drop (S (length blk1)) buf).
    rewrite app_assoc, Hshape, <- app_assoc. cbn [app].
    apply strlen_app. exact Hnz.
Qed.

Lemma utf8_string_round_trip_witness :
  exists m1 m2 out,
    OSSL_PARAM_set_utf8_string (Some 0%nat) (Some 3%positive) text_machine
    = Some (1, m1)
    /\ OSSL_PARAM_get_utf8_string (Some 0%nat) (Some (Some 4%positive))
         (Z.of_nat (length (replicate 6 7))) m1
       = Some ((1, Some (Some 4%positive)), m2)
    /\ heap m2 !! 4%positive = Some out
    /\ take (length [111; 107]) out = [111; 107]
    /\ strlen out = Some (Z.of_nat (length [111; 107])).
Proof.
  apply (utf8_string_round_trip text_machine 0
           (ossl_param_construct (Some "name"%string)
              OSSL_PARAM_UTF8_STRING (Some 1%positive) 4)
           1%positive 3%positive 4%positive [9; 9; 9; 9] (replicate 6 7)
           [111; 107] []
           eq_refl eq_refl eq_refl eq_refl eq_refl eq_refl
           ltac:(repeat constructor; discriminate)
           ltac:(simpl; lia) eq_refl ltac:(simpl; lia)
           ltac:(discriminate) ltac:(discriminate) ltac:(discriminate)).
Defined.

(** ** Pointers through a descriptor *)

Lemma bits_ptr_bits (q : option addr) : bits_ptr (ptr_bits q) = q.
Proof. destruct q; reflexivity. Qed.

Lemma load_stored_ptr (be : bool) (q : option addr) (rest : list Z) :
  ptr_bits q < 2 ^ 64 ->
  bits_ptr (native_value be (take 8 (native_bytes be 8 (ptr_bits q) ++ rest))) = q.
Proof.
  intros Hq. rewrite take_native, native_value_bytes.
  rewrite Z.mod_small; [apply bits_ptr_bits|].
  split; [destruct q; simpl; lia | exact Hq].
Qed.

(** X15.  A pointer goes through a pointer descriptor unchanged.  A pointer
    whose representation fits the 8 bytes of the buffer, set with
    OSSL_PARAM_set_octet_ptr or OSSL_PARAM_set_utf8_ptr, is the pointer
    OSSL_PARAM_get_octet_ptr or OSSL_PARAM_get_utf8_ptr gives back, a null
    pointer included; only the pointer is stored, nothing it refers to is
    copied.  return_size is the length given for an OCTET_PTR, and the
    length of the string (0 for a null pointer) for a UTF8_PTR; the length
    OSSL_PARAM_get_octet_ptr reports is the descriptor's data_size. *)
Theorem pointer_round_trip (be : bool) (m : machine) (p : nat)
    (d : OSSL_PARAM) (a : addr) (blk : list Z) (q : option addr)
    (Hp : params m !! p = Some d) (Hd : data d = Some a)
    (Ha : heap m !! a = Some blk) (Hblk : (8 <= length blk)%nat)
    (Hq : ptr_bits q < 2 ^ 64) :
  let stored len :=
    with_heap (with_params m (<[p := with_return_size d len]> (params m)))
              (<[a := native_bytes be 8 (ptr_bits q) ++ drop 8 blk]> (heap m)) in
  (data_type d = OSSL_PARAM_OCTET_PTR -> forall len v used_len,
     OSSL_PARAM_set_octet_ptr be (Some p) q len m = Some (1, stored len)
     /\ OSSL_PARAM_get_octet_ptr be (Some p) (Some v) used_len (stored len)
        = Some ((1, Some q,
                 match used_len with
                 | Some _ => Some (data_size d)
                 | None => None
                 end), stored len))
  /\ (data_type d = OSSL_PARAM_UTF8_PTR -> forall len v,
        match q with
        | Some t => exists str rest, heap m !! t = Some (str ++ 0 :: rest)
                      /\ Forall (fun c => c <> 0) str
                      /\ len = Z.of_nat (length str)
        | None => len = 0
        end ->
        OSSL_PARAM_set_utf8_ptr be (Some p) q m = Some (1, stored len)
        /\ OSSL_PARAM_get_utf8_ptr be (Some p) (Some v) (stored len)
           = Some ((1, Some q, None), stored len)).
Proof.
  destruct m as [ps h es av]. destruct d as [k ty da sz rs].
  cbn [data_type data data_size return_size key params heap errors avail] in *.
  subst da. cbv zeta.
  pose proof (load_stored_ptr be q (drop 8 blk) Hq) as Hload.
  split; intros ->.
  - intros len v used_len. split.
    + unfold OSSL_PARAM_set_octet_ptr, set_ptr_internal, store_ptr.
      change (Z.to_nat sizeof_ptr) with 8%nat.
      unfold_c. exec. rewrite native_bytes_length, list_insert_insert_eq. reflexivity.
    + unfold OSSL_PARAM_get_octet_ptr, get_ptr_internal,
        get_ptr_internal_skip_checks, load_ptr.
      change (Z.to_nat sizeof_ptr) with 8%nat.
      unfold_c. destruct used_len; exec; rewrite Hload; reflexivity.
  - intros len v Hlen. split.
    + unfold OSSL_PARAM_set_utf8_ptr, set_ptr_internal, store_ptr.
      change (Z.to_nat sizeof_ptr) with 8%nat.
      unfold_c. destruct q as [t|].
      * destruct Hlen as (str & rest & Ht & Hnz & ->).
        exec. rewrite (strlen_app str rest Hnz). exec.
        rewrite native_bytes_length, list_insert_insert_eq. reflexivity.
      * subst len. exec. rewrite native_bytes_length, list_insert_insert_eq.
        reflexivity.
    + unfold OSSL_PARAM_get_utf8_ptr, get_ptr_internal,
        get_ptr_internal_skip_checks, load_ptr.
      change (Z.to_nat sizeof_ptr) with 8%nat.
      unfold_c. exec. rewrite Hload. reflexivity.
Qed.

Lemma pointer_round_trip_witness :
  OSSL_PARAM_set_octet_ptr false (Some 0%nat) (Some 2%positive) 5
    (buffer_machine OSSL_PARAM_OCTET_PTR (replicate 8 0))
  = Some (1, with_heap
               (with_params (buffer_machine OSSL_PARAM_OCTET_PTR (replicate 8 0))
                  (<[0%nat := with_return_size
                                (sample_param OSSL_PARAM_OCTET_PTR
                                   (Some 1%positive) 8) 5]>
                     (params (buffer_machine OSSL_PARAM_OCTET_PTR
                                (replicate 8 0)))))
               (<[1%positive := native_bytes false 8 2 ++ drop 8 (replicate 8 0)]>
                  (heap (buffer_machine OSSL_PARAM_OCTET_PTR (replicate 8 0))))).
Proof.
  apply (proj1 (pointer_round_trip false
                  (buffer_machine OSSL_PARAM_OCTET_PTR (replicate 8 0)) 0
                  (sample_param OSSL_PARAM_OCTET_PTR (Some 1%positive) 8)
                  1%positive (replicate 8 0) (Some 2%positive)
                  eq_refl eq_refl eq_refl ltac:(simpl; lia)
                  ltac:(simpl; lia)) eq_refl 5 None None).
Defined.

(** X16.  OSSL_PARAM_get_octet_string_ptr and
    OSSL_PARAM_get_utf8_string_ptr copy nothing.  On a string descriptor
    they give the descriptor's own data pointer (a null one included); on
    the matching pointer descriptor they give the pointer stored in its
    buffer; on any other descriptor they return 0 with
    CRYPTO_R_PARAM_OF_INCOMPATIBLE_TYPE.  The length reported for an octet
    string is the descriptor's data_size.  In no case is a buffer or a
    descriptor changed. *)
Theorem get_string_ptr_cases (be : bool) (m : machine) (p : nat)
    (d : OSSL_PARAM) (v : option addr) (used_len : option Z)
    (Hp : params m !! p = Some d) :
  let reported :=
    match used_len with
    | Some _ => Some (data_size d)
    | None => None
    end in
  (data_type d = OSSL_PARAM_OCTET_STRING ->
   OSSL_PARAM_get_octet_string_ptr be (Some p) (Some v) used_len m
   = Some ((1, Some (data d), reported), m))
  /\ (data_type d = OSSL_PARAM_UTF8_STRING ->
      OSSL_PARAM_get_utf8_string_ptr be (Some p) (Some v) m
      = Some ((1, Some (data d), None), m))
  /\ (forall a blk, data d = Some a -> heap m !! a = Some blk ->
        (8 <= length blk)%nat ->
        (data_type d = OSSL_PARAM_OCTET_PTR ->
         OSSL_PARAM_get_octet_string_ptr be (Some p) (Some v) used_len m
         = Some ((1, Some (bits_ptr (native_value be (take 8 blk))), reported), m))
        /\ (data_type d = OSSL_PARAM_UTF8_PTR ->
            OSSL_PARAM_get_utf8_string_ptr be (Some p) (Some v) m
            = Some ((1, Some (bits_ptr (native_value be (take 8 blk))), None),
                    m)))
  /\ (data_type d <> OSSL_PARAM_OCTET_STRING ->
      data_type d <> OSSL_PARAM_OCTET_PTR ->
      OSSL_PARAM_get_octet_string_ptr be (Some p) (Some v) used_len m
      = Some ((0, Some v, used_len),
              with_errors m (CRYPTO_R_PARAM_OF_INCOMPATIBLE_TYPE :: errors m)))
  /\ (data_type d <> OSSL_PARAM_UTF8_STRING ->
      data_type d <> OSSL_PARAM_UTF8_PTR ->
      OSSL_PARAM_get_utf8_string_ptr be (Some p) (Some v) m
      = Some ((0, Some v, None),
              with_errors m (CRYPTO_R_PARAM_OF_INCOMPATIBLE_TYPE :: errors m))).
Proof.
  destruct m as [ps h es av]. destruct d as [k ty da sz rs].
  cbn [data_type data data_size return_size key params heap errors avail] in *.
  cbv zeta.
  unfold OSSL_PARAM_get_octet_string_ptr, OSSL_PARAM_get_utf8_string_ptr,
    get_string_ptr_internal, get_ptr_internal_skip_checks, load_ptr.
  change (Z.to_nat sizeof_ptr) with 8%nat.
  repeat match goal with |- _ /\ _ => split end.
  - intros ->. unfold_c. exec. reflexivity.
  - intros ->. unfold_c. exec. reflexivity.
  - intros a blk -> Ha Hl. split; intros ->; unfold_c; exec; reflexivity.
  - intros H1 H2. unfold_c. exec.
    destruct (Z.eqb_spec ty OSSL_PARAM_OCTET_PTR); [contradiction|].
    destruct (Z.eqb_spec ty OSSL_PARAM_OCTET_STRING); [contradiction|].
    reflexivity.
  - intros H1 H2. unfold_c. exec.
    destruct (Z.eqb_spec ty OSSL_PARAM_UTF8_PTR); [contradiction|].
    destruct (Z.eqb_spec ty OSSL_PARAM_UTF8_STRING); [contradiction|].
    reflexivity.
Qed.

Lemma get_string_ptr_cases_witness :
  OSSL_PARAM_get_octet_string_ptr false (Some 1%nat) (Some None) (Some 0)
    text_machine
  = Some ((1, Some (Some 2%positive), Some 3), text_machine).
Proof.
  apply (proj1 (get_string_ptr_cases false text_machine 1
                  (ossl_param_construct (Some "salt"%string)
                     OSSL_PARAM_OCTET_STRING (Some 2%positive) 3)
                  None (Some 0) eq_refl) eq_refl).
Defined.

(** ** Extracting an octet string into a fresh buffer *)

(** X17.  ossl_param_get1_octet_string_from_param, the caller's old buffer
    [out] being a block of the heap or null.  Without a descriptor it
    returns -1, and so does ossl_param_get1_octet_string when the key is not
    found.  A descriptor with data that is not an OCTET_STRING makes it
    return 0.  In both cases the caller's [*out] and [*out_len] and the old
    buffer are untouched.  A descriptor without data, or of size 0, of
    whatever type, gives success with a null [*out] and length 0, the old
    buffer being freed.  An OCTET_STRING descriptor with data gives success
    with [*out] a fresh copy of the data and its length, the old buffer
    being freed and the descriptor's data untouched. *)
Theorem get1_octet_string_cases (m : machine) (out : option addr) (out_len : Z)
    (Hout : forall o, out = Some o -> is_Some (heap m !! o)) :
  ossl_param_get1_octet_string_from_param None out out_len m
  = Some ((-1, out, out_len), m)
  /\ (forall params name,
        OSSL_PARAM_locate_const params name m = Some (None, m) ->
        ossl_param_get1_octet_string params name out out_len m
        = Some ((-1, out, out_len), m))
  /\ (forall p d a, params m !! p = Some d -> data d = Some a ->
        0 < data_size d -> data_type d <> OSSL_PARAM_OCTET_STRING ->
        ossl_param_get1_octet_string_from_param (Some p) out out_len m
        = Some ((0, out, out_len),
                with_errors m (CRYPTO_R_PARAM_OF_INCOMPATIBLE_TYPE :: errors m)))
  /\ (forall p d, params m !! p = Some d ->
        data d = None \/ data_size d <= 0 ->
        exists m',
          ossl_param_get1_octet_string_from_param (Some p) out out_len m
          = Some ((1, None, 0), m')
          /\ OPENSSL_clear_free out out_len m = Some (tt, m'))
  /\ (forall p d a blk, params m !! p = Some d ->
        data_type d = OSSL_PARAM_OCTET_STRING ->
        data d = Some a -> heap m !! a = Some blk ->
        Z.of_nat (length blk) = data_size d ->
        0 < data_size d <= SIZE_MAX -> data_size d <= avail m ->
        out <> Some a ->
        let b := fresh (dom (heap m)) in
        exists m',
          ossl_param_get1_octet_string_from_param (Some p) out out_len m
          = Some ((1, Some b, data_size d), m')
          /\ heap m !! b = None
          /\ heap m' !! b = Some blk
          /\ heap m' !! a = Some blk
          /\ (forall o, out = Some o -> heap m' !! o = None)).
Proof.
  split; [reflexivity|]. split; [|split; [|split]].
  - intros params name Hloc.
    unfold ossl_param_get1_octet_string, bind. rewrite Hloc. reflexivity.
  - intros p d a Hp Hd Hsz Hty.
    destruct m as [ps h es av]. destruct d as [k ty da sz rs].
    cbn [data_type data data_size return_size key params heap errors avail] in *.
    subst da.
    unfold ossl_param_get1_octet_string_from_param, OSSL_PARAM_get_octet_string,
      get_string_internal.
    unfold_c. exec.
    replace (0 <? sz) with true by (symmetry; apply Z.ltb_lt; lia).
    exec.
    destruct (Z.eqb_spec ty OSSL_PARAM_OCTET_STRING); [contradiction|].
    reflexivity.
  - intros p d Hp Hempty.
    assert (Hskip : negb (is_null (data d)) && (0 <? data_size d) = false).
    { destruct Hempty as [-> | Hz]; [reflexivity|].
      replace (0 <? data_size d) with false by (symmetry; apply Z.ltb_ge; lia).
      apply andb_false_r. }
    unfold ossl_param_get1_octet_string_from_param.
    rewrite (bind_deref p _ m d Hp). rewrite Hskip.
    unfold bind at 1. unfold ret at 1. cbn [Z.eqb].
    unfold bind at 1.
    destruct out as [o|].
    + destruct (Hout o eq_refl) as [blk Ho].
      unfold OPENSSL_clear_free. rewrite Ho. eexists. split; reflexivity.
    + eexists. split; reflexivity.
  - intros p d a blk Hp Hty Hd Ha Hblk Hsz Hav Hoa b.
    assert (Hfresh : heap m !! b = None) by (apply not_elem_of_dom, is_fresh).
    assert (Hab : a <> b) by congruence.
    assert (Hba : b <> a) by congruence.
    destruct m as [ps h es av]. destruct d as [k ty da sz rs].
    cbn [data_type data data_size return_size key params heap errors avail] in *.
    subst ty da sz. unfold SIZE_MAX in Hsz.
    assert (Hnz : (Z.of_nat (length blk) =? 0) = false) by (apply Z.eqb_neq; lia).
    assert (Halloc : (Z.of_nat (length blk) + 0) mod 2 ^ 64 = Z.of_nat (length blk))
      by (rewrite Z.add_0_r; apply Z.mod_small; lia).
    unfold ossl_param_get1_octet_string_from_param, OSSL_PARAM_get_octet_string,
      get_string_internal.
    unfold_c. exec.
    replace (0 <? Z.of_nat (length blk)) with true
      by (symmetry; apply Z.ltb_lt; lia).
    exec. rewrite Hnz. exec. rewrite Halloc.
    unfold OPENSSL_malloc. cbn [avail heap].
    replace (Z.of_nat (length blk) <=? 0) with false
      by (symmetry; apply Z.leb_gt; lia).
    replace (av <? Z.of_nat (length blk)) with false
      by (symmetry; apply Z.ltb_ge; lia).
    cbn [orb]. fold b. rewrite Z.ltb_irrefl. exec.
    rewrite insert_insert_eq, !Nat2Z.id, firstn_all.
    change (take 0 (replicate (length blk) 0)) with (@nil Z). rewrite app_nil_l.
    rewrite drop_ge by (rewrite length_replicate; lia). rewrite app_nil_r.
    destruct out as [o|].
    + destruct (Hout o eq_refl) as [oblk Ho]. cbn [heap] in Ho.
      assert (Hob : b <> o) by congruence.
      assert (Hao : a <> o) by congruence.
      unfold OPENSSL_clear_free. cbn [heap with_heap with_avail].
      rewrite lookup_insert_ne by exact Hob. rewrite Ho.
      eexists. split; [reflexivity|]. split; [exact Hfresh|].
      cbn [heap with_heap with_avail].
      split; [|split].
      * rewrite lookup_delete_ne by congruence. apply lookup_insert_eq.
      * rewrite lookup_delete_ne by congruence.
        rewrite lookup_insert_ne by exact Hba. exact Ha.
      * intros o' Ho'. injection Ho' as <-. apply lookup_delete_eq.
    + eexists. split; [reflexivity|]. split; [exact Hfresh|].
      cbn [heap with_heap with_avail].
      split; [|split].
      * apply lookup_insert_eq.
      * rewrite lookup_insert_ne by exact Hba. exact Ha.
      * intros o' Ho'. discriminate Ho'.
Qed.

Lemma get1_octet_string_cases_witness :
  exists m',
    ossl_param_get1_octet_string_from_param (Some 1%nat) None 0 text_machine
    = Some ((1, Some (fresh (dom (heap text_machine))), 3), m')
    /\ heap text_machine !! fresh (dom (heap text_machine)) = None
    /\ heap m' !! fresh (dom (heap text_machine)) = Some [1; 2; 3]
    /\ heap m' !! 2%positive = Some [1; 2; 3]
    /\ (forall o, None = Some o -> heap m' !! o = None).
Proof.
  apply (proj2 (proj2 (proj2 (proj2 (get1_octet_string_cases text_machine None 0
           ltac:(discriminate)))))
           1%nat
           (ossl_param_construct (Some "salt"%string)
              OSSL_PARAM_OCTET_STRING (Some 2%positive) 3)
           2%positive [1; 2; 3] eq_refl eq_refl eq_refl eq_refl eq_refl);
    [unfold SIZE_MAX; simpl; lia | simpl; lia | discriminate].
Defined.

(** ** Concatenation of octet strings, in general *)






(** ** The conversion engine, for every width *)

Lemma le_value_app (l1 l2 : list Z) :
  le_value (l1 ++ l2) = le_value l1 + 2 ^ (8 * Z.of_nat (length l1)) * le_value l2.
Proof.
  induction l1 as [|b l1 IH].
  - cbn [app length le_value]. change (2 ^ (8 * Z.of_nat 0)) with 1. lia.
  - cbn [app length le_value]. rewrite IH.
    replace (8 * Z.of_nat (S (length l1))) with (8 + 8 * Z.of_nat (length l1)) by lia.
    rewrite Z.pow_add_r by lia. change (2 ^ 8) with 256. ring.
Qed.

Lemma le_value_zeros (n : nat) : le_value (replicate n 0) = 0.
Proof. induction n as [|n IH]; cbn [replicate le_value]; lia. Qed.

Lemma le_value_ones (n : nat) :
  le_value (replicate n 255) = 2 ^ (8 * Z.of_nat n) - 1.
Proof.
  induction n as [|n IH].
  - reflexivity.
  - cbn [replicate le_value]. rewrite IH.
    replace (8 * Z.of_nat (S n)) with (8 + 8 * Z.of_nat n) by lia.
    rewrite Z.pow_add_r by lia. change (2 ^ 8) with 256. lia.
Qed.

Lemma rev_replicate {A} (n : nat) (x : A) : rev (replicate n x) = replicate n x.
Proof.
  induction n as [|n IH]; [reflexivity|].
  cbn [replicate rev]. rewrite IH. symmetry. apply replicate_cons_app.
Qed.

Lemma native_value_extend (be : bool) (pad : Z) (n : nat) (src : list Z) :
  native_value be (extend be pad n src)
  = native_value be src
    + 2 ^ (8 * Z.of_nat (length src)) * le_value (replicate n pad).
Proof.
  unfold native_value, extend. destruct be.
  - rewrite rev_app_distr, rev_replicate, le_value_app, length_rev. reflexivity.
  - apply le_value_app.
Qed.

Lemma extend_length (be : bool) (pad : Z) (n : nat) (src : list Z) :
  length (extend be pad n src) = (length src + n)%nat.
Proof.
  unfold extend. destruct be; rewrite length_app, length_replicate; lia.
Qed.

(** The byte is_negative looks at is the most significant one. *)
Lemma is_negative_run (be : bool) (src : list Z) (m : machine) :
  Forall is_byte src -> src <> [] ->
  exists r,
    is_negative be src (Z.of_nat (length src)) m = Some (r, m)
    /\ (r =? 0)
       = (native_value be src <? 2 ^ (8 * Z.of_nat (length src) - 1)).
Proof.
  intros Hb Hne.
  assert (Hsplit : exists l t,
            (if be then rev src else src) = l ++ [t]
            /\ Forall is_byte l /\ is_byte t
            /\ (if be then index src 0
                else index src (Z.of_nat (length src) - 1)) = Some t).
  { destruct be.
    - destruct src as [|t l]; [contradiction|].
      apply Forall_cons in Hb. destruct Hb as [Ht Hl].
      exists (rev l), t. cbn [rev]. split; [reflexivity|].
      split; [apply Forall_rev; exact Hl|]. split; [exact Ht|].
      unfold index. cbn [length]. reflexivity.
    - destruct (exists_last Hne) as (l & t & ->).
      apply Forall_app in Hb. destruct Hb as [Hl Ht].
      apply Forall_cons in Ht. destruct Ht as [Ht _].
      exists l, t. split; [reflexivity|]. split; [exact Hl|]. split; [exact Ht|].
      unfold index. rewrite length_app. cbn [length].
      replace (0 <=? Z.of_nat (length l + 1) - 1) with true
        by (symmetry; apply Z.leb_le; lia).
      replace (Z.of_nat (length l + 1) - 1 <? Z.of_nat (length l + 1)) with true
        by (symmetry; apply Z.ltb_lt; lia).
      cbn [andb].
      replace (Z.to_nat (Z.of_nat (length l + 1) - 1)) with (length l) by lia.
      rewrite lookup_app_r by lia. rewrite Nat.sub_diag. reflexivity. }
  destruct Hsplit as (l & t & Hle & Hl & Ht & Htop).
  exists (Z.land 128 t). split.
  - unfold is_negative, bind, lift_option, ret. rewrite Htop. reflexivity.
  - rewrite (sign_bit t Ht).
    assert (Hlen : length src = S (length l)).
    { transitivity (length (if be then rev src else src)).
      - destruct be; [rewrite length_rev|]; reflexivity.
      - rewrite Hle, length_app. cbn [length]. lia. }
    unfold native_value. rewrite Hle, le_value_app. cbn [le_value].
    pose proof (le_value_bound l Hl) as Hv.
    rewrite Hlen.
    replace (8 * Z.of_nat (S (length l)) - 1) with (8 * Z.of_nat (length l) + 7)
      by lia.
    rewrite Z.pow_add_r by lia. change (2 ^ 7) with 128.
    assert (0 < 2 ^ (8 * Z.of_nat (length l))) by (apply Z.pow_pos_nonneg; lia).
    unfold is_byte in Ht.
    destruct (Z.ltb_spec t 128); symmetry; [apply Z.ltb_lt | apply Z.ltb_ge]; nia.
Qed.

Lemma copy_integer_widen_run (be : bool) (m : machine) (dest : addr)
    (dblk src : list Z) (dl : nat) (pad : Z) (signed_int : bool) :
  heap m !! dest = Some dblk -> length dblk = dl -> (length src < dl)%nat ->
  copy_integer be dest (Z.of_nat dl) src (Z.of_nat (length src)) pad signed_int m
  = Some (1, with_heap m
               (<[dest := extend be pad (dl - length src) src]> (heap m))).
Proof.
  intros Hd Hdl Hlt.
  unfold copy_integer, extend.
  replace (Z.of_nat (length src) <? Z.of_nat dl) with true
    by (symmetry; apply Z.ltb_lt; lia).
  replace (Z.to_nat (Z.of_nat dl - Z.of_nat (length src)))
    with (dl - length src)%nat by lia.
  rewrite Nat2Z.id.
  destruct m as [ps h es av]. cbn [heap] in Hd.
  destruct be; unfold memset; unfold_c; exec;
    rewrite insert_insert_eq, firstn_all.
  - change (take 0 dblk) with (@nil Z). rewrite !app_nil_l.
    rewrite length_replicate.
    rewrite (take_app_length' (replicate _ _)) by (rewrite length_replicate; lia).
    rewrite (drop_ge (replicate _ _ ++ _))
      by (rewrite length_app, length_replicate, length_drop; lia).
    rewrite app_nil_r. reflexivity.
  - change (take 0 (take (length src) dblk ++ _)) with (@nil Z).
    rewrite !app_nil_l. rewrite length_replicate.
    rewrite drop_app_ge by (rewrite length_take; lia).
    rewrite length_take.
    replace (0 + length src - length src `min` length dblk)%nat with 0%nat by lia.
    rewrite drop_0.
    rewrite (drop_ge dblk) by lia. rewrite app_nil_r. reflexivity.
Qed.

(** The four copy functions on a destination longer than the source. *)
Lemma copy_widening_cases (be : bool) (m : machine) (dest : addr)
    (dblk src : list Z) (dl : nat)
    (Hd : heap m !! dest = Some dblk) (Hdl : length dblk = dl)
    (Hlt : (0 < length src < dl)%nat) (Hb : Forall is_byte src) :
  let sl := Z.of_nat (length src) in
  let u := native_value be src in
  let i := to_signed (8 * sl) u in
  let sign := if 0 <=? i then 0 else 255 in
  let widened pad :=
    Some (1, with_heap m
               (<[dest := extend be pad (dl - length src) src]> (heap m))) in
  unsigned_from_unsigned be dest (Z.of_nat dl) src sl m = widened 0
  /\ signed_from_unsigned be dest (Z.of_nat dl) src sl m = widened 0
  /\ native_value be (extend be 0 (dl - length src) src) = u
  /\ signed_from_signed be dest (Z.of_nat dl) src sl m = widened sign
  /\ to_signed (8 * Z.of_nat dl)
       (native_value be (extend be sign (dl - length src) src)) = i
  /\ (0 <= i -> unsigned_from_signed be dest (Z.of_nat dl) src sl m = widened 0)
  /\ (i < 0 ->
      unsigned_from_signed be dest (Z.of_nat dl) src sl m
      = Some (0, with_errors m
                   (CRYPTO_R_PARAM_UNSIGNED_INTEGER_NEGATIVE_VALUE_UNSUPPORTED
                      :: errors m))).
Proof.
  cbv zeta.
  assert (Hne : src <> []) by (destruct src; [simpl in Hlt; lia | discriminate]).
  destruct (is_negative_run be src m Hb Hne) as (r & Hneg & Hsign).
  pose proof (native_value_bound be src Hb) as Hu.
  set (u := native_value be src) in *.
  set (k := length src) in *.
  assert (Hhalf : 2 ^ (8 * Z.of_nat k) = 2 * 2 ^ (8 * Z.of_nat k - 1)).
  { replace (8 * Z.of_nat k) with (1 + (8 * Z.of_nat k - 1)) at 1 by lia.
    rewrite Z.pow_add_r by lia. reflexivity. }
  assert (Hpos : 0 < 2 ^ (8 * Z.of_nat k - 1)) by (apply Z.pow_pos_nonneg; lia).
  assert (Hi : (0 <=? to_signed (8 * Z.of_nat k) u) = (r =? 0)).
  { rewrite Hsign. unfold to_signed.
    destruct (Z.ltb_spec u (2 ^ (8 * Z.of_nat k - 1)));
      [apply Z.leb_le | apply Z.leb_gt]; lia. }
  assert (Hzero : native_value be (extend be 0 (dl - k) src) = u).
  { rewrite native_value_extend, le_value_zeros. fold u. lia. }
  split; [|split; [|split; [|split; [|split; [|split]]]]].
  - unfold unsigned_from_unsigned. apply (copy_integer_widen_run be m dest dblk); (assumption || lia).
  - unfold signed_from_unsigned. apply (copy_integer_widen_run be m dest dblk); (assumption || lia).
  - exact Hzero.
  - unfold signed_from_signed, bind. rewrite Hneg, Hi.
    destruct (r =? 0); apply (copy_integer_widen_run be m dest dblk); (assumption || lia).
  - rewrite Hi, Hsign. unfold to_signed at 2.
    assert (Hdlk : Z.of_nat dl = Z.of_nat k + Z.of_nat (dl - k)) by lia.
    assert (Hn : 0 < Z.of_nat (dl - k)) by lia.
    assert (Hbig : 2 ^ (8 * Z.of_nat dl)
                   = 2 ^ (8 * Z.of_nat k) * 2 ^ (8 * Z.of_nat (dl - k))).
    { rewrite Hdlk, Z.mul_add_distr_l, Z.pow_add_r by lia. reflexivity. }
    assert (Hbighalf : 2 ^ (8 * Z.of_nat dl - 1)
                       = 2 ^ (8 * Z.of_nat k - 1) * 2 ^ (8 * Z.of_nat (dl - k))).
    { replace (8 * Z.of_nat dl - 1)
        with ((8 * Z.of_nat k - 1) + 8 * Z.of_nat (dl - k)) by lia.
      rewrite Z.pow_add_r by lia. reflexivity. }
    assert (Hn1 : 1 < 2 ^ (8 * Z.of_nat (dl - k))).
    { apply Z.pow_gt_1; lia. }
    destruct (Z.ltb_spec u (2 ^ (8 * Z.of_nat k - 1))) as [Hsmall|Hlarge].
    + rewrite Hzero. unfold to_signed. rewrite Hbighalf.
      destruct (Z.ltb_spec u (2 ^ (8 * Z.of_nat k - 1)
                              * 2 ^ (8 * Z.of_nat (dl - k)))); [reflexivity | nia].
    + rewrite native_value_extend, le_value_ones. fold u k.
      unfold to_signed. rewrite Hbighalf, Hbig.
      match goal with |- context [?a <? ?b] => destruct (Z.ltb_spec a b) end; nia.
  - intros Hnn. unfold unsigned_from_signed, bind. rewrite Hneg.
    replace (r =? 0) with true by (rewrite <- Hi; symmetry; apply Z.leb_le; lia).
    cbn [negb]. apply (copy_integer_widen_run be m dest dblk); (assumption || lia).
  - intros Hn. unfold unsigned_from_signed, bind. rewrite Hneg.
    replace (r =? 0) with false by (rewrite <- Hi; symmetry; apply Z.leb_gt; lia).
    reflexivity.
Qed.

(** X19.  Copying an integer into a longer destination, for every pair of
    lengths and both byte orders.  None of the four copy functions fails,
    except unsigned_from_signed on a negative source, which returns 0 with
    CRYPTO_R_PARAM_UNSIGNED_INTEGER_NEGATIVE_VALUE_UNSUPPORTED and writes
    nothing.  The destination receives the source extended on its most
    significant side, by zero bytes for an unsigned source and by copies
    of the sign for a signed one, and the value it then holds, read at the
    destination's length, is the value of the source. *)
Theorem integer_widening_preserves_value (be : bool) (m : machine) (dest : addr)
    (dblk src : list Z) (dl : nat)
    (Hd : heap m !! dest = Some dblk) (Hdl : length dblk = dl)
    (Hlt : (0 < length src < dl)%nat) (Hb : Forall is_byte src) :
  let sl := Z.of_nat (length src) in
  let u := native_value be src in
  let i := to_signed (8 * sl) u in
  let sign := if 0 <=? i then 0 else 255 in
  let widened pad :=
    Some (1, with_heap m
               (<[dest := extend be pad (dl - length src) src]> (heap m))) in
  unsigned_from_unsigned be dest (Z.of_nat dl) src sl m = widened 0
  /\ signed_from_unsigned be dest (Z.of_nat dl) src sl m = widened 0
  /\ native_value be (extend be 0 (dl - length src) src) = u
  /\ signed_from_signed be dest (Z.of_nat dl) src sl m = widened sign
  /\ to_signed (8 * Z.of_nat dl)
       (native_value be (extend be sign (dl - length src) src)) = i
  /\ (0 <= i -> unsigned_from_signed be dest (Z.of_nat dl) src sl m = widened 0)
  /\ (i < 0 ->
      unsigned_from_signed be dest (Z.of_nat dl) src sl m
      = Some (0, with_errors m
                   (CRYPTO_R_PARAM_UNSIGNED_INTEGER_NEGATIVE_VALUE_UNSUPPORTED
                      :: errors m))).
Proof. exact (copy_widening_cases be m dest dblk src dl Hd Hdl Hlt Hb). Qed.

Lemma integer_widening_preserves_value_witness :
  signed_from_signed false 2%positive 4 [254; 255] 2
    (sample_machine OSSL_PARAM_INTEGER (Some 1%positive) 4)
  = Some (1, with_heap (sample_machine OSSL_PARAM_INTEGER (Some 1%positive) 4)
               (<[2%positive := [254; 255; 255; 255]]>
                  (heap (sample_machine OSSL_PARAM_INTEGER (Some 1%positive) 4)))).
Proof.
  apply (proj1 (proj2 (proj2 (proj2 (integer_widening_preserves_value false
           (sample_machine OSSL_PARAM_INTEGER (Some 1%positive) 4) 2%positive
           [0; 0; 0; 0] [254; 255] 4 eq_refl eq_refl
           ltac:(simpl; lia)
           ltac:(repeat constructor; unfold is_byte; lia)))))).
Defined.

Lemma check_sign_bytes_run (l : list Z) (n : nat) (s : Z) :
  (n <= length l)%nat ->
  check_sign_bytes l n s = Some (forallb (fun b => b =? s) (take n l)).
Proof.
  revert l; induction n as [|n IH]; intros l Hn.
  - destruct l; reflexivity.
  - destruct l as [|b l]; [simpl in Hn; lia|].
    change (take (S n) (b :: l)) with (b :: take n l).
    cbn [check_sign_bytes forallb]. simpl in Hn.
    destruct (b =? s); cbn [negb andb]; [apply IH; lia | reflexivity].
Qed.

Lemma forallb_rev {A} (f : A -> bool) (l : list A) :
  forallb f (rev l) = forallb f l.
Proof.
  induction l as [|x l IH]; [reflexivity|].
  cbn [rev forallb]. rewrite forallb_app, IH. cbn [forallb].
  rewrite andb_true_r. apply andb_comm.
Qed.

Lemma all_zero_value (l : list Z) :
  Forall is_byte l -> forallb (fun b => b =? 0) l = (le_value l =? 0).
Proof.
  induction 1 as [|b l Hb Hl IH]; [reflexivity|].
  cbn [forallb le_value]. rewrite IH.
  pose proof (le_value_bound l Hl). unfold is_byte in Hb.
  destruct (Z.eqb_spec b 0), (Z.eqb_spec (le_value l) 0); cbn [andb];
    symmetry; [apply Z.eqb_eq | apply Z.eqb_neq ..]; lia.
Qed.

Lemma all_ones_value (l : list Z) :
  Forall is_byte l ->
  forallb (fun b => b =? 255) l
  = (le_value l =? 2 ^ (8 * Z.of_nat (length l)) - 1).
Proof.
  induction 1 as [|b l Hb Hl IH]; [reflexivity|].
  cbn [forallb le_value length]. rewrite IH.
  pose proof (le_value_bound l Hl).
  replace (8 * Z.of_nat (S (length l))) with (8 + 8 * Z.of_nat (length l)) by lia.
  rewrite Z.pow_add_r by lia. change (2 ^ 8) with 256.
  unfold is_byte in Hb.
  destruct (Z.eqb_spec b 255),
    (Z.eqb_spec (le_value l) (2 ^ (8 * Z.of_nat (length l)) - 1)); cbn [andb];
    symmetry; [apply Z.eqb_eq | apply Z.eqb_neq ..]; lia.
Qed.

(** The run of copy_integer when the destination is not longer than the
    source, in terms of the little-endian reading [le] of the source. *)
Lemma copy_integer_narrow_run (be : bool) (m : machine) (dest : addr)
    (dblk le : list Z) (dl : nat) (pad : Z) (signed_int : bool) :
  heap m !! dest = Some dblk -> length dblk = dl ->
  (0 < dl <= length le)%nat ->
  exists l t,
    take dl le = l ++ [t]
    /\ copy_integer be dest (Z.of_nat dl) (if be then rev le else le)
         (Z.of_nat (length le)) pad signed_int m
       = if forallb (fun b => b =? pad) (drop dl le)
            && (negb signed_int || (Z.land (Z.lxor pad t) 128 =? 0))
         then Some (1, with_heap m
                         (<[dest := if be then rev (take dl le) else take dl le]>
                            (heap m)))
         else Some (0, with_errors m
                         (CRYPTO_R_PARAM_VALUE_TOO_LARGE_FOR_DESTINATION
                            :: errors m)).
Proof.
  intros Hd Hdl Hle.
  assert (Hlow : length (take dl le) = dl) by (rewrite length_take; lia).
  assert (Hne : take dl le <> []).
  { intros H0. rewrite H0 in Hlow. simpl in Hlow. lia. }
  destruct (exists_last Hne) as (l & t & Hlt).
  exists l, t. split; [exact Hlt|].
  assert (Hl : length l = (dl - 1)%nat).
  { rewrite Hlt, length_app in Hlow. simpl in Hlow. lia. }
  assert (Htop : le !! (dl - 1)%nat = Some t).
  { rewrite <- (lookup_take_lt le dl) by lia.
    rewrite Hlt, lookup_app_r by lia.
    rewrite Hl, Nat.sub_diag. reflexivity. }
  unfold copy_integer.
  replace (Z.of_nat (length le) <? Z.of_nat dl) with false
    by (symmetry; apply Z.ltb_ge; lia).
  replace (Z.to_nat (Z.of_nat (length le) - Z.of_nat dl))
    with (length le - dl)%nat by lia.
  rewrite Nat2Z.id.
  destruct m as [ps h es av]. cbn [heap] in Hd.
  destruct be.
  - rewrite check_sign_bytes_run by (rewrite length_rev; lia).
    rewrite firstn_rev.
    replace (length le - (length le - dl))%nat with dl by lia.
    rewrite forallb_rev.
    assert (Hidx : index (rev le) (Z.of_nat (length le) - Z.of_nat dl) = Some t).
    { unfold index. rewrite length_rev.
      replace (0 <=? Z.of_nat (length le) - Z.of_nat dl) with true
        by (symmetry; apply Z.leb_le; lia).
      replace (Z.of_nat (length le) - Z.of_nat dl <? Z.of_nat (length le))
        with true by (symmetry; apply Z.ltb_lt; lia).
      cbn [andb].
      replace (Z.to_nat (Z.of_nat (length le) - Z.of_nat dl))
        with (length le - dl + 0)%nat by lia.
      rewrite <- lookup_drop, skipn_rev.
      replace (length le - (length le - dl))%nat with dl by lia.
      rewrite Hlt, rev_app_distr. reflexivity. }
    rewrite skipn_rev.
    replace (length le - (length le - dl))%nat with dl by lia.
    unfold_c. rewrite Hidx.
    destruct (forallb (fun b => b =? pad) (drop dl le)); cbn [negb andb];
      [|reflexivity].
    destruct signed_int; cbn [negb orb].
    + destruct (Z.land (Z.lxor pad t) 128 =? 0); cbn [negb]; [|reflexivity].
      rewrite (memcpy_run _ dest 0 dblk)
        by (first [exact Hd | rewrite ?length_rev, ?length_take; lia]).
      rewrite (firstn_all2 (rev _)) by (rewrite length_rev; lia).
      rewrite drop_ge by lia. rewrite app_nil_r. reflexivity.
    + rewrite (memcpy_run _ dest 0 dblk)
        by (first [exact Hd | rewrite ?length_rev, ?length_take; lia]).
      rewrite (firstn_all2 (rev _)) by (rewrite length_rev; lia).
      rewrite drop_ge by lia. rewrite app_nil_r. reflexivity.
  - rewrite check_sign_bytes_run by (rewrite length_drop; lia).
    rewrite firstn_all2 by (rewrite length_drop; lia).
    assert (Hidx : index le (Z.of_nat dl - 1) = Some t).
    { unfold index.
      replace (0 <=? Z.of_nat dl - 1) with true by (symmetry; apply Z.leb_le; lia).
      replace (Z.of_nat dl - 1 <? Z.of_nat (length le)) with true
        by (symmetry; apply Z.ltb_lt; lia).
      cbn [andb].
      replace (Z.to_nat (Z.of_nat dl - 1)) with (dl - 1)%nat by lia.
      exact Htop. }
    unfold_c. rewrite Hidx.
    destruct (forallb (fun b => b =? pad) (drop dl le)); cbn [negb andb];
      [|reflexivity].
    destruct signed_int; cbn [negb orb].
    + destruct (Z.land (Z.lxor pad t) 128 =? 0); cbn [negb]; [|reflexivity].
      exec. rewrite drop_ge by lia. rewrite app_nil_r. reflexivity.
    + exec. rewrite drop_ge by lia. rewrite app_nil_r. reflexivity.
Qed.

(** The four copy functions on a destination not longer than the source. *)
Lemma copy_narrowing_cases (be : bool) (m : machine) (dest : addr)
    (dblk src : list Z) (dl : nat)
    (Hd : heap m !! dest = Some dblk) (Hdl : length dblk = dl)
    (Hle : (0 < dl <= length src)%nat) (Hb : Forall is_byte src) :
  let sl := Z.of_nat (length src) in
  let u := native_value be src in
  let i := to_signed (8 * sl) u in
  let half := 2 ^ (8 * Z.of_nat dl - 1) in
  let kept :=
    Some (1, with_heap m (<[dest := truncate be dl src]> (heap m))) in
  let refused r := Some (0, with_errors m (r :: errors m)) in
  let too_large := refused CRYPTO_R_PARAM_VALUE_TOO_LARGE_FOR_DESTINATION in
  unsigned_from_unsigned be dest (Z.of_nat dl) src sl m
  = (if u <? 2 * half then kept else too_large)
  /\ signed_from_unsigned be dest (Z.of_nat dl) src sl m
     = (if u <? half then kept else too_large)
  /\ signed_from_signed be dest (Z.of_nat dl) src sl m
     = (if (- half <=? i) && (i <? half) then kept else too_large)
  /\ unsigned_from_signed be dest (Z.of_nat dl) src sl m
     = (if i <? 0
        then refused CRYPTO_R_PARAM_UNSIGNED_INTEGER_NEGATIVE_VALUE_UNSUPPORTED
        else if i <? 2 * half then kept else too_large)
  /\ native_value be (truncate be dl src) = u mod (2 * half).
Proof.
  cbv zeta.
  assert (Hne : src <> []) by (destruct src; [simpl in Hle; lia | discriminate]).
  destruct (is_negative_run be src m Hb Hne) as (r & Hneg & Hsign).
  set (le := if be then rev src else src).
  assert (Hsrc : (if be then rev le else le) = src).
  { unfold le. destruct be; [apply rev_involutive | reflexivity]. }
  assert (Hlen : length le = length src).
  { unfold le. destruct be; [apply length_rev | reflexivity]. }
  assert (Hbl : Forall is_byte le).
  { unfold le. destruct be; [apply Forall_rev|]; exact Hb. }
  assert (Hu : native_value be src = le_value le).
  { unfold native_value, le. reflexivity. }
  assert (Htrunc : truncate be dl src = if be then rev (take dl le) else take dl le).
  { unfold truncate, le. destruct be; [|reflexivity].
    rewrite <- (rev_involutive src) at 2. rewrite skipn_rev, length_rev.
    replace (length src - (length src - dl))%nat with dl by lia. reflexivity. }
  assert (Hrun : forall pad sg,
            exists l t, take dl le = l ++ [t]
              /\ copy_integer be dest (Z.of_nat dl) src
                   (Z.of_nat (length src)) pad sg m
                 = if forallb (fun b => b =? pad) (drop dl le)
                      && (negb sg || (Z.land (Z.lxor pad t) 128 =? 0))
                   then Some (1, with_heap m
                                   (<[dest := truncate be dl src]> (heap m)))
                   else Some (0, with_errors m
                                   (CRYPTO_R_PARAM_VALUE_TOO_LARGE_FOR_DESTINATION
                                      :: errors m))).
  { intros pad sg.
    destruct (copy_integer_narrow_run be m dest dblk le dl pad sg Hd Hdl
                ltac:(lia)) as (l & t & Hlt & Hc).
    exists l, t. split; [exact Hlt|].
    rewrite Hsrc, Hlen in Hc. rewrite Htrunc. exact Hc. }
  (* the low and the high part of the source *)
  assert (Hparts : le = take dl le ++ drop dl le) by (symmetry; apply take_drop).
  assert (Hlowb : Forall is_byte (take dl le)) by (apply Forall_take; exact Hbl).
  assert (Hhighb : Forall is_byte (drop dl le)) by (apply Forall_drop; exact Hbl).
  assert (Hlowlen : length (take dl le) = dl) by (rewrite length_take; lia).
  pose proof (le_value_bound _ Hlowb) as HL. rewrite Hlowlen in HL.
  pose proof (le_value_bound _ Hhighb) as HH.
  assert (Hval : le_value le
                 = le_value (take dl le)
                   + 2 ^ (8 * Z.of_nat dl) * le_value (drop dl le)).
  { rewrite Hparts at 1. rewrite le_value_app, Hlowlen. reflexivity. }
  assert (HD : 2 ^ (8 * Z.of_nat dl) = 2 * 2 ^ (8 * Z.of_nat dl - 1)).
  { replace (8 * Z.of_nat dl) with (1 + (8 * Z.of_nat dl - 1)) at 1 by lia.
    rewrite Z.pow_add_r by lia. reflexivity. }
  assert (HS : 2 ^ (8 * Z.of_nat (length src))
               = 2 ^ (8 * Z.of_nat dl) * 2 ^ (8 * Z.of_nat (length (drop dl le)))).
  { rewrite <- Z.pow_add_r by lia. f_equal. rewrite length_drop. lia. }
  assert (HShalf : 2 ^ (8 * Z.of_nat (length src) - 1)
                   = 2 ^ (8 * Z.of_nat dl - 1)
                     * 2 ^ (8 * Z.of_nat (length (drop dl le)))).
  { rewrite <- Z.pow_add_r by lia. f_equal. rewrite length_drop. lia. }
  assert (Hhalfpos : 0 < 2 ^ (8 * Z.of_nat dl - 1)) by (apply Z.pow_pos_nonneg; lia).
  assert (HNpos : 0 < 2 ^ (8 * Z.of_nat (length (drop dl le))))
    by (apply Z.pow_pos_nonneg; lia).
  rewrite Hu in *.
  set (L := le_value (take dl le)) in *.
  set (H := le_value (drop dl le)) in *.
  set (N := 2 ^ (8 * Z.of_nat (length (drop dl le)))) in *.
  set (half := 2 ^ (8 * Z.of_nat dl - 1)) in *.
  (* the sign bit of the low part *)
  assert (Htop : forall l t, take dl le = l ++ [t] ->
            is_byte t /\ ((t <? 128) = (L <? half))).
  { intros l t Hlt.
    assert (Hlt' := Hlowb). rewrite Hlt in Hlt'.
    apply Forall_app in Hlt'. destruct Hlt' as [Hlb Htb].
    apply Forall_cons in Htb. destruct Htb as [Htb _].
    split; [exact Htb|].
    assert (Hll : length l = (dl - 1)%nat).
    { rewrite Hlt, length_app in Hlowlen. simpl in Hlowlen. lia. }
    pose proof (le_value_bound l Hlb) as Hlv. rewrite Hll in Hlv.
    assert (HLt : L = le_value l + 2 ^ (8 * Z.of_nat (dl - 1)) * t).
    { unfold L. rewrite Hlt, le_value_app, Hll. cbn [le_value]. lia. }
    assert (Hh : half = 2 ^ (8 * Z.of_nat (dl - 1)) * 128).
    { unfold half. replace (8 * Z.of_nat dl - 1) with (8 * Z.of_nat (dl - 1) + 7)
        by lia.
      rewrite Z.pow_add_r by lia. reflexivity. }
    assert (0 < 2 ^ (8 * Z.of_nat (dl - 1))) by (apply Z.pow_pos_nonneg; lia).
    unfold is_byte in Htb.
    destruct (Z.ltb_spec t 128); symmetry; [apply Z.ltb_lt | apply Z.ltb_ge]; nia. }
  rewrite Hval in *. rewrite HD in HL, Hsign, HS. rewrite ?HD.
  assert (Hzero : forallb (fun b => b =? 0) (drop dl le) = (H =? 0))
    by (apply all_zero_value; exact Hhighb).
  assert (Hones : forallb (fun b => b =? 255) (drop dl le) = (H =? N - 1))
    by (apply all_ones_value; exact Hhighb).
  split; [|split; [|split; [|split]]].
  - unfold unsigned_from_unsigned.
    destruct (Hrun 0 false) as (l & t & Hlt & ->).
    rewrite Hzero. cbn [negb orb]. rewrite andb_true_r.
    destruct (Z.eqb_spec H 0) as [Hz|Hz];
      match goal with |- context [?a <? ?b] => destruct (Z.ltb_spec a b) end;
      (reflexivity || nia).
  - unfold signed_from_unsigned.
    destruct (Hrun 0 true) as (l & t & Hlt & ->).
    destruct (Htop l t Hlt) as [Htb Hbit].
    rewrite Hzero. cbn [negb orb]. rewrite (sign_bit_pad0 t Htb), Hbit.
    destruct (Z.eqb_spec H 0) as [Hz|Hz]; destruct (Z.ltb_spec L half); cbn [andb];
      match goal with |- context [?a <? ?b] => destruct (Z.ltb_spec a b) end;
      (reflexivity || nia).
  - unfold signed_from_signed, bind. rewrite Hneg, Hsign.
    unfold to_signed. rewrite HShalf, HS.
    destruct (Z.ltb_spec (L + 2 * half * H) (half * N)) as [Hnn|Hng]; cbn [negb].
    + destruct (Hrun 0 true) as (l & t & Hlt & ->).
      destruct (Htop l t Hlt) as [Htb Hbit].
      rewrite Hzero. cbn [negb orb]. rewrite (sign_bit_pad0 t Htb), Hbit.
      destruct (Z.eqb_spec H 0) as [Hz|Hz]; destruct (Z.ltb_spec L half);
        cbn [andb];
        destruct (Z.leb_spec (- half) (L + 2 * half * H));
        destruct (Z.ltb_spec (L + 2 * half * H) half); cbn [andb];
        (reflexivity || nia).
    + destruct (Hrun 255 true) as (l & t & Hlt & ->).
      destruct (Htop l t Hlt) as [Htb Hbit].
      rewrite Hones. cbn [negb orb]. rewrite (sign_bit_pad255 t Htb).
      replace (128 <=? t) with (negb (t <? 128))
        by (destruct (Z.ltb_spec t 128), (Z.leb_spec 128 t); (reflexivity || lia)).
      rewrite Hbit.
      destruct (Z.eqb_spec H (N - 1)) as [Hz|Hz]; destruct (Z.ltb_spec L half);
        cbn [andb negb];
        destruct (Z.leb_spec (- half) (L + 2 * half * H - 2 * half * N));
        destruct (Z.ltb_spec (L + 2 * half * H - 2 * half * N) half); cbn [andb];
        (reflexivity || nia).
  - unfold unsigned_from_signed, bind. rewrite Hneg, Hsign.
    unfold to_signed. rewrite HShalf, HS.
    destruct (Z.ltb_spec (L + 2 * half * H) (half * N)) as [Hnn|Hng]; cbn [negb].
    + destruct (Hrun 0 false) as (l & t & Hlt & ->).
      rewrite Hzero. cbn [negb orb]. rewrite andb_true_r.
      destruct (Z.ltb_spec (L + 2 * half * H) 0); [nia|].
      destruct (Z.eqb_spec H 0) as [Hz|Hz];
        destruct (Z.ltb_spec (L + 2 * half * H) (2 * half));
        (reflexivity || nia).
    + destruct (Z.ltb_spec (L + 2 * half * H - 2 * half * N) 0);
        [reflexivity | nia].
  - rewrite Htrunc.
    assert (Hnv : native_value be (if be then rev (take dl le) else take dl le) = L).
    { unfold native_value, L. destruct be; [rewrite rev_involutive|]; reflexivity. }
    rewrite Hnv. symmetry.
    replace (L + 2 * half * H) with (L + H * (2 * half)) by ring.
    rewrite Z.mod_add by lia. apply Z.mod_small. lia.
Qed.

(** X20.  Copying an integer into a destination that is not longer than
    the source, for every pair of lengths and both byte orders.  Each of the
    four copy functions succeeds exactly when the value of the source is a
    value of the destination's length and signedness; the destination then
    receives the least significant bytes of the source, which hold the same
    value.  Otherwise the call returns 0 and writes nothing, raising
    CRYPTO_R_PARAM_VALUE_TOO_LARGE_FOR_DESTINATION, or, for
    unsigned_from_signed on a negative source,
    CRYPTO_R_PARAM_UNSIGNED_INTEGER_NEGATIVE_VALUE_UNSUPPORTED. *)
Theorem integer_narrowing_checks_value (be : bool) (m : machine) (dest : addr)
    (dblk src : list Z) (dl : nat)
    (Hd : heap m !! dest = Some dblk) (Hdl : length dblk = dl)
    (Hle : (0 < dl <= length src)%nat) (Hb : Forall is_byte src) :
  let sl := Z.of_nat (length src) in
  let u := native_value be src in
  let i := to_signed (8 * sl) u in
  let half := 2 ^ (8 * Z.of_nat dl - 1) in
  let kept :=
    Some (1, with_heap m (<[dest := truncate be dl src]> (heap m))) in
  let refused r := Some (0, with_errors m (r :: errors m)) in
  let too_large := refused CRYPTO_R_PARAM_VALUE_TOO_LARGE_FOR_DESTINATION in
  unsigned_from_unsigned be dest (Z.of_nat dl) src sl m
  = (if u <? 2 * half then kept else too_large)
  /\ signed_from_unsigned be dest (Z.of_nat dl) src sl m
     = (if u <? half then kept else too_large)
  /\ signed_from_signed be dest (Z.of_nat dl) src sl m
     = (if (- half <=? i) && (i <? half) then kept else too_large)
  /\ unsigned_from_signed be dest (Z.of_nat dl) src sl m
     = (if i <? 0
        then refused CRYPTO_R_PARAM_UNSIGNED_INTEGER_NEGATIVE_VALUE_UNSUPPORTED
        else if i <? 2 * half then kept else too_large)
  /\ native_value be (truncate be dl src) = u mod (2 * half).
Proof. exact (copy_narrowing_cases be m dest dblk src dl Hd Hdl Hle Hb). Qed.

Lemma integer_narrowing_checks_value_witness :
  signed_from_signed false 2%positive 4 [0; 0; 0; 128; 0; 0; 0; 0] 8
    (sample_machine OSSL_PARAM_INTEGER (Some 1%positive) 4)
  = Some (0, with_errors (sample_machine OSSL_PARAM_INTEGER (Some 1%positive) 4)
               [CRYPTO_R_PARAM_VALUE_TOO_LARGE_FOR_DESTINATION]).
Proof.
  apply (proj1 (proj2 (proj2 (integer_narrowing_checks_value false
           (sample_machine OSSL_PARAM_INTEGER (Some 1%positive) 4) 2%positive
           [0; 0; 0; 0] [0; 0; 0; 128; 0; 0; 0; 0] 4 eq_refl eq_refl
           ltac:(simpl; lia)
           ltac:(repeat constructor; unfold is_byte; lia))))).
Defined.

(** ** Big numbers through a descriptor *)

Lemma BN_num_bytes_bound (v : Z) : Z.abs v < 2 ^ (8 * BN_num_bytes v).
Proof.
  unfold BN_num_bytes, BN_num_bits.
  destruct (Z.eqb_spec v 0) as [->|Hv].
  - reflexivity.
  - pose proof (Z.log2_nonneg (Z.abs v)) as Hl.
    pose proof (Z.log2_spec (Z.abs v) ltac:(lia)) as [_ Hup].
    eapply Z.lt_le_trans; [exact Hup|].
    apply Z.pow_le_mono_r; [lia|].
    pose proof (Z.div_mod (Z.log2 (Z.abs v) + 1 + 7) 8 ltac:(lia)).
    pose proof (Z.mod_pos_bound (Z.log2 (Z.abs v) + 1 + 7) 8 ltac:(lia)).
    lia.
Qed.

(** With a byte to spare for the sign the signed conversion succeeds. *)
Lemma BN_signed_bn2native_fits (be : bool) (v : Z) (to : addr) (tolen : Z) :
  BN_num_bytes v + 1 <= tolen ->
  BN_signed_bn2native be v to tolen
  = bind (store to (native_bytes be (Z.to_nat tolen) v)) (fun _ => ret tolen).
Proof.
  intros Hfit. pose proof (BN_num_bytes_nonneg v) as Hnn.
  unfold BN_signed_bn2native. cbv zeta.
  replace (tolen <? 0) with false by (symmetry; apply Z.ltb_ge; lia).
  cbn [orb].
  destruct (8 * BN_num_bytes v =? BN_num_bits v), (BN_is_negative v);
    (replace (tolen <? _) with false by (symmetry; apply Z.ltb_ge; lia));
    reflexivity.
Qed.

(** X21.  A big number goes through an integer descriptor unchanged.  The
    bytes a number needs are its byte length, at least 1, and one more on an
    INTEGER descriptor.  When the buffer has at least that many bytes (and
    its size is one an int can hold), OSSL_PARAM_set_BN returns 1, fills
    the whole buffer and sets return_size to data_size, and
    OSSL_PARAM_get_BN then gives the number back.  When the buffer is
    smaller, OSSL_PARAM_set_BN returns 0, raises CRYPTO_R_TOO_SMALL_BUFFER,
    leaves the buffer untouched and sets return_size to the number of bytes
    needed. *)
Theorem BN_round_trip (be : bool) (m : machine) (p : nat) (d : OSSL_PARAM)
    (a : addr) (blk : list Z) (v : Z) (old : option Z)
    (Hp : params m !! p = Some d) (Hd : data d = Some a)
    (Ha : heap m !! a = Some blk) (Hblk : Z.of_nat (length blk) = data_size d)
    (Hint : data_size d <= INT32_MAX) :
  let needed :=
    if data_type d =? OSSL_PARAM_INTEGER then BN_num_bytes v + 1
    else Z.max 1 (BN_num_bytes v) in
  let stored :=
    with_heap (with_params m (<[p := with_return_size d (data_size d)]> (params m)))
              (<[a := native_bytes be (length blk)
                        (if data_type d =? OSSL_PARAM_INTEGER then v else Z.abs v)]>
                 (heap m)) in
  (data_type d = OSSL_PARAM_UNSIGNED_INTEGER /\ 0 <= v
   \/ data_type d = OSSL_PARAM_INTEGER ->
   (needed <= data_size d ->
    OSSL_PARAM_set_BN be (Some p) (Some v) m = Some (1, stored)
    /\ OSSL_PARAM_get_BN be (Some p) (Some old) stored
       = Some ((1, Some (Some v)), stored))
   /\ (data_size d < needed ->
       OSSL_PARAM_set_BN be (Some p) (Some v) m
       = Some (0, with_errors
                    (with_params m (<[p := with_return_size d needed]> (params m)))
                    (CRYPTO_R_TOO_SMALL_BUFFER :: errors m)))).
Proof.
  destruct m as [ps h es av]. destruct d as [k ty da sz rs].
  cbn [data_type data data_size return_size key params heap errors avail] in *.
  subst da sz. cbv zeta.
  pose proof (BN_num_bytes_nonneg v) as Hnn.
  pose proof (BN_num_bytes_bound v) as Hbound.
  assert (Hcast : cast_int (Z.of_nat (length blk)) = Z.of_nat (length blk)).
  { unfold cast_int. apply cast_int32_id. unfold INT32_MIN. lia. }
  intros [[-> Hv] | ->];
    cbn [Z.eqb Pos.eqb OSSL_PARAM_INTEGER OSSL_PARAM_UNSIGNED_INTEGER].
  - assert (Hneg : BN_is_negative v = false) by (apply Z.ltb_ge; exact Hv).
    assert (Hbytes : (if BN_num_bytes v =? 0 then BN_num_bytes v + 1
                      else BN_num_bytes v) = Z.max 1 (BN_num_bytes v)).
    { destruct (Z.eqb_spec (BN_num_bytes v) 0); lia. }
    split; intros Hfit.
    + assert (Hle : (Z.max 1 (BN_num_bytes v) <=? Z.of_nat (length blk)) = true)
        by (apply Z.leb_le; lia).
      assert (Hpad : (Z.of_nat (length blk) <? 0)
                     || (Z.of_nat (length blk) <? BN_num_bytes v) = false).
      { apply orb_false_iff. split; apply Z.ltb_ge; lia. }
      assert (Hsmall : Z.abs v < 2 ^ (8 * Z.of_nat (length blk))).
      { eapply Z.lt_le_trans; [exact Hbound|].
        apply Z.pow_le_mono_r; lia. }
      split.
      * unfold OSSL_PARAM_set_BN, BN_bn2nativepad. rewrite Hneg. unfold_c. exec.
        rewrite Hbytes, Hle, Hcast, Hpad. rewrite Nat2Z.id. exec.
        replace (Z.of_nat (length blk) <? 0) with false
          by (symmetry; apply Z.ltb_ge; lia).
        exec. rewrite list_insert_insert_eq, native_bytes_length.
        rewrite drop_ge by lia. rewrite app_nil_r. reflexivity.
      * unfold OSSL_PARAM_get_BN, BN_native2bn. unfold_c. exec.
        rewrite Hcast.
        replace (Z.of_nat (length blk) <? 0) with false
          by (symmetry; apply Z.ltb_ge; lia).
        rewrite Nat2Z.id. exec.
        rewrite firstn_all2 by (rewrite native_bytes_length; lia).
        rewrite native_value_bytes, Z.mod_small by lia.
        replace (Z.abs v) with v by lia. reflexivity.
    + assert (Hle : (Z.max 1 (BN_num_bytes v) <=? Z.of_nat (length blk)) = false)
        by (apply Z.leb_gt; lia).
      unfold OSSL_PARAM_set_BN. rewrite Hneg. unfold_c. exec.
      rewrite Hbytes, Hle. exec. rewrite list_insert_insert_eq. reflexivity.
  - assert (Hbytes : (BN_num_bytes v + 1 =? 0) = false) by (apply Z.eqb_neq; lia).
    split; intros Hfit.
    + assert (Hle : (BN_num_bytes v + 1 <=? Z.of_nat (length blk)) = true)
        by (apply Z.leb_le; lia).
      assert (Hpow : 2 ^ (8 * BN_num_bytes v) <= 2 ^ (8 * Z.of_nat (length blk) - 1))
        by (apply Z.pow_le_mono_r; lia).
      assert (Hrange : - 2 ^ (8 * Z.of_nat (length blk) - 1) <= v
                       < 2 ^ (8 * Z.of_nat (length blk) - 1)) by lia.
      split.
      * unfold OSSL_PARAM_set_BN. unfold_c. exec.
        rewrite Hbytes, Hle, Hcast.
        rewrite BN_signed_bn2native_fits by lia.
        unfold_c. rewrite Nat2Z.id. exec.
        replace (Z.of_nat (length blk) <? 0) with false
          by (symmetry; apply Z.ltb_ge; lia).
        exec. rewrite list_insert_insert_eq, native_bytes_length.
        rewrite drop_ge by lia. rewrite app_nil_r. reflexivity.
      * unfold OSSL_PARAM_get_BN, BN_signed_native2bn. unfold_c. exec.
        rewrite Hcast.
        replace (Z.of_nat (length blk) <? 0) with false
          by (symmetry; apply Z.ltb_ge; lia).
        rewrite Nat2Z.id. exec.
        replace (Z.of_nat (length blk) =? 0) with false
          by (symmetry; apply Z.eqb_neq; lia).
        rewrite firstn_all2 by (rewrite native_bytes_length; lia).
        rewrite native_value_bytes, to_signed_wrap by lia. reflexivity.
    + assert (Hle : (BN_num_bytes v + 1 <=? Z.of_nat (length blk)) = false)
        by (apply Z.leb_gt; lia).
      unfold OSSL_PARAM_set_BN. unfold_c. exec.
      rewrite Hbytes, Hle. exec. rewrite list_insert_insert_eq. reflexivity.
Qed.

Lemma BN_round_trip_witness :
  OSSL_PARAM_set_BN false (Some 0%nat) (Some 65536)
    (buffer_machine OSSL_PARAM_UNSIGNED_INTEGER (replicate 4 0))
  = Some (1, with_heap
               (with_params
                  (buffer_machine OSSL_PARAM_UNSIGNED_INTEGER (replicate 4 0))
                  (<[0%nat := with_return_size
                                (sample_param OSSL_PARAM_UNSIGNED_INTEGER
                                   (Some 1%positive) 4) 4]>
                     (params (buffer_machine OSSL_PARAM_UNSIGNED_INTEGER
                                (replicate 4 0)))))
               (<[1%positive := native_bytes false 4 65536]>
                  (heap (buffer_machine OSSL_PARAM_UNSIGNED_INTEGER
                           (replicate 4 0))))).
Proof.
  refine (proj1 (proj1 (BN_round_trip false
            (buffer_machine OSSL_PARAM_UNSIGNED_INTEGER (replicate 4 0)) 0
            (sample_param OSSL_PARAM_UNSIGNED_INTEGER (Some 1%positive) 4)
            1%positive (replicate 4 0) 65536 None
            eq_refl eq_refl eq_refl eq_refl _ _) _)).
  - vm_compute. discriminate.
  - left. split; [reflexivity | lia].
  - vm_compute. discriminate.
Defined.

(** ** Integers read as doubles *)

Lemma double_add_zero (v : Z) :
  - 2 ^ 53 < v < 2 ^ 53 ->
  double_add (double_of_Z 0) (double_of_Z v) = double_of_Z v.
Proof.
  intros Hv.
  destruct (double_of_Z_small v Hv) as [[-> ->] | (mz & ez & -> & _)];
    reflexivity.
Qed.

(** X22.  OSSL_PARAM_get_double on an integer descriptor.  A 4-byte integer
    is always given as the double of the same value.  An 8-byte integer is
    given as the double of the same value when its magnitude is below 2^53,
    and refused otherwise: the call returns 0, raises
    CRYPTO_R_PARAM_CANNOT_BE_REPRESENTED_EXACTLY and leaves the caller's
    variable untouched, also for an integer such as 2^53 that a double can
    hold.  The double given stands for exactly the integer. *)
Theorem get_double_from_integer (be : bool) (m : machine) (p : nat)
    (d : OSSL_PARAM) (a out : addr) (blk oblk : list Z)
    (Hp : params m !! p = Some d) (Hd : data d = Some a)
    (Ha : heap m !! a = Some blk) (Hblk : Z.of_nat (length blk) = data_size d)
    (Hbytes : Forall is_byte blk)
    (Hout : heap m !! out = Some oblk) (Hoblk : (8 <= length oblk)%nat) :
  let u := native_value be blk in
  let given v :=
    Some (1, with_heap m
               (<[out := native_bytes be 8 (double_bits (double_of_Z v))
                         ++ drop 8 oblk]> (heap m))) in
  let inexact :=
    Some (0, with_errors m
               (CRYPTO_R_PARAM_CANNOT_BE_REPRESENTED_EXACTLY :: errors m)) in
  (data_type d = OSSL_PARAM_UNSIGNED_INTEGER -> data_size d = 4 ->
   OSSL_PARAM_get_double be (Some p) (Some out) m = given u
   /\ double_exact_Z (double_of_Z u) = Some u)
  /\ (data_type d = OSSL_PARAM_INTEGER -> data_size d = 4 ->
      OSSL_PARAM_get_double be (Some p) (Some out) m = given (to_signed 32 u)
      /\ double_exact_Z (double_of_Z (to_signed 32 u)) = Some (to_signed 32 u))
  /\ (data_type d = OSSL_PARAM_UNSIGNED_INTEGER -> data_size d = 8 ->
      (u < 2 ^ 53 ->
       OSSL_PARAM_get_double be (Some p) (Some out) m = given u
       /\ double_exact_Z (double_of_Z u) = Some u)
      /\ (2 ^ 53 <= u ->
          OSSL_PARAM_get_double be (Some p) (Some out) m = inexact))
  /\ (data_type d = OSSL_PARAM_INTEGER -> data_size d = 8 ->
      (- 2 ^ 53 < to_signed 64 u < 2 ^ 53 ->
       OSSL_PARAM_get_double be (Some p) (Some out) m = given (to_signed 64 u)
       /\ double_exact_Z (double_of_Z (to_signed 64 u))
          = Some (to_signed 64 u))
      /\ (~ - 2 ^ 53 < to_signed 64 u < 2 ^ 53 -> INT64_MIN < to_signed 64 u ->
          OSSL_PARAM_get_double be (Some p) (Some out) m = inexact)).
Proof.
  pose proof (native_value_bound be blk Hbytes) as Hu.
  destruct m as [ps h es av]. destruct d as [k ty da sz rs].
  cbn [data_type data data_size return_size key params heap errors avail] in *.
  subst da. cbv zeta.
  (split; [|split; [|split]]); intros -> ->;
    assert (Hl : length blk = Z.to_nat (Z.of_nat (length blk))) by lia;
    rewrite Hblk in Hl, Hu;
    change (8 * 4) with 32 in Hu; change (8 * 8) with 64 in Hu.
  - split.
    + unfold OSSL_PARAM_get_double. get_run.
    + apply double_of_Z_exact. change (2 ^ 32) with 4294967296 in Hu.
      change (2 ^ 53) with 9007199254740992. lia.
  - pose proof (to_signed_bound 32 _ ltac:(lia) Hu) as Hs.
    split.
    + unfold OSSL_PARAM_get_double. get_run.
    + apply double_of_Z_exact. change (2 ^ (32 - 1)) with 2147483648 in Hs.
      change (2 ^ 53) with 9007199254740992. lia.
  - split; intros Hv.
    + assert (Hb : (Z.shiftr (native_value be blk) real_shift =? 0) = true)
        by (rewrite shiftr_real_shift by lia; apply Z.ltb_lt; exact Hv).
      split.
      * unfold OSSL_PARAM_get_double. get_run.
      * apply double_of_Z_exact. lia.
    + assert (Hb : (Z.shiftr (native_value be blk) real_shift =? 0) = false)
        by (rewrite shiftr_real_shift by lia; apply Z.ltb_ge; exact Hv).
      unfold OSSL_PARAM_get_double. get_run.
  - pose proof (to_signed_bound 64 _ ltac:(lia) Hu) as Hs.
    change (2 ^ (64 - 1)) with 9223372036854775808 in Hs.
    set (i := to_signed 64 (native_value be blk)) in *.
    assert (Hcast : cast_uint64 (if i <? 0 then - i else i) = Z.abs i
                    \/ (i = - 9223372036854775808
                        /\ cast_uint64 (if i <? 0 then - i else i)
                           = 9223372036854775808)).
    { unfold cast_uint64. change (2 ^ 64) with 18446744073709551616.
      destruct (Z.ltb_spec i 0).
      - destruct (Z.eq_dec i (- 9223372036854775808)) as [->|Hne].
        + right. split; reflexivity.
        + left. rewrite Z.mod_small by lia. lia.
      - left. rewrite Z.mod_small by lia. lia. }
    assert (Hshift : (Z.shiftr (cast_uint64 (if i <? 0 then - i else i))
                               real_shift =? 0)
                     = (Z.abs i <? 2 ^ 53)).
    { destruct Hcast as [-> | [-> ->]].
      - apply shiftr_real_shift. lia.
      - reflexivity. }
    split; intros Hv.
    + assert (Hb : (Z.abs i <? 2 ^ 53) = true) by (apply Z.ltb_lt; lia).
      split.
      * unfold OSSL_PARAM_get_double. get_run. fold i.
        cbv zeta. rewrite Hshift, Hb. rewrite double_add_zero by exact Hv.
        get_run.
      * apply double_of_Z_exact. exact Hv.
    + intros _.
      assert (Hb : (Z.abs i <? 2 ^ 53) = false) by (apply Z.ltb_ge; lia).
      unfold OSSL_PARAM_get_double. get_run. fold i.
      cbv zeta. rewrite Hshift, Hb. reflexivity.
Qed.

Lemma get_double_from_integer_witness :
  OSSL_PARAM_get_double false (Some 0%nat) (Some 2%positive)
    (buffer_machine OSSL_PARAM_UNSIGNED_INTEGER [0; 0; 0; 0; 0; 0; 32; 0])
  = Some (0, with_errors
               (buffer_machine OSSL_PARAM_UNSIGNED_INTEGER
                  [0; 0; 0; 0; 0; 0; 32; 0])
               [CRYPTO_R_PARAM_CANNOT_BE_REPRESENTED_EXACTLY]).
Proof.
  apply (proj2 (proj1 (proj2 (proj2 (get_double_from_integer false
           (buffer_machine OSSL_PARAM_UNSIGNED_INTEGER
              [0; 0; 0; 0; 0; 0; 32; 0]) 0
           (sample_param OSSL_PARAM_UNSIGNED_INTEGER (Some 1%positive) 8)
           1%positive 2%positive [0; 0; 0; 0; 0; 0; 32; 0] (replicate 8 0)
           eq_refl eq_refl eq_refl eq_refl
           ltac:(repeat constructor; unfold is_byte; lia)
           eq_refl ltac:(simpl; lia)))) eq_refl eq_refl)).
  vm_compute. discriminate.
Defined.

(** ** The accessors of the native integer types *)

(** X23.  The accessors of the native types int, unsigned int, long,
    unsigned long, size_t and time_t act as the fixed-width accessors of
    their width: a value of the type, set into a descriptor of the matching
    signedness whose buffer has the width of the type and then got through
    the accessor of the same type, comes back unchanged, and both calls
    return 1. *)
Theorem native_width_round_trip (be : bool) (m : machine) (p : nat)
    (d : OSSL_PARAM) (a out : addr) (blk oblk : list Z) (v : Z)
    (Hp : params m !! p = Some d) (Hd : data d = Some a)
    (Ha : heap m !! a = Some blk) (Hout : heap m !! out = Some oblk)
    (Hblk : Z.of_nat (length blk) = data_size d)
    (Hoblk : Z.of_nat (length oblk) = data_size d) :
  (data_type d = OSSL_PARAM_INTEGER -> data_size d = sizeof_int ->
   INT32_MIN <= v <= INT32_MAX ->
   round_trip (OSSL_PARAM_set_int be) (OSSL_PARAM_get_int be)
              (load_int32 be) p out v m)
  /\ (data_type d = OSSL_PARAM_UNSIGNED_INTEGER -> data_size d = sizeof_int ->
      0 <= v <= UINT32_MAX ->
      round_trip (OSSL_PARAM_set_uint be) (OSSL_PARAM_get_uint be)
                 (load_uint32 be) p out v m)
  /\ (data_type d = OSSL_PARAM_INTEGER -> data_size d = sizeof_long ->
      INT64_MIN <= v <= INT64_MAX ->
      round_trip (OSSL_PARAM_set_long be) (OSSL_PARAM_get_long be)
                 (load_int64 be) p out v m
      /\ round_trip (OSSL_PARAM_set_time_t be) (OSSL_PARAM_get_time_t be)
                    (load_int64 be) p out v m)
  /\ (data_type d = OSSL_PARAM_UNSIGNED_INTEGER -> data_size d = sizeof_long ->
      0 <= v <= UINT64_MAX ->
      round_trip (OSSL_PARAM_set_ulong be) (OSSL_PARAM_get_ulong be)
                 (load_uint64 be) p out v m
      /\ round_trip (OSSL_PARAM_set_size_t be) (OSSL_PARAM_get_size_t be)
                    (load_uint64 be) p out v m).
Proof.
  unfold round_trip.
  destruct m as [ps h es av]. destruct d as [k ty da sz rs].
  cbn [data_type data data_size return_size key params heap errors avail] in *.
  subst da.
  (split; [|split; [|split]]); intros -> -> Hv;
    assert (Hl : length blk = Z.to_nat (Z.of_nat (length blk))) by lia;
    assert (Hol : length oblk = Z.to_nat (Z.of_nat (length oblk))) by lia;
    rewrite Hblk in Hl; rewrite Hoblk in Hol;
    change sizeof_int with 4 in *; change sizeof_long with 8 in *.
  - native_width. native_get_width. rewrite (cast_int32_id v Hv).
    unfold INT32_MIN, INT32_MAX in Hv.
    unfold OSSL_PARAM_set_int32, OSSL_PARAM_get_int32. unfold_c.
    destruct (decide (a = out)) as [->|Hne]; round_trip_run.
  - native_width. native_get_width. rewrite (cast_uint32_id v Hv).
    unfold UINT32_MAX in Hv.
    unfold OSSL_PARAM_set_uint32, OSSL_PARAM_get_uint32. unfold_c.
    destruct (decide (a = out)) as [->|Hne]; round_trip_run.
  - native_width. native_get_width. rewrite (cast_int64_id v Hv).
    unfold INT64_MIN, INT64_MAX in Hv.
    unfold OSSL_PARAM_set_int64, OSSL_PARAM_get_int64. unfold_c.
    split; (destruct (decide (a = out)) as [->|Hne]; round_trip_run).
  - native_width. native_get_width. rewrite (cast_uint64_id v Hv).
    unfold UINT64_MAX in Hv.
    unfold OSSL_PARAM_set_uint64, OSSL_PARAM_get_uint64. unfold_c.
    split; (destruct (decide (a = out)) as [->|Hne]; round_trip_run).
Qed.

Lemma native_width_round_trip_witness :
  round_trip (OSSL_PARAM_set_long false) (OSSL_PARAM_get_long false)
             (load_int64 false) 0 2%positive (-5)
             (buffer_machine OSSL_PARAM_INTEGER (replicate 8 0)).
Proof.
  apply (proj1 (proj1 (proj2 (proj2 (native_width_round_trip false
           (buffer_machine OSSL_PARAM_INTEGER (replicate 8 0)) 0
           (sample_param OSSL_PARAM_INTEGER (Some 1%positive) 8)
           1%positive 2%positive (replicate 8 0) (replicate 8 0) (-5)
           eq_refl eq_refl eq_refl eq_refl eq_refl eq_refl)))
           eq_refl eq_refl ltac:(unfold INT64_MIN, INT64_MAX; lia))).
Defined.

(** ** Failure and the error queue *)

Lemma silent_ret {A} (a : A) : silent (ret a).
Proof. intros m x m' H. injection H as _ <-. reflexivity. Qed.

Lemma silent_undefined {A} : silent (@undefined A).
Proof. intros m x m' H. discriminate H. Qed.

Lemma silent_lift_option {A} (o : option A) : silent (lift_option o).
Proof. destruct o; [apply silent_ret | apply silent_undefined]. Qed.

Lemma silent_bind {A B} (c : M A) (k : A -> M B) :
  silent c -> (forall a, silent (k a)) -> silent (bind c k).
Proof.
  intros Hc Hk m x m' H. unfold bind in H.
  destruct (c m) as [[a m1]|] eqn:Hcm; [|discriminate].
  rewrite (Hk a m1 x m' H). exact (Hc m a m1 Hcm).
Qed.

Lemma silent_deref (p : nat) : silent (deref p).
Proof.
  intros m x m' H. unfold deref in H.
  destruct (params m !! p); [|discriminate]. injection H as _ <-. reflexivity.
Qed.

Lemma silent_set_return_size (p : nat) (rs : Z) : silent (set_return_size p rs).
Proof.
  intros m x m' H. unfold set_return_size in H.
  destruct (params m !! p); [|discriminate]. injection H as _ <-. reflexivity.
Qed.

Lemma silent_block (a : addr) : silent (block a).
Proof.
  intros m x m' H. unfold block in H.
  destruct (heap m !! a); [|discriminate]. injection H as _ <-. reflexivity.
Qed.

Lemma silent_load (a : addr) (n : nat) : silent (load a n).
Proof.
  intros m x m' H. unfold load in H.
  destruct (heap m !! a); [|discriminate].
  destruct (_ <=? _)%nat; [|discriminate]. injection H as _ <-. reflexivity.
Qed.

Lemma silent_store_at (a : addr) (off : nat) (bs : list Z) :
  silent (store_at a off bs).
Proof.
  intros m x m' H. unfold store_at in H.
  destruct (heap m !! a); [|discriminate].
  destruct (_ <=? _)%nat; [|discriminate]. injection H as _ <-. reflexivity.
Qed.

Lemma silent_store (a : addr) (bs : list Z) : silent (store a bs).
Proof. apply silent_store_at. Qed.

Lemma silent_memset (a : addr) (off : nat) (c : Z) (n : nat) :
  silent (memset a off c n).
Proof. apply silent_store_at. Qed.

Lemma silent_memcpy (a : addr) (off : nat) (src : list Z) (n : nat) :
  silent (memcpy a off src n).
Proof.
  unfold memcpy. destruct (_ <=? _)%nat;
    [apply silent_store_at | apply silent_undefined].
Qed.

Lemma reports_ret_1 : reports (ret 1).
Proof. intros m r m' H. injection H as <- <-. left. split; reflexivity. Qed.

Lemma reports_undefined : reports undefined.
Proof. intros m r m' H. discriminate H. Qed.

Lemma reports_raise (e : reason) : reports (bind (ERR_raise e) (fun _ => ret 0)).
Proof.
  intros m r m' H. injection H as <- <-. right. split; [reflexivity|].
  exists e. reflexivity.
Qed.

Lemma reports_bind {A} (c : M A) (k : A -> M Z) :
  silent c -> (forall a, reports (k a)) -> reports (bind c k).
Proof.
  intros Hc Hk m r m' H. unfold bind in H.
  destruct (c m) as [[a m1]|] eqn:Hcm; [|discriminate].
  rewrite <- (Hc m a m1 Hcm). exact (Hk a m1 r m' H).
Qed.

(** A result that is passed on after a silent step. *)
Lemma reports_then {A} (c : M Z) (k : Z -> M A) :
  reports c -> (forall r, silent (k r)) ->
  reports (bind c (fun r => bind (k r) (fun _ => ret r))).
Proof.
  intros Hc Hk m r m' H. unfold bind in H.
  destruct (c m) as [[r1 m1]|] eqn:Hcm; [|discriminate].
  destruct (k r1 m1) as [[x m2]|] eqn:Hkm; [|discriminate].
  injection H as <- <-. rewrite (Hk r1 m1 x m2 Hkm). exact (Hc m r1 m1 Hcm).
Qed.

Create HintDb errq.
#[local] Hint Resolve silent_ret silent_undefined silent_lift_option silent_deref
  silent_set_return_size silent_block silent_load silent_store_at silent_store
  silent_memset silent_memcpy reports_ret_1 reports_undefined reports_raise
  : errq.

Ltac discipline :=
  repeat first
  [ solve [auto with errq]
  | match goal with
    | |- reports (bind (if ?c then _ else _) _) => destruct c
    end
  | apply reports_then; [|intros ?]
  | apply reports_bind; [|intros ?]
  | apply silent_bind; [|intros ?]
  | match goal with
    | |- reports (if ?c then _ else _) => destruct c
    | |- silent (if ?c then _ else _) => destruct c
    | |- reports (match ?x with _ => _ end) => destruct x
    | |- silent (match ?x with _ => _ end) => destruct x
    | |- reports (let _ := _ in _) => cbv zeta
    end ].

Lemma silent_is_negative be number s : silent (is_negative be number s).
Proof. unfold is_negative. discipline. Qed.

#[local] Hint Resolve silent_is_negative : errq.

Lemma reports_copy_integer be dest dest_len src src_len pad signed_int :
  reports (copy_integer be dest dest_len src src_len pad signed_int).
Proof. unfold copy_integer, err_out_of_range. discipline. Qed.

#[local] Hint Resolve reports_copy_integer : errq.

Lemma reports_signed_from_signed be dest dest_len src src_len :
  reports (signed_from_signed be dest dest_len src src_len).
Proof. unfold signed_from_signed. discipline. Qed.

Lemma reports_signed_from_unsigned be dest dest_len src src_len :
  reports (signed_from_unsigned be dest dest_len src src_len).
Proof. unfold signed_from_unsigned. discipline. Qed.

Lemma reports_unsigned_from_signed be dest dest_len src src_len :
  reports (unsigned_from_signed be dest dest_len src src_len).
Proof. unfold unsigned_from_signed, err_unsigned_negative. discipline. Qed.

Lemma reports_unsigned_from_unsigned be dest dest_len src src_len :
  reports (unsigned_from_unsigned be dest dest_len src src_len).
Proof. unfold unsigned_from_unsigned. discipline. Qed.

#[local] Hint Resolve reports_signed_from_signed reports_signed_from_unsigned
  reports_unsigned_from_signed reports_unsigned_from_unsigned : errq.

Lemma reports_general_get_int be p val n : reports (general_get_int be p val n).
Proof. unfold general_get_int. unfold_access. discipline. Qed.

Lemma reports_general_get_uint be p val n : reports (general_get_uint be p val n).
Proof. unfold general_get_uint. unfold_access. discipline. Qed.

Lemma reports_general_set_int be p val n : reports (general_set_int be p val n).
Proof. unfold general_set_int. unfold_access. discipline. Qed.

Lemma reports_general_set_uint be p val n : reports (general_set_uint be p val n).
Proof. unfold general_set_uint. unfold_access. discipline. Qed.

#[local] Hint Resolve reports_general_get_int reports_general_get_uint
  reports_general_set_int reports_general_set_uint : errq.

Lemma silent_BN_bn2nativepad be v a n : silent (BN_bn2nativepad be v a n).
Proof. unfold BN_bn2nativepad. discipline. Qed.

Lemma silent_BN_signed_bn2native be v a n : silent (BN_signed_bn2native be v a n).
Proof. unfold BN_signed_bn2native. discipline. Qed.

Lemma silent_store_ptr be a v : silent (store_ptr be a v).
Proof. unfold store_ptr. discipline. Qed.

#[local] Hint Resolve silent_BN_bn2nativepad silent_BN_signed_bn2native
  silent_store_ptr : errq.

Lemma reports_get_int32 be p val : reports (OSSL_PARAM_get_int32 be p val).
Proof. unfold OSSL_PARAM_get_int32. unfold_access. discipline. Qed.

Lemma reports_get_uint32 be p val : reports (OSSL_PARAM_get_uint32 be p val).
Proof. unfold OSSL_PARAM_get_uint32. unfold_access. discipline. Qed.

Lemma reports_get_int64 be p val : reports (OSSL_PARAM_get_int64 be p val).
Proof. unfold OSSL_PARAM_get_int64. unfold_access. discipline. Qed.

Lemma reports_get_uint64 be p val : reports (OSSL_PARAM_get_uint64 be p val).
Proof. unfold OSSL_PARAM_get_uint64. unfold_access. discipline. Qed.

Lemma reports_set_int32 be p v : reports (OSSL_PARAM_set_int32 be p v).
Proof. unfold OSSL_PARAM_set_int32. unfold_access. discipline. Qed.

Lemma reports_set_uint32 be p v : reports (OSSL_PARAM_set_uint32 be p v).
Proof. unfold OSSL_PARAM_set_uint32. unfold_access. discipline. Qed.

Lemma reports_set_int64 be p v : reports (OSSL_PARAM_set_int64 be p v).
Proof. unfold OSSL_PARAM_set_int64. unfold_access. discipline. Qed.

Lemma reports_set_uint64 be p v : reports (OSSL_PARAM_set_uint64 be p v).
Proof. unfold OSSL_PARAM_set_uint64. unfold_access. discipline. Qed.

Lemma reports_get_double be p val : reports (OSSL_PARAM_get_double be p val).
Proof. unfold OSSL_PARAM_get_double. unfold_access. discipline. Qed.

Lemma reports_set_double be cu ci p v : reports (OSSL_PARAM_set_double be cu ci p v).
Proof. unfold OSSL_PARAM_set_double. unfold_access. discipline. Qed.

Lemma reports_set_BN be p v : reports (OSSL_PARAM_set_BN be p v).
Proof. unfold OSSL_PARAM_set_BN. unfold_access. discipline. Qed.

Lemma reports_set_string_internal p val len type :
  reports (set_string_internal p val len type).
Proof. unfold set_string_internal. unfold_access. discipline. Qed.

Lemma reports_set_ptr_internal be p val type len :
  reports (set_ptr_internal be p val type len).
Proof. unfold set_ptr_internal. unfold_access. discipline. Qed.

#[local] Hint Resolve reports_set_string_internal reports_set_ptr_internal : errq.

Lemma reports_set_utf8_string p val : reports (OSSL_PARAM_set_utf8_string p val).
Proof. unfold OSSL_PARAM_set_utf8_string. unfold_access. discipline. Qed.

Lemma reports_set_octet_string p val len :
  reports (OSSL_PARAM_set_octet_string p val len).
Proof. unfold OSSL_PARAM_set_octet_string. unfold_access. discipline. Qed.

Lemma reports_set_utf8_ptr be p val : reports (OSSL_PARAM_set_utf8_ptr be p val).
Proof. unfold OSSL_PARAM_set_utf8_ptr. unfold_access. discipline. Qed.

Lemma reports_set_octet_ptr be p val len :
  reports (OSSL_PARAM_set_octet_ptr be p val len).
Proof. unfold OSSL_PARAM_set_octet_ptr. unfold_access. discipline. Qed.

#[local] Hint Resolve reports_set_octet_string reports_set_octet_ptr : errq.

Lemma reports_set_octet_string_or_ptr be p val len :
  reports (OSSL_PARAM_set_octet_string_or_ptr be p val len).
Proof. unfold OSSL_PARAM_set_octet_string_or_ptr. unfold_access. discipline. Qed.

Lemma silent_BN_native2bn be s len r : silent (BN_native2bn be s len r).
Proof. unfold BN_native2bn. discipline. Qed.

Lemma silent_BN_signed_native2bn be s len r :
  silent (BN_signed_native2bn be s len r).
Proof. unfold BN_signed_native2bn. discipline. Qed.

(** OSSL_PARAM_get_BN is the one accessor of a number that can raise two
    errors in a call. *)
Lemma get_BN_reports (be : bool) (p : option nat) (val : option (option Z))
    (m : machine) (r : Z) (b : option (option Z)) (m' : machine) :
  OSSL_PARAM_get_BN be p val m = Some ((r, b), m') ->
  (r = 1 /\ errors m' = errors m)
  \/ (r = 0 /\ exists e, errors m' = e :: errors m)
  \/ (r = 0
      /\ errors m'
         = ERR_R_BN_LIB :: CRYPTO_R_PARAM_OF_INCOMPATIBLE_TYPE :: errors m).
Proof.
  intros H. unfold OSSL_PARAM_get_BN in H.
  assert (Hnull : forall x : option (option Z),
            bind err_null_argument (fun _ => ret (0, x)) m = Some ((r, b), m') ->
            r = 0 /\ exists e, errors m' = e :: errors m).
  { intros x Hx. unfold err_null_argument, ERR_raise, bind, ret in Hx.
    inversion Hx; subst.
    split; [reflexivity | eexists; reflexivity]. }
  destruct val as [v|]; [|right; left; exact (Hnull _ H)].
  destruct p as [p|]; [|right; left; exact (Hnull _ H)].
  unfold bind at 1 in H. unfold deref in H.
  destruct (params m !! p) as [d|]; [|discriminate H].
  destruct (data d) as [a|]; [|right; left; exact (Hnull _ H)].
  unfold bind at 1 in H.
  match type of H with
  | match ?c m with _ => _ end = _ => destruct (c m) as [[nb m1]|] eqn:Hc
  end; [|discriminate H].
  assert (Hinner : errors m1 = errors m
                   \/ nb = None
                      /\ errors m1 = CRYPTO_R_PARAM_OF_INCOMPATIBLE_TYPE :: errors m).
  { destruct (data_type d =? OSSL_PARAM_UNSIGNED_INTEGER).
    - left. exact (silent_BN_native2bn _ _ _ _ _ _ _ Hc).
    - destruct (data_type d =? OSSL_PARAM_INTEGER).
      + left. exact (silent_BN_signed_native2bn _ _ _ _ _ _ _ Hc).
      + right. unfold err_bad_type, ERR_raise, bind, ret in Hc.
        inversion Hc; subst. split; reflexivity. }
  destruct nb as [n|].
  - unfold ret in H. inversion H; subst. left. split; [reflexivity|].
    destruct Hinner as [He | [Hn _]]; [exact He | discriminate Hn].
  - unfold ERR_raise, bind, ret in H. inversion H; subst.
    cbn [errors with_errors].
    destruct Hinner as [He | [_ He]]; rewrite He.
    + right. left. split; [reflexivity | eexists; reflexivity].
    + right. right. split; reflexivity.
Qed.

(** X24.  The fixed-width, the native-width and the double accessors, the
    general paths, OSSL_PARAM_set_BN and the set accessors of strings and
    pointers return 1 or 0 and nothing else; when one returns 1 the error
    queue is as it was, and when it returns 0 it has raised exactly one
    error on top of the queue it found.  OSSL_PARAM_get_BN returns 1 or 0
    as well and leaves the queue as it was when it returns 1, but when it
    returns 0 it has raised one error or two: two on a descriptor of another
    type, CRYPTO_R_PARAM_OF_INCOMPATIBLE_TYPE and then ERR_R_BN_LIB. *)
Theorem accessors_report_failure (be : bool) (cu ci : double -> Z)
    (p : option nat) (q : nat)
    (val ptr : option addr) (dest : addr) (bytes : list Z) (v len : Z)
    (dv : double) (bn : option Z) (bnv : option (option Z)) :
  (reports (OSSL_PARAM_get_int32 be p val)
   /\ reports (OSSL_PARAM_get_uint32 be p val)
   /\ reports (OSSL_PARAM_get_int64 be p val)
   /\ reports (OSSL_PARAM_get_uint64 be p val)
   /\ reports (OSSL_PARAM_get_double be p val))
  /\ (reports (OSSL_PARAM_get_int be p val)
      /\ reports (OSSL_PARAM_get_uint be p val)
      /\ reports (OSSL_PARAM_get_long be p val)
      /\ reports (OSSL_PARAM_get_ulong be p val)
      /\ reports (OSSL_PARAM_get_size_t be p val)
      /\ reports (OSSL_PARAM_get_time_t be p val))
  /\ (reports (OSSL_PARAM_set_int32 be p v)
      /\ reports (OSSL_PARAM_set_uint32 be p v)
      /\ reports (OSSL_PARAM_set_int64 be p v)
      /\ reports (OSSL_PARAM_set_uint64 be p v)
      /\ reports (OSSL_PARAM_set_double be cu ci p dv)
      /\ reports (OSSL_PARAM_set_BN be p bn))
  /\ (reports (OSSL_PARAM_set_int be p v)
      /\ reports (OSSL_PARAM_set_uint be p v)
      /\ reports (OSSL_PARAM_set_long be p v)
      /\ reports (OSSL_PARAM_set_ulong be p v)
      /\ reports (OSSL_PARAM_set_size_t be p v)
      /\ reports (OSSL_PARAM_set_time_t be p v))
  /\ (reports (OSSL_PARAM_set_utf8_string p ptr)
      /\ reports (OSSL_PARAM_set_octet_string p ptr len)
      /\ reports (OSSL_PARAM_set_utf8_ptr be p ptr)
      /\ reports (OSSL_PARAM_set_octet_ptr be p ptr len)
      /\ reports (OSSL_PARAM_set_octet_string_or_ptr be p ptr len))
  /\ (reports (general_get_int be q dest len)
      /\ reports (general_get_uint be q dest len)
      /\ reports (general_set_int be q bytes len)
      /\ reports (general_set_uint be q bytes len))
  /\ (forall m r b m',
        OSSL_PARAM_get_BN be p bnv m = Some ((r, b), m') ->
        (r = 1 /\ errors m' = errors m)
        \/ (r = 0 /\ exists e, errors m' = e :: errors m)
        \/ (r = 0
            /\ errors m'
               = ERR_R_BN_LIB :: CRYPTO_R_PARAM_OF_INCOMPATIBLE_TYPE
                   :: errors m)).
Proof.
  split; [|split; [|split; [|split; [|split; [|split]]]]].
  - repeat match goal with |- _ /\ _ => split end;
      [ apply reports_get_int32 | apply reports_get_uint32
      | apply reports_get_int64 | apply reports_get_uint64
      | apply reports_get_double ].
  - repeat match goal with |- _ /\ _ => split end;
      [ apply reports_get_int32 | apply reports_get_uint32
      | apply reports_get_int64 | apply reports_get_uint64
      | apply reports_get_uint64 | apply reports_get_int64 ].
  - repeat match goal with |- _ /\ _ => split end;
      [ apply reports_set_int32 | apply reports_set_uint32
      | apply reports_set_int64 | apply reports_set_uint64
      | apply reports_set_double | apply reports_set_BN ].
  - repeat match goal with |- _ /\ _ => split end;
      [ apply reports_set_int32 | apply reports_set_uint32
      | apply reports_set_int64 | apply reports_set_uint64
      | apply reports_set_uint64 | apply reports_set_int64 ].
  - repeat match goal with |- _ /\ _ => split end;
      [ apply reports_set_utf8_string | apply reports_set_octet_string
      | apply reports_set_utf8_ptr | apply reports_set_octet_ptr
      | apply reports_set_octet_string_or_ptr ].
  - repeat match goal with |- _ /\ _ => split end; auto with errq.
  - intros m r b m'. apply get_BN_reports.
Qed.

(** ** What an accessor leaves alone *)

Lemma writes_only_refl buf m : writes_only buf m m.
Proof. repeat split. Qed.

Lemma writes_only_trans buf m1 m2 m3 :
  writes_only buf m1 m2 -> writes_only buf m2 m3 -> writes_only buf m1 m3.
Proof.
  intros (H1 & L1 & A1) (H2 & L2 & A2). repeat split.
  - intros b Hb. rewrite (H2 b Hb). exact (H1 b Hb).
  - intros b. rewrite L2. apply L1.
  - congruence.
Qed.

Lemma touches_ret {A} buf (a : A) : touches buf (ret a).
Proof. intros m r m' [= _ <-]. apply writes_only_refl. Qed.

Lemma touches_undefined {A} buf : touches buf (@undefined A).
Proof. intros m r m' H. discriminate H. Qed.

Lemma touches_lift_option {A} buf (o : option A) : touches buf (lift_option o).
Proof. destruct o; [apply touches_ret | apply touches_undefined]. Qed.

Lemma touches_ERR_raise buf e : touches buf (ERR_raise e).
Proof. intros m r m' [= _ <-]. repeat split. Qed.

Lemma touches_deref buf p : touches buf (deref p).
Proof.
  intros m r m' H. unfold deref in H.
  destruct (params m !! p); [|discriminate].
  injection H as _ <-. apply writes_only_refl.
Qed.

Lemma touches_set_return_size buf p rs : touches buf (set_return_size p rs).
Proof.
  intros m r m' H. unfold set_return_size in H.
  destruct (params m !! p); [|discriminate].
  injection H as _ <-. repeat split.
Qed.

Lemma touches_block buf a : touches buf (block a).
Proof.
  intros m r m' H. unfold block in H.
  destruct (heap m !! a); [|discriminate].
  injection H as _ <-. apply writes_only_refl.
Qed.

Lemma touches_load buf a n : touches buf (load a n).
Proof.
  intros m r m' H. unfold load in H.
  destruct (heap m !! a); [|discriminate].
  destruct (_ <=? _)%nat; [|discriminate].
  injection H as _ <-. apply writes_only_refl.
Qed.

Lemma touches_store_at a off bs : touches (Some a) (store_at a off bs).
Proof.
  intros m r m' H. unfold store_at in H.
  destruct (heap m !! a) as [blk|] eqn:Ha; [|discriminate].
  destruct (_ <=? _)%nat eqn:Hfit; [|discriminate].
  injection H as _ <-. apply Nat.leb_le in Hfit.
  unfold with_heap. repeat split; cbn [heap avail].
  - intros b Hb. apply lookup_insert_ne. congruence.
  - intros b. destruct (decide (a = b)) as [<-|Hne].
    + rewrite lookup_insert_eq, Ha. cbn. f_equal.
      rewrite !length_app, length_take, length_drop. lia.
    + rewrite lookup_insert_ne by exact Hne. reflexivity.
Qed.

Lemma touches_store a bs : touches (Some a) (store a bs).
Proof. apply touches_store_at. Qed.

Lemma touches_memset a off c n : touches (Some a) (memset a off c n).
Proof. apply touches_store_at. Qed.

Lemma touches_memcpy a off src n : touches (Some a) (memcpy a off src n).
Proof.
  unfold memcpy. destruct (_ <=? _)%nat;
    [apply touches_store_at | apply touches_undefined].
Qed.

Lemma touches_bind {A B} buf (c : M A) (k : A -> M B) :
  touches buf c -> (forall a, touches buf (k a)) -> touches buf (bind c k).
Proof.
  intros Hc Hk m r m' H. unfold bind in H.
  destruct (c m) as [[a m1]|] eqn:Hcm; [|discriminate].
  exact (writes_only_trans _ _ _ _ (Hc _ _ _ Hcm) (Hk _ _ _ _ H)).
Qed.

Create HintDb heapq.
#[local] Hint Resolve touches_ret touches_undefined touches_lift_option
  touches_ERR_raise touches_deref touches_set_return_size touches_block
  touches_load touches_store_at touches_store touches_memset touches_memcpy
  : heapq.

Lemma with_return_size_twice d rs rs' :
  with_return_size (with_return_size d rs) rs' = with_return_size d rs'.
Proof. destruct d. reflexivity. Qed.

Lemma with_return_size_same d : with_return_size d (return_size d) = d.
Proof. destruct d. reflexivity. Qed.

Lemma confined_keeps {A} p buf (c : M A) :
  keeps_params c -> touches buf c -> confined p buf c.
Proof.
  intros Hk Ht m d r m' Hp Hd H. split; [|exact (Ht _ _ _ H)].
  exists (return_size d). rewrite (Hk _ _ _ H), with_return_size_same.
  symmetry. apply list_insert_id. exact Hp.
Qed.

Lemma confined_set_return_size p buf rs : confined p buf (set_return_size p rs).
Proof.
  intros m d r m' Hp Hd H. split; [|exact (touches_set_return_size _ _ _ _ _ _ H)].
  unfold set_return_size in H. rewrite Hp in H. injection H as _ <-.
  exists rs. reflexivity.
Qed.

Lemma confined_bind {A B} p buf (c : M A) (k : A -> M B) :
  confined p buf c -> (forall a, confined p buf (k a)) ->
  confined p buf (bind c k).
Proof.
  intros Hc Hk m d r m' Hp Hd H. unfold bind in H.
  destruct (c m) as [[a m1]|] eqn:Hcm; [|discriminate].
  destruct (Hc _ _ _ _ Hp Hd Hcm) as [[rs Hps] Hw].
  assert (Hp1 : params m1 !! p = Some (with_return_size d rs)).
  { rewrite Hps. apply list_lookup_insert_eq. eapply lookup_lt_Some, Hp. }
  assert (Hd1 : data (with_return_size d rs) = buf) by (destruct d; exact Hd).
  destruct (Hk _ _ _ _ _ Hp1 Hd1 H) as [[rs' Hps'] Hw'].
  split; [|exact (writes_only_trans _ _ _ _ Hw Hw')].
  exists rs'. rewrite Hps', Hps, list_insert_insert_eq, with_return_size_twice.
  reflexivity.
Qed.

(** Reading the descriptor tells where its buffer is. *)
Lemma confined_deref {B} p buf (k : OSSL_PARAM -> M B) :
  (forall d, data d = buf -> confined p buf (k d)) ->
  confined p buf (bind (deref p) k).
Proof.
  intros Hk m d r m' Hp Hd H. unfold bind, deref in H. rewrite Hp in H.
  exact (Hk d Hd _ _ _ _ Hp Hd H).
Qed.

Lemma confined_lift_option {A B} p buf (o : option A) (k : A -> M B) :
  (forall a, o = Some a -> confined p buf (k a)) ->
  confined p buf (bind (lift_option o) k).
Proof.
  intros Hk m d r m' Hp Hd H. destruct o as [a|]; [|discriminate].
  exact (Hk a eq_refl _ _ _ _ Hp Hd H).
Qed.

Lemma confined_to_its_descriptor {A} p (c : M A) :
  (forall buf, confined p buf c) -> confined_to_descriptor p c.
Proof.
  intros Hc m d r m' Hp H.
  destruct (Hc (data d) _ _ _ _ Hp eq_refl H) as [Hps (Hh & Hl & Ha)].
  repeat split; assumption.
Qed.

Ltac touch :=
  repeat first
  [ solve [auto with heapq]
  | apply touches_bind; [|intros ?]
  | match goal with
    | |- touches _ (if ?c then _ else _) => destruct c
    | |- touches _ (match ?x with _ => _ end) => destruct x
    end ].

Ltac confine :=
  repeat first
  [ solve [auto with heapq]
  | apply confined_set_return_size
  | solve [apply confined_keeps; [frame | touch]]
  | apply confined_deref;
    let d := fresh "d" in let Hd := fresh "Hd" in
    intros d Hd; first [subst | rewrite ?Hd]
  | apply confined_lift_option;
    let a := fresh "a" in let Ha := fresh "Ha" in
    intros a Ha; rewrite ?Ha
  | apply confined_bind; [|intros ?]
  | match goal with
    | |- confined _ _ (if ?c then _ else _) => destruct c
    | |- confined _ _ (match ?x with _ => _ end) => destruct x
    | |- confined _ _ (let _ := _ in _) => cbv zeta
    end ].

Lemma touches_is_negative be buf number s : touches buf (is_negative be number s).
Proof. unfold is_negative. touch. Qed.

#[local] Hint Resolve touches_is_negative : heapq.

Lemma touches_copy_integer be dest dest_len src src_len pad signed_int :
  touches (Some dest) (copy_integer be dest dest_len src src_len pad signed_int).
Proof. unfold copy_integer, err_out_of_range. touch. Qed.

#[local] Hint Resolve touches_copy_integer : heapq.

Lemma touches_signed_from_signed be dest dest_len src src_len :
  touches (Some dest) (signed_from_signed be dest dest_len src src_len).
Proof. unfold signed_from_signed. touch. Qed.

Lemma touches_signed_from_unsigned be dest dest_len src src_len :
  touches (Some dest) (signed_from_unsigned be dest dest_len src src_len).
Proof. unfold signed_from_unsigned. touch. Qed.

Lemma touches_unsigned_from_signed be dest dest_len src src_len :
  touches (Some dest) (unsigned_from_signed be dest dest_len src src_len).
Proof. unfold unsigned_from_signed, err_unsigned_negative. touch. Qed.

Lemma touches_unsigned_from_unsigned be dest dest_len src src_len :
  touches (Some dest) (unsigned_from_unsigned be dest dest_len src src_len).
Proof. unfold unsigned_from_unsigned. touch. Qed.

#[local] Hint Resolve touches_signed_from_signed touches_signed_from_unsigned
  touches_unsigned_from_signed touches_unsigned_from_unsigned : heapq.

Lemma touches_BN_bn2nativepad be v a n : touches (Some a) (BN_bn2nativepad be v a n).
Proof. unfold BN_bn2nativepad. touch. Qed.

Lemma touches_BN_signed_bn2native be v a n :
  touches (Some a) (BN_signed_bn2native be v a n).
Proof. unfold BN_signed_bn2native. touch. Qed.

Lemma touches_store_ptr be a v : touches (Some a) (store_ptr be a v).
Proof. unfold store_ptr. touch. Qed.

#[local] Hint Resolve touches_BN_bn2nativepad touches_BN_signed_bn2native
  touches_store_ptr : heapq.

Lemma keeps_BN_bn2nativepad be v a n : keeps_params (BN_bn2nativepad be v a n).
Proof. unfold BN_bn2nativepad. frame. Qed.

Lemma keeps_BN_signed_bn2native be v a n :
  keeps_params (BN_signed_bn2native be v a n).
Proof. unfold BN_signed_bn2native. frame. Qed.

Lemma keeps_store_ptr be a v : keeps_params (store_ptr be a v).
Proof. unfold store_ptr. frame. Qed.

#[local] Hint Resolve keeps_BN_bn2nativepad keeps_BN_signed_bn2native
  keeps_store_ptr : machine.

Lemma confined_general_set_int be p buf val n :
  confined p buf (general_set_int be p val n).
Proof. unfold general_set_int. unfold_access. confine. Qed.

Lemma confined_general_set_uint be p buf val n :
  confined p buf (general_set_uint be p val n).
Proof. unfold general_set_uint. unfold_access. confine. Qed.

#[local] Hint Resolve confined_general_set_int confined_general_set_uint : heapq.

Lemma confined_set_int32 be p buf v :
  confined p buf (OSSL_PARAM_set_int32 be (Some p) v).
Proof. unfold OSSL_PARAM_set_int32. unfold_access. confine. Qed.

Lemma confined_set_uint32 be p buf v :
  confined p buf (OSSL_PARAM_set_uint32 be (Some p) v).
Proof. unfold OSSL_PARAM_set_uint32. unfold_access. confine. Qed.

Lemma confined_set_int64 be p buf v :
  confined p buf (OSSL_PARAM_set_int64 be (Some p) v).
Proof. unfold OSSL_PARAM_set_int64. unfold_access. confine. Qed.

Lemma confined_set_uint64 be p buf v :
  confined p buf (OSSL_PARAM_set_uint64 be (Some p) v).
Proof. unfold OSSL_PARAM_set_uint64. unfold_access. confine. Qed.

Lemma confined_set_double be cu ci p buf v :
  confined p buf (OSSL_PARAM_set_double be cu ci (Some p) v).
Proof. unfold OSSL_PARAM_set_double. unfold_access. confine. Qed.

Lemma confined_set_BN be p buf v :
  confined p buf (OSSL_PARAM_set_BN be (Some p) v).
Proof. unfold OSSL_PARAM_set_BN. unfold_access. confine. Qed.

Lemma confined_set_string_internal p buf val len type :
  confined p buf (set_string_internal p val len type).
Proof. unfold set_string_internal. unfold_access. confine. Qed.

Lemma confined_set_ptr_internal be p buf val type len :
  confined p buf (set_ptr_internal be p val type len).
Proof. unfold set_ptr_internal. unfold_access. confine. Qed.

#[local] Hint Resolve confined_set_string_internal confined_set_ptr_internal
  : heapq.

Lemma confined_set_utf8_string p buf val :
  confined p buf (OSSL_PARAM_set_utf8_string (Some p) val).
Proof. unfold OSSL_PARAM_set_utf8_string. unfold_access. confine. Qed.

Lemma confined_set_octet_string p buf val len :
  confined p buf (OSSL_PARAM_set_octet_string (Some p) val len).
Proof. unfold OSSL_PARAM_set_octet_string. unfold_access. confine. Qed.

Lemma confined_set_utf8_ptr be p buf val :
  confined p buf (OSSL_PARAM_set_utf8_ptr be (Some p) val).
Proof. unfold OSSL_PARAM_set_utf8_ptr. unfold_access. confine. Qed.

Lemma confined_set_octet_ptr be p buf val len :
  confined p buf (OSSL_PARAM_set_octet_ptr be (Some p) val len).
Proof. unfold OSSL_PARAM_set_octet_ptr. unfold_access. confine. Qed.

#[local] Hint Resolve confined_set_octet_string confined_set_octet_ptr : heapq.

Lemma confined_set_octet_string_or_ptr be p buf val len :
  confined p buf (OSSL_PARAM_set_octet_string_or_ptr be (Some p) val len).
Proof. unfold OSSL_PARAM_set_octet_string_or_ptr. unfold_access. confine. Qed.

(** X25.  A set accessor called on a descriptor (of an integer of fixed or
    native width, a double, a BIGNUM, a string or a pointer, and either
    general set path) changes nothing of the
    descriptor array but that descriptor's return size, writes no block of
    memory but the one the descriptor's data pointer refers to, resizes no
    block and allocates nothing. *)
Theorem set_confined_to_descriptor (be : bool) (cu ci : double -> Z)
    (p : nat) (ptr : option addr)
    (bytes : list Z) (v len : Z) (dv : double) (bn : option Z) :
  (confined_to_descriptor p (OSSL_PARAM_set_int32 be (Some p) v)
   /\ confined_to_descriptor p (OSSL_PARAM_set_uint32 be (Some p) v)
   /\ confined_to_descriptor p (OSSL_PARAM_set_int64 be (Some p) v)
   /\ confined_to_descriptor p (OSSL_PARAM_set_uint64 be (Some p) v)
   /\ confined_to_descriptor p (OSSL_PARAM_set_double be cu ci (Some p) dv)
   /\ confined_to_descriptor p (OSSL_PARAM_set_BN be (Some p) bn))
  /\ (confined_to_descriptor p (OSSL_PARAM_set_int be (Some p) v)
      /\ confined_to_descriptor p (OSSL_PARAM_set_uint be (Some p) v)
      /\ confined_to_descriptor p (OSSL_PARAM_set_long be (Some p) v)
      /\ confined_to_descriptor p (OSSL_PARAM_set_ulong be (Some p) v)
      /\ confined_to_descriptor p (OSSL_PARAM_set_size_t be (Some p) v)
      /\ confined_to_descriptor p (OSSL_PARAM_set_time_t be (Some p) v))
  /\ (confined_to_descriptor p (OSSL_PARAM_set_utf8_string (Some p) ptr)
      /\ confined_to_descriptor p (OSSL_PARAM_set_octet_string (Some p) ptr len)
      /\ confined_to_descriptor p (OSSL_PARAM_set_utf8_ptr be (Some p) ptr)
      /\ confined_to_descriptor p (OSSL_PARAM_set_octet_ptr be (Some p) ptr len)
      /\ confined_to_descriptor p
           (OSSL_PARAM_set_octet_string_or_ptr be (Some p) ptr len))
  /\ (confined_to_descriptor p (general_set_int be p bytes len)
      /\ confined_to_descriptor p (general_set_uint be p bytes len)).
Proof.
  split; [|split; [|split]].
  - repeat match goal with |- _ /\ _ => split end; apply confined_to_its_descriptor; intros buf;
      [ apply confined_set_int32 | apply confined_set_uint32
      | apply confined_set_int64 | apply confined_set_uint64
      | apply confined_set_double | apply confined_set_BN ].
  - repeat match goal with |- _ /\ _ => split end; apply confined_to_its_descriptor; intros buf;
      [ apply confined_set_int32 | apply confined_set_uint32
      | apply confined_set_int64 | apply confined_set_uint64
      | apply confined_set_uint64 | apply confined_set_int64 ].
  - repeat match goal with |- _ /\ _ => split end; apply confined_to_its_descriptor; intros buf;
      [ apply confined_set_utf8_string | apply confined_set_octet_string
      | apply confined_set_utf8_ptr | apply confined_set_octet_ptr
      | apply confined_set_octet_string_or_ptr ].
  - repeat match goal with |- _ /\ _ => split end; apply confined_to_its_descriptor; intros buf;
      auto with heapq.
Qed.

Lemma touches_general_get_int be p val n :
  touches (Some val) (general_get_int be p val n).
Proof. unfold general_get_int. unfold_access. touch. Qed.

Lemma touches_general_get_uint be p val n :
  touches (Some val) (general_get_uint be p val n).
Proof. unfold general_get_uint. unfold_access. touch. Qed.

#[local] Hint Resolve touches_general_get_int touches_general_get_uint : heapq.

Lemma touches_get_int32 be p val :
  touches (Some val) (OSSL_PARAM_get_int32 be p (Some val)).
Proof. unfold OSSL_PARAM_get_int32. unfold_access. touch. Qed.

Lemma touches_get_uint32 be p val :
  touches (Some val) (OSSL_PARAM_get_uint32 be p (Some val)).
Proof. unfold OSSL_PARAM_get_uint32. unfold_access. touch. Qed.

Lemma touches_get_int64 be p val :
  touches (Some val) (OSSL_PARAM_get_int64 be p (Some val)).
Proof. unfold OSSL_PARAM_get_int64. unfold_access. touch. Qed.

Lemma touches_get_uint64 be p val :
  touches (Some val) (OSSL_PARAM_get_uint64 be p (Some val)).
Proof. unfold OSSL_PARAM_get_uint64. unfold_access. touch. Qed.

Lemma touches_get_double be p val :
  touches (Some val) (OSSL_PARAM_get_double be p (Some val)).
Proof. unfold OSSL_PARAM_get_double. unfold_access. touch. Qed.

(** X26.  A get accessor of a fixed-width integer, of a native-width integer
    or of a double, and either general get path, writes no block of memory
    but the caller's variable, resizes no block and allocates nothing. *)
Theorem get_writes_only_the_variable (be : bool) (p : option nat) (q : nat)
    (val : addr) (n : Z) :
  (touches (Some val) (OSSL_PARAM_get_int32 be p (Some val))
   /\ touches (Some val) (OSSL_PARAM_get_uint32 be p (Some val))
   /\ touches (Some val) (OSSL_PARAM_get_int64 be p (Some val))
   /\ touches (Some val) (OSSL_PARAM_get_uint64 be p (Some val))
   /\ touches (Some val) (OSSL_PARAM_get_double be p (Some val)))
  /\ (touches (Some val) (OSSL_PARAM_get_int be p (Some val))
      /\ touches (Some val) (OSSL_PARAM_get_uint be p (Some val))
      /\ touches (Some val) (OSSL_PARAM_get_long be p (Some val))
      /\ touches (Some val) (OSSL_PARAM_get_ulong be p (Some val))
      /\ touches (Some val) (OSSL_PARAM_get_size_t be p (Some val))
      /\ touches (Some val) (OSSL_PARAM_get_time_t be p (Some val)))
  /\ (touches (Some val) (general_get_int be q val n)
      /\ touches (Some val) (general_get_uint be q val n)).
Proof.
  split; [|split].
  - repeat match goal with |- _ /\ _ => split end;
      [ apply touches_get_int32 | apply touches_get_uint32
      | apply touches_get_int64 | apply touches_get_uint64
      | apply touches_get_double ].
  - repeat match goal with |- _ /\ _ => split end;
      [ apply touches_get_int32 | apply touches_get_uint32
      | apply touches_get_int64 | apply touches_get_uint64
      | apply touches_get_uint64 | apply touches_get_int64 ].
  - split; auto with heapq.
Qed.

(** ** Buffers of any size *)

Lemma le_bytes_is_byte (n : nat) (v : Z) : Forall is_byte (le_bytes n v).
Proof.
  revert v. induction n as [|n IH]; intros v; cbn [le_bytes]; constructor.
  - unfold is_byte. apply Z.mod_pos_bound. lia.
  - apply IH.
Qed.

Lemma native_bytes_is_byte (be : bool) (n : nat) (v : Z) :
  Forall is_byte (native_bytes be n v).
Proof.
  unfold native_bytes. destruct be; [apply Forall_rev|]; apply le_bytes_is_byte.
Qed.

Lemma le_value_inj (l1 l2 : list Z) :
  Forall is_byte l1 -> Forall is_byte l2 -> length l1 = length l2 ->
  le_value l1 = le_value l2 -> l1 = l2.
Proof.
  intros H1. revert l2. induction H1 as [|b1 l1 Hb1 _ IH]; intros l2 H2 Hlen Hv.
  - destruct l2; [reflexivity | discriminate].
  - destruct H2 as [|b2 l2 Hb2 H2]; [discriminate|].
    cbn [le_value] in Hv. unfold is_byte in Hb1, Hb2.
    assert (b1 = b2) by lia. subst b2.
    f_equal. apply IH; [exact H2 | simpl in Hlen; lia | lia].
Qed.

Lemma native_value_inj (be : bool) (l1 l2 : list Z) :
  Forall is_byte l1 -> Forall is_byte l2 -> length l1 = length l2 ->
  native_value be l1 = native_value be l2 -> l1 = l2.
Proof.
  intros H1 H2 Hlen Hv. unfold native_value in Hv. destruct be.
  - rewrite <- (rev_involutive l1), <- (rev_involutive l2). f_equal.
    apply le_value_inj; [apply Forall_rev; exact H1 | apply Forall_rev; exact H2
                        | rewrite !length_rev; exact Hlen | exact Hv].
  - apply le_value_inj; assumption.
Qed.

(** The bytes that hold [v] in [n] bytes are the only ones that do. *)
Lemma native_bytes_unique (be : bool) (n : nat) (v : Z) (l : list Z) :
  Forall is_byte l -> length l = n ->
  native_value be l = v mod 2 ^ (8 * Z.of_nat n) ->
  l = native_bytes be n v.
Proof.
  intros Hb Hlen Hv. apply (native_value_inj be).
  - exact Hb.
  - apply native_bytes_is_byte.
  - rewrite native_bytes_length. exact Hlen.
  - rewrite native_value_bytes. exact Hv.
Qed.

Lemma to_signed_inv (bits x v : Z) :
  0 < bits -> 0 <= x < 2 ^ bits -> to_signed bits x = v -> x = v mod 2 ^ bits.
Proof.
  intros Hb Hx Hv. unfold to_signed in Hv.
  destruct (x <? 2 ^ (bits - 1)).
  - subst v. symmetry. apply Z.mod_small. exact Hx.
  - replace v with (x + (-1) * 2 ^ bits) by lia.
    rewrite Z.mod_add by lia. symmetry. apply Z.mod_small. exact Hx.
Qed.

Lemma mod_mod_pow (v a b : Z) :
  0 <= a <= b -> (v mod 2 ^ b) mod 2 ^ a = v mod 2 ^ a.
Proof.
  intros Hab. apply Z.mod_mod_divide.
  exists (2 ^ (b - a)). rewrite <- Z.pow_add_r by lia. f_equal. lia.
Qed.

Lemma truncate_length (be : bool) (n : nat) (src : list Z) :
  (n <= length src)%nat -> length (truncate be n src) = n.
Proof.
  intros Hn. unfold truncate. destruct be;
    [rewrite length_drop | rewrite length_take]; lia.
Qed.

Lemma truncate_is_byte (be : bool) (n : nat) (src : list Z) :
  Forall is_byte src -> Forall is_byte (truncate be n src).
Proof.
  intros Hb. unfold truncate. destruct be;
    [apply Forall_drop | apply Forall_take]; exact Hb.
Qed.

Lemma extend_is_byte (be : bool) (pad : Z) (n : nat) (src : list Z) :
  is_byte pad -> Forall is_byte src -> Forall is_byte (extend be pad n src).
Proof.
  intros Hp Hb. unfold extend.
  destruct be; apply Forall_app; split;
    first [exact Hb | apply Forall_replicate; exact Hp].
Qed.

Lemma half_power (bits : Z) : 0 < bits -> 2 ^ bits = 2 * 2 ^ (bits - 1).
Proof.
  intros Hb. replace bits with (1 + (bits - 1)) at 1 by lia.
  rewrite Z.pow_add_r by lia. reflexivity.
Qed.

(** A signed number of [k] bytes copied into [n] bytes. *)
Lemma signed_copy_run (be : bool) (m : machine) (dest : addr) (dblk : list Z)
    (k n : nat) (v : Z) :
  heap m !! dest = Some dblk -> length dblk = n -> (0 < n)%nat -> (0 < k)%nat ->
  - 2 ^ (8 * Z.of_nat k - 1) <= v < 2 ^ (8 * Z.of_nat k - 1) ->
  signed_from_signed be dest (Z.of_nat n) (native_bytes be k v) (Z.of_nat k) m
  = if (- 2 ^ (8 * Z.of_nat n - 1) <=? v) && (v <? 2 ^ (8 * Z.of_nat n - 1))
    then Some (1, with_heap m (<[dest := native_bytes be n v]> (heap m)))
    else Some (0, with_errors m
                    (CRYPTO_R_PARAM_VALUE_TOO_LARGE_FOR_DESTINATION :: errors m)).
Proof.
  intros Hd Hdl Hn Hk Hv.
  pose proof (native_bytes_is_byte be k v) as Hb.
  pose proof (native_bytes_length be k v) as Hlen.
  assert (Hi : to_signed (8 * Z.of_nat k) (native_value be (native_bytes be k v)) = v).
  { rewrite native_value_bytes. apply to_signed_wrap; [lia | exact Hv]. }
  destruct (Nat.lt_ge_cases k n) as [Hlt|Hge].
  - pose proof (copy_widening_cases be m dest dblk (native_bytes be k v) n
                  Hd Hdl ltac:(rewrite Hlen; lia) Hb) as H.
    cbv zeta in H. rewrite Hlen, Hi in H.
    destruct H as (_ & _ & _ & Hrun & Hval & _).
    rewrite Hrun.
    assert (Hmono : 2 ^ (8 * Z.of_nat k - 1) <= 2 ^ (8 * Z.of_nat n - 1))
      by (apply Z.pow_le_mono_r; lia).
    replace ((- 2 ^ (8 * Z.of_nat n - 1) <=? v) && (v <? 2 ^ (8 * Z.of_nat n - 1)))
      with true
      by (symmetry; apply andb_true_intro; split;
          [apply Z.leb_le | apply Z.ltb_lt]; lia).
    do 4 f_equal. apply native_bytes_unique.
    + apply extend_is_byte; [|exact Hb].
      destruct (0 <=? v); unfold is_byte; lia.
    + rewrite extend_length, Hlen. lia.
    + apply to_signed_inv; [lia | | exact Hval].
      replace (Z.of_nat n) with (Z.of_nat (length
        (extend be (if 0 <=? v then 0 else 255) (n - k) (native_bytes be k v))))
        by (rewrite extend_length, Hlen; lia).
      apply native_value_bound. apply extend_is_byte; [|exact Hb].
      destruct (0 <=? v); unfold is_byte; lia.
  - pose proof (copy_narrowing_cases be m dest dblk (native_bytes be k v) n
                  Hd Hdl ltac:(rewrite Hlen; lia) Hb) as H.
    cbv zeta in H. rewrite Hlen, Hi in H.
    destruct H as (_ & _ & Hrun & _ & Hval).
    rewrite Hrun.
    replace (truncate be n (native_bytes be k v)) with (native_bytes be n v);
      [reflexivity|].
    symmetry. apply native_bytes_unique.
    + apply truncate_is_byte. exact Hb.
    + apply truncate_length. lia.
    + rewrite Hval, native_value_bytes, <- half_power by lia.
      apply mod_mod_pow. lia.
Qed.

(** An unsigned number of [k] bytes copied into [n] bytes. *)
Lemma unsigned_copy_run (be : bool) (m : machine) (dest : addr) (dblk : list Z)
    (k n : nat) (v : Z) :
  heap m !! dest = Some dblk -> length dblk = n -> (0 < n)%nat -> (0 < k)%nat ->
  0 <= v < 2 ^ (8 * Z.of_nat k) ->
  unsigned_from_unsigned be dest (Z.of_nat n) (native_bytes be k v) (Z.of_nat k) m
  = if v <? 2 ^ (8 * Z.of_nat n)
    then Some (1, with_heap m (<[dest := native_bytes be n v]> (heap m)))
    else Some (0, with_errors m
                    (CRYPTO_R_PARAM_VALUE_TOO_LARGE_FOR_DESTINATION :: errors m)).
Proof.
  intros Hd Hdl Hn Hk Hv.
  pose proof (native_bytes_is_byte be k v) as Hb.
  pose proof (native_bytes_length be k v) as Hlen.
  assert (Hu : native_value be (native_bytes be k v) = v).
  { rewrite native_value_bytes. apply Z.mod_small. exact Hv. }
  destruct (Nat.lt_ge_cases k n) as [Hlt|Hge].
  - pose proof (copy_widening_cases be m dest dblk (native_bytes be k v) n
                  Hd Hdl ltac:(rewrite Hlen; lia) Hb) as H.
    cbv zeta in H. rewrite Hlen, Hu in H.
    destruct H as (Hrun & _ & Hval & _).
    rewrite Hrun.
    assert (Hmono : 2 ^ (8 * Z.of_nat k) <= 2 ^ (8 * Z.of_nat n))
      by (apply Z.pow_le_mono_r; lia).
    replace (v <? 2 ^ (8 * Z.of_nat n)) with true
      by (symmetry; apply Z.ltb_lt; lia).
    do 4 f_equal. apply native_bytes_unique.
    + apply extend_is_byte; [unfold is_byte; lia | exact Hb].
    + rewrite extend_length, Hlen. lia.
    + rewrite Hval. symmetry. apply Z.mod_small. lia.
  - pose proof (copy_narrowing_cases be m dest dblk (native_bytes be k v) n
                  Hd Hdl ltac:(rewrite Hlen; lia) Hb) as H.
    cbv zeta in H. rewrite Hlen, Hu in H.
    destruct H as (Hrun & _ & _ & _ & Hval).
    rewrite Hrun, <- half_power by lia.
    replace (truncate be n (native_bytes be k v)) with (native_bytes be n v);
      [reflexivity|].
    symmetry. apply native_bytes_unique.
    + apply truncate_is_byte. exact Hb.
    + apply truncate_length. lia.
    + rewrite Hval, <- half_power by lia. reflexivity.
Qed.

(** X27.  Integers through a buffer whose size is neither 4 nor 8 bytes, for
    every such size and both byte orders.  OSSL_PARAM_set_int64 on an
    INTEGER descriptor, and OSSL_PARAM_set_uint64 on an UNSIGNED_INTEGER
    descriptor, succeed exactly when the value is one of the buffer's size
    and signedness, which every value is when the buffer has more than 8
    bytes.  The buffer then holds the value in native byte order at the
    buffer's size, return_size is that size, and the matching get accessor
    gives the value back.  A value that does not fit is refused with
    CRYPTO_R_PARAM_VALUE_TOO_LARGE_FOR_DESTINATION: the buffer is untouched
    and return_size is 8, the size of the caller's type. *)
Theorem odd_size_round_trip (be : bool) (m : machine) (p : nat) (d : OSSL_PARAM)
    (a out : addr) (blk oblk : list Z) (v : Z)
    (Hp : params m !! p = Some d) (Hdata : data d = Some a)
    (Ha : heap m !! a = Some blk) (Hsize : data_size d = Z.of_nat (length blk))
    (Hodd : blk <> [] /\ length blk <> 4%nat /\ length blk <> 8%nat)
    (Hout : heap m !! out = Some oblk) (Hol : length oblk = 8%nat)
    (Hne : out <> a) :
  let n := length blk in
  let half := 2 ^ (8 * Z.of_nat n - 1) in
  let m1 :=
    with_params (with_heap m (<[a := native_bytes be n v]> (heap m)))
      (<[p := with_return_size d (Z.of_nat n)]> (params m)) in
  let refused :=
    Some (0, with_params
               (with_errors m
                  (CRYPTO_R_PARAM_VALUE_TOO_LARGE_FOR_DESTINATION :: errors m))
               (<[p := with_return_size d 8]> (params m))) in
  let got :=
    Some (1, with_heap m1 (<[out := native_bytes be 8 v]> (heap m1))) in
  (data_type d = OSSL_PARAM_INTEGER -> INT64_MIN <= v <= INT64_MAX ->
   OSSL_PARAM_set_int64 be (Some p) v m
   = (if (- half <=? v) && (v <? half) then Some (1, m1) else refused)
   /\ (- half <= v < half ->
       OSSL_PARAM_get_int64 be (Some p) (Some out) m1 = got))
  /\ (data_type d = OSSL_PARAM_UNSIGNED_INTEGER -> 0 <= v <= UINT64_MAX ->
      OSSL_PARAM_set_uint64 be (Some p) v m
      = (if v <? 2 * half then Some (1, m1) else refused)
      /\ (v < 2 * half ->
          OSSL_PARAM_get_uint64 be (Some p) (Some out) m1 = got)).
Proof.
  cbv zeta. destruct Hodd as (Hnil & H4 & H8).
  assert (Hn : (0 < length blk)%nat) by (destruct blk; [congruence | simpl; lia]).
  set (n := length blk) in *.
  assert (Hs4 : (Z.of_nat n =? 4) = false) by (apply Z.eqb_neq; lia).
  assert (Hs8 : (Z.of_nat n =? 8) = false) by (apply Z.eqb_neq; lia).
  destruct d as [k ty da sz rs]. cbn [data data_type data_size] in *.
  subst da sz.
  split; intros Hty Hv; subst ty.
  - assert (Hr : - 2 ^ (8 * Z.of_nat 8 - 1) <= v < 2 ^ (8 * Z.of_nat 8 - 1)).
    { unfold INT64_MIN, INT64_MAX in Hv. change (8 * Z.of_nat 8 - 1) with 63. lia. }
    split.
    + unfold OSSL_PARAM_set_int64, general_set_int.
      unfold_c. exec.
      unfold sizeof_int32_t, sizeof_int64_t. rewrite Hs4, Hs8. exec.
      match goal with
      | |- context [signed_from_signed be a _ _ _ ?M] =>
          pose proof (signed_copy_run be M a blk 8 n v Ha eq_refl Hn
                        ltac:(lia) Hr) as Hrun
      end.
      change (Z.of_nat 8) with 8 in Hrun. rewrite Hrun.
      destruct ((- 2 ^ (8 * Z.of_nat n - 1) <=? v) && (v <? 2 ^ (8 * Z.of_nat n - 1)));
        exec; rewrite list_insert_insert_eq; reflexivity.
    + intros Hfit.
      unfold OSSL_PARAM_get_int64, general_get_int.
      unfold_c. exec.
      unfold sizeof_int32_t, sizeof_int64_t. rewrite Hs4, Hs8. exec.
      match goal with
      | |- context [signed_from_signed be out _ _ _ ?M] =>
          assert (Ho : heap M !! out = Some oblk) by heap_lookup;
          pose proof (signed_copy_run be M out oblk n 8 v Ho Hol
                        ltac:(lia) Hn Hfit) as Hrun
      end.
      replace ((- 2 ^ (8 * Z.of_nat 8 - 1) <=? v) && (v <? 2 ^ (8 * Z.of_nat 8 - 1)))
        with true in Hrun
        by (symmetry; apply andb_true_intro; split;
            [apply Z.leb_le | apply Z.ltb_lt]; lia).
      change (Z.of_nat 8) with 8 in Hrun. rewrite Hrun. reflexivity.
  - assert (Hr : 0 <= v < 2 ^ (8 * Z.of_nat 8)).
    { unfold UINT64_MAX in Hv. change (8 * Z.of_nat 8) with 64. lia. }
    rewrite <- half_power by lia.
    split.
    + unfold OSSL_PARAM_set_uint64, general_set_uint.
      unfold_c. exec.
      unfold sizeof_uint32_t, sizeof_uint64_t. rewrite Hs4, Hs8. exec.
      match goal with
      | |- context [unsigned_from_unsigned be a _ _ _ ?M] =>
          pose proof (unsigned_copy_run be M a blk 8 n v Ha eq_refl Hn
                        ltac:(lia) Hr) as Hrun
      end.
      change (Z.of_nat 8) with 8 in Hrun. rewrite Hrun.
      destruct (v <? 2 ^ (8 * Z.of_nat n));
        exec; rewrite list_insert_insert_eq; reflexivity.
    + intros Hfit.
      unfold OSSL_PARAM_get_uint64, general_get_uint.
      unfold_c. exec.
      unfold sizeof_uint32_t, sizeof_uint64_t. rewrite Hs4, Hs8. exec.
      match goal with
      | |- context [unsigned_from_unsigned be out _ _ _ ?M] =>
          assert (Ho : heap M !! out = Some oblk) by heap_lookup;
          pose proof (unsigned_copy_run be M out oblk n 8 v Ho Hol
                        ltac:(lia) Hn ltac:(lia)) as Hrun
      end.
      replace (v <? 2 ^ (8 * Z.of_nat 8)) with true in Hrun
        by (symmetry; apply Z.ltb_lt; lia).
      change (Z.of_nat 8) with 8 in Hrun. rewrite Hrun. reflexivity.
Qed.

Lemma odd_size_round_trip_witness :
  let m := buffer_machine OSSL_PARAM_INTEGER [0; 0; 0] in
  let m1 :=
    with_params (with_heap m (<[1%positive := [254; 255; 255]]> (heap m)))
      (<[0%nat := with_return_size
                    (sample_param OSSL_PARAM_INTEGER (Some 1%positive) 3) 3]>
         (params m)) in
  OSSL_PARAM_set_int64 false (Some 0%nat) (-2) m = Some (1, m1)
  /\ OSSL_PARAM_get_int64 false (Some 0%nat) (Some 2%positive) m1
     = Some (1, with_heap m1
                  (<[2%positive := [254; 255; 255; 255; 255; 255; 255; 255]]>
                     (heap m1))).
Proof.
  cbv zeta.
  assert (Hodd : [0; 0; 0] <> [] /\ length [0; 0; 0] <> 4%nat
                 /\ length [0; 0; 0] <> 8%nat)
    by (split; [discriminate | split; discriminate]).
  assert (Hne : 2%positive <> 1%positive) by discriminate.
  assert (Hv : INT64_MIN <= -2 <= INT64_MAX)
    by (unfold INT64_MIN, INT64_MAX; lia).
  destruct (proj1 (odd_size_round_trip false
                     (buffer_machine OSSL_PARAM_INTEGER [0; 0; 0]) 0
                     (sample_param OSSL_PARAM_INTEGER (Some 1%positive) 3)
                     1%positive 2%positive [0; 0; 0] (replicate 8 0) (-2)
                     eq_refl eq_refl eq_refl eq_refl Hodd eq_refl eq_refl Hne)
             eq_refl Hv) as [Hset Hget].
  split; [exact Hset | apply Hget; simpl; lia].
Defined.

(** ** The modified flag after a set *)

Lemma settles_keeps {A} p sz ok (c : M A) : keeps_params c -> settles p sz ok c.
Proof.
  intros Hk m d r m' Hp Hsz Hm H. exists (return_size d).
  rewrite (Hk _ _ _ H), with_return_size_same. split; [exact Hp | exact Hm].
Qed.

Lemma settles_set_return_size p sz (ok : Z -> Prop) rs :
  ok rs -> settles p sz ok (set_return_size p rs).
Proof.
  intros Hrs m d r m' Hp Hsz Hm H.
  unfold set_return_size in H. rewrite Hp in H. injection H as _ <-.
  exists rs. split; [|exact Hrs]. cbn [params with_params].
  apply list_lookup_insert_eq. eapply lookup_lt_Some, Hp.
Qed.

Lemma settles_bind {A B} p sz ok (c : M A) (k : A -> M B) :
  settles p sz ok c -> (forall a, settles p sz ok (k a)) ->
  settles p sz ok (bind c k).
Proof.
  intros Hc Hk m d r m' Hp Hsz Hm H. unfold bind in H.
  destruct (c m) as [[a m1]|] eqn:Hcm; [|discriminate].
  destruct (Hc _ _ _ _ Hp Hsz Hm Hcm) as (rs & Hp1 & Hm1).
  assert (Hsz1 : data_size (with_return_size d rs) = sz) by (destruct d; exact Hsz).
  assert (Hm1' : ok (return_size (with_return_size d rs)))
    by (destruct d; exact Hm1).
  destruct (Hk _ _ _ _ _ Hp1 Hsz1 Hm1' H) as (rs' & Hp2 & Hm2).
  exists rs'. rewrite with_return_size_twice in Hp2. split; assumption.
Qed.

(** Reading the descriptor tells the size of its buffer. *)
Lemma settles_deref {B} p sz ok (k : OSSL_PARAM -> M B) :
  (forall d, data_size d = sz -> settles p sz ok (k d)) ->
  settles p sz ok (bind (deref p) k).
Proof.
  intros Hk m d r m' Hp Hsz Hm H. unfold bind, deref in H. rewrite Hp in H.
  exact (Hk d Hsz _ _ _ _ Hp Hsz Hm H).
Qed.

(** A set accessor starts by clearing return_size. *)
Lemma settles_after_reset {A} p (ok : Z -> Z -> Prop) (rest : M A) :
  (forall sz, ok sz 0) -> (forall sz, settles p sz (ok sz) rest) ->
  forall m d r m', params m !! p = Some d ->
    bind (set_return_size p 0) (fun _ => rest) m = Some (r, m') ->
    exists rs, params m' !! p = Some (with_return_size d rs)
               /\ ok (data_size d) rs.
Proof.
  intros Hzero Hrest m d r m' Hp H. unfold bind in H.
  destruct (set_return_size p 0 m) as [[u m1]|] eqn:H1; [|discriminate].
  unfold set_return_size in H1. rewrite Hp in H1. injection H1 as _ <-.
  assert (Hp1 : params (with_params m (<[p := with_return_size d 0]> (params m)))
                !! p = Some (with_return_size d 0)).
  { cbn [params with_params]. apply list_lookup_insert_eq.
    eapply lookup_lt_Some, Hp. }
  destruct (Hrest (data_size d) _ _ _ _ Hp1
              ltac:(destruct d; reflexivity)
              ltac:(destruct d; apply Hzero) H) as (rs & Hp2 & Hm2).
  exists rs. rewrite with_return_size_twice in Hp2. split; assumption.
Qed.

Lemma modified_after (m : machine) (p : nat) (d : OSSL_PARAM) (rs : Z) :
  params m !! p = Some (with_return_size d rs) ->
  rs <> OSSL_PARAM_UNMODIFIED ->
  OSSL_PARAM_modified (Some p) m = Some (1, m).
Proof.
  intros Hp Hrs. unfold OSSL_PARAM_modified, bind, deref, ret. rewrite Hp.
  replace (return_size (with_return_size d rs)) with rs by (destruct d; reflexivity).
  replace (rs =? OSSL_PARAM_UNMODIFIED) with false; [reflexivity|].
  symmetry. apply Z.eqb_neq. exact Hrs.
Qed.

Lemma marks_after_reset {A} p (rest : M A) :
  (forall sz, settles p sz (marked sz) rest) ->
  marks_modified p (bind (set_return_size p 0) (fun _ => rest)).
Proof.
  intros Hrest m d r m' Hp H.
  destruct (settles_after_reset p marked rest
              ltac:(intros sz; left; reflexivity) Hrest m d r m' Hp H)
    as (rs & Hp' & Hm').
  split; [exists rs; split; assumption|].
  intros Hsz. apply (modified_after m' p d rs Hp').
  destruct Hm' as [-> | [-> | [-> | ->]]];
    first [exact Hsz | vm_compute; discriminate].
Qed.

Ltac settled :=
  repeat match goal with
         | |- context [if ?c then _ else _] => destruct c eqn:?
         end;
  repeat match goal with
         | H : (_ =? _) = true |- _ => apply Z.eqb_eq in H
         | H : (_ =? _) = false |- _ => apply Z.eqb_neq in H
         end;
  unfold marked, marked_BN, sizeof_int32_t, sizeof_int64_t, sizeof_uint32_t,
    sizeof_uint64_t, sizeof_double in *;
  lia.

Create HintDb modq.
#[local] Hint Extern 1 (_ \/ _) => solve [left; reflexivity | right; reflexivity]
  : modq.

Ltac settle :=
  repeat first
  [ solve [auto with modq]
  | apply settles_set_return_size; solve [settled]
  | solve [apply settles_keeps; frame]
  | apply settles_deref;
    let d := fresh "d" in let Hd := fresh "Hd" in
    intros d Hd; first [subst | rewrite ?Hd]
  | apply settles_bind; [|intros ?]
  | match goal with
    | |- settles _ _ _ (if ?c then _ else _) => destruct c
    | |- settles _ _ _ (match ?x with _ => _ end) => destruct x
    | |- settles _ _ _ (let _ := _ in _) => cbv zeta
    end ].

Lemma settles_general_set_int be p sz val n :
  n = 4 \/ n = 8 -> settles p sz (marked sz) (general_set_int be p val n).
Proof.
  intros [-> | ->]; unfold general_set_int; unfold_access; settle.
Qed.

Lemma settles_general_set_uint be p sz val n :
  n = 4 \/ n = 8 -> settles p sz (marked sz) (general_set_uint be p val n).
Proof.
  intros [-> | ->]; unfold general_set_uint; unfold_access; settle.
Qed.

#[local] Hint Resolve settles_general_set_int settles_general_set_uint : modq.

Ltac mark := apply marks_after_reset; intros sz; unfold_access; settle.

Lemma marks_set_BN be p v :
  marks_modified_BN p v (OSSL_PARAM_set_BN be (Some p) (Some v)).
Proof.
  intros m d r m' Hp H.
  pose proof (BN_num_bytes_nonneg v) as Hnn.
  unfold OSSL_PARAM_set_BN in H.
  pose proof (fun Hs => settles_after_reset p (marked_BN v) _
                          (fun sz => or_introl eq_refl) Hs m d r m' Hp H)
    as Hfin.
  destruct Hfin as (rs & Hp' & Hm').
  { intros sz. unfold_access. settle. }
  exists rs. split; [exact Hp'|]. split; [exact Hm'|].
  intros Hrs. exact (modified_after m' p d rs Hp' Hrs).
Qed.

(** X28.  After a call of a fixed-width or native-width set accessor of an
    integer, or of OSSL_PARAM_set_double, on a descriptor, whatever the
    call returns, return_size is 0, 4, 8 or the size of the descriptor's
    buffer; so OSSL_PARAM_modified then answers 1 for the descriptor,
    unless its buffer has the size SIZE_MAX of the sentinel.  After
    OSSL_PARAM_set_BN of a number, return_size is 0, the size of the buffer
    or the bytes the number needs, and OSSL_PARAM_modified answers 1 unless
    that value is the sentinel. *)
Theorem set_marks_modified (be : bool) (cu ci : double -> Z) (p : nat)
    (v : Z) (dv : double) :
  (marks_modified p (OSSL_PARAM_set_int32 be (Some p) v)
   /\ marks_modified p (OSSL_PARAM_set_uint32 be (Some p) v)
   /\ marks_modified p (OSSL_PARAM_set_int64 be (Some p) v)
   /\ marks_modified p (OSSL_PARAM_set_uint64 be (Some p) v)
   /\ marks_modified p (OSSL_PARAM_set_double be cu ci (Some p) dv))
  /\ (marks_modified p (OSSL_PARAM_set_int be (Some p) v)
      /\ marks_modified p (OSSL_PARAM_set_uint be (Some p) v)
      /\ marks_modified p (OSSL_PARAM_set_long be (Some p) v)
      /\ marks_modified p (OSSL_PARAM_set_ulong be (Some p) v)
      /\ marks_modified p (OSSL_PARAM_set_size_t be (Some p) v)
      /\ marks_modified p (OSSL_PARAM_set_time_t be (Some p) v))
  /\ marks_modified_BN p v (OSSL_PARAM_set_BN be (Some p) (Some v)).
Proof.
  assert (H32 : forall x, marks_modified p (OSSL_PARAM_set_int32 be (Some p) x))
    by (intros x; unfold OSSL_PARAM_set_int32; mark).
  assert (HU32 : forall x, marks_modified p (OSSL_PARAM_set_uint32 be (Some p) x))
    by (intros x; unfold OSSL_PARAM_set_uint32; mark).
  assert (H64 : forall x, marks_modified p (OSSL_PARAM_set_int64 be (Some p) x))
    by (intros x; unfold OSSL_PARAM_set_int64; mark).
  assert (HU64 : forall x, marks_modified p (OSSL_PARAM_set_uint64 be (Some p) x))
    by (intros x; unfold OSSL_PARAM_set_uint64; mark).
  split; [|split].
  - repeat match goal with |- _ /\ _ => split end;
      [ apply H32 | apply HU32 | apply H64 | apply HU64
      | unfold OSSL_PARAM_set_double; mark ].
  - repeat match goal with |- _ /\ _ => split end;
      [ apply H32 | apply HU32 | apply H64 | apply HU64 | apply HU64 | apply H64 ].
  - apply marks_set_BN.
Qed.

(** ** The reasons of failure *)

Lemma raises_only_quiet {A} p ty allowed (c : M A) :
  keeps_params c -> silent c -> raises_only p ty allowed c.
Proof.
  intros Hk Hs m d r m' Hp Hty H. split.
  - exists (return_size d). rewrite (Hk _ _ _ H), with_return_size_same. exact Hp.
  - exists []. split; [exact (Hs _ _ _ H) | constructor].
Qed.

Lemma raises_only_raise p ty allowed e :
  In e allowed -> raises_only p ty allowed (ERR_raise e).
Proof.
  intros He m d r m' Hp Hty H. injection H as _ <-. split.
  - exists (return_size d). rewrite with_return_size_same. exact Hp.
  - exists [e]. split; [reflexivity | repeat constructor; exact He].
Qed.

Lemma raises_only_set_return_size p ty allowed rs :
  raises_only p ty allowed (set_return_size p rs).
Proof.
  intros m d r m' Hp Hty H.
  unfold set_return_size in H. rewrite Hp in H. injection H as _ <-. split.
  - exists rs. cbn [params with_params].
    apply list_lookup_insert_eq. eapply lookup_lt_Some, Hp.
  - exists []. split; [reflexivity | constructor].
Qed.

Lemma raises_only_bind {A B} p ty allowed (c : M A) (k : A -> M B) :
  raises_only p ty allowed c -> (forall a, raises_only p ty allowed (k a)) ->
  raises_only p ty allowed (bind c k).
Proof.
  intros Hc Hk m d r m' Hp Hty H. unfold bind in H.
  destruct (c m) as [[a m1]|] eqn:Hcm; [|discriminate].
  destruct (Hc _ _ _ _ Hp Hty Hcm) as ((rs & Hp1) & es1 & He1 & Hf1).
  assert (Hty1 : data_type (with_return_size d rs) = ty) by (destruct d; exact Hty).
  destruct (Hk _ _ _ _ _ Hp1 Hty1 H) as ((rs' & Hp2) & es2 & He2 & Hf2).
  split.
  - exists rs'. rewrite with_return_size_twice in Hp2. exact Hp2.
  - exists (es2 ++ es1). split.
    + rewrite He2, He1. apply app_assoc.
    + apply Forall_app. split; assumption.
Qed.

(** Reading the descriptor tells its type. *)
Lemma raises_only_deref {B} p ty allowed (k : OSSL_PARAM -> M B) :
  (forall d, data_type d = ty -> raises_only p ty allowed (k d)) ->
  raises_only p ty allowed (bind (deref p) k).
Proof.
  intros Hk m d r m' Hp Hty H. unfold bind, deref in H. rewrite Hp in H.
  exact (Hk d Hty _ _ _ _ Hp Hty H).
Qed.

Lemma only_raises_any_type {A} p allowed (c : M A) :
  (forall ty, raises_only p ty allowed c) -> only_raises p allowed c.
Proof.
  intros Hc m d r m' Hp H. exact (proj2 (Hc _ _ _ _ _ Hp eq_refl H)).
Qed.

Create HintDb vocq.
#[local] Hint Extern 1 (In _ _) => simpl; tauto : vocq.
#[local] Hint Extern 1 (_ \/ _) => solve [left; reflexivity | right; reflexivity]
  : vocq.

Ltac other_type :=
  unfold OSSL_PARAM_INTEGER, OSSL_PARAM_UNSIGNED_INTEGER, OSSL_PARAM_REAL in *;
  lia.

Ltac vocabulary :=
  repeat first
  [ solve [auto with vocq]
  | apply raises_only_raise; solve [assumption | simpl; tauto]
  | apply raises_only_set_return_size
  | solve [apply raises_only_quiet;
           [ first [solve [frame] | apply ignores_keeps; solve [frame]]
           | discipline ]]
  | apply raises_only_deref;
    let d := fresh "d" in let Hd := fresh "Hd" in
    intros d Hd; try subst
  | apply raises_only_bind; [|intros ?]
  | match goal with
    | |- raises_only _ _ _ (if data_type ?d =? ?c then _ else _) =>
        let E := fresh "E" in
        destruct (Z.eqb_spec (data_type d) c) as [E|E];
        [try rewrite E|]; try solve [exfalso; other_type]
    | |- raises_only _ _ _ (if (data_type ?d =? ?c) && _ then _ else _) =>
        let E := fresh "E" in
        destruct (Z.eqb_spec (data_type d) c) as [E|E];
        [try rewrite E|]; cbn [andb]; try solve [exfalso; other_type]
    | |- raises_only _ _ _ (bind (if ?c then _ else _) _) => destruct c
    | |- raises_only _ _ _ (if ?c then _ else _) => destruct c
    | |- raises_only _ _ _ (match ?x with _ => _ end) => destruct x
    | |- raises_only _ _ _ (let _ := _ in _) => cbv zeta
    end ].

Lemma raises_only_copy_integer be p ty allowed dest dest_len src src_len pad sg :
  In CRYPTO_R_PARAM_VALUE_TOO_LARGE_FOR_DESTINATION allowed ->
  raises_only p ty allowed (copy_integer be dest dest_len src src_len pad sg).
Proof. intros H. unfold copy_integer, err_out_of_range. vocabulary. Qed.

#[local] Hint Resolve silent_is_negative ignores_is_negative : vocq.

Lemma raises_only_signed_from_signed be p ty allowed dest dest_len src src_len :
  In CRYPTO_R_PARAM_VALUE_TOO_LARGE_FOR_DESTINATION allowed ->
  raises_only p ty allowed (signed_from_signed be dest dest_len src src_len).
Proof.
  intros H. unfold signed_from_signed.
  apply raises_only_bind; [|intros ?; apply raises_only_copy_integer; exact H].
  apply raises_only_quiet;
    [apply ignores_keeps, ignores_is_negative | apply silent_is_negative].
Qed.

Lemma raises_only_signed_from_unsigned be p ty allowed dest dest_len src src_len :
  In CRYPTO_R_PARAM_VALUE_TOO_LARGE_FOR_DESTINATION allowed ->
  raises_only p ty allowed (signed_from_unsigned be dest dest_len src src_len).
Proof. intros H. apply raises_only_copy_integer. exact H. Qed.

Lemma raises_only_unsigned_from_unsigned be p ty allowed dest dest_len src src_len :
  In CRYPTO_R_PARAM_VALUE_TOO_LARGE_FOR_DESTINATION allowed ->
  raises_only p ty allowed (unsigned_from_unsigned be dest dest_len src src_len).
Proof. intros H. apply raises_only_copy_integer. exact H. Qed.

Lemma raises_only_unsigned_from_signed be p ty allowed dest dest_len src src_len :
  In CRYPTO_R_PARAM_VALUE_TOO_LARGE_FOR_DESTINATION allowed ->
  In CRYPTO_R_PARAM_UNSIGNED_INTEGER_NEGATIVE_VALUE_UNSUPPORTED allowed ->
  raises_only p ty allowed (unsigned_from_signed be dest dest_len src src_len).
Proof.
  intros H1 H2. unfold unsigned_from_signed, err_unsigned_negative.
  apply raises_only_bind.
  - apply raises_only_quiet;
      [apply ignores_keeps, ignores_is_negative | apply silent_is_negative].
  - intros neg. destruct (negb (neg =? 0)).
    + apply raises_only_bind; [apply raises_only_raise; exact H2|].
      intros _. apply raises_only_quiet; [apply keeps_ret | apply silent_ret].
    + apply raises_only_copy_integer. exact H1.
Qed.

Lemma raises_only_general_get_int be p ty allowed val n :
  ty = OSSL_PARAM_INTEGER \/ ty = OSSL_PARAM_UNSIGNED_INTEGER ->
  In ERR_R_PASSED_NULL_PARAMETER allowed ->
  In CRYPTO_R_PARAM_VALUE_TOO_LARGE_FOR_DESTINATION allowed ->
  raises_only p ty allowed (general_get_int be p val n).
Proof.
  intros Hty H1 H2.
  pose proof (raises_only_signed_from_signed be p ty allowed) as Hss.
  pose proof (raises_only_signed_from_unsigned be p ty allowed) as Hsu.
  unfold general_get_int. unfold_access.
  destruct Hty as [-> | ->]; vocabulary.
Qed.

Lemma raises_only_general_get_uint be p ty allowed val n :
  ty = OSSL_PARAM_INTEGER \/ ty = OSSL_PARAM_UNSIGNED_INTEGER ->
  In ERR_R_PASSED_NULL_PARAMETER allowed ->
  In CRYPTO_R_PARAM_VALUE_TOO_LARGE_FOR_DESTINATION allowed ->
  In CRYPTO_R_PARAM_UNSIGNED_INTEGER_NEGATIVE_VALUE_UNSUPPORTED allowed ->
  raises_only p ty allowed (general_get_uint be p val n).
Proof.
  intros Hty H1 H2 H3.
  pose proof (raises_only_unsigned_from_signed be p ty allowed) as Hus.
  pose proof (raises_only_unsigned_from_unsigned be p ty allowed) as Huu.
  unfold general_get_uint. unfold_access.
  destruct Hty as [-> | ->]; vocabulary.
Qed.

Lemma raises_only_general_set_int be p ty allowed val n :
  ty = OSSL_PARAM_INTEGER \/ ty = OSSL_PARAM_UNSIGNED_INTEGER ->
  In CRYPTO_R_PARAM_VALUE_TOO_LARGE_FOR_DESTINATION allowed ->
  In CRYPTO_R_PARAM_UNSIGNED_INTEGER_NEGATIVE_VALUE_UNSUPPORTED allowed ->
  raises_only p ty allowed (general_set_int be p val n).
Proof.
  intros Hty H2 H3.
  pose proof (raises_only_signed_from_signed be p ty allowed) as Hss.
  pose proof (raises_only_unsigned_from_signed be p ty allowed) as Hus.
  unfold general_set_int. unfold_access.
  destruct Hty as [-> | ->]; vocabulary.
Qed.

Lemma raises_only_general_set_uint be p ty allowed val n :
  ty = OSSL_PARAM_INTEGER \/ ty = OSSL_PARAM_UNSIGNED_INTEGER ->
  In CRYPTO_R_PARAM_VALUE_TOO_LARGE_FOR_DESTINATION allowed ->
  raises_only p ty allowed (general_set_uint be p val n).
Proof.
  intros Hty H2.
  pose proof (raises_only_signed_from_unsigned be p ty allowed) as Hsu.
  pose proof (raises_only_unsigned_from_unsigned be p ty allowed) as Huu.
  unfold general_set_uint. unfold_access.
  destruct Hty as [-> | ->]; vocabulary.
Qed.

#[local] Hint Resolve raises_only_general_get_int raises_only_general_get_uint
  raises_only_general_set_int raises_only_general_set_uint : vocq.

Ltac reasons := apply only_raises_any_type; intros ty; unfold_access; vocabulary.

(** X29.  The reasons a fixed-width accessor of a number can raise.  The
    get accessors of a signed integer, the set accessors of an unsigned
    integer and the accessors of a double raise nothing but
    ERR_R_PASSED_NULL_PARAMETER,
    CRYPTO_R_PARAM_VALUE_TOO_LARGE_FOR_DESTINATION,
    CRYPTO_R_PARAM_CANNOT_BE_REPRESENTED_EXACTLY,
    CRYPTO_R_PARAM_UNSUPPORTED_FLOATING_POINT_FORMAT and
    CRYPTO_R_PARAM_OF_INCOMPATIBLE_TYPE; the get accessors of an unsigned
    integer and the set accessors of a signed integer raise nothing but
    these and CRYPTO_R_PARAM_UNSIGNED_INTEGER_NEGATIVE_VALUE_UNSUPPORTED.
    So none of them raises CRYPTO_R_PARAM_NOT_INTEGER_TYPE: the general
    path, which can, is entered for the two integer types only. *)
Theorem accessor_failure_reasons (be : bool) (cu ci : double -> Z)
    (p : nat) (val : option addr)
    (v : Z) (dv : double) :
  let negative :=
    CRYPTO_R_PARAM_UNSIGNED_INTEGER_NEGATIVE_VALUE_UNSUPPORTED
      :: conversion_reasons in
  (only_raises p conversion_reasons (OSSL_PARAM_get_int32 be (Some p) val)
   /\ only_raises p conversion_reasons (OSSL_PARAM_get_int64 be (Some p) val)
   /\ only_raises p conversion_reasons (OSSL_PARAM_set_uint32 be (Some p) v)
   /\ only_raises p conversion_reasons (OSSL_PARAM_set_uint64 be (Some p) v)
   /\ only_raises p conversion_reasons (OSSL_PARAM_get_double be (Some p) val)
   /\ only_raises p conversion_reasons (OSSL_PARAM_set_double be cu ci (Some p) dv))
  /\ (only_raises p negative (OSSL_PARAM_get_uint32 be (Some p) val)
      /\ only_raises p negative (OSSL_PARAM_get_uint64 be (Some p) val)
      /\ only_raises p negative (OSSL_PARAM_set_int32 be (Some p) v)
      /\ only_raises p negative (OSSL_PARAM_set_int64 be (Some p) v))
  /\ ~ In CRYPTO_R_PARAM_NOT_INTEGER_TYPE negative.
Proof.
  cbv zeta. split; [|split].
  - repeat match goal with |- _ /\ _ => split end.
    + unfold OSSL_PARAM_get_int32. reasons.
    + unfold OSSL_PARAM_get_int64. reasons.
    + unfold OSSL_PARAM_set_uint32. reasons.
    + unfold OSSL_PARAM_set_uint64. reasons.
    + unfold OSSL_PARAM_get_double. reasons.
    + unfold OSSL_PARAM_set_double. reasons.
  - repeat match goal with |- _ /\ _ => split end.
    + unfold OSSL_PARAM_get_uint32. reasons.
    + unfold OSSL_PARAM_get_uint64. reasons.
    + unfold OSSL_PARAM_set_int32. reasons.
    + unfold OSSL_PARAM_set_int64. reasons.
  - simpl. intros H. repeat destruct H as [H|H]; try discriminate H; exact H.
Qed.

(** ** Doubles that are no number of the buffer's type *)







(** ** The invariants at work on a sample machine

    The double -1 for an unsigned buffer is none of the buffer's numbers:
    its conversion is left to the platform, and the call is refused. *)

Lemma accessors_report_failure_witness :
  let m := buffer_machine OSSL_PARAM_UNSIGNED_INTEGER (replicate 8 0) in
  exists r m',
    OSSL_PARAM_set_double false (fun _ => 0) (fun _ => 0) (Some 0%nat)
      (double_of_Z (-1)) m = Some (r, m')
    /\ r = 0 /\ exists e, errors m' = e :: errors m.
Proof.
  cbv zeta. eexists. eexists. split; [vm_compute; reflexivity|].
  destruct (accessors_report_failure false (fun _ => 0) (fun _ => 0)
              (Some 0%nat) 0 None None 1%positive [] 0 0 (double_of_Z (-1))
              None None)
    as (_ & _ & (_ & _ & _ & _ & Hd & _) & _).
  destruct (Hd (buffer_machine OSSL_PARAM_UNSIGNED_INTEGER (replicate 8 0))
              _ _ eq_refl) as [[H _] | H].
  - discriminate H.
  - exact H.
Defined.

Lemma set_confined_to_descriptor_witness :
  let m := buffer_machine OSSL_PARAM_UNSIGNED_INTEGER (replicate 8 0) in
  exists r m',
    OSSL_PARAM_set_double false (fun _ => 0) (fun _ => 0) (Some 0%nat)
      (double_of_Z (-1)) m = Some (r, m')
    /\ (forall b, Some 1%positive <> Some b -> heap m' !! b = heap m !! b)
    /\ avail m' = avail m.
Proof.
  cbv zeta. eexists. eexists. split; [vm_compute; reflexivity|].
  destruct (set_confined_to_descriptor false (fun _ => 0) (fun _ => 0)
              0 None [] 0 0 (double_of_Z (-1)) None)
    as ((_ & _ & _ & _ & Hd & _) & _).
  destruct (Hd (buffer_machine OSSL_PARAM_UNSIGNED_INTEGER (replicate 8 0))
              (sample_param OSSL_PARAM_UNSIGNED_INTEGER (Some 1%positive) 8)
              _ _ eq_refl eq_refl) as (_ & Hh & _ & Ha).
  split; [exact Hh | exact Ha].
Defined.

Lemma get_writes_only_the_variable_witness :
  let m := buffer_machine OSSL_PARAM_INTEGER [7; 0; 0; 0] in
  exists r m',
    OSSL_PARAM_get_int32 false (Some 0%nat) (Some 2%positive) m = Some (r, m')
    /\ writes_only (Some 2%positive) m m'.
Proof.
  cbv zeta. eexists. eexists. split; [vm_compute; reflexivity|].
  exact (proj1 (proj1 (get_writes_only_the_variable false (Some 0%nat) 0
                         2%positive 4))
           (buffer_machine OSSL_PARAM_INTEGER [7; 0; 0; 0]) _ _ eq_refl).
Defined.

Lemma set_marks_modified_witness :
  let m := buffer_machine OSSL_PARAM_UNSIGNED_INTEGER (replicate 8 0) in
  exists r m',
    OSSL_PARAM_set_double false (fun _ => 0) (fun _ => 0) (Some 0%nat)
      (double_of_Z (-1)) m = Some (r, m')
    /\ OSSL_PARAM_modified (Some 0%nat) m' = Some (1, m').
Proof.
  cbv zeta. eexists. eexists. split; [vm_compute; reflexivity|].
  destruct (set_marks_modified false (fun _ => 0) (fun _ => 0) 0 0
              (double_of_Z (-1)))
    as ((_ & _ & _ & _ & Hd) & _).
  apply (proj2 (Hd (buffer_machine OSSL_PARAM_UNSIGNED_INTEGER (replicate 8 0))
                  (sample_param OSSL_PARAM_UNSIGNED_INTEGER (Some 1%positive) 8)
                  _ _ eq_refl eq_refl)).
  vm_compute. discriminate.
Defined.

Lemma accessor_failure_reasons_witness :
  let m := buffer_machine OSSL_PARAM_UNSIGNED_INTEGER (replicate 8 0) in
  exists r m',
    OSSL_PARAM_set_double false (fun _ => 0) (fun _ => 0) (Some 0%nat)
      (double_of_Z (-1)) m = Some (r, m')
    /\ exists es, errors m' = es ++ errors m
                  /\ Forall (fun e => In e conversion_reasons) es.
Proof.
  cbv zeta. eexists. eexists. split; [vm_compute; reflexivity|].
  destruct (accessor_failure_reasons false (fun _ => 0) (fun _ => 0) 0 None 0
              (double_of_Z (-1)))
    as ((_ & _ & _ & _ & _ & Hd) & _).
  exact (Hd (buffer_machine OSSL_PARAM_UNSIGNED_INTEGER (replicate 8 0))
           (sample_param OSSL_PARAM_UNSIGNED_INTEGER (Some 1%positive) 8)
           _ _ eq_refl eq_refl).
Defined.
